(** * ROM collection cleanup: filename classification and duplicate resolution

    A shallow embedding of the classification core of [rom_cleanup.py]
    (class [ROMAnalyzer]) together with the part of Python's [re], [str]
    and [pathlib] that it relies on.

    Text is modelled by [string]; a character is a code point below 256,
    and the character tables ([\s], [\d], [\b], [str.lower], [str.strip])
    are Python's Unicode tables restricted to that range.  Paths follow the
    POSIX flavour of [pathlib].  Integers are unbounded; [Py.int] is the
    value of a conversion and [Py.int_checked] the call, which refuses a
    text of more than 4300 digits as CPython does. *)

From Stdlib Require Import String Ascii List Bool Arith PeanoNat NArith Lia.
From Stdlib Require Import DecimalString DecimalNat Permutation.
From Stdlib Require DecimalN.
Import ListNotations.

Local Open Scope string_scope.
Local Open Scope list_scope.
Local Open Scope nat_scope.

(** ** Characters and the [str] methods used by the analyzer *)

Module Py.

Definition code (c : ascii) : nat := nat_of_ascii c.

Definition between (lo hi : nat) (c : ascii) : bool :=
  (lo <=? code c) && (code c <=? hi).

(** [str.isspace] on one character, which is also [\s] of [re]. *)
Definition isspace (c : ascii) : bool :=
  between 9 13 c || between 28 32 c || (code c =? 133) || (code c =? 160).

(** [\d] of [re]: the decimal digits. *)
Definition isdigit (c : ascii) : bool := between 48 57 c.

(** Alphabetic code points below 256. *)
Definition isalpha (c : ascii) : bool :=
  between 65 90 c || between 97 122 c
  || (code c =? 170) || (code c =? 181) || (code c =? 186)
  || (between 192 255 c && negb (code c =? 215) && negb (code c =? 247)).

(** Numeric code points below 256 that are not decimal digits
    (superscripts and vulgar fractions); [str.isalnum] accepts them. *)
Definition isnumeric_extra (c : ascii) : bool :=
  (code c =? 178) || (code c =? 179) || (code c =? 185) || between 188 190 c.

(** [\w] of [re]: alphanumeric or underscore. *)
Definition isword (c : ascii) : bool :=
  isalpha c || isdigit c || isnumeric_extra c || (code c =? 95).

(** [str.lower] on one character. *)
Definition lower_char (c : ascii) : ascii :=
  if between 65 90 c || (between 192 222 c && negb (code c =? 215))
  then ascii_of_nat (code c + 32) else c.

Fixpoint lower (s : string) : string :=
  match s with
  | EmptyString => EmptyString
  | String c s' => String (lower_char c) (lower s')
  end.

(** [str.lstrip], [str.rstrip] and [str.strip] without argument. *)
Fixpoint lstrip (s : string) : string :=
  match s with
  | String c s' => if isspace c then lstrip s' else s
  | EmptyString => EmptyString
  end.

Fixpoint rstrip (s : string) : string :=
  match s with
  | EmptyString => EmptyString
  | String c s' =>
      match rstrip s' with
      | EmptyString => if isspace c then EmptyString else String c EmptyString
      | t => String c t
      end
  end.

Definition strip (s : string) : string := rstrip (lstrip s).

(** [s.split(sep)] for a one-character separator. *)
Fixpoint split (sep : ascii) (s : string) : list string :=
  match s with
  | EmptyString => [EmptyString]
  | String c s' =>
      if Ascii.eqb c sep then EmptyString :: split sep s'
      else match split sep s' with
           | p :: ps => String c p :: ps
           | [] => [String c EmptyString]
           end
  end.

(** [c in s] for a character [c]. *)
Fixpoint contains_char (c : ascii) (s : string) : bool :=
  match s with
  | EmptyString => false
  | String a s' => Ascii.eqb a c || contains_char c s'
  end.

(** [sub in s] for strings. *)
Fixpoint contains (sub s : string) : bool :=
  String.prefix sub s ||
  match s with
  | EmptyString => false
  | String _ s' => contains sub s'
  end.

Definition startswith (s p : string) : bool := String.prefix p s.

Fixpoint rev_string (s : string) (acc : string) : string :=
  match s with
  | EmptyString => acc
  | String c s' => rev_string s' (String c acc)
  end.

Definition endswith (s p : string) : bool :=
  String.prefix (rev_string p EmptyString) (rev_string s EmptyString).

(** The value of [int(s)] on a string of decimal digits (the only strings
    the analyzer converts are captures of [\d+]).  The call itself refuses
    a text of more than 4300 digits: see [int_checked] below. *)
Definition int (s : string) : N :=
  (fix go (acc : N) (t : string) : N :=
     match t with
     | EmptyString => acc
     | String c t' => go (10 * acc + N.of_nat (code c - 48))%N t'
     end) 0%N s.

(** [str(n)] for a natural number. *)
Definition str (n : nat) : string := NilZero.string_of_uint (Nat.to_uint n).

(** [int(s)] as the call behaves: above [sys.int_info.default_max_str_digits]
    digits it raises [ValueError], whose message is given; otherwise it
    returns the value. *)
Definition max_str_digits : nat := 4300.

Definition int_checked (s : string) : string + N :=
  if max_str_digits <? String.length s then
    inl ("Exceeds the limit (4300 digits) for integer string conversion: "
         ++ "value has " ++ str (String.length s)
         ++ " digits; use sys.set_int_max_str_digits() to increase the limit"
        )%string
  else inr (int s).

(** Membership in a list of strings ([x in xs]). *)
Definition mem (x : string) (xs : list string) : bool :=
  existsb (String.eqb x) xs.

(** [str(n)] for an integer kept in binary. *)
Definition str_N (n : N) : string := NilZero.string_of_uint (N.to_uint n).

End Py.

(** ** Regular expressions: the fragment of [re] used by the pattern tables

    Literals, escapes, [.], [\d], [\s], [\b], bracketed sets, groups
    (capturing, [(?:...)], negative lookahead [(?!...)]), alternation, [?] on
    any atom and [*], [+], [*?] on one-character atoms.  Matching is the
    backtracking search of [re]: [matches] lists the ways a pattern can match
    at a position in the order in which [re] tries them, so its head is the
    match that [re] reports. *)

Module Re.

Inductive cset : Type :=
| CChar (c : ascii)
| CAny
| CDigit
| CSpace
| CSet (neg : bool) (members : list ascii).

Inductive regex : Type :=
| Eps
| Atom (a : cset)
| Rep (a : cset) (at_least_one greedy : bool)
| Opt (r : regex)
| Seq (r1 r2 : regex)
| Alt (r1 r2 : regex)
| Group (i : nat) (r : regex)
| WordB
| NotAhead (r : regex).

(** Flags: [true] stands for [re.IGNORECASE]. *)
Definition IGNORECASE : bool := true.
Definition NOFLAG : bool := false.

Definition char_eq (ic : bool) (x c : ascii) : bool :=
  if ic then Ascii.eqb (Py.lower_char x) (Py.lower_char c) else Ascii.eqb x c.

Definition cset_match (ic : bool) (a : cset) (c : ascii) : bool :=
  match a with
  | CChar x => char_eq ic x c
  | CAny => negb (Py.code c =? 10)
  | CDigit => Py.isdigit c
  | CSpace => Py.isspace c
  | CSet neg members => xorb neg (existsb (fun x => char_eq ic x c) members)
  end.

(** A position in the subject: the character before it (for [\b]), the
    text from it on, and the groups captured so far. *)
Record mstate : Type := MState {
  prev : option ascii;
  rest : string;
  caps : list (nat * string)
}.

Definition isword_opt (o : option ascii) : bool :=
  match o with Some c => Py.isword c | None => false end.

Definition next_char (s : string) : option ascii :=
  match s with String c _ => Some c | EmptyString => None end.

Fixpoint take (n : nat) (s : string) : string :=
  match n, s with
  | S k, String c s' => String c (take k s')
  | _, _ => EmptyString
  end.

(** The text between two positions of the same subject. *)
Definition consumed (from to : string) : string :=
  take (String.length from - String.length to) from.

(** Repetition of a one-character atom: every stopping point, the longest
    first when greedy and the shortest first when lazy. *)
Fixpoint rep (ic : bool) (a : cset) (greedy : bool) (p : option ascii)
    (s : string) : list (option ascii * string) :=
  match s with
  | String c s' =>
      if cset_match ic a c then
        if greedy then rep ic a greedy (Some c) s' ++ [(p, s)]
        else (p, s) :: rep ic a greedy (Some c) s'
      else [(p, s)]
  | EmptyString => [(p, s)]
  end.

Fixpoint matches (ic : bool) (r : regex) (st : mstate) : list mstate :=
  match r with
  | Eps => [st]
  | Atom a =>
      match rest st with
      | String c s' =>
          if cset_match ic a c then [MState (Some c) s' (caps st)] else []
      | EmptyString => []
      end
  | Rep a at_least_one greedy =>
      let stops :=
        if at_least_one then
          match rest st with
          | String c s' =>
              if cset_match ic a c then rep ic a greedy (Some c) s' else []
          | EmptyString => []
          end
        else rep ic a greedy (prev st) (rest st) in
      map (fun ps => MState (fst ps) (snd ps) (caps st)) stops
  | Opt r1 => matches ic r1 st ++ [st]
  | Seq r1 r2 => flat_map (matches ic r2) (matches ic r1 st)
  | Alt r1 r2 => matches ic r1 st ++ matches ic r2 st
  | Group i r1 =>
      map (fun st' =>
             MState (prev st') (rest st')
                    ((i, consumed (rest st) (rest st')) :: caps st'))
          (matches ic r1 st)
  | WordB =>
      if xorb (isword_opt (prev st)) (isword_opt (next_char (rest st)))
      then [st] else []
  | NotAhead r1 =>
      match matches ic r1 st with
      | [] => [st]
      | _ :: _ => []
      end
  end.

(** A compiled pattern: its expression and its number of groups. *)
Record pattern : Type := Pattern { p_regex : regex; p_groups : nat }.

(** A match object: [start()], [group(0)] and [groups()]. *)
Record match_obj : Type := Match {
  m_start : nat;
  m_text : string;
  m_groups : list (option string)
}.

Fixpoint lookup_cap (i : nat) (cs : list (nat * string)) : option string :=
  match cs with
  | [] => None
  | (j, s) :: cs' => if i =? j then Some s else lookup_cap i cs'
  end.

Definition groups_of (n : nat) (cs : list (nat * string)) : list (option string) :=
  map (fun i => lookup_cap i cs) (seq 1 n).

Definition match_of (p : pattern) (pos : nat) (s : string) (st : mstate) : match_obj :=
  Match pos (consumed s (rest st)) (groups_of (p_groups p) (caps st)).

Definition matches_at (ic : bool) (p : pattern) (pv : option ascii) (s : string)
  : list mstate :=
  matches ic (p_regex p) (MState pv s []).

(** The leftmost match from a position on. *)
Fixpoint search_from (ic : bool) (p : pattern) (pos : nat) (pv : option ascii)
    (s : string) : option match_obj :=
  match matches_at ic p pv s with
  | st :: _ => Some (match_of p pos s st)
  | [] =>
      match s with
      | String c s' => search_from ic p (S pos) (Some c) s'
      | EmptyString => None
      end
  end.

(** The successive non-overlapping matches of a pattern and the characters
    between them, as [finditer] and [sub] walk the subject. *)
Inductive tok : Type :=
| Lit (c : ascii)
| Mat (mo : match_obj).

Definition nonempty_from (s : string) (st : mstate) : bool :=
  negb (String.length s - String.length (rest st) =? 0).

Fixpoint scan (ic : bool) (p : pattern) (skip pos : nat) (pv : option ascii)
    (s : string) {struct s} : list tok :=
  match skip with
  | S k =>
      match s with
      | String c s' => scan ic p k (S pos) (Some c) s'
      | EmptyString => []
      end
  | 0 =>
      let results := matches_at ic p pv s in
      let literal :=
        match s with
        | String c s' => Lit c :: scan ic p 0 (S pos) (Some c) s'
        | EmptyString => []
        end in
      let after (st : mstate) :=
        match s with
        | String c s' =>
            scan ic p (String.length s - String.length (rest st) - 1)
                 (S pos) (Some c) s'
        | EmptyString => []
        end in
      match results with
      | [] => literal
      | st :: _ =>
          if nonempty_from s st then Mat (match_of p pos s st) :: after st
          else
            (* an empty match: the next match at this position must be
               non-empty *)
            Mat (match_of p pos s st) ::
            match find (nonempty_from s) results with
            | Some st2 => Mat (match_of p pos s st2) :: after st2
            | None => literal
            end
      end
  end.

(** *** Compiling a pattern string *)

Definition presult : Type := option (regex * string * nat).

(** The members of a bracketed set, up to the closing bracket. *)
Fixpoint parse_set (s : string) (acc : list ascii) : option (list ascii * string) :=
  match s with
  | String "]" s' => Some (rev acc, s')
  | String "\" (String c s') =>
      if Py.isalpha c || Py.isdigit c then None else parse_set s' (c :: acc)
  | String "-" _ => None
  | String c s' => parse_set s' (c :: acc)
  | EmptyString => None
  end.

(** A quantifier after an atom. *)
Definition quantified (r : regex) (s : string) : option (regex * string) :=
  match s with
  | String "*" (String "?" s') =>
      match r with Atom a => Some (Rep a false false, s') | _ => None end
  | String "*" s' =>
      match r with Atom a => Some (Rep a false true, s') | _ => None end
  | String "+" (String "?" _) => None
  | String "+" s' =>
      match r with Atom a => Some (Rep a true true, s') | _ => None end
  | String "?" (String "?" _) => None
  | String "?" s' => Some (Opt r, s')
  | String "{" _ => None
  | _ => Some (r, s)
  end.

Definition with_quantifier (res : presult) : presult :=
  match res with
  | Some (r, s, g) =>
      match quantified r s with
      | Some (r', s') => Some (r', s', g)
      | None => None
      end
  | None => None
  end.

Definition expect_close (res : presult) (wrap : regex -> regex) : presult :=
  match res with
  | Some (r, String ")" s', g) => Some (wrap r, s', g)
  | _ => None
  end.

Fixpoint parse_alt (fuel : nat) (s : string) (g : nat) : presult :=
  match fuel with
  | 0 => None
  | S f =>
      match parse_seq f s g with
      | Some (r1, String "|" s', g') =>
          match parse_alt f s' g' with
          | Some (r2, s'', g'') => Some (Alt r1 r2, s'', g'')
          | None => None
          end
      | res => res
      end
  end
with parse_seq (fuel : nat) (s : string) (g : nat) : presult :=
  match fuel with
  | 0 => None
  | S f =>
      match s with
      | EmptyString => Some (Eps, s, g)
      | String "|" _ => Some (Eps, s, g)
      | String ")" _ => Some (Eps, s, g)
      | _ =>
          match with_quantifier (parse_atom f s g) with
          | Some (r1, s', g') =>
              match parse_seq f s' g' with
              | Some (r2, s'', g'') => Some (Seq r1 r2, s'', g'')
              | None => None
              end
          | None => None
          end
      end
  end
with parse_atom (fuel : nat) (s : string) (g : nat) : presult :=
  match fuel with
  | 0 => None
  | S f =>
      match s with
      | String "(" (String "?" (String ":" s')) =>
          expect_close (parse_alt f s' g) (fun r => r)
      | String "(" (String "?" (String "!" s')) =>
          expect_close (parse_alt f s' g) NotAhead
      | String "(" (String "?" _) => None
      | String "(" s' => expect_close (parse_alt f s' (S g)) (Group g)
      | String "[" (String "^" s') =>
          match parse_set s' [] with
          | Some (members, s'') => Some (Atom (CSet true members), s'', g)
          | None => None
          end
      | String "[" s' =>
          match parse_set s' [] with
          | Some (members, s'') => Some (Atom (CSet false members), s'', g)
          | None => None
          end
      | String "\" (String "b" s') => Some (WordB, s', g)
      | String "\" (String "d" s') => Some (Atom CDigit, s', g)
      | String "\" (String "s" s') => Some (Atom CSpace, s', g)
      | String "\" (String c s') =>
          if Py.isalpha c || Py.isdigit c then None
          else Some (Atom (CChar c), s', g)
      | String "." s' => Some (Atom CAny, s', g)
      | String "^" _ | String "$" _ | String "*" _ | String "+" _
      | String "?" _ | String "{" _ | String "\" EmptyString => None
      | String c s' => Some (Atom (CChar c), s', g)
      | EmptyString => None
      end
  end.

(** [re.compile]; [None] for a pattern outside the fragment. *)
Definition compile (src : string) : option pattern :=
  match parse_alt (3 * String.length src + 3) src 1 with
  | Some (r, EmptyString, g) => Some (Pattern r (g - 1))
  | _ => None
  end.

(** The expression that matches nowhere. *)
Definition never : pattern := Pattern (Atom (CSet false [])) 0.

Definition compiled (src : string) : pattern :=
  match compile src with Some p => p | None => never end.

(** [re.search(pattern, text, flags)]. *)
Definition search (src text : string) (flags : bool) : option match_obj :=
  search_from flags (compiled src) 0 None text.

(** [bool(re.search(pattern, text, flags))]. *)
Definition found (src text : string) (flags : bool) : bool :=
  match search src text flags with Some _ => true | None => false end.

Definition sub_tokens (repl : string) (ts : list tok) : string :=
  fold_right (fun t acc =>
                match t with
                | Lit c => String c acc
                | Mat _ => (repl ++ acc)%string
                end) EmptyString ts.

(** [re.sub(pattern, repl, text, flags)] for a replacement without
    back-references. *)
Definition sub (src repl text : string) (flags : bool) : string :=
  sub_tokens repl (scan flags (compiled src) 0 0 None text).

(** [re.findall(pattern, text)] for a pattern with at most one group: the
    group when there is one, the whole match otherwise. *)
Definition findall (src text : string) (flags : bool) : list string :=
  flat_map (fun t =>
              match t with
              | Lit _ => []
              | Mat mo =>
                  match m_groups mo with
                  | [] => [m_text mo]
                  | Some g :: _ => [g]
                  | None :: _ => [EmptyString]
                  end
              end)
           (scan flags (compiled src) 0 0 None text).

End Re.

(** ** The part of [pathlib] used by the analyzer (POSIX flavour) *)

Module Path.

(** The components of a path: empty and ["."] components are dropped. *)
Definition parts (p : string) : list string :=
  filter (fun c => negb (String.eqb c "" || String.eqb c "."))
         (Py.split "/" p).

(** [Path(p).name]: the final component. *)
Definition name (p : string) : string := last (parts p) "".

(** The text before the last dot and the text from it on. *)
Fixpoint rsplit_dot (s : string) : option (string * string) :=
  match s with
  | EmptyString => None
  | String c s' =>
      match rsplit_dot s' with
      | Some (a, b) => Some (String c a, b)
      | None => if Ascii.eqb c "." then Some (EmptyString, s) else None
      end
  end.

(** The dot that separates the suffix is neither the first nor the last
    character of the name. *)
Definition split_suffix (nm : string) : string * string :=
  match rsplit_dot nm with
  | Some (a, b) =>
      if (0 <? String.length a) && (1 <? String.length b) then (a, b)
      else (nm, EmptyString)
  | None => (nm, EmptyString)
  end.

(** [Path(p).stem] and [Path(p).suffix]. *)
Definition stem (p : string) : string := fst (split_suffix (name p)).
Definition suffix (p : string) : string := snd (split_suffix (name p)).

(** The root of a path: one slash, or two when the path begins with
    exactly two. *)
Definition root (p : string) : string :=
  match p with
  | String "/" (String "/" (String "/" _)) => "/"
  | String "/" (String "/" _) => "//"
  | String "/" _ => "/"
  | _ => EmptyString
  end.

(** [str] of the path with a given root and given components. *)
Definition of_parts (rt : string) (ps : list string) : string :=
  match rt, ps with
  | EmptyString, [] => "."
  | _, _ => (rt ++ String.concat "/" ps)%string
  end.

(** [str(Path(a) / b)]: an absolute [b] replaces [a]. *)
Definition join (a b : string) : string :=
  match root b with
  | EmptyString => of_parts (root a) (parts a ++ parts b)
  | rt => of_parts rt (parts b)
  end.

(** [str(Path(p).parent)]. *)
Definition parent (p : string) : string :=
  of_parts (root p) (removelast (parts p)).

(** [str(Path(p))]. *)
Definition path (p : string) : string := of_parts (root p) (parts p).

(** [Path(a) == Path(b)]: the same root and the same components. *)
Definition eqb (a b : string) : bool :=
  String.eqb (root a) (root b)
  && (if list_eq_dec String.string_dec (parts a) (parts b) then true else false).

End Path.

(** ** The pattern tables of [ROMAnalyzer.__init__]

    Dictionaries are association lists in insertion order, which is the
    order in which the analyzer iterates over them. *)

Definition region_patterns : list (string * list string) :=
  [ ("USA", ["\(USA?\)"; "\(US\)"; "\(U\)"; "\(NA\)"; "\bUSA?\b"; "\bUS\b"; "\bNA\b"]);
    ("Europe", ["\(Europe?\)"; "\(EU\)"; "\(E\)"; "\(PAL\)"; "\bEurope?\b"; "\bEU\b"; "\bPAL\b"]);
    ("Japan", ["\(Japan?\)"; "\(JP\)"; "\(J\)"; "\(NTSC-J\)"; "\bJapan?\b"; "\bJP\b"; "\bJ\b"]);
    ("World", ["\(World\)"; "\(W\)"; "\bWorld\b"; "\bW\b"]);
    ("Asia", ["\(Asia\)"; "\(As\)"; "\bAsia\b"; "\bAs\b"]);
    ("Australia", ["\(Australia\)"; "\(AU\)"; "\(AUS\)"; "\bAustralia\b"; "\bAU\b"; "\bAUS\b"]);
    ("Brazil", ["\(Brazil\)"; "\(BR\)"; "\bBrazil\b"; "\bBR\b"]);
    ("Canada", ["\(Canada\)"; "\(CA\)"; "\bCanada\b"; "\bCA\b"]);
    ("China", ["\(China\)"; "\(CN\)"; "\bChina\b"; "\bCN\b"]);
    ("France", ["\(France\)"; "\(FR\)"; "\bFrance\b"; "\bFR\b"]);
    ("Germany", ["\(Germany\)"; "\(DE\)"; "\bGermany\b"; "\bDE\b"]);
    ("Italy", ["\(Italy\)"; "\(IT\)"; "\bItaly\b"; "\bIT\b"]);
    ("Korea", ["\(Korea\)"; "\(KR\)"; "\bKorea\b"; "\bKR\b"]);
    ("Netherlands", ["\(Netherlands\)"; "\(NL\)"; "\bNetherlands\b"; "\bNL\b"]);
    ("Spain", ["\(Spain\)"; "\(ES\)"; "\bSpain\b"; "\bES\b"]);
    ("Sweden", ["\(Sweden\)"; "\(SE\)"; "\bSweden\b"; "\bSE\b"]);
    ("Taiwan", ["\(Taiwan\)"; "\(TW\)"; "\bTaiwan\b"; "\bTW\b"]);
    ("UK", ["\(UK\)"; "\(United Kingdom\)"; "\bUK\b"; "\bUnited Kingdom\b"]) ].

Definition special_patterns : list (string * list string) :=
  [ ("Proto", ["\(Proto\s*\d*\)"; "\(Prototype\s*\d*\)"; "\[proto\s*\d*\]"; "\[prototype\s*\d*\]"]);
    ("Beta", ["\(Beta\s*\d*\)"; "\[beta\s*\d*\]"; "\[b\d*\]"]);
    ("Alpha", ["\(Alpha\s*\d*\)"; "\[alpha\s*\d*\]"; "\[a\d*\]"]);
    ("Demo", ["\(Demo\s*\d*\)"; "\[demo\s*\d*\]"; "\[d\d*\]"]);
    ("Sample", ["\(Sample\s*\d*\)"; "\[sample\s*\d*\]"]);
    ("Homebrew", ["\(Homebrew\)"; "\[homebrew\]"; "\[h\]"]);
    ("Hack", ["\(Hack\)"; "\[hack\]"; "\[h\d+\]"]);
    ("Translation", ["\(Translation\)"; "\[T\+"; "\[T-"]);
    ("Trainer", ["\[t\d*\]"; "\(Trainer\)"]);
    ("Overdump", ["\[o\d*\]"; "\(Overdump\)"]);
    ("Bad Dump", ["\[b\d*\]"; "\(Bad\)"; "\[!p\]"]);
    ("Good Dump", ["\[!\]"; "\(Good\)"]);
    ("Cracked", ["\[cr\]"; "\(Cracked\)"]);
    ("Fixed", ["\[f\d*\]"; "\(Fixed\)"]);
    ("Pirate", ["\[p\d*\]"; "\(Pirate\)"]) ].

Definition translation_patterns : list string :=
  [
    "\[T\+.*?\]"; "\[T-.*?\]"; "\(Translation\)"; "\(Translated\)";
    "\(English\)"; "\[English\]"; "\(Eng\)"; "\[Eng\]"; "\[T&.*?\]";
    "English Translation"; "Fan Translation"; "\bTranslated\b";
    "\bEnglish\b"
  ].

Definition language_code_patterns : list string :=
  [
    "\b(En|Fr|De|Es|It|Nl|Pt|Sv|No|Da|Fi|Pl|Ru|Ja|Ko|Zh)\b"; "\bEng\b";
    "\bFre\b"; "\bGer\b"; "\bSpa\b"; "\bIta\b"; "\bDut\b"; "\bEnglish\b";
    "\bFrench\b"; "\bGerman\b"; "\bSpanish\b"; "\bItalian\b"; "\bDutch\b";
    "\bPortuguese\b"; "\bSwedish\b"; "\bNorwegian\b"; "\bDanish\b";
    "\bFinnish\b"; "\bPolish\b"; "\bRussian\b"; "\bJapanese\b";
    "\bKorean\b"; "\bChinese\b"
  ].

Definition casino_game_patterns : list string :=
  [
    "\bcasino\b"; "\bvegas\b"; "\blasvegas\b"; "\blas vegas\b";
    "\bgambling\b"; "\bjackpot\b"; "\bpoker\b"; "\btexas hold\b";
    "\bholdem\b"; "\bblackjack\b"; "\bblack jack\b"; "\bbaccarat\b";
    "\bsolitaire\b"; "\bklondike\b"; "\bfreecell\b"; "\bpai gow\b";
    "\bpaigow\b"; "\bgin rummy\b"; "\brummy\b"; "\broulette\b";
    "\bcraps\b"; "\bkeno\b"; "\bbingo\b"; "\bslots?\b"; "\bslot machine\b";
    "\bfruit machine\b"; "\bone arm bandit\b"; "\bcherry master\b";
    "\bvegas stakes\b"; "\bcasino kid\b"; "\bworld class poker\b";
    "\bcaesars palace\b"; "\btrump castle\b"; "\blas vegas dream\b";
    "\batlantic city action\b"; "\bmonte carlo casino\b"; "\bpachinko\b";
    "\bmahjong\b"; "\bmah jong\b"; "\bmah-jong\b"; "\bhanafuda\b";
    "\bchuck a luck\b"; "\bwheel of fortune\b(?! - )";
    "\bmonte carlo casino\b"; "\batlantic city casino\b";
    "\breno casino\b"; "\briverboat casino\b"; "\bcasino chip\b";
    "\bpoker chip\b"; "\bgaming chip\b"
  ].

Definition casino_exclusion_patterns : list string :=
  [
    "\bspider.?man\b"; "\bvenom\b"; "\bcarnage\b"; "\blethal\b";
    "\bsuperman\b"; "\bbatman\b"; "\bx.?men\b"; "\bavengers\b";
    "\bmarvel\b"; "\bdc comics\b"; "\bwolverine\b"; "\bhulk\b";
    "\bcaptain america\b"; "\biron man\b"; "\bjustice league\b";
    "\bstar trek\b"; "\bstarfleet\b"; "\bbridge simulator\b";
    "\bstar wars\b"; "\benterprise\b"; "\bstarship\b"; "\balien\b";
    "\bspace\b.*\binvaders\b"; "\bgalaga\b"; "\bskateboard\b"; "\bskate\b";
    "\bsnowboard\b"; "\bsurf\b"; "\brace\b(?!.*casino)";
    "\btrack\b(?!.*casino)"; "\bfootball\b"; "\bbaseball\b";
    "\bbasketball\b"; "\bhockey\b"; "\bpokemon\b"; "\bdigimon\b";
    "\byu-gi-oh\b"; "\bmagic the gathering\b"; "\bduel\b.*\bmasters\b";
    "\bcard\b.*\bbattle\b"; "\btcg\b"; "\bccg\b";
    "\bsolitaire\b(?!.*casino)"; "\bpyramid\b(?!.*casino)"; "\bmario\b";
    "\bzelda\b"; "\bkirby\b"; "\byoshi\b"; "\bsonic\b"; "\bmegaman\b";
    "\bmega man\b"; "\bcastlevania\b"; "\bmetroid\b"; "\bfinal fantasy\b";
    "\bdragon quest\b"; "\bbridge\b(?!.*casino)"; "\bboat\b(?!.*casino)";
    "\bchip\b(?!.*casino)"; "\bslot\b(?!.*machine)"; "\bmonopoly\b";
    "\brisk\b(?!.*casino)"; "\bscrabble\b"; "\bchess\b"; "\bcheckers\b";
    "\bgo\b(?!.*casino)"; "\bwheel of fortune\b.*\bgame show\b";
    "\bjeopardy\b"; "\bfamily feud\b"; "\bprice is right\b";
    "\bgame show\b"; "\btrivia\b(?!.*casino)"; "\bstreet fighter\b";
    "\bmortal kombat\b"; "\btekken\b"; "\bking of fighters\b";
    "\bsamurai shodown\b"
  ].

Definition adult_game_patterns : list string :=
  [
    "\bhentai\b"; "\bporn\b"; "\bporno\b"; "\bxxx\b"; "\badult\b";
    "\berotic\b"; "\bsexy\b"; "\bnude\b"; "\bnaked\b"; "\bbishoujo\b";
    "\becchi\b"; "\bbishounen\b"; "\beroges?\b"; "\bgalge\b"; "\botome\b";
    "\bdating sim\b"; "\bvisual novel\b.*\badult\b"; "\brenai\b";
    "\bsuper\s+maruo\b"; "\bbishoujo\s+shashinkan\b"; "\bstudio\s+cut\b";
    "\bbodycon quest\b"; "\babakareshi musume\b"; "\bhoney peach\b";
    "\bnight life\b"; "\bmidnight\b.*\blove\b"; "\bplayboy\b";
    "\bpenthouse\b"; "\bhustler\b"; "\bstriptease\b";
    "\bstrip\b.*\bpoker\b"; "\blingerie\b"; "\b18\+\b"; "\badults? only\b";
    "\bmature\b.*\bcontent\b"; "\bunlicensed\b.*\badult\b";
    "\bhomebrew\b.*\badult\b"; "\bgirls?\b.*\bunlocked\b"; "\bseduction\b";
    "\btemptation\b"; "\bforbidden\b.*\blove\b"; "\bpassion\b.*\bnight\b"
  ].

Definition adult_exclusion_patterns : list string :=
  [
    "\bmario\b"; "\bzelda\b"; "\bpokemon\b"; "\bsonic\b"; "\bkirby\b";
    "\byoshi\b"; "\bdonkey kong\b"; "\bmegaman\b"; "\bmega man\b";
    "\bfinal fantasy\b"; "\bdragon quest\b"; "\bchrono\b"; "\bsecret of\b";
    "\bnight.*\btrap\b"; "\bmidnight.*\bresistance\b"; "\badult.*\bswim\b";
    "\bmature.*\btree\b"; "\bsexy.*\bparodius\b"; "\bnude.*\brace\b";
    "\bnude.*\bcar\b"
  ].

Definition version_patterns : list string :=
  [
    "\(v?(\d+)\.(\d+)(?:\.(\d+))?\)"; "\[v?(\d+)\.(\d+)(?:\.(\d+))?\]";
    "\(ver\.?\s*(\d+)(?:\.(\d+))?(?:\.(\d+))?\)";
    "\[ver\.?\s*(\d+)(?:\.(\d+))?(?:\.(\d+))?\]";
    "\(version\s*(\d+)(?:\.(\d+))?(?:\.(\d+))?\)";
    "\[version\s*(\d+)(?:\.(\d+))?(?:\.(\d+))?\]";
    "\(r(?:ev)?\.?\s*(\d+)\)"; "\[r(?:ev)?\.?\s*(\d+)\]";
    "\(revision\s*(\d+)\)"; "\[revision\s*(\d+)\]";
    "\((alpha|beta)\s*(\d+)(?:\.(\d+))?\)";
    "\[(alpha|beta)\s*(\d+)(?:\.(\d+))?\]"
  ].

Definition save_state_extensions : list string :=
  [
    ".srm"; ".sav"; ".rtc"; ".fla"; ".st0"; ".st1"; ".st2"; ".st3"; ".st4";
    ".st5"; ".st6"; ".st7"; ".st8"; ".st9"; ".fc0"; ".fc1"; ".fc2"; ".fc3";
    ".fc4"; ".fc5"; ".fc6"; ".fc7"; ".fc8"; ".fc9"; ".zs0"; ".zs1"; ".zs2";
    ".zs3"; ".zs4"; ".zs5"; ".zs6"; ".zs7"; ".zs8"; ".zs9"; ".sm0"; ".sm1";
    ".sm2"; ".sm3"; ".sm4"; ".sm5"; ".sm6"; ".sm7"; ".sm8"; ".sm9"; ".vb0";
    ".vb1"; ".vb2"; ".vb3"; ".vb4"; ".vb5"; ".vb6"; ".vb7"; ".vb8"; ".vb9";
    ".ds0"; ".ds1"; ".ds2"; ".ds3"; ".ds4"; ".ds5"; ".ds6"; ".ds7"; ".ds8";
    ".ds9"
  ].

Definition format_preference : list (string * nat) :=
  [
    (".zip", 1); (".7z", 1); (".rar", 1); (".rom", 5); (".bin", 5);
    (".img", 5); (".raw", 5); (".nes", 10); (".fds", 9); (".unif", 8);
    (".unf", 8); (".nsf", 6); (".nsfe", 6); (".sfc", 10); (".smc", 9);
    (".snes", 10); (".bs", 8); (".spc", 6); (".gb", 10); (".gbc", 10);
    (".cgb", 10); (".sgb", 9); (".dmg", 9); (".gbx", 8); (".gba", 10);
    (".agb", 9); (".mb", 8); (".srl", 9); (".n64", 10); (".z64", 10);
    (".v64", 9); (".u64", 8); (".rom64", 7); (".n64rom", 7); (".usa", 6);
    (".pal", 6); (".jap", 6); (".nds", 10); (".dsi", 9); (".ids", 8);
    (".srl", 9); (".nds.gba", 7); (".3ds", 10); (".cia", 9); (".3dsx", 8);
    (".cci", 7); (".cxi", 6); (".app", 5); (".tmd", 4); (".tik", 4);
    (".gcm", 10); (".tgc", 9); (".iso", 9); (".ciso", 8); (".wia", 8);
    (".gcz", 7); (".wbfs", 6); (".rvz", 6); (".nkit", 5); (".xci", 10);
    (".nsp", 9); (".nro", 8); (".nca", 7); (".nacp", 6); (".nso", 6);
    (".npdm", 5); (".md", 10); (".smd", 9); (".gen", 10); (".sg", 8);
    (".sgd", 8); (".32x", 10); (".32c", 9); (".sms", 10); (".gg", 10);
    (".mvs", 9); (".sc", 8); (".sf7000", 7); (".chd", 9); (".cue", 8);
    (".gdi", 8); (".mds", 7); (".ccd", 7); (".cdi", 7); (".mdf", 6);
    (".nrg", 5); (".toc", 6); (".m3u", 5); (".dat", 4); (".lst", 4);
    (".pbp", 9); (".cso", 7); (".dax", 6); (".prx", 8); (".psv", 8);
    (".psx", 9); (".ecm", 6); (".ape", 5); (".sub", 4); (".psf", 5);
    (".minipsf", 5); (".psf2", 5); (".minipsf2", 5); (".ps2", 9);
    (".elf", 8); (".irx", 7); (".cnf", 6); (".pkg", 8); (".rap", 7);
    (".psn", 6); (".p3t", 5); (".vpk", 8); (".suprx", 7); (".skprx", 6);
    (".pce", 10); (".sgx", 9); (".hes", 6); (".tg16", 9); (".huc", 8);
    (".ngp", 10); (".ngc", 9); (".ngpc", 10); (".pocket", 8); (".ws", 10);
    (".wsc", 10); (".pc2", 8); (".a26", 10); (".a78", 10); (".lnx", 10);
    (".lyx", 9); (".o", 7); (".jag", 10); (".j64", 9); (".abs", 8);
    (".cof", 7); (".int", 10); (".itv", 9); (".col", 10); (".cv", 9);
    (".vec", 10); (".gam", 8); (".o2", 10); (".xbe", 9); (".xex", 8);
    (".xcp", 7); (".xbx", 6); (".xiso", 8); (".000", 7); (".dvd", 6);
    (".god", 7); (".xbla", 6); (".xbx1", 5); (".min", 10);
    (".pokemini", 10); (".vb", 10); (".vboy", 10); (".sx1", 10);
    (".sx2", 10); (".d64", 10); (".t64", 9); (".prg", 8); (".d81", 9);
    (".d82", 9); (".g64", 8); (".p64", 8); (".x64", 8); (".p00", 7);
    (".s64", 7); (".d71", 8); (".d80", 8); (".cas", 8); (".wav", 6);
    (".cdt", 7); (".tap", 9); (".tzx", 8); (".z80", 9); (".sna", 9);
    (".scl", 8); (".trd", 8); (".adf", 10); (".dms", 8); (".ipf", 9);
    (".hdf", 8); (".lha", 7); (".lzx", 6); (".st", 10); (".msa", 8);
    (".dim", 7); (".stx", 9); (".cpc", 9); (".msx", 9); (".oric", 8);
    (".sam", 8); (".mgt", 8); (".ti99", 8); (".tifiles", 7);
    (".apple2", 9); (".do", 8); (".po", 8); (".nib", 7); (".woz", 10);
    (".m5", 8); (".pzx", 7); (".coleco", 8); (".adam", 8); (".dragon", 8);
    (".vdk", 7); (".dmk", 7); (".coco", 8); (".neo", 10); (".aes", 10);
    (".mvs", 10); (".ngm", 9); (".mame", 8); (".dol", 9); (".wad", 8);
    (".forwarder", 7); (".xex", 9); (".atr", 8); (".car", 8); (".dsk", 9);
    (".ima", 8); (".vfd", 7); (".hfe", 6); (".mfm", 5); (".td0", 6);
    (".scummvm", 8); (".gog", 7); (".dos", 6); (".flash", 5); (".swf", 4);
    (".love", 7); (".tic", 6); (".bios", 8); (".firmware", 8); (".gz", 2);
    (".bz2", 2); (".swc", 8); (".fig", 7); (".mgd", 6); (".ufo", 6);
    (".srm", 3); (".sav", 3); (".rtc", 3); (".fla", 3); (".st0", 2);
    (".st1", 2); (".st2", 2); (".st3", 2); (".st4", 2); (".st5", 2);
    (".st6", 2); (".st7", 2); (".st8", 2); (".st9", 2); (".fc0", 2);
    (".fc1", 2); (".fc2", 2); (".fc3", 2); (".fc4", 2); (".fc5", 2);
    (".fc6", 2); (".fc7", 2); (".fc8", 2); (".fc9", 2); (".zs0", 2);
    (".zs1", 2); (".zs2", 2); (".zs3", 2); (".zs4", 2); (".zs5", 2);
    (".zs6", 2); (".zs7", 2); (".zs8", 2); (".zs9", 2); (".sm0", 2);
    (".sm1", 2); (".sm2", 2); (".sm3", 2); (".sm4", 2); (".sm5", 2);
    (".sm6", 2); (".sm7", 2); (".sm8", 2); (".sm9", 2); (".vb0", 2);
    (".vb1", 2); (".vb2", 2); (".vb3", 2); (".vb4", 2); (".vb5", 2);
    (".vb6", 2); (".vb7", 2); (".vb8", 2); (".vb9", 2); (".ds0", 2);
    (".ds1", 2); (".ds2", 2); (".ds3", 2); (".ds4", 2); (".ds5", 2);
    (".ds6", 2); (".ds7", 2); (".ds8", 2); (".ds9", 2)
  ].

(** [rom_extensions], a set literal, in the order in which it is written. *)
Definition rom_extensions : list string :=
  [
    ".nes"; ".fds"; ".unf"; ".unif"; ".nsf"; ".nsfe"; ".smc"; ".sfc";
    ".snes"; ".swc"; ".fig"; ".mgd"; ".ufo"; ".spc"; ".bs"; ".gb"; ".gbc";
    ".cgb"; ".sgb"; ".dmg"; ".gbx"; ".gba"; ".agb"; ".mb"; ".srl"; ".n64";
    ".z64"; ".v64"; ".u64"; ".rom64"; ".n64rom"; ".usa"; ".pal"; ".jap";
    ".nds"; ".dsi"; ".ids"; ".srl"; ".nds.gba"; ".3ds"; ".cia"; ".3dsx";
    ".cci"; ".cxi"; ".app"; ".tmd"; ".tik"; ".gcm"; ".gcz"; ".iso";
    ".wbfs"; ".rvz"; ".nkit"; ".ciso"; ".wia"; ".tgc"; ".xci"; ".nsp";
    ".nro"; ".nca"; ".nacp"; ".nso"; ".npdm"; ".md"; ".smd"; ".gen";
    ".bin"; ".sg"; ".sgd"; ".rom"; ".32x"; ".32c"; ".sms"; ".gg"; ".mvs";
    ".sc"; ".sf7000"; ".cue"; ".chd"; ".mds"; ".ccd"; ".toc"; ".m3u";
    ".gdi"; ".cdi"; ".mdf"; ".nrg"; ".dat"; ".lst"; ".pbp"; ".prx";
    ".cso"; ".dax"; ".psv"; ".psx"; ".ecm"; ".ape"; ".sub"; ".psf";
    ".minipsf"; ".psf2"; ".minipsf2"; ".ps2"; ".elf"; ".irx"; ".cnf";
    ".pkg"; ".rap"; ".psn"; ".p3t"; ".vpk"; ".suprx"; ".skprx"; ".pce";
    ".sgx"; ".hes"; ".tg16"; ".huc"; ".pce"; ".ngp"; ".ngc"; ".pocket";
    ".ngpc"; ".ws"; ".wsc"; ".pc2"; ".a26"; ".a78"; ".bin"; ".lnx";
    ".lyx"; ".o"; ".jag"; ".j64"; ".rom"; ".abs"; ".cof"; ".bin"; ".int";
    ".itv"; ".rom"; ".bin"; ".col"; ".cv"; ".rom"; ".bin"; ".vec"; ".gam";
    ".bin"; ".o2"; ".bin"; ".rom"; ".dsk"; ".d64"; ".t64"; ".prg"; ".p00";
    ".s64"; ".x64"; ".cas"; ".wav"; ".tap"; ".cdt"; ".tap"; ".tzx";
    ".z80"; ".sna"; ".scl"; ".trd"; ".adf"; ".dms"; ".ipf"; ".hdf";
    ".lha"; ".lzx"; ".st"; ".msa"; ".dim"; ".stx"; ".chd"; ".mame";
    ".zip"; ".neo"; ".mvs"; ".aes"; ".ngm"; ".zip"; ".7z"; ".rar"; ".gz";
    ".bz2"; ".xbe"; ".xex"; ".xcp"; ".xbx"; ".xiso"; ".000"; ".dvd";
    ".god"; ".xbla"; ".xbx1"; ".min"; ".pokemini"; ".vb"; ".vboy"; ".sx1";
    ".sx2"; ".rom"; ".bin"; ".img"; ".raw"; ".srm"; ".sav"; ".rtc";
    ".fla"; ".st0"; ".st1"; ".st2"; ".st3"; ".st4"; ".st5"; ".st6";
    ".st7"; ".st8"; ".st9"; ".fc0"; ".fc1"; ".fc2"; ".fc3"; ".fc4";
    ".fc5"; ".fc6"; ".fc7"; ".fc8"; ".fc9"; ".zs0"; ".zs1"; ".zs2";
    ".zs3"; ".zs4"; ".zs5"; ".zs6"; ".zs7"; ".zs8"; ".zs9"; ".sm0";
    ".sm1"; ".sm2"; ".sm3"; ".sm4"; ".sm5"; ".sm6"; ".sm7"; ".sm8";
    ".sm9"; ".vb0"; ".vb1"; ".vb2"; ".vb3"; ".vb4"; ".vb5"; ".vb6";
    ".vb7"; ".vb8"; ".vb9"; ".ds0"; ".ds1"; ".ds2"; ".ds3"; ".ds4";
    ".ds5"; ".ds6"; ".ds7"; ".ds8"; ".ds9"; ".bios"; ".firmware"; ".bin";
    ".rom"; ".elf"; ".dol"; ".wad"; ".forwarder"; ".a78"; ".a26"; ".xex";
    ".atr"; ".cas"; ".car"; ".d81"; ".d82"; ".g64"; ".p64"; ".x64";
    ".d71"; ".d80"; ".d82"; ".dsk"; ".img"; ".ima"; ".vfd"; ".hfe";
    ".mfm"; ".td0"; ".cpc"; ".dsk"; ".msx"; ".dsk"; ".cas"; ".oric";
    ".tap"; ".dsk"; ".sam"; ".dsk"; ".mgt"; ".ti99"; ".tifiles";
    ".apple2"; ".do"; ".po"; ".nib"; ".woz"; ".m5"; ".pzx"; ".coleco";
    ".adam"; ".dragon"; ".vdk"; ".dmk"; ".coco"; ".cas"; ".wav";
    ".scummvm"; ".gog"; ".dos"; ".flash"; ".swf"; ".love"; ".tic"
  ].

(** [multi_file_extensions] of [is_multi_file_format]. *)
Definition multi_file_extensions : list string :=
  [".chd"; ".cue"; ".bin"; ".gdi"; ".cdi"; ".m3u"; ".iso"; ".mdf"; ".nrg"].

(** Default region priority. *)
Definition default_region_priority : list string :=
  ["USA"; "World"; "Europe"; "Japan"].

(** ** The analyzer *)

(** The attributes of a [ROMAnalyzer] that the analysis reads or writes:
    the two accumulators of unclassified tokens and the configured region
    priority.  The logging and scanning options ([log_file],
    [scan_subfolders], [detect_versions], [older_version_action]) play no
    part in the functions below and are left out. *)
Record ROMAnalyzer : Type := Analyzer {
  unknown_regions : list string;
  unknown_specials : list string;
  region_priority : list string
}.

(** [ROMAnalyzer()]: a fresh analyzer. *)
Definition new_analyzer : ROMAnalyzer := Analyzer [] [] default_region_priority.

(** [s.add(x)] on a set kept as a duplicate-free list. *)
Definition set_add (x : string) (s : list string) : list string :=
  if Py.mem x s then s else s ++ [x].

Definition add_unknown_region (x : string) (self : ROMAnalyzer) : ROMAnalyzer :=
  Analyzer (set_add x (unknown_regions self)) (unknown_specials self)
           (region_priority self).

Definition add_unknown_special (x : string) (self : ROMAnalyzer) : ROMAnalyzer :=
  Analyzer (unknown_regions self) (set_add x (unknown_specials self))
           (region_priority self).

(** [any(re.search(pattern, text, re.IGNORECASE) for pattern in patterns)]:
    the loops that stop at the first pattern that matches. *)
Definition any_match (patterns : list string) (text : string) : bool :=
  existsb (fun pattern => Re.found pattern text Re.IGNORECASE) patterns.

Definition parens (s : string) : string := ("(" ++ s ++ ")")%string.
Definition brackets (s : string) : string := ("[" ++ s ++ "]")%string.

Definition is_empty {A : Type} (l : list A) : bool :=
  match l with [] => true | _ :: _ => false end.

Definition list_eqb (l1 l2 : list string) : bool :=
  if list_eq_dec String.string_dec l1 l2 then true else false.

(** *** [get_base_filename] *)

Definition compression_suffixes : list string := [".7z"; ".zip"; ".rar"].

(** The loop over the region table: only the patterns written with
    parentheses, or with brackets, are removed. *)
Definition remove_region_patterns (normalized_name : string) : string :=
  fold_left
    (fun normalized_name (entry : string * list string) =>
       fold_left
         (fun normalized_name pattern =>
            if Py.startswith pattern "\(" && Py.endswith pattern "\)" then
              Re.sub pattern "" normalized_name Re.IGNORECASE
            else if Py.startswith pattern "\[" && Py.endswith pattern "\]" then
              Re.sub pattern "" normalized_name Re.IGNORECASE
            else normalized_name)
         (snd entry) normalized_name)
    region_patterns normalized_name.

Definition remove_special_patterns (normalized_name : string) : string :=
  fold_left
    (fun normalized_name (entry : string * list string) =>
       fold_left
         (fun normalized_name pattern =>
            Re.sub pattern "" normalized_name Re.IGNORECASE)
         (snd entry) normalized_name)
    special_patterns normalized_name.

Definition remove_version_patterns (normalized_name : string) : string :=
  fold_left
    (fun normalized_name pattern =>
       Re.sub pattern "" normalized_name Re.IGNORECASE)
    version_patterns normalized_name.

(** Empty parentheses and brackets, repeated white space, and the white
    space at both ends. *)
Definition tidy (normalized_name : string) : string :=
  let normalized_name := Re.sub "\s*\(\s*\)" "" normalized_name Re.NOFLAG in
  let normalized_name := Re.sub "\s*\[\s*\]" "" normalized_name Re.NOFLAG in
  let normalized_name := Re.sub "\s+" " " normalized_name Re.NOFLAG in
  Py.strip normalized_name.

(** The tag-stripping passes that follow the removal of the extension. *)
Definition strip_tags (name : string) : string :=
  tidy (remove_version_patterns
          (remove_special_patterns (remove_region_patterns name))).

Definition get_base_filename (filename : string) : string :=
  let name := Path.stem filename in
  let name :=
    if Py.mem (Py.lower (Path.suffix name)) compression_suffixes
    then Path.stem name else name in
  strip_tags name.

(** *** Content classes *)

Definition has_translation (filename : string) : bool :=
  any_match translation_patterns filename.

Definition is_language_code (text : string) : bool :=
  any_match language_code_patterns text.

Definition is_casino_game (filename : string) : bool :=
  let name := Py.lower (Path.stem filename) in
  if any_match casino_exclusion_patterns name then false
  else any_match casino_game_patterns name.

Definition is_adult_game (filename : string) : bool :=
  let name := Py.lower (Path.stem filename) in
  if any_match adult_exclusion_patterns name then false
  else any_match adult_game_patterns name.

(** *** [detect_regions] *)

(** The region table applied to one comma-separated part of a group. *)
Definition add_part_regions (part : string) (regions : list string) : list string :=
  fold_left
    (fun regions (entry : string * list string) =>
       let (region, patterns) := entry in
       let test_string := parens part in
       if any_match patterns test_string then
         if Py.mem region regions then regions else regions ++ [region]
       else regions)
    region_patterns regions.

(** First pass: the comma-separated parts of every parenthesised or
    bracketed group. *)
Definition comma_separated_regions (filename : string) : list string :=
  let multi_region_matches := Re.findall "[\(\[](.*?)[\)\]]" filename Re.NOFLAG in
  fold_left
    (fun regions match_ =>
       let parts := map Py.strip (Py.split "," match_) in
       fold_left
         (fun regions part =>
            if is_language_code part then regions
            else add_part_regions part regions)
         parts regions)
    multi_region_matches [].

(** Second pass: every region one of whose patterns matches the name. *)
Definition whole_name_regions (filename : string) : list string :=
  fold_left
    (fun regions (entry : string * list string) =>
       let (region, patterns) := entry in
       if any_match patterns filename then regions ++ [region] else regions)
    region_patterns [].

(** The regions found by the two passes, before the translation rule and
    the default. *)
Definition found_regions (filename : string) : list string :=
  let regions := comma_separated_regions filename in
  if is_empty regions then whole_name_regions filename else regions.

Definition is_special_text (match_ : string) : bool :=
  existsb
    (fun entry : string * list string =>
       existsb
         (fun pattern =>
            Re.found pattern (parens match_) Re.IGNORECASE
            || Re.found pattern (brackets match_) Re.IGNORECASE)
         (snd entry))
    special_patterns.

(** The texts in parentheses, then the texts in brackets. *)
Definition bracketed_texts (filename : string) : list string :=
  Re.findall "\(([^)]+)\)" filename Re.NOFLAG
  ++ Re.findall "\[([^\]]+)\]" filename Re.NOFLAG.

Definition log_unknown_regions (self : ROMAnalyzer) (filename : string) : ROMAnalyzer :=
  fold_left
    (fun self match_ =>
       let is_special := is_special_text match_ in
       if Py.contains_char "," match_ then self
       else if negb is_special && (String.length match_ <=? 20)
            then add_unknown_region match_ self
            else self)
    (bracketed_texts filename) self.

Definition detect_regions (self : ROMAnalyzer) (filename : string)
  : list string * ROMAnalyzer :=
  let regions := found_regions filename in
  let self :=
    if is_empty regions then log_unknown_regions self filename else self in
  let regions :=
    if has_translation filename then
      let has_japan := Py.mem "Japan" regions in
      if has_japan then
        let regions := filter (fun r => negb (String.eqb r "Japan")) regions in
        if Py.mem "USA" regions then regions else regions ++ ["USA"]
      else if is_empty regions || list_eqb regions ["Unknown"] then ["USA"]
      else regions
    else regions in
  let regions :=
    if is_empty regions || list_eqb regions ["Unknown"] then ["USA"]
    else regions in
  (regions, self).

Definition get_primary_region (self : ROMAnalyzer) (filename : string)
  : string * ROMAnalyzer :=
  let (regions, self) := detect_regions self filename in
  if is_empty regions then ("USA", self)
  else
    match find (fun priority_region => Py.mem priority_region regions)
               (region_priority self) with
    | Some priority_region => (priority_region, self)
    | None => (hd "USA" regions, self)
    end.

(** *** [detect_special_versions] *)

Definition special_keywords : list string :=
  ["v"; "rev"; "ver"; "alt"; "final"; "test"; "debug"].

(** The tags found, each with the pattern that found it. *)
Definition found_specials (filename : string) : list (string * string) :=
  fold_left
    (fun acc (entry : string * list string) =>
       let (special, patterns) := entry in
       match find (fun pattern => Re.found pattern filename Re.IGNORECASE)
                  patterns with
       | Some pattern => acc ++ [(special, pattern)]
       | None => acc
       end)
    special_patterns [].

Definition detect_special_versions (self : ROMAnalyzer) (filename : string)
  : list string * ROMAnalyzer :=
  let specials := map fst (found_specials filename) in
  let found_patterns := map snd (found_specials filename) in
  let known_in (patterns : list string) (match_ : string) : bool :=
    existsb
      (fun pattern =>
         Re.found pattern (parens match_) Re.IGNORECASE
         || Re.found pattern (brackets match_) Re.IGNORECASE)
      patterns in
  let self :=
    fold_left
      (fun self match_ =>
         let is_known :=
           known_in found_patterns match_
           || existsb (fun entry : string * list string =>
                         known_in (snd entry) match_) region_patterns in
         if negb is_known && (String.length match_ <=? 20) then
           if existsb (fun keyword => Py.contains keyword (Py.lower match_))
                      special_keywords
           then add_unknown_special match_ self
           else self
         else self)
      (bracketed_texts filename) self in
  (specials, self).

(** *** [detect_version] *)

(** A version tuple: release stage, major, minor, patch or revision. *)
Definition version : Type := (N * N * N * N)%type.

(** [(2, 1, 0, 0)]: the version of a name without marker. *)
Definition default_version : version := (2, 1, 0, 0)%N.

(** [groups[i]], and its truth value: a group that took part in the match
    with a non-empty text. *)
Definition group (groups : list (option string)) (i : nat) : option string :=
  nth i groups None.

Definition text (g : option string) : string :=
  match g with Some s => s | None => EmptyString end.

Definition truthy (g : option string) : bool :=
  negb (String.eqb (text g) EmptyString).

(** The tuple built from the groups of the first pattern that matched. *)
Definition version_of_groups (pattern : string) (groups : list (option string))
  : version :=
  if Py.contains "(alpha|beta)" pattern then
    let version_type := Py.lower (text (group groups 0)) in
    let major :=
      if (1 <? length groups) && truthy (group groups 1)
      then Py.int (text (group groups 1)) else 0%N in
    let minor :=
      if (2 <? length groups) && truthy (group groups 2)
      then Py.int (text (group groups 2)) else 0%N in
    let type_priority := if String.eqb version_type "alpha" then 0%N else 1%N in
    (type_priority, major, minor, 0%N)
  else if Py.contains "r(?:ev)?" pattern || Py.contains "revision" pattern then
    let revision :=
      if truthy (group groups 0) then Py.int (text (group groups 0)) else 0%N in
    (2%N, 0%N, 0%N, revision)
  else
    let major :=
      if truthy (group groups 0) then Py.int (text (group groups 0)) else 0%N in
    let minor :=
      if (1 <? length groups) && truthy (group groups 1)
      then Py.int (text (group groups 1)) else 0%N in
    let patch :=
      if (2 <? length groups) && truthy (group groups 2)
      then Py.int (text (group groups 2)) else 0%N in
    (2%N, major, minor, patch).

(** The loop over a list of version patterns: the first one that matches
    decides. *)
Fixpoint detect_version_in (patterns : list string) (filename : string) : version :=
  match patterns with
  | [] => default_version
  | pattern :: patterns' =>
      match Re.search pattern filename Re.IGNORECASE with
      | Some match_ => version_of_groups pattern (Re.m_groups match_)
      | None => detect_version_in patterns' filename
      end
  end.

(** [detect_version(filename)]. *)
Definition detect_version (filename : string) : version :=
  detect_version_in version_patterns filename.

(** [detect_version] as the call behaves: the [ValueError] of the first
    conversion that fails, or the tuple.  [detect_version] above is the
    tuple returned when the call returns. *)
Definition and_then {A B : Type} (x : string + A) (k : A -> string + B)
  : string + B :=
  match x with
  | inl e => inl e
  | inr a => k a
  end.

Definition version_of_groups_checked (pattern : string)
    (groups : list (option string)) : string + version :=
  if Py.contains "(alpha|beta)" pattern then
    let version_type := Py.lower (text (group groups 0)) in
    and_then
      (if (1 <? length groups) && truthy (group groups 1)
       then Py.int_checked (text (group groups 1)) else inr 0%N)
      (fun major =>
    and_then
      (if (2 <? length groups) && truthy (group groups 2)
       then Py.int_checked (text (group groups 2)) else inr 0%N)
      (fun minor =>
    let type_priority := if String.eqb version_type "alpha" then 0%N else 1%N in
    inr (type_priority, major, minor, 0%N)))
  else if Py.contains "r(?:ev)?" pattern || Py.contains "revision" pattern then
    and_then
      (if truthy (group groups 0)
       then Py.int_checked (text (group groups 0)) else inr 0%N)
      (fun revision =>
    inr (2%N, 0%N, 0%N, revision))
  else
    and_then
      (if truthy (group groups 0)
       then Py.int_checked (text (group groups 0)) else inr 0%N)
      (fun major =>
    and_then
      (if (1 <? length groups) && truthy (group groups 1)
       then Py.int_checked (text (group groups 1)) else inr 0%N)
      (fun minor =>
    and_then
      (if (2 <? length groups) && truthy (group groups 2)
       then Py.int_checked (text (group groups 2)) else inr 0%N)
      (fun patch =>
    inr (2%N, major, minor, patch)))).

Fixpoint detect_version_checked_in (patterns : list string) (filename : string)
  : string + version :=
  match patterns with
  | [] => inr default_version
  | pattern :: patterns' =>
      match Re.search pattern filename Re.IGNORECASE with
      | Some match_ => version_of_groups_checked pattern (Re.m_groups match_)
      | None => detect_version_checked_in patterns' filename
      end
  end.

Definition detect_version_checked (filename : string) : string + version :=
  detect_version_checked_in version_patterns filename.

Definition compare_versions (version1 version2 : version) : bool :=
  let '(a1, b1, c1, d1) := version1 in
  let '(a2, b2, c2, d2) := version2 in
  match (a1 ?= a2)%N with
  | Gt => true
  | Lt => false
  | Eq =>
      match (b1 ?= b2)%N with
      | Gt => true
      | Lt => false
      | Eq =>
          match (c1 ?= c2)%N with
          | Gt => true
          | Lt => false
          | Eq => (d2 <? d1)%N
          end
      end
  end.

(** *** Formats and the best copy of a group *)

Definition is_save_state (filename : string) : bool :=
  Py.mem (Py.lower (Path.suffix filename)) save_state_extensions.

(** [d.get(key, 0)] on a dictionary literal: the last binding of a key is
    the one that counts. *)
Definition dict_get (d : list (string * nat)) (key : string) : nat :=
  fold_left (fun found (kv : string * nat) =>
               if String.eqb (fst kv) key then snd kv else found) d 0.

Definition get_format_preference (filename : string) : nat :=
  let ext := Py.lower (Path.suffix filename) in
  dict_get format_preference ext.

(** [max(items, key=key)]: the first item whose key is not exceeded. *)
Definition max_by {A K : Type} (gt : K -> K -> bool) (key : A -> K)
    (items : list A) : option A :=
  match items with
  | [] => None
  | x :: xs =>
      Some (fold_left (fun best y => if gt (key y) (key best) then y else best)
                      xs x)
  end.

Definition get_best_format_rom (rom_files : list string) : option string :=
  if is_empty rom_files then None
  else
    let actual_roms :=
      filter (fun rom => negb (is_save_state (Path.name rom))) rom_files in
    if is_empty actual_roms then None
    else max_by (fun a b => b <? a)
                (fun rom => get_format_preference (Path.name rom)) actual_roms.

(** The order of the keys [(version, format preference)]. *)
Definition version_key_gt (k1 k2 : version * nat) : bool :=
  compare_versions (fst k1) (fst k2)
  || (if compare_versions (fst k2) (fst k1) then false else snd k2 <? snd k1).

Definition get_best_version_rom (rom_files : list string) : option string :=
  if is_empty rom_files then None
  else
    let actual_roms :=
      filter (fun rom => negb (is_save_state (Path.name rom))) rom_files in
    if is_empty actual_roms then None
    else max_by version_key_gt
                (fun rom => (detect_version (Path.name rom),
                             get_format_preference (Path.name rom)))
                actual_roms.

(** *** Kinds of files *)

Definition is_rom_file (filename : string) : bool :=
  Py.mem (Py.lower (Path.suffix filename)) rom_extensions.

Definition is_multi_file_format (filename : string) : bool :=
  Py.mem (Py.lower (Path.suffix filename)) multi_file_extensions.

(** What the file system answers about [folder_path]: it is no directory,
    listing it raises [PermissionError] or [OSError], or it has the given
    children, each with the answer of its [is_file()]. *)
Inductive folder : Type :=
| NotDirectory
| Unlistable
| Children (items : list (string * bool)).

(** The six counters of [is_folder_based_game]. *)
Record file_counts : Type := Counts {
  chd_count : nat;
  cue_count : nat;
  bin_count : nat;
  zip_count : nat;
  iso_count : nat;
  m3u_count : nat
}.

(** The body of the loop over the children. *)
Definition count_file (c : file_counts) (item : string * bool) : file_counts :=
  let (file_path, is_file) := item in
  if is_file then
    let ext := Py.lower (Path.suffix file_path) in
    if String.eqb ext ".chd" then
      Counts (chd_count c + 1) (cue_count c) (bin_count c) (zip_count c)
             (iso_count c) (m3u_count c)
    else if String.eqb ext ".cue" then
      Counts (chd_count c) (cue_count c + 1) (bin_count c) (zip_count c)
             (iso_count c) (m3u_count c)
    else if String.eqb ext ".bin" then
      Counts (chd_count c) (cue_count c) (bin_count c + 1) (zip_count c)
             (iso_count c) (m3u_count c)
    else if String.eqb ext ".zip" then
      Counts (chd_count c) (cue_count c) (bin_count c) (zip_count c + 1)
             (iso_count c) (m3u_count c)
    else if String.eqb ext ".iso" then
      Counts (chd_count c) (cue_count c) (bin_count c) (zip_count c)
             (iso_count c + 1) (m3u_count c)
    else if String.eqb ext ".m3u" then
      Counts (chd_count c) (cue_count c) (bin_count c) (zip_count c)
             (iso_count c) (m3u_count c + 1)
    else c
  else c.

Definition is_folder_based_game (folder_path : folder) : bool :=
  match folder_path with
  | NotDirectory => false
  | Unlistable => false
  | Children items =>
      let c := fold_left count_file items (Counts 0 0 0 0 0 0) in
      if 2 <=? chd_count c then true
      else if 2 <=? cue_count c then true
      else if (1 <=? cue_count c) && (1 <=? bin_count c) then true
      else if (1 <=? chd_count c) && (1 <=? zip_count c) then true
      else if 2 <=? iso_count c then true
      else if (1 <=? m3u_count c)
              && ((1 <=? chd_count c) || (1 <=? cue_count c)
                  || (1 <=? iso_count c)) then true
      else false
  end.

(** *** Grouping *)

(** [d[key].append(x)] where a missing key starts an empty list; the
    dictionary keeps its keys in the order of their first insertion. *)
Fixpoint dict_append {A : Type} (key : string) (x : A)
    (d : list (string * list A)) : list (string * list A) :=
  match d with
  | [] => [(key, [x])]
  | (k, xs) :: d' =>
      if String.eqb k key then (k, xs ++ [x]) :: d'
      else (k, xs) :: dict_append key x d'
  end.

(** The key [f"{base_name}__v{version[0]}.{version[1]}.{version[2]}.{version[3]}"]. *)
Definition version_key (base_name : string) (version : version) : string :=
  let '(v0, v1, v2, v3) := version in
  (base_name ++ "__v" ++ Py.str_N v0 ++ "." ++ Py.str_N v1 ++ "."
   ++ Py.str_N v2 ++ "." ++ Py.str_N v3)%string.

Definition group_roms_by_base_and_version (rom_files : list string)
  : list (string * list string) :=
  fold_left
    (fun groups rom_file =>
       if is_save_state (Path.name rom_file) then groups
       else
         let base_name := get_base_filename (Path.name rom_file) in
         let version := detect_version (Path.name rom_file) in
         dict_append (version_key base_name version) rom_file groups)
    rom_files [].

(** The grouping by base name shared by the duplicate handlers:
    [base_names[self.get_base_filename(rom_file.name)].append(rom_file)]. *)
Definition group_by_base_name (rom_files : list string)
  : list (string * list string) :=
  fold_left
    (fun base_names rom_file =>
       dict_append (get_base_filename (Path.name rom_file)) rom_file base_names)
    rom_files [].

(** *** Priority of a region *)

(** [l.index(x)], or [None] where it raises [ValueError]. *)
Fixpoint index (x : string) (l : list string) : option nat :=
  match l with
  | [] => None
  | y :: l' => if String.eqb y x then Some 0 else option_map S (index x l')
  end.

(** The rank of a region in [handle_duplicate_regions]: its position in
    the priority list, or the length of the list when it is not there. *)
Definition priority_of (self : ROMAnalyzer) (primary_region : string) : nat :=
  match index primary_region (region_priority self) with
  | Some priority => priority
  | None => length (region_priority self)
  end.

(** ** Moving files

    The file system is the list of the paths that exist, together with the
    lines printed so far.  Whether a move fails is up to the environment:
    [move_error] gives the exception that [shutil.move] raises, if any. *)

Module Colors.
Definition ESC : string := String (ascii_of_nat 27) EmptyString.
Definition RED : string := (ESC ++ "[91m")%string.
Definition RESET : string := (ESC ++ "[0m")%string.
Definition GREEN : string := (ESC ++ "[92m")%string.
Definition YELLOW : string := (ESC ++ "[93m")%string.
Definition CYAN : string := (ESC ++ "[96m")%string.
Definition WHITE : string := (ESC ++ "[97m")%string.
Definition BLUE : string := (ESC ++ "[94m")%string.
Definition MAGENTA : string := (ESC ++ "[95m")%string.
Definition BRIGHT_RED : string := (ESC ++ "[91;1m")%string.
Definition BRIGHT_GREEN : string := (ESC ++ "[92;1m")%string.
Definition BRIGHT_YELLOW : string := (ESC ++ "[93;1m")%string.
Definition BRIGHT_BLUE : string := (ESC ++ "[94;1m")%string.
Definition BRIGHT_MAGENTA : string := (ESC ++ "[95;1m")%string.
Definition BRIGHT_CYAN : string := (ESC ++ "[96;1m")%string.
Definition BOLD : string := (ESC ++ "[1m")%string.
Definition DIM : string := (ESC ++ "[2m")%string.
Definition UNDERLINE : string := (ESC ++ "[4m")%string.
Definition BG_RED : string := (ESC ++ "[41m")%string.
Definition BG_GREEN : string := (ESC ++ "[42m")%string.
Definition BG_YELLOW : string := (ESC ++ "[43m")%string.
Definition BG_BLUE : string := (ESC ++ "[44m")%string.

(** The characters of a bracketed range [lo-hi]. *)
Definition range (lo hi : ascii) : list ascii :=
  map ascii_of_nat (seq (nat_of_ascii lo) (S (nat_of_ascii hi) - nat_of_ascii lo)).

(** The pattern compiled in [strip_colors], written as the expression it
    denotes, since ranges and hexadecimal escapes are outside what
    [Re.compile] reads: the escape character, then either one character
    from [@] to [Z] or from the backslash to [_], or an opening bracket,
    characters from [0] to [?], characters from the space to [/], and one
    character from [@] to [~]. *)
Definition ansi_escape : Re.pattern :=
  Re.Pattern
    (Re.Seq (Re.Atom (Re.CChar (ascii_of_nat 27)))
       (Re.Alt (Re.Atom (Re.CSet false (range "@" "Z" ++ range "\" "_")))
               (Re.Seq (Re.Atom (Re.CChar "["))
                  (Re.Seq (Re.Rep (Re.CSet false (range "0" "?")) false true)
                     (Re.Seq (Re.Rep (Re.CSet false (range " " "/")) false true)
                             (Re.Atom (Re.CSet false (range "@" "~"))))))))
    0.

(** [ansi_escape.sub('', text)]. *)
Definition strip_colors (text : string) : string :=
  Re.sub_tokens "" (Re.scan Re.NOFLAG ansi_escape 0 0 None text).
End Colors.

Record World : Type := MkWorld {
  files : list string;
  stdout : list string
}.

Definition path_exists (w : World) (p : string) : bool := Py.mem p (files w).

Definition print (line : string) (w : World) : World :=
  MkWorld (files w) (stdout w ++ [line]).

(** The destination after [counter - 1] renamings. *)
Definition renamed (original_dest : string) (counter : nat) : string :=
  let stem := Path.stem original_dest in
  let suffix := Path.suffix original_dest in
  Path.join (Path.parent original_dest)
            (stem ++ "_" ++ Py.str counter ++ suffix)%string.

(** [while destination.exists(): ...]: the loop leaves as soon as the
    destination is free, which happens within [S (length (files w))]
    rounds since the file system is finite. *)
Fixpoint free_destination (rounds : nat) (w : World) (original_dest : string)
    (counter : nat) (destination : string) : string :=
  if path_exists w destination then
    match rounds with
    | 0 => destination
    | S rounds' =>
        free_destination rounds' w original_dest (S counter)
                         (renamed original_dest counter)
    end
  else destination.

Definition error_line (name e : string) : string :=
  (Colors.RED ++ "Error moving " ++ name ++ ": " ++ e ++ Colors.RESET)%string.

Section Moves.

Variable move_error : list string -> string -> string -> option string.

(** [shutil.move(src, dst)]: the exception raised, or the new file system. *)
Definition shutil_move (w : World) (src dst : string) : string + World :=
  match move_error (files w) src dst with
  | Some e => inl e
  | None =>
      inr (MkWorld (dst :: filter (fun f => negb (String.eqb f src)) (files w))
                   (stdout w))
  end.

(** The [try] statement shared by the bulk operations: choose a free
    destination, move, and report a failure instead of propagating it.
    The result tells whether the file was moved. *)
Definition try_move (w : World) (rom_file destination_folder : string)
  : bool * World :=
  let destination := Path.join destination_folder (Path.name rom_file) in
  let original_dest := destination in
  let destination :=
    free_destination (S (length (files w))) w original_dest 1 destination in
  match shutil_move w rom_file destination with
  | inr w' => (true, w')
  | inl e => (false, print (error_line (Path.name rom_file) e) w)
  end.

(** The test of [move_files_by_criteria] for one file. *)
Definition should_move_by (self : ROMAnalyzer)
    (criteria_type criteria_value rom_file : string) : bool * ROMAnalyzer :=
  if String.eqb criteria_type "region" then
    let (regions, self) := detect_regions self (Path.name rom_file) in
    (Py.mem criteria_value regions, self)
  else if String.eqb criteria_type "special" then
    let (specials, self) := detect_special_versions self (Path.name rom_file) in
    (Py.mem criteria_value specials, self)
  else if String.eqb criteria_type "unknown_region" then
    let (regions, self) := detect_regions self (Path.name rom_file) in
    (Py.mem "Unknown" regions, self)
  else (false, self).

(** The body of the loop of [move_files_by_criteria]; the state is the
    list of the names moved so far, the analyzer and the file system. *)
Definition by_criteria_step
    (criteria_type criteria_value destination_folder : string)
    (state : list string * ROMAnalyzer * World) (rom_file : string)
  : list string * ROMAnalyzer * World :=
  let '(moved_files, self, w) := state in
  let (should_move, self) :=
    should_move_by self criteria_type criteria_value rom_file in
  if should_move then
    let (moved, w) := try_move w rom_file destination_folder in
    (if moved then moved_files ++ [Path.name rom_file] else moved_files,
     self, w)
  else (moved_files, self, w).

Definition move_files_by_criteria (self : ROMAnalyzer) (w : World)
    (rom_files : list string)
    (criteria_type criteria_value destination_folder : string)
  : list string * ROMAnalyzer * World :=
  fold_left (by_criteria_step criteria_type criteria_value destination_folder)
            rom_files ([], self, w).

Definition keep_regions : list string := ["USA"; "Europe"; "Japan"; "World"].

(** The body of the loop of [move_files_keep_main_regions]. *)
Definition keep_main_regions_step (destination_folder : string)
    (state : list string * ROMAnalyzer * World) (rom_file : string)
  : list string * ROMAnalyzer * World :=
  let '(moved_files, self, w) := state in
  let (regions, self) := detect_regions self (Path.name rom_file) in
  let should_move :=
    negb (existsb (fun region => Py.mem region keep_regions) regions) in
  if should_move then
    let (moved, w) := try_move w rom_file destination_folder in
    (if moved then moved_files ++ [Path.name rom_file] else moved_files,
     self, w)
  else (moved_files, self, w).

Definition move_files_keep_main_regions (self : ROMAnalyzer) (w : World)
    (rom_files : list string) (destination_folder : string)
  : list string * ROMAnalyzer * World :=
  fold_left (keep_main_regions_step destination_folder) rom_files ([], self, w).

End Moves.

(** ** Operations that create folders, and the duplicate handlers

    A call returns a value or lets an exception escape; either way it
    leaves an analyzer and a file system behind. *)

Inductive result (A : Type) : Type :=
| Returned (value : A) (self : ROMAnalyzer) (w : World)
| Raised (e : string) (self : ROMAnalyzer) (w : World).

Arguments Returned {A} value self w.
Arguments Raised {A} e self w.

Definition action (A : Type) : Type := ROMAnalyzer -> World -> result A.

Definition ret {A : Type} (value : A) : action A :=
  fun self w => Returned value self w.

Definition raise {A : Type} (e : string) : action A :=
  fun self w => Raised e self w.

Definition bind {A B : Type} (m : action A) (k : A -> action B) : action B :=
  fun self w =>
    match m self w with
    | Returned value self' w' => k value self' w'
    | Raised e self' w' => Raised e self' w'
    end.

Declare Scope action_scope.
Delimit Scope action_scope with action.
Bind Scope action_scope with action.

Notation "x <- m ;; k" := (bind m (fun x => k))
  (at level 61, m at next level, right associativity) : action_scope.
Notation "' pat <- m ;; k" := (bind m (fun pat => k))
  (at level 61, pat pattern, m at next level, right associativity)
  : action_scope.
Notation "m ;; k" := (bind m (fun _ => k))
  (at level 61, right associativity) : action_scope.

Local Open Scope action_scope.

(** [for x in items: ...], the variables assigned in the body being the
    state of the loop. *)
Fixpoint for_each {A S : Type} (items : list A) (body : S -> A -> action S)
    (state : S) : action S :=
  match items with
  | [] => ret state
  | x :: items' => bind (body state x) (for_each items' body)
  end.

(** [print(line)]. *)
Definition say (line : string) : action unit :=
  fun self w => Returned tt self (print line w).

(** [self.detect_special_versions(filename)] and
    [self.get_primary_region(filename)]. *)
Definition special_versions_of (filename : string) : action (list string) :=
  fun self w =>
    let (specials, self') := detect_special_versions self filename in
    Returned specials self' w.

Definition primary_region_of (filename : string) : action string :=
  fun self w =>
    let (primary_region, self') := get_primary_region self filename in
    Returned primary_region self' w.

(** [self.detect_version(filename)], which lets the [ValueError] of [int]
    escape. *)
Definition version_of (filename : string) : action version :=
  fun self w =>
    match detect_version_checked filename with
    | inr version => Returned version self w
    | inl e => Raised e self w
    end.

(** The rank of a region, read off [self.region_priority]. *)
Definition priority_index (primary_region : string) : action nat :=
  fun self w => Returned (priority_of self primary_region) self w.

Definition created_line (folder_name : string) : string :=
  (Colors.GREEN ++ "Created folder: " ++ Colors.WHITE ++ folder_name
   ++ Colors.RESET)%string.

(** [region_folder_mapping] of [organize_roms_by_region]. *)
Definition region_folder_mapping : list (string * string) :=
  [ ("USA", "USA"); ("Europe", "Europe"); ("Japan", "Japan"); ("Asia", "Asia");
    ("Australia", "Australia"); ("Brazil", "Brazil"); ("Canada", "Canada");
    ("China", "China"); ("France", "France"); ("Germany", "Germany");
    ("Italy", "Italy"); ("Korea", "Korea"); ("Netherlands", "Netherlands");
    ("Spain", "Spain"); ("Sweden", "Sweden"); ("Taiwan", "Taiwan");
    ("UK", "UK"); ("World", "World") ].

(** [d[key]], or [None] where it raises [KeyError]. *)
Fixpoint subscript (d : list (string * string)) (key : string) : option string :=
  match d with
  | [] => None
  | (k, v) :: d' =>
      match subscript d' key with
      | Some v' => Some v'
      | None => if String.eqb k key then Some v else None
      end
  end.

(** Equality of version tuples, for [set(versions_found)]. *)
Definition version_eqb (v1 v2 : version) : bool :=
  let '(a1, b1, c1, d1) := v1 in
  let '(a2, b2, c2, d2) := v2 in
  (a1 =? a2)%N && (b1 =? b2)%N && (c1 =? c2)%N && (d1 =? d2)%N.

(** [len(set(versions))]. *)
Fixpoint distinct_versions (versions : list version) : nat :=
  match versions with
  | [] => 0
  | v :: versions' =>
      if existsb (version_eqb v) versions' then distinct_versions versions'
      else S (distinct_versions versions')
  end.

(** The line printed for an older version that was moved. *)
Definition older_version_line (rom_file best_rom : string) : string :=
  let '(_, old1, old2, old3) := detect_version (Path.name rom_file) in
  let '(_, new1, new2, new3) := detect_version (Path.name best_rom) in
  ("  Moved older version: " ++ Path.name rom_file ++ " (v" ++ Py.str_N old1
   ++ "." ++ Py.str_N old2 ++ "." ++ Py.str_N old3 ++ ") -> kept "
   ++ Path.name best_rom ++ " (v" ++ Py.str_N new1 ++ "." ++ Py.str_N new2
   ++ "." ++ Py.str_N new3 ++ ")")%string.

(** [priority < best_priority], where [best_priority] starts as
    [float('inf')], here [None]. *)
Definition below (priority : nat) (best_priority : option nat) : bool :=
  match best_priority with
  | None => true
  | Some best => priority <? best
  end.

Section Operations.

Variable move_error : list string -> string -> string -> option string.
Variable mkdir_error : list string -> string -> option string.

(** [Path(p).mkdir(exist_ok=True)]: the exception is up to the environment;
    without one the folder exists afterwards. *)
Definition mkdir (p : string) : action unit :=
  fun self w =>
    match mkdir_error (files w) (Path.path p) with
    | Some e => Raised e self w
    | None =>
        Returned tt self
          (MkWorld (if path_exists w (Path.path p) then files w
                    else Path.path p :: files w)
                   (stdout w))
    end.

(** The [try] statement around [shutil.move]. *)
Definition move (rom_file destination_folder : string) : action bool :=
  fun self w =>
    let (moved, w') := try_move move_error w rom_file destination_folder in
    Returned moved self w'.

Definition move_all_special_versions (rom_files : list string)
    (destination_folder : string) : action (list string) :=
  for_each rom_files
    (fun moved_files rom_file =>
       specials <- special_versions_of (Path.name rom_file) ;;
       if negb (is_empty specials) then
         moved <- move rom_file destination_folder ;;
         ret (if moved then moved_files ++ [Path.name rom_file]
              else moved_files)
       else ret moved_files)
    [].

Definition move_casino_games (rom_files : list string)
    (destination_folder : string) : action (list string * bool) :=
  for_each rom_files
    (fun '(moved_files, casino_folder_created) rom_file =>
       if is_casino_game (Path.name rom_file) then
         casino_folder_created <-
           (if negb casino_folder_created then
              mkdir destination_folder ;;
              say (created_line destination_folder) ;;
              ret true
            else ret casino_folder_created) ;;
         moved <- move rom_file destination_folder ;;
         ret (if moved then moved_files ++ [Path.name rom_file]
              else moved_files,
              casino_folder_created)
       else ret (moved_files, casino_folder_created))
    ([], false).

Definition move_adult_games (rom_files : list string)
    (destination_folder : string) : action (list string * bool) :=
  for_each rom_files
    (fun '(moved_files, adult_folder_created) rom_file =>
       if is_adult_game (Path.name rom_file) then
         adult_folder_created <-
           (if negb adult_folder_created then
              mkdir destination_folder ;;
              say (created_line destination_folder) ;;
              ret true
            else ret adult_folder_created) ;;
         moved <- move rom_file destination_folder ;;
         ret (if moved then moved_files ++ [Path.name rom_file]
              else moved_files,
              adult_folder_created)
       else ret (moved_files, adult_folder_created))
    ([], false).

Definition move_beta_proto_games (rom_files : list string)
    (destination_folder : string) : action (list string * bool) :=
  for_each rom_files
    (fun '(moved_files, folder_created) rom_file =>
       specials <- special_versions_of (Path.name rom_file) ;;
       if existsb (fun special => Py.mem special ["Beta"; "Proto"; "Alpha"])
                  specials then
         folder_created <-
           (if negb folder_created then
              mkdir destination_folder ;;
              say (created_line destination_folder) ;;
              ret true
            else ret folder_created) ;;
         moved <- move rom_file destination_folder ;;
         ret (if moved then moved_files ++ [Path.name rom_file]
              else moved_files,
              folder_created)
       else ret (moved_files, folder_created))
    ([], false).

Definition organize_roms_by_region (rom_files : list string)
    (exclude_usa : bool) : action (list (string * string) * list string) :=
  for_each rom_files
    (fun '(moved_files, region_folders_created) rom_file =>
       primary_region <- primary_region_of (Path.name rom_file) ;;
       if exclude_usa && String.eqb primary_region "USA" then
         ret (moved_files, region_folders_created)
       else
         let target_region :=
           if Py.mem primary_region (map fst region_folder_mapping)
           then Some primary_region else None in
         match target_region with
         | Some target_region =>
             if negb (String.eqb target_region "") then
               match subscript region_folder_mapping target_region with
               | None => raise ("'" ++ target_region ++ "'")%string
               | Some folder_name =>
                   region_folders_created <-
                     (if negb (Py.mem folder_name region_folders_created) then
                        mkdir folder_name ;;
                        say (created_line folder_name) ;;
                        ret (set_add folder_name region_folders_created)
                      else ret region_folders_created) ;;
                   moved <- move rom_file folder_name ;;
                   ret (if moved
                        then moved_files ++ [(Path.name rom_file, folder_name)]
                        else moved_files,
                        region_folders_created)
               end
             else ret (moved_files, region_folders_created)
         | None => ret (moved_files, region_folders_created)
         end)
    ([], []).

Definition move_inferior_format_duplicates (rom_files : list string)
    (destination_folder : string) : action (list string) :=
  let base_names := group_by_base_name rom_files in
  for_each base_names
    (fun moved_files '(base_name, files) =>
       let rom_files_only :=
         filter (fun f => negb (is_save_state (Path.name f))) files in
       if 1 <? length rom_files_only then
         match get_best_format_rom files with
         | Some best_rom =>
             for_each rom_files_only
               (fun moved_files rom_file =>
                  if negb (Path.eqb rom_file best_rom) then
                    moved <- move rom_file destination_folder ;;
                    ret (if moved then moved_files ++ [Path.name rom_file]
                         else moved_files)
                  else ret moved_files)
               moved_files
         | None => ret moved_files
         end
       else ret moved_files)
    [].

(** The versions are detected outside the [try] statement, so a
    [ValueError] of [detect_version] escapes.  The later calls of
    [detect_version], in [get_best_version_rom] and for the line printed,
    are on names converted before, and return. *)
Definition move_older_version_duplicates (rom_files : list string)
    (destination_folder : string) : action (list string) :=
  let base_names := group_by_base_name rom_files in
  for_each base_names
    (fun moved_files '(base_name, files) =>
       let rom_files_only :=
         filter (fun f => negb (is_save_state (Path.name f))) files in
       if 1 <? length rom_files_only then
         versions_found <-
           for_each rom_files_only
             (fun versions_found rom_file =>
                version <- version_of (Path.name rom_file) ;;
                ret (versions_found ++ [version]))
             [] ;;
         if 1 <? distinct_versions versions_found then
           match get_best_version_rom rom_files_only with
           | Some best_rom =>
               for_each rom_files_only
                 (fun moved_files rom_file =>
                    if negb (Path.eqb rom_file best_rom) then
                      moved <- move rom_file destination_folder ;;
                      if moved then
                        say (older_version_line rom_file best_rom) ;;
                        ret (moved_files ++ [Path.name rom_file])
                      else ret moved_files
                    else ret moved_files)
                 moved_files
           | None => ret moved_files
           end
         else ret moved_files
       else ret moved_files)
    [].

Definition handle_duplicate_regions (rom_files : list string)
  : action (list string) :=
  let delete_folder := "ROM_DELETE" in
  mkdir delete_folder ;;
  let base_names := group_by_base_name rom_files in
  for_each base_names
    (fun moved_files '(base_name, files) =>
       let rom_files_only :=
         filter (fun f => negb (is_save_state (Path.name f))) files in
       if 1 <? length rom_files_only then
         '(best_rom, best_priority) <-
           for_each rom_files_only
             (fun '(best_rom, best_priority) rom_file =>
                primary_region <- primary_region_of (Path.name rom_file) ;;
                priority <- priority_index primary_region ;;
                if below priority best_priority
                then ret (Some rom_file, Some priority)
                else ret (best_rom, best_priority))
             (None, None) ;;
         match best_rom with
         | Some best_rom =>
             for_each rom_files_only
               (fun moved_files rom_file =>
                  if negb (Path.eqb rom_file best_rom) then
                    moved <- move rom_file delete_folder ;;
                    ret (if moved then moved_files ++ [Path.name rom_file]
                         else moved_files)
                  else ret moved_files)
               moved_files
         | None => ret moved_files
         end
       else ret moved_files)
    [].

End Operations.

Local Close Scope action_scope.

(** * Notions used in the statements and in the proofs *)

(** ** Regions, versions and moves *)

(** The keys of [region_patterns], in the order of the table. *)
Definition region_names : list string := map fst region_patterns.

(** The patterns of one region. *)
Definition patterns_of (region : string) : list string :=
  flat_map (fun entry : string * list string =>
              if String.eqb (fst entry) region then snd entry else [])
           region_patterns.

(** The three groups of [version_patterns], in the order of the list:
    six standard patterns, four revision patterns, two alpha/beta
    patterns. *)
Definition standard_patterns : list string := firstn 6 version_patterns.
Definition revision_patterns : list string := firstn 4 (skipn 6 version_patterns).
Definition alpha_beta_patterns : list string := skipn 10 version_patterns.

(** The numbers of a standard marker, and the number of a revision marker. *)
Definition number (groups : list (option string)) (i : nat) : N :=
  if (i <? length groups) && truthy (group groups i)
  then Py.int (text (group groups i)) else 0%N.

(** Whether a file is selected depends on its name only. *)
Definition selected_by (criteria_type criteria_value rom_file : string) : bool :=
  fst (should_move_by new_analyzer criteria_type criteria_value rom_file).

(** What happened to one selected file: the exception, if any. *)
Definition outcome : Type := (string * option string)%type.

Definition moved_ok (o : outcome) : bool :=
  match snd o with None => true | Some _ => false end.

Definition reported (o : outcome) : list string :=
  match snd o with
  | Some e => [error_line (Path.name (fst o)) e]
  | None => []
  end.

(** No region of the file is one of the four main regions. *)
Definition outside_main_regions (filename : string) : bool :=
  negb (existsb (fun region => Py.mem region keep_regions)
                (fst (detect_regions new_analyzer filename))).

(** ** Removal patterns and tags

    The structural characters are the parentheses, the brackets and the
    path separator. *)

Definition is_bracketed_pattern (pattern : string) : bool :=
  (Py.startswith pattern "\(" && Py.endswith pattern "\)")
  || (Py.startswith pattern "\[" && Py.endswith pattern "\]").

(** The patterns whose matches [get_base_filename] removes. *)
Definition removal_patterns : list string :=
  filter is_bracketed_pattern (flat_map snd region_patterns)
  ++ flat_map snd special_patterns ++ version_patterns.

(** Something is left in a name for the passes to remove: a match of a
    removal pattern, or an empty pair of parentheses or brackets. *)
Definition leftover (name : string) : bool :=
  any_match removal_patterns name
  || Re.found "\s*\(\s*\)" name Re.NOFLAG
  || Re.found "\s*\[\s*\]" name Re.NOFLAG.

(** The characters that delimit tags and path components. *)
Definition is_open (c : ascii) : bool := Ascii.eqb c "(" || Ascii.eqb c "[".
Definition is_close (c : ascii) : bool := Ascii.eqb c ")" || Ascii.eqb c "]".
Definition structural (c : ascii) : bool :=
  is_open c || is_close c || Ascii.eqb c "/".

(** No structural character. *)
Fixpoint struct_free (s : string) : bool :=
  match s with
  | EmptyString => true
  | String c s' => negb (structural c) && struct_free s'
  end.

(** No structural character, except for a closing parenthesis or bracket
    at the very end. *)
Fixpoint inner_ok (s : string) : bool :=
  match s with
  | EmptyString => true
  | String c EmptyString => negb (structural c) || is_close c
  | String c s' => negb (structural c) && inner_ok s'
  end.

(** A body without structural character, then a closing parenthesis or
    bracket. *)
Fixpoint body_close (s : string) : bool :=
  match s with
  | EmptyString => false
  | String c EmptyString => is_close c
  | String c s' => negb (structural c) && body_close s'
  end.

(** A parenthesised or bracketed group: an opening character, a body
    without structural character, a closing character. *)
Definition is_tag (t : string) : bool :=
  match t with
  | String o s => is_open o && body_close s
  | EmptyString => false
  end.

(** The pattern matches at the start of the text. *)
Definition hits (pattern t : string) : bool :=
  negb (is_empty (Re.matches_at Re.IGNORECASE (Re.compiled pattern) None t)).

(** Every way the pattern matches at the start of the text takes all of
    it. *)
Definition wholly (pattern t : string) : bool :=
  forallb (fun st => String.eqb (Re.rest st) EmptyString)
          (Re.matches_at Re.IGNORECASE (Re.compiled pattern) None t).

(** A tag that [get_base_filename] strips: some removal pattern matches it,
    and the removal patterns match it as a whole or not at all. *)
Definition strippable (t : string) : bool :=
  is_tag t
  && existsb (fun pattern => hits pattern t) removal_patterns
  && forallb (fun pattern => wholly pattern t) removal_patterns.

(** A title followed by tags, each after one space. *)
Fixpoint decorate (tags : list string) : string :=
  match tags with
  | [] => EmptyString
  | t :: tags' => (" " ++ t ++ decorate tags')%string
  end.

(** A title: not empty, without parenthesis, bracket, slash or dot. *)
Definition plain_title (title : string) : bool :=
  negb (String.eqb title EmptyString)
  && struct_free title && negb (Py.contains_char "." title).

(** An extension, written without its dot. *)
Definition plain_extension (ext : string) : bool :=
  negb (String.eqb ext EmptyString)
  && negb (Py.contains_char "." ext) && negb (Py.contains_char "/" ext).

(** What a pass leaves of a tag. *)
Definition pass (pattern : string) (tags : list string) : list string :=
  map (fun t => if hits pattern t then EmptyString else t) tags.

(** A strippable tag, or what is left of it once it is stripped. *)
Definition tag_or_gone (t : string) : Prop :=
  t = EmptyString \/ strippable t = true.

(** ** The words of a pattern and the shape of the removal patterns *)

(** Every character of the text is in the set. *)
Fixpoint all_match (ic : bool) (a : Re.cset) (u : string) : bool :=
  match u with
  | EmptyString => true
  | String c u' => Re.cset_match ic a c && all_match ic a u'
  end.

(** The words of an expression without [\b] and look-ahead. *)
Fixpoint lang (ic : bool) (r : Re.regex) (u : string) : Prop :=
  match r with
  | Re.Eps => u = EmptyString
  | Re.Atom a => exists c, u = String c EmptyString /\ Re.cset_match ic a c = true
  | Re.Rep a at_least_one _ =>
      all_match ic a u = true /\ (at_least_one = true -> u <> EmptyString)
  | Re.Opt r1 => u = EmptyString \/ lang ic r1 u
  | Re.Seq r1 r2 =>
      exists u1 u2, u = (u1 ++ u2)%string /\ lang ic r1 u1 /\ lang ic r2 u2
  | Re.Alt r1 r2 => lang ic r1 u \/ lang ic r2 u
  | Re.Group _ r1 => lang ic r1 u
  | Re.WordB => False
  | Re.NotAhead _ => False
  end.

(** The expressions without [\b] and look-ahead. *)
Fixpoint simple (r : Re.regex) : bool :=
  match r with
  | Re.Eps | Re.Atom _ | Re.Rep _ _ _ => true
  | Re.Opt r1 | Re.Group _ r1 => simple r1
  | Re.Seq r1 r2 | Re.Alt r1 r2 => simple r1 && simple r2
  | Re.WordB | Re.NotAhead _ => false
  end.

(** A one-character atom that matches no structural character. *)
Definition cset_plain (a : Re.cset) : bool :=
  match a with
  | Re.CChar x => negb (structural x)
  | Re.CDigit | Re.CSpace => true
  | Re.CAny | Re.CSet _ _ => false
  end.

(** An expression whose words have no structural character. *)
Fixpoint plain (r : Re.regex) : bool :=
  match r with
  | Re.Eps => true
  | Re.Atom a | Re.Rep a _ _ => cset_plain a
  | Re.Opt r1 | Re.Group _ r1 => plain r1
  | Re.Seq r1 r2 | Re.Alt r1 r2 => plain r1 && plain r2
  | Re.WordB | Re.NotAhead _ => false
  end.

Definition closing (r : Re.regex) : bool :=
  match r with
  | Re.Atom (Re.CChar c) => is_close c
  | _ => false
  end.

Definition is_eps (r : Re.regex) : bool :=
  match r with Re.Eps => true | _ => false end.

(** Plain parts, possibly closed by a parenthesis or a bracket. *)
Fixpoint tail (r : Re.regex) : bool :=
  match r with
  | Re.Eps => true
  | Re.Seq r1 r2 => (plain r1 && tail r2) || (closing r1 && is_eps r2)
  | _ => false
  end.

(** An opening parenthesis or bracket, then a tail. *)
Definition tagish (r : Re.regex) : bool :=
  match r with
  | Re.Seq (Re.Atom (Re.CChar o)) r' => is_open o && tail r'
  | _ => false
  end.

(** ** Texts *)

(** [re.sub(r'\s+', ' ', s)] read off the text: a run of white space
    becomes one space; [in_run] tells that the run has begun. *)
Fixpoint squeeze (in_run : bool) (s : string) : string :=
  match s with
  | EmptyString => EmptyString
  | String c s' =>
      if Py.isspace c then
        if in_run then squeeze true s' else String " " (squeeze true s')
      else String c (squeeze false s')
  end.

(** The number of white-space characters at the head of a text. *)
Fixpoint lead (s : string) : nat :=
  match s with
  | String c s' => if Py.isspace c then S (lead s') else 0
  | EmptyString => 0
  end.

(** [s[n:]]. *)
Fixpoint drop (n : nat) (s : string) : string :=
  match n, s with
  | S k, String _ s' => drop k s'
  | _, _ => s
  end.

(** The compiled form of [\s+]. *)
Definition spaces_pattern : Re.pattern :=
  Re.Pattern (Re.Seq (Re.Rep Re.CSpace true true) Re.Eps) 0.

(** White space occurs only as single spaces; [after_space] tells that the
    character before the text is a space. *)
Fixpoint single_spaced (after_space : bool) (s : string) : bool :=
  match s with
  | EmptyString => true
  | String c s' =>
      if Py.isspace c then
        Ascii.eqb c " " && negb after_space && single_spaced true s'
      else single_spaced false s'
  end.

(** The text does not begin with white space. *)
Definition starts_clean (s : string) : bool :=
  match s with
  | String c _ => negb (Py.isspace c)
  | EmptyString => true
  end.

(** [n] spaces. *)
Fixpoint spaces (n : nat) : string :=
  match n with
  | 0 => EmptyString
  | S k => String " " (spaces k)
  end.

(** No opening parenthesis or bracket. *)
Fixpoint no_open (s : string) : bool :=
  match s with
  | EmptyString => true
  | String c s' => negb (is_open c) && no_open s'
  end.

(** The character before the position reached after a text. *)
Fixpoint prev_after (pv : option ascii) (u : string) : option ascii :=
  match u with
  | EmptyString => pv
  | String c u' => prev_after (Some c) u'
  end.

(** The text produced by the substitution from a position on. *)
Definition subst_from (ic : bool) (p : Re.pattern) (repl : string)
    (pos : nat) (pv : option ascii) (s : string) : string :=
  Re.sub_tokens repl (Re.scan ic p 0 pos pv s).

(** The last character of a text, and whether it closes a tag. *)
Fixpoint last_char (s : string) : option ascii :=
  match s with
  | EmptyString => None
  | String c EmptyString => Some c
  | String _ s' => last_char s'
  end.

Definition ends_close (s : string) : bool :=
  match last_char s with Some c => is_close c | None => false end.

(** The 256 characters. *)
Definition all_ascii : list ascii := map ascii_of_nat (seq 0 256).

(** ** Folders and groups *)

(** The number of regular files among the children that have a given
    lower-cased extension. *)
Definition count_ext (ext : string) (items : list (string * bool)) : nat :=
  length (filter (fun item : string * bool =>
                    snd item && String.eqb (Py.lower (Path.suffix (fst item))) ext)
                 items).

(** [d.get(key, [])] on a dictionary of lists. *)
Fixpoint dict_lookup {A : Type} (d : list (string * list A)) (key : string)
  : list A :=
  match d with
  | [] => []
  | (k, xs) :: d' => if String.eqb k key then xs else dict_lookup d' key
  end.

(** The key under which [group_roms_by_base_and_version] files a ROM. *)
Definition version_key_of (rom_file : string) : string :=
  version_key (get_base_filename (Path.name rom_file))
              (detect_version (Path.name rom_file)).

(** ** Bulk operations *)

(** The value of a result seen through a function. *)
Definition map_result {A B : Type} (f : A -> B) (r : result A) : result B :=
  match r with
  | Returned value self w => Returned (f value) self w
  | Raised e self w => Raised e self w
  end.

(** Every path that existed and is none of the given sources still
    exists. *)
Definition untouched (sources : list string) (w w' : World) : Prop :=
  forall p, path_exists w p = true -> ~ In p sources -> path_exists w' p = true.

(** The names of the files whose move succeeded. *)
Definition names_moved (outcomes : list outcome) : list string :=
  map (fun o => Path.name (fst o)) (filter moved_ok outcomes).

(** The exception of an outcome is the one [shutil.move] raised for that
    file. *)
Definition raised_by (move_error : list string -> string -> string -> option string)
    (o : outcome) : Prop :=
  exists fs dst, move_error fs (fst o) dst = snd o.

(** What a call of [detect_special_versions] may do to the analyzer, and
    what a call of [detect_regions] may do. *)
Definition only_specials_grow (self self' : ROMAnalyzer) : Prop :=
  unknown_regions self' = unknown_regions self
  /\ region_priority self' = region_priority self
  /\ incl (unknown_specials self) (unknown_specials self').

Definition only_regions_grow (self self' : ROMAnalyzer) : Prop :=
  unknown_specials self' = unknown_specials self
  /\ region_priority self' = region_priority self
  /\ incl (unknown_regions self) (unknown_regions self').

(** The primary region of a name under a priority list. *)
Definition primary_of (priority : list string) (filename : string) : string :=
  fst (get_primary_region (Analyzer [] [] priority) filename).

(** [set(l)], in the order of the first occurrences. *)
Definition distinct (l : list string) : list string :=
  fold_left (fun seen x => set_add x seen) l [].

(** The tests of the bulk operations, as functions of the file. *)
Definition has_special_tag (rom_file : string) : bool :=
  negb (is_empty (fst (detect_special_versions new_analyzer (Path.name rom_file)))).

Definition is_beta_proto (rom_file : string) : bool :=
  existsb (fun special => Py.mem special ["Beta"; "Proto"; "Alpha"])
          (fst (detect_special_versions new_analyzer (Path.name rom_file))).

Section Selecting.

Variable move_error : list string -> string -> string -> option string.
Variable mkdir_error : list string -> string -> option string.

(** The loop common to the operations that move the files passing a test,
    after creating the folder when [creates] is set. *)
Definition selective_move (probe : string -> action bool) (creates : bool)
    (rom_files : list string) (destination_folder : string)
  : action (list string * bool) :=
  for_each rom_files
    (fun '(moved_files, created) rom_file =>
       bind (probe rom_file) (fun selected =>
         if selected then
           bind (if creates && negb created then
                   bind (mkdir mkdir_error destination_folder) (fun _ =>
                   bind (say (created_line destination_folder)) (fun _ =>
                   ret true))
                 else ret created) (fun created =>
           bind (move move_error rom_file destination_folder) (fun moved =>
           ret (if moved then moved_files ++ [Path.name rom_file]
                else moved_files,
                created)))
         else ret (moved_files, created)))
    ([], false).

End Selecting.

(** ** The calls of a bulk operation *)

(** The destinations tried for a file moved into a folder: the name of the
    file in the folder, then [stem_1.ext], [stem_2.ext], ... *)
Definition candidate (destination_folder rom_file : string) (k : nat) : string :=
  let original_dest := Path.join destination_folder (Path.name rom_file) in
  match k with
  | 0 => original_dest
  | S _ => renamed original_dest k
  end.

(** The first of them that does not exist. *)
Definition first_free (fs : list string)
    (destination_folder rom_file destination : string) : Prop :=
  exists k,
    destination = candidate destination_folder rom_file k
    /\ Py.mem destination fs = false
    /\ forall j, j < k ->
                 Py.mem (candidate destination_folder rom_file j) fs = true.

(** What an operation asks of its environment: the creation of a folder,
    the move of a file into a folder together with the exception that
    [shutil.move] answered, if any, and a line printed. *)
Inductive call : Type :=
| Mkdir (folder_name : string)
| Move (rom_file destination_folder : string) (e : option string)
| Print (line : string).

(** The calls of one [try] statement for a file: the move and, when it
    raised, the report. *)
Definition attempt (destination_folder : string) (o : outcome) : list call :=
  Move (fst o) destination_folder (snd o) :: map Print (reported o).

(** The calls of [organize_roms_by_region] for a list of attempts, given
    the folders made so far: a folder is made, and the line about it
    printed, before the first attempt that needs it. *)
Fixpoint sorting_calls (folder_of : string -> string) (created : list string)
    (outcomes : list outcome) : list call :=
  match outcomes with
  | [] => []
  | o :: outcomes' =>
      let folder_name := folder_of (fst o) in
      (if Py.mem folder_name created then []
       else [Mkdir folder_name; Print (created_line folder_name)])
      ++ attempt folder_name o
      ++ sorting_calls folder_of (set_add folder_name created) outcomes'
  end.

Section Environment.

Variable move_error : list string -> string -> string -> option string.
Variable mkdir_error : list string -> string -> option string.

(** A call that returns, between the file system before and after it.
    [Mkdir] did not raise and the folder exists afterwards; [Move] is given
    the first free destination in the folder, its exception is the one of
    the environment for this very call, and without exception the file is
    at the destination and no longer at its source, all else being as
    before. *)
Definition performs (c : call) (w w' : World) : Prop :=
  match c with
  | Mkdir folder_name =>
      mkdir_error (files w) (Path.path folder_name) = None
      /\ stdout w' = stdout w
      /\ forall p,
           path_exists w' p
           = (String.eqb p (Path.path folder_name) || path_exists w p)
  | Move rom_file destination_folder e =>
      exists destination,
        first_free (files w) destination_folder rom_file destination
        /\ move_error (files w) rom_file destination = e
        /\ match e with
           | Some _ => w' = w
           | None =>
               stdout w' = stdout w
               /\ forall p,
                    path_exists w' p
                    = (String.eqb p destination
                       || (path_exists w p && negb (String.eqb p rom_file)))
           end
  | Print line => w' = print line w
  end.

(** A sequence of calls, one after the other. *)
Fixpoint run (calls : list call) (w w' : World) : Prop :=
  match calls with
  | [] => w' = w
  | c :: calls' => exists w1, performs c w w1 /\ run calls' w1 w'
  end.

End Environment.

(** ** Duplicate handlers *)

(** The files of a group that are no save states. *)
Definition roms_only (files : list string) : list string :=
  filter (fun f => negb (is_save_state (Path.name f))) files.

(** The base name under which a file is grouped. *)
Definition base_of (rom_file : string) : string :=
  get_base_filename (Path.name rom_file).

(** The files of a group that a duplicate handler tries to move, given the
    file [pick] chooses to keep. *)
Definition victims (pick : list string -> list string -> option string)
    (group : string * list string) : list string :=
  let rom_files_only := roms_only (snd group) in
  if 1 <? length rom_files_only then
    match pick (snd group) rom_files_only with
    | Some best_rom =>
        filter (fun rom_file => negb (Path.eqb rom_file best_rom)) rom_files_only
    | None => []
    end
  else [].

(** The file kept by [move_older_version_duplicates]. *)
Definition newest_version (files rom_files_only : list string) : option string :=
  if 1 <? distinct_versions
            (map (fun rom_file => detect_version (Path.name rom_file))
                 rom_files_only)
  then get_best_version_rom rom_files_only else None.

(** The file kept by [handle_duplicate_regions]: the loop that looks for
    the best rank, as a function of the ranks. *)
Definition best_ranked (rank : string -> nat) (files rom_files_only : list string)
  : option string :=
  fst (fold_left
         (fun (state : option string * option nat) rom_file =>
            if below (rank rom_file) (snd state)
            then (Some rom_file, Some (rank rom_file)) else state)
         rom_files_only (None, None)).

(** The rank of a file under the priority of an analyzer. *)
Definition rank_of (self : ROMAnalyzer) (rom_file : string) : nat :=
  priority_of self (primary_of (region_priority self) (Path.name rom_file)).

(** The files that share the base name of a file. *)
Definition copies (rom_files : list string) (rom_file : string) : list string :=
  filter (fun other => String.eqb (base_of other) (base_of rom_file)) rom_files.

(** A file beats another when its version is newer or, the versions being
    equal, its format preference is higher: the order of the keys of
    [get_best_version_rom]. *)
Definition beats (rom other : string) : Prop :=
  compare_versions (detect_version (Path.name rom))
                   (detect_version (Path.name other)) = true
  \/ (detect_version (Path.name rom) = detect_version (Path.name other)
      /\ get_format_preference (Path.name other)
         < get_format_preference (Path.name rom)).

Section Deduplicating.

Variable move_error : list string -> string -> string -> option string.

(** The loop common to the duplicate handlers: in every group with more
    than one ROM, all but the file kept are moved. *)
Definition dedupe (choose : list string -> list string -> action (option string))
    (on_moved : string -> string -> action unit)
    (rom_files : list string) (destination_folder : string)
  : action (list string) :=
  for_each (group_by_base_name rom_files)
    (fun moved_files (group : string * list string) =>
       let rom_files_only := roms_only (snd group) in
       if 1 <? length rom_files_only then
         bind (choose (snd group) rom_files_only) (fun best_rom =>
           match best_rom with
           | Some best_rom =>
               for_each rom_files_only
                 (fun moved_files rom_file =>
                    if negb (Path.eqb rom_file best_rom) then
                      bind (move move_error rom_file destination_folder)
                        (fun moved =>
                           if moved then
                             bind (on_moved rom_file best_rom) (fun _ =>
                             ret (moved_files ++ [Path.name rom_file]))
                           else ret moved_files)
                    else ret moved_files)
                 moved_files
           | None => ret moved_files
           end)
       else ret moved_files)
    [].

End Deduplicating.

(** ** Colour codes *)

(** The constants of the class [Colors]. *)
Definition color_codes : list string :=
  [ Colors.RED; Colors.GREEN; Colors.YELLOW; Colors.BLUE; Colors.MAGENTA;
    Colors.CYAN; Colors.WHITE; Colors.BRIGHT_RED; Colors.BRIGHT_GREEN;
    Colors.BRIGHT_YELLOW; Colors.BRIGHT_BLUE; Colors.BRIGHT_MAGENTA;
    Colors.BRIGHT_CYAN; Colors.BOLD; Colors.DIM; Colors.UNDERLINE;
    Colors.RESET; Colors.BG_RED; Colors.BG_GREEN; Colors.BG_YELLOW;
    Colors.BG_BLUE ].

(** A text put together from pieces, each a colour code ([true]) or text
    without colour ([false]); the text of its colourless pieces; and the
    condition that the pieces are what they are marked as. *)
Definition colored (pieces : list (bool * string)) : string :=
  fold_right (fun (piece : bool * string) acc => (snd piece ++ acc)%string)
             EmptyString pieces.

Definition uncolored (pieces : list (bool * string)) : string :=
  colored (filter (fun piece : bool * string => negb (fst piece)) pieces).

Definition well_colored (pieces : list (bool * string)) : Prop :=
  Forall (fun piece : bool * string =>
            if fst piece then In (snd piece) color_codes
            else Py.contains_char (ascii_of_nat 27) (snd piece) = false)
         pieces.

(** * Properties *)

(** ** The pattern tables

    Every pattern of the analyzer lies in the supported fragment. *)

Lemma pattern_tables_compile :
  forallb (fun src => match Re.compile src with Some _ => true | None => false end)
          (flat_map snd region_patterns ++ flat_map snd special_patterns
           ++ translation_patterns ++ language_code_patterns
           ++ casino_game_patterns ++ casino_exclusion_patterns
           ++ adult_game_patterns ++ adult_exclusion_patterns
           ++ version_patterns
           ++ ["[\(\[](.*?)[\)\]]"; "\(([^)]+)\)"; "\[([^\]]+)\]";
               "\s*\(\s*\)"; "\s*\[\s*\]"; "\s+"])
  = true.
Proof. vm_compute. reflexivity. Qed.

(** ** Lists, loops and strings *)

Lemma mem_In (x : string) (l : list string) : Py.mem x l = true <-> In x l.
Proof.
  unfold Py.mem. rewrite existsb_exists. split.
  - intros [y [Hy Heq]]. apply String.eqb_eq in Heq. now subst.
  - intros H. exists x. split; [assumption | apply String.eqb_refl].
Qed.

Lemma mem_false (x : string) (l : list string) : Py.mem x l = false <-> ~ In x l.
Proof.
  rewrite <- mem_In. destruct (Py.mem x l); split; intro H; congruence.
Qed.

(** A property kept by every round of a loop holds when the loop ends. *)
Lemma fold_left_invariant {A B : Type} (P : A -> Prop) (f : A -> B -> A)
    (l : list B) :
  (forall a x, In x l -> P a -> P (f a x)) ->
  forall a, P a -> P (fold_left f l a).
Proof.
  induction l as [|x l IH]; intros Hstep a Ha; simpl.
  - exact Ha.
  - apply IH.
    + intros a' y Hy. apply Hstep. now right.
    + apply Hstep; [now left | exact Ha].
Qed.

Lemma fold_left_same {A B : Type} (f g : A -> B -> A) (l : list B) :
  (forall a x, f a x = g a x) -> forall a, fold_left f l a = fold_left g l a.
Proof.
  intro H. induction l as [|x l IH]; intro a; simpl.
  - reflexivity.
  - now rewrite H, IH.
Qed.

(** A loop that appends the selected entries computes a filter. *)
Lemma fold_left_append_filter {A B : Type} (sel : B -> bool) (g : B -> A)
    (l : list B) (init : list A) :
  fold_left (fun acc x => if sel x then acc ++ [g x] else acc) l init
  = init ++ map g (filter sel l).
Proof.
  revert init. induction l as [|x l IH]; intro init; simpl.
  - now rewrite app_nil_r.
  - rewrite IH. destruct (sel x); simpl.
    + now rewrite <- app_assoc.
    + reflexivity.
Qed.

Lemma NoDup_map_filter {A B : Type} (g : A -> B) (sel : A -> bool) (l : list A) :
  NoDup (map g l) -> NoDup (map g (filter sel l)).
Proof.
  induction l as [|x l IH]; simpl; intro H.
  - constructor.
  - inversion H as [|? ? Hnotin Hnd]; subst.
    destruct (sel x); simpl.
    + constructor.
      * intro Hin. apply Hnotin. apply in_map_iff in Hin.
        destruct Hin as [y [Hy Hin]]. apply filter_In in Hin.
        apply in_map_iff. exists y. tauto.
      * now apply IH.
    + now apply IH.
Qed.

(** ** Regions *)

Lemma region_names_NoDup : NoDup region_names.
Proof.
  unfold region_names.
  repeat (constructor; [simpl; intuition discriminate|]). constructor.
Qed.

Lemma whole_name_regions_filter (filename : string) :
  whole_name_regions filename
  = map fst (filter (fun entry : string * list string =>
                       any_match (snd entry) filename) region_patterns).
Proof.
  unfold whole_name_regions.
  rewrite <- (app_nil_l (map fst _)).
  rewrite <- (fold_left_append_filter
                (fun entry : string * list string => any_match (snd entry) filename)
                fst region_patterns []).
  apply fold_left_same. intros acc [region patterns]. reflexivity.
Qed.

Lemma add_part_regions_inv (part : string) (regions : list string) :
  incl regions region_names -> NoDup regions ->
  incl (add_part_regions part regions) region_names
  /\ NoDup (add_part_regions part regions).
Proof.
  intros Hincl Hnd. unfold add_part_regions.
  apply (fold_left_invariant
           (fun rs => incl rs region_names /\ NoDup rs)); [|tauto].
  intros rs [region patterns] Hin [Hi Hn].
  destruct (any_match patterns (parens part)); [|tauto].
  destruct (Py.mem region rs) eqn:Hmem; [tauto|].
  apply mem_false in Hmem. split.
  - apply incl_app; [assumption|].
    intros r [<-|[]]. apply in_map_iff. now exists (region, patterns).
  - apply NoDup_app; auto.
    + repeat constructor. simpl. tauto.
    + intros r Hr [<-|[]]. contradiction.
Qed.

Lemma comma_separated_regions_inv (filename : string) :
  incl (comma_separated_regions filename) region_names
  /\ NoDup (comma_separated_regions filename).
Proof.
  unfold comma_separated_regions.
  apply (fold_left_invariant
           (fun rs => incl rs region_names /\ NoDup rs)).
  - intros rs match_ _ Hrs.
    apply (fold_left_invariant
             (fun rs => incl rs region_names /\ NoDup rs)); [|assumption].
    intros rs' part _ [Hi Hn].
    destruct (is_language_code part); [tauto|].
    now apply add_part_regions_inv.
  - split; [intros r []|constructor].
Qed.

(** Every region found is a key of the region table, and none is found
    twice. *)
Lemma found_regions_inv (filename : string) :
  incl (found_regions filename) region_names /\ NoDup (found_regions filename).
Proof.
  unfold found_regions.
  destruct (is_empty (comma_separated_regions filename)).
  - rewrite whole_name_regions_filter. split.
    + intros r Hr. apply in_map_iff in Hr. destruct Hr as [e [<- He]].
      apply filter_In in He. apply in_map. tauto.
    + apply NoDup_map_filter. exact region_names_NoDup.
  - apply comma_separated_regions_inv.
Qed.

Lemma is_empty_true {A : Type} (l : list A) : is_empty l = true <-> l = [].
Proof. destruct l; simpl; split; intro H; congruence. Qed.

Lemma list_eqb_true (l1 l2 : list string) : list_eqb l1 l2 = true <-> l1 = l2.
Proof.
  unfold list_eqb. destruct (list_eq_dec string_dec l1 l2); split; congruence.
Qed.

(** The regions returned do not depend on the accumulators. *)
Lemma detect_regions_fst (self : ROMAnalyzer) (filename : string) :
  fst (detect_regions self filename) = fst (detect_regions new_analyzer filename).
Proof. reflexivity. Qed.

(** The translation rule and the default, as a function of the regions
    found. *)
Lemma detect_regions_cases (self : ROMAnalyzer) (filename : string) :
  let found := found_regions filename in
  let others := filter (fun r => negb (String.eqb r "Japan")) found in
  fst (detect_regions self filename)
  = if has_translation filename && Py.mem "Japan" found then
      if Py.mem "USA" others then others else others ++ ["USA"]
    else if is_empty found then ["USA"] else found.
Proof.
  intros found others. unfold detect_regions. simpl fst.
  fold found. fold others.
  assert (Hunknown : list_eqb found ["Unknown"] = false).
  { destruct (list_eqb found ["Unknown"]) eqn:E; [|reflexivity].
    apply list_eqb_true in E.
    destruct (found_regions_inv filename) as [Hincl _]. fold found in Hincl.
    assert (Hin : In "Unknown" region_names) by (apply Hincl; rewrite E; now left).
    simpl in Hin. intuition discriminate. }
  destruct (has_translation filename); simpl.
  - destruct (Py.mem "Japan" found) eqn:Hj.
    + destruct (Py.mem "USA" others) eqn:Hu.
      * apply mem_In in Hu. destruct others as [|o os]; [destruct Hu|].
        simpl. destruct (list_eqb (o :: os) ["Unknown"]) eqn:E; [|reflexivity].
        apply list_eqb_true in E. rewrite E in Hu.
        simpl in Hu. intuition discriminate.
      * destruct (others ++ ["USA"]) as [|o os] eqn:Happ.
        { now destruct others. }
        simpl. destruct (list_eqb (o :: os) ["Unknown"]) eqn:E; [|reflexivity].
        apply list_eqb_true in E. rewrite E in Happ.
        destruct others as [|o' [|o'' os']]; simpl in Happ; discriminate.
    + rewrite Hunknown, orb_false_r.
      destruct found; simpl; [reflexivity|].
      simpl in Hunknown. now rewrite Hunknown.
  - rewrite Hunknown, orb_false_r. reflexivity.
Qed.

(** C6: [detect_regions] never returns an empty list, and returns exactly
    [["USA"]] when the two detection passes found no region. *)
Theorem detect_regions_nonempty (self : ROMAnalyzer) (filename : string) :
  fst (detect_regions self filename) <> []
  /\ (found_regions filename = [] ->
      fst (detect_regions self filename) = ["USA"]).
Proof.
  rewrite detect_regions_cases. split.
  - destruct (has_translation filename && Py.mem "Japan" (found_regions filename)).
    + destruct (Py.mem "USA" _) eqn:Hu.
      * apply mem_In in Hu. intro E. rewrite E in Hu. destruct Hu.
      * intro E. now destruct (filter _ _).
    + destruct (found_regions filename); simpl; discriminate.
  - intro E. rewrite E. simpl. now rewrite andb_false_r.
Qed.

Lemma detect_regions_nonempty_witness :
  found_regions "Game.zip" = []
  /\ fst (detect_regions new_analyzer "Game.zip") = ["USA"].
Proof.
  split.
  - vm_compute. reflexivity.
  - apply (proj2 (detect_regions_nonempty new_analyzer "Game.zip")).
    vm_compute. reflexivity.
Defined.

(** Every region returned is a key of the region table. *)
Lemma detect_regions_known (self : ROMAnalyzer) (filename : string) :
  incl (fst (detect_regions self filename)) region_names.
Proof.
  rewrite detect_regions_cases.
  destruct (found_regions_inv filename) as [Hincl _].
  assert (Husa : In "USA" region_names) by (simpl; tauto).
  assert (Hothers : incl (filter (fun r => negb (String.eqb r "Japan"))
                                 (found_regions filename)) region_names).
  { intros r Hr. apply filter_In in Hr. apply Hincl. tauto. }
  destruct (has_translation filename && Py.mem "Japan" (found_regions filename)).
  - destruct (Py.mem "USA" _); [assumption|].
    apply incl_app; [assumption|]. intros r [<-|[]]. assumption.
  - destruct (is_empty (found_regions filename)); [|assumption].
    intros r [<-|[]]. assumption.
Qed.

Lemma NoDup_all_equal (a : string) (l : list string) :
  NoDup l -> (forall x, In x l -> x = a) -> l = [] \/ l = [a].
Proof.
  intros Hnd Hall. destruct l as [|x [|y l]].
  - now left.
  - right. f_equal. apply Hall. now left.
  - exfalso. inversion Hnd as [|? ? Hnotin _]; subst. apply Hnotin.
    rewrite (Hall x), (Hall y); simpl; tauto.
Qed.

(** C3, as stated, fails: a Japan marker together with a translation marker
    in a name that also names Asia yields Asia and USA. *)
Lemma japan_translation_keeps_asia :
  let filename := "Game (Japan, Asia) [T+Eng].zip" in
  any_match (patterns_of "Japan") filename = true
  /\ has_translation filename = true
  /\ In "Japan" (found_regions filename)
  /\ fst (detect_regions new_analyzer filename) = ["Asia"; "USA"]
  /\ fst (detect_regions new_analyzer filename) <> ["USA"].
Proof.
  vm_compute. repeat split; try reflexivity; [tauto | discriminate].
Qed.

(** C3, amended: when a translation marker is present and Japan was
    detected, the result never contains Japan and always contains USA; the
    other regions detected are kept, so the result is exactly [["USA"]]
    precisely when no region other than Japan and USA was detected. *)
Theorem japan_translation_becomes_usa (self : ROMAnalyzer) (filename : string) :
  has_translation filename = true ->
  In "Japan" (found_regions filename) ->
  let regions := fst (detect_regions self filename) in
  ~ In "Japan" regions
  /\ In "USA" regions
  /\ (forall r, r <> "USA" ->
        (In r regions <-> In r (found_regions filename) /\ r <> "Japan"))
  /\ (regions = ["USA"] <->
      forall r, In r (found_regions filename) -> r = "Japan" \/ r = "USA").
Proof.
  intros Htr Hjp regions. subst regions. rewrite detect_regions_cases.
  apply mem_In in Hjp. rewrite Htr, Hjp. simpl andb. cbv iota.
  destruct (found_regions_inv filename) as [_ Hnd].
  set (found := found_regions filename) in *.
  set (others := filter (fun r => negb (String.eqb r "Japan")) found).
  assert (Hothers : forall r, In r others <-> In r found /\ r <> "Japan").
  { intro r. unfold others. rewrite filter_In.
    destruct (String.eqb_spec r "Japan"); simpl; intuition congruence. }
  assert (Hres : forall r,
             In r (if Py.mem "USA" others then others else others ++ ["USA"])
             <-> In r others \/ r = "USA").
  { intro r. destruct (Py.mem "USA" others) eqn:Hu.
    - apply mem_In in Hu. intuition (subst; assumption).
    - rewrite in_app_iff. simpl. intuition congruence. }
  repeat split.
  - intro Hin. apply Hres in Hin. destruct Hin as [Hin|Hin]; [|discriminate].
    apply Hothers in Hin. tauto.
  - apply Hres. now right.
  - apply Hres in H0. destruct H0 as [H0|H0]; [apply Hothers in H0; tauto|congruence].
  - apply Hres in H0. destruct H0 as [H0|H0]; [apply Hothers in H0; tauto|congruence].
  - intro Hin. apply Hres. left. now apply Hothers.
  - intros E r Hr. destruct (String.eqb_spec r "Japan") as [|Hne]; [now left|].
    right. assert (Hin : In r others) by (apply Hothers; tauto).
    assert (Hin' : In r ["USA"]) by (rewrite <- E; apply Hres; now left).
    destruct Hin' as [<-|[]]. reflexivity.
  - intro Hall.
    assert (Hou : forall x, In x others -> x = "USA").
    { intros x Hx. apply Hothers in Hx. destruct Hx as [Hx Hne].
      destruct (Hall x Hx); congruence. }
    assert (Hndo : NoDup others) by (apply NoDup_filter; exact Hnd).
    destruct (NoDup_all_equal "USA" others Hndo Hou) as [E|E]; rewrite E; reflexivity.
Qed.

Lemma japan_translation_becomes_usa_witness :
  fst (detect_regions new_analyzer "Game (Japan) [T+Eng].zip") = ["USA"].
Proof.
  apply (japan_translation_becomes_usa new_analyzer "Game (Japan) [T+Eng].zip").
  - vm_compute. reflexivity.
  - vm_compute. tauto.
  - vm_compute. intros r [<-|[]]. now left.
Defined.

(** ** Content classes *)

Lemma any_match_Exists (patterns : list string) (text : string) :
  any_match patterns text = true
  <-> Exists (fun pattern => Re.found pattern text Re.IGNORECASE = true) patterns.
Proof.
  unfold any_match. rewrite existsb_exists, Exists_exists. reflexivity.
Qed.

(** C7: in [is_casino_game] and [is_adult_game] an exclusion pattern that
    matches the lower-cased stem forces the answer [false], whatever the
    positive patterns do; the answer is [true] exactly when no exclusion
    pattern matches and some positive pattern does. *)
Theorem exclusion_takes_precedence (filename : string) :
  let name := Py.lower (Path.stem filename) in
  let matches pattern := Re.found pattern name Re.IGNORECASE = true in
  (Exists matches casino_exclusion_patterns -> is_casino_game filename = false)
  /\ (is_casino_game filename = true <->
      ~ Exists matches casino_exclusion_patterns
      /\ Exists matches casino_game_patterns)
  /\ (Exists matches adult_exclusion_patterns -> is_adult_game filename = false)
  /\ (is_adult_game filename = true <->
      ~ Exists matches adult_exclusion_patterns
      /\ Exists matches adult_game_patterns).
Proof.
  intros name matches. unfold is_casino_game, is_adult_game. fold name.
  unfold matches. repeat rewrite <- any_match_Exists.
  destruct (any_match casino_exclusion_patterns name),
           (any_match adult_exclusion_patterns name);
    intuition congruence.
Qed.

Lemma exclusion_takes_precedence_witness :
  is_casino_game "Pokemon Poker (USA).zip" = false
  /\ is_adult_game "Mario Strip Poker.zip" = false.
Proof.
  split.
  - apply (exclusion_takes_precedence "Pokemon Poker (USA).zip").
    apply any_match_Exists. vm_compute. reflexivity.
  - apply (exclusion_takes_precedence "Mario Strip Poker.zip").
    apply any_match_Exists. vm_compute. reflexivity.
Defined.

(** ** Versions *)

Lemma version_patterns_families :
  version_patterns = standard_patterns ++ revision_patterns ++ alpha_beta_patterns.
Proof. reflexivity. Qed.

(** The loop returns at the first pattern that matches. *)
Lemma detect_version_in_first (ps qs : list string) (filename : string) :
  any_match ps filename = true ->
  exists pattern match_,
    In pattern ps
    /\ Re.search pattern filename Re.IGNORECASE = Some match_
    /\ detect_version_in (ps ++ qs) filename
       = version_of_groups pattern (Re.m_groups match_).
Proof.
  induction ps as [|p ps IH]; simpl; [discriminate|].
  unfold Re.found at 1.
  destruct (Re.search p filename Re.IGNORECASE) as [m|] eqn:E; simpl.
  - intros _. exists p, m. tauto.
  - intro H. destruct (IH H) as [p' [m' [Hin [Hs Hv]]]].
    exists p', m'. tauto.
Qed.

Lemma detect_version_in_skip (ps qs : list string) (filename : string) :
  any_match ps filename = false ->
  detect_version_in (ps ++ qs) filename = detect_version_in qs filename.
Proof.
  induction ps as [|p ps IH]; simpl; [reflexivity|].
  unfold Re.found at 1.
  destruct (Re.search p filename Re.IGNORECASE); simpl; [discriminate|exact IH].
Qed.

Lemma version_of_standard (pattern : string) (groups : list (option string)) :
  In pattern standard_patterns ->
  version_of_groups pattern groups
  = (2%N, (if truthy (group groups 0) then Py.int (text (group groups 0)) else 0%N),
     number groups 1, number groups 2).
Proof.
  intro H. simpl in H.
  repeat (destruct H as [<-|H]; [reflexivity|]). destruct H.
Qed.

Lemma version_of_revision (pattern : string) (groups : list (option string)) :
  In pattern revision_patterns ->
  version_of_groups pattern groups
  = (2%N, 0%N, 0%N,
     (if truthy (group groups 0) then Py.int (text (group groups 0)) else 0%N)).
Proof.
  intro H. simpl in H.
  repeat (destruct H as [<-|H]; [reflexivity|]). destruct H.
Qed.

(** C1, as stated, fails: with both a beta marker and a numeric marker the
    tuple comes from the numeric marker. *)
Lemma numeric_marker_beats_beta :
  let filename := "Game (beta 2) (v1.0).zip" in
  any_match alpha_beta_patterns filename = true
  /\ any_match standard_patterns filename = true
  /\ detect_version filename = (2, 1, 0, 0)%N
  /\ detect_version "Game (beta 2).zip" = (1, 2, 0, 0)%N.
Proof. vm_compute. repeat split; reflexivity. Qed.

Lemma version_of_alpha_beta (pattern : string) (groups : list (option string)) :
  In pattern alpha_beta_patterns ->
  version_of_groups pattern groups
  = ((if String.eqb (Py.lower (text (group groups 0))) "alpha" then 0%N else 1%N),
     number groups 1, number groups 2, 0%N).
Proof.
  intro H. simpl in H.
  repeat (destruct H as [<-|H]; [reflexivity|]). destruct H.
Qed.

(** C1, amended: the patterns are tried in the order of the table, the
    standard numeric ones first, then the revisions, then alpha/beta, and
    the first that matches decides.  So whenever a standard numeric marker
    is present, with or without an alpha/beta marker, the tuple is built
    from it and has release stage 2; a revision marker decides when no
    standard one is present; an alpha/beta marker, giving stage 0 or 1,
    decides only when neither is present; otherwise the tuple is the
    default. *)
Theorem detect_version_order (filename : string) :
  (any_match standard_patterns filename = true ->
   exists pattern match_,
     In pattern standard_patterns
     /\ Re.search pattern filename Re.IGNORECASE = Some match_
     /\ detect_version filename
        = (2%N,
           (if truthy (group (Re.m_groups match_) 0)
            then Py.int (text (group (Re.m_groups match_) 0)) else 0%N),
           number (Re.m_groups match_) 1, number (Re.m_groups match_) 2))
  /\ (any_match standard_patterns filename = false ->
      any_match revision_patterns filename = true ->
      exists pattern match_,
        In pattern revision_patterns
        /\ Re.search pattern filename Re.IGNORECASE = Some match_
        /\ detect_version filename
           = (2%N, 0%N, 0%N,
              (if truthy (group (Re.m_groups match_) 0)
               then Py.int (text (group (Re.m_groups match_) 0)) else 0%N)))
  /\ (any_match standard_patterns filename = false ->
      any_match revision_patterns filename = false ->
      any_match alpha_beta_patterns filename = true ->
      exists pattern match_,
        In pattern alpha_beta_patterns
        /\ Re.search pattern filename Re.IGNORECASE = Some match_
        /\ detect_version filename
           = ((if String.eqb (Py.lower (text (group (Re.m_groups match_) 0)))
                             "alpha" then 0%N else 1%N),
              number (Re.m_groups match_) 1, number (Re.m_groups match_) 2,
              0%N))
  /\ (any_match version_patterns filename = false ->
      detect_version filename = default_version).
Proof.
  unfold detect_version. rewrite version_patterns_families.
  repeat split.
  - intro H.
    destruct (detect_version_in_first standard_patterns
                (revision_patterns ++ alpha_beta_patterns) filename H)
      as [p [m [Hin [Hs Hv]]]].
    exists p, m. repeat split; try assumption.
    rewrite Hv. now apply version_of_standard.
  - intros Hstd H. rewrite (detect_version_in_skip _ _ _ Hstd).
    destruct (detect_version_in_first revision_patterns alpha_beta_patterns
                filename H) as [p [m [Hin [Hs Hv]]]].
    exists p, m. repeat split; try assumption.
    rewrite Hv. now apply version_of_revision.
  - intros Hstd Hrev H.
    rewrite (detect_version_in_skip _ _ _ Hstd),
      (detect_version_in_skip _ _ _ Hrev).
    rewrite <- (app_nil_r alpha_beta_patterns).
    destruct (detect_version_in_first alpha_beta_patterns [] filename H)
      as [p [m [Hin [Hs Hv]]]].
    exists p, m. repeat split; try assumption.
    rewrite Hv. now apply version_of_alpha_beta.
  - intro H.
    rewrite <- (app_nil_r (standard_patterns ++ _)).
    now apply detect_version_in_skip.
Qed.

Lemma detect_version_order_witness :
  exists pattern match_,
    In pattern standard_patterns
    /\ Re.search pattern "Game (beta 2) (v1.0).zip" Re.IGNORECASE = Some match_
    /\ detect_version "Game (beta 2) (v1.0).zip"
       = (2%N,
          (if truthy (group (Re.m_groups match_) 0)
           then Py.int (text (group (Re.m_groups match_) 0)) else 0%N),
          number (Re.m_groups match_) 1, number (Re.m_groups match_) 2).
Proof.
  apply (proj1 (detect_version_order "Game (beta 2) (v1.0).zip")).
  vm_compute. reflexivity.
Defined.

(** C10: a name whose version marker is a revision gets the tuple
    [(2, 0, 0, n)], [n] being the number of the marker, which is below the
    tuple [(2, 1, 0, 0)] of a name without version marker; so
    [get_best_version_rom] prefers the copy without marker to the revision,
    in whichever order the two are listed. *)
Theorem revision_below_unversioned (rev_rom plain_rom : string) :
  any_match standard_patterns (Path.name rev_rom) = false ->
  any_match revision_patterns (Path.name rev_rom) = true ->
  any_match version_patterns (Path.name plain_rom) = false ->
  is_save_state (Path.name rev_rom) = false ->
  is_save_state (Path.name plain_rom) = false ->
  (exists pattern match_,
      In pattern revision_patterns
      /\ Re.search pattern (Path.name rev_rom) Re.IGNORECASE = Some match_
      /\ detect_version (Path.name rev_rom)
         = (2%N, 0%N, 0%N,
            (if truthy (group (Re.m_groups match_) 0)
             then Py.int (text (group (Re.m_groups match_) 0)) else 0%N)))
  /\ detect_version (Path.name plain_rom) = (2, 1, 0, 0)%N
  /\ compare_versions (detect_version (Path.name plain_rom))
                      (detect_version (Path.name rev_rom)) = true
  /\ get_best_version_rom [rev_rom; plain_rom] = Some plain_rom
  /\ get_best_version_rom [plain_rom; rev_rom] = Some plain_rom.
Proof.
  intros Hstd Hrev Hplain Hsr Hsp.
  assert (Hp : detect_version (Path.name plain_rom) = (2, 1, 0, 0)%N).
  { unfold detect_version.
    rewrite <- (app_nil_r version_patterns).
    now rewrite detect_version_in_skip. }
  destruct (detect_version_in_first revision_patterns alpha_beta_patterns
              (Path.name rev_rom) Hrev) as [p [m [Hin [Hs Hv]]]].
  assert (Hr : detect_version (Path.name rev_rom)
               = (2%N, 0%N, 0%N,
                  (if truthy (group (Re.m_groups m) 0)
                   then Py.int (text (group (Re.m_groups m) 0)) else 0%N))).
  { unfold detect_version. rewrite version_patterns_families.
    rewrite detect_version_in_skip by assumption.
    rewrite Hv. now apply version_of_revision. }
  split; [exists p, m; tauto|].
  split; [assumption|].
  unfold get_best_version_rom, max_by, version_key_gt. simpl.
  rewrite Hsr, Hsp. simpl. rewrite Hp, Hr. simpl. tauto.
Qed.

Lemma revision_below_unversioned_witness :
  get_best_version_rom ["Game (Rev 1).nes"; "Game.nes"] = Some "Game.nes".
Proof.
  apply (revision_below_unversioned "Game (Rev 1).nes" "Game.nes");
    vm_compute; reflexivity.
Defined.

(** ** Bulk moves *)

Lemma should_move_by_fst (self : ROMAnalyzer)
    (criteria_type criteria_value rom_file : string) :
  fst (should_move_by self criteria_type criteria_value rom_file)
  = selected_by criteria_type criteria_value rom_file.
Proof.
  unfold selected_by, should_move_by.
  destruct (String.eqb criteria_type "region"); [reflexivity|].
  destruct (String.eqb criteria_type "special"); [reflexivity|].
  destruct (String.eqb criteria_type "unknown_region"); reflexivity.
Qed.

Lemma detect_regions_not_nil (self : ROMAnalyzer) (filename : string) :
  fst (detect_regions self filename) <> [].
Proof.
  rewrite detect_regions_cases.
  destruct (has_translation filename && Py.mem "Japan" (found_regions filename)).
  - destruct (Py.mem "USA" _) eqn:Hu.
    + apply mem_In in Hu. intro E. rewrite E in Hu. destruct Hu.
    + intro E. now destruct (filter _ _).
  - destruct (found_regions filename); simpl; discriminate.
Qed.

Lemma unknown_not_detected (self : ROMAnalyzer) (filename : string) :
  ~ In "Unknown" (fst (detect_regions self filename)).
Proof.
  intro H. apply detect_regions_known in H. simpl in H. intuition discriminate.
Qed.

(** C9: the list returned by [detect_regions] never contains ["Unknown"];
    hence [move_files_by_criteria] with the criterion ['unknown_region']
    selects no file: it returns the empty list and leaves the files and the
    output as they were. *)
Theorem unknown_region_selects_nothing
    (move_error : list string -> string -> string -> option string)
    (self : ROMAnalyzer) (w : World) (rom_files : list string)
    (criteria_value destination_folder : string) :
  (forall filename, ~ In "Unknown" (fst (detect_regions self filename)))
  /\ fst (fst (move_files_by_criteria move_error self w rom_files
                 "unknown_region" criteria_value destination_folder)) = []
  /\ snd (move_files_by_criteria move_error self w rom_files
            "unknown_region" criteria_value destination_folder) = w.
Proof.
  split; [intro filename; apply unknown_not_detected|].
  unfold move_files_by_criteria.
  apply (fold_left_invariant
           (fun state : list string * ROMAnalyzer * World =>
              fst (fst state) = [] /\ snd state = w)); [|simpl; tauto].
  intros [[moved_files self0] w0] rom_file _ [Hm Hw]. simpl in Hm, Hw. subst.
  unfold by_criteria_step, should_move_by. simpl String.eqb. cbv iota.
  pose proof (unknown_not_detected self0 (Path.name rom_file)) as Hun.
  destruct (detect_regions self0 (Path.name rom_file)) as [regions self1].
  simpl in Hun. apply mem_false in Hun. rewrite Hun. simpl. tauto.
Qed.

(** C2, as stated, fails under a configured priority order that ranks a
    minor region first: the primary region of a USA and Asia release is then
    Asia, outside the four main regions, and yet the file is not moved. *)
Lemma primary_region_outside_but_kept :
  let self := Analyzer [] [] ["Asia"; "USA"] in
  let rom_file := "Game (USA, Asia).zip" in
  fst (get_primary_region self (Path.name rom_file)) = "Asia"
  /\ Py.mem "Asia" keep_regions = false
  /\ fst (fst (move_files_keep_main_regions (fun _ _ _ => None) self
                 (MkWorld [rom_file] []) [rom_file] "ROM_DELETE")) = [].
Proof. vm_compute. repeat split; reflexivity. Qed.

Lemma find_none_all {A : Type} (f : A -> bool) (l : list A) :
  find f l = None -> forall x, In x l -> f x = false.
Proof.
  induction l as [|y l IH]; simpl; [intros _ x []|].
  destruct (f y) eqn:E; [discriminate|].
  intros H x [<-|Hx]; auto.
Qed.

Lemma existsb_false_all {A : Type} (f : A -> bool) (l : list A) :
  existsb f l = false <-> forall x, In x l -> f x = false.
Proof.
  split.
  - intros H x Hx. destruct (f x) eqn:E; [|reflexivity].
    rewrite <- H. symmetry. apply existsb_exists. now exists x.
  - intro H. destruct (existsb f l) eqn:E; [|reflexivity].
    apply existsb_exists in E. destruct E as [x [Hx Hf]].
    rewrite (H x Hx) in Hf. discriminate.
Qed.

Lemma outside_main_regions_self (self : ROMAnalyzer) (filename : string) :
  outside_main_regions filename
  = negb (existsb (fun region => Py.mem region keep_regions)
                  (fst (detect_regions self filename))).
Proof. reflexivity. Qed.

(** Detecting regions leaves the configured priority alone. *)
Lemma detect_regions_priority (self : ROMAnalyzer) (filename : string) :
  region_priority (snd (detect_regions self filename)) = region_priority self.
Proof.
  unfold detect_regions. simpl snd.
  destruct (is_empty (found_regions filename)); [|reflexivity].
  unfold log_unknown_regions.
  apply (fold_left_invariant
           (fun s : ROMAnalyzer => region_priority s = region_priority self));
    [|reflexivity].
  intros s match_ _ Hs.
  destruct (Py.contains_char "," match_); [assumption|].
  destruct (negb (is_special_text match_) && (String.length match_ <=? 20));
    assumption.
Qed.

(** ** Substitution *)

(** A pattern that matches nowhere leaves the text as it is. *)
Lemma scan_no_match (ic : bool) (p : Re.pattern) (repl s : string) :
  forall pos pos' pv,
    Re.search_from ic p pos pv s = None ->
    Re.sub_tokens repl (Re.scan ic p 0 pos' pv s) = s.
Proof.
  induction s as [|c s IH]; intros pos pos' pv H; simpl in *.
  - destruct (Re.matches_at ic p pv ""); [reflexivity|discriminate].
  - destruct (Re.matches_at ic p pv (String c s)); [|discriminate].
    simpl. f_equal. now apply (IH (S pos)).
Qed.

Lemma sub_no_match (src repl text : string) (flags : bool) :
  Re.found src text flags = false -> Re.sub src repl text flags = text.
Proof.
  unfold Re.found, Re.sub, Re.search. intro H.
  apply (scan_no_match flags (Re.compiled src) repl text 0 0 None).
  now destruct (Re.search_from flags (Re.compiled src) 0 None text).
Qed.

(** *** Collapsing white space

    [squeeze] is [re.sub(r'\s+', ' ', s)] read off the text. *)

Lemma length_drop_lead (s : string) :
  String.length (drop (lead s) s) = String.length s - lead s.
Proof.
  induction s as [|c s IH]; simpl; [reflexivity|].
  destruct (Py.isspace c); simpl; [exact IH|reflexivity].
Qed.

Lemma lead_le (s : string) : lead s <= String.length s.
Proof.
  induction s as [|c s IH]; simpl; [lia|]. destruct (Py.isspace c); lia.
Qed.

(** The greedy repetition of [\s] first stops after the whole run. *)
Lemma rep_space_head (ic : bool) (pv : option ascii) (s : string) :
  exists pv' tl,
    Re.rep ic Re.CSpace true pv s = (pv', drop (lead s) s) :: tl.
Proof.
  revert pv. induction s as [|c s IH]; intro pv; simpl.
  - now exists pv, [].
  - destruct (Py.isspace c).
    + destruct (IH (Some c)) as [pv' [tl E]]. rewrite E.
      now exists pv', (tl ++ [(pv, String c s)]).
    + now exists pv, [].
Qed.

Lemma compiled_spaces : Re.compiled "\s+" = spaces_pattern.
Proof. reflexivity. Qed.

Lemma scan_spaces (s : string) :
  (forall pos pv,
      Re.sub_tokens " " (Re.scan false spaces_pattern 0 pos pv s)
      = squeeze false s)
  /\ (forall pos pv,
      Re.sub_tokens " " (Re.scan false spaces_pattern (lead s) pos pv s)
      = squeeze true s).
Proof.
  induction s as [|c s [IH0 IH1]].
  - split; intros; reflexivity.
  - assert (H0 : forall pos pv,
               Re.sub_tokens " " (Re.scan false spaces_pattern 0 pos pv (String c s))
               = squeeze false (String c s)).
    { intros pos pv. cbn [Re.scan squeeze].
      unfold Re.matches_at, spaces_pattern. cbn [Re.p_regex Re.matches Re.rest Re.prev Re.caps].
      cbn [Re.cset_match].
      destruct (Py.isspace c) eqn:Hc.
      - destruct (rep_space_head false (Some c) s) as [pv' [tl E]].
        rewrite E. cbn [map flat_map Re.matches app fst snd].
        unfold Re.nonempty_from. cbn [Re.rest String.length].
        rewrite length_drop_lead. pose proof (lead_le s) as Hle.
        replace (S (String.length s) - (String.length s - lead s) =? 0)
          with false by (symmetry; apply Nat.eqb_neq; lia).
        cbn [negb Re.sub_tokens fold_right].
        replace (S (String.length s) - (String.length s - lead s) - 1)
          with (lead s) by lia.
        change (fold_right _ _ ?ts) with (Re.sub_tokens " " ts).
        now rewrite IH1.
      - cbn [map flat_map]. cbn [Re.sub_tokens fold_right].
        change (fold_right _ _ ?ts) with (Re.sub_tokens " " ts).
        now rewrite IH0. }
    split; [exact H0|].
    intros pos pv. cbn [lead squeeze].
    destruct (Py.isspace c) eqn:Hc.
    + cbn [Re.scan]. apply IH1.
    + rewrite H0. cbn [squeeze]. now rewrite Hc.
Qed.

Lemma sub_spaces (s : string) : Re.sub "\s+" " " s Re.NOFLAG = squeeze false s.
Proof.
  unfold Re.sub. rewrite compiled_spaces. apply scan_spaces.
Qed.

Lemma squeeze_single_spaced (s : string) :
  forall b, single_spaced b (squeeze b s) = true.
Proof.
  induction s as [|c s IH]; intro b; simpl; [reflexivity|].
  destruct (Py.isspace c) eqn:Hc.
  - destruct b; [apply IH|]. simpl. apply IH.
  - simpl. rewrite Hc. apply IH.
Qed.

Lemma squeeze_fixed (s : string) :
  forall b, single_spaced b s = true -> squeeze b s = s.
Proof.
  induction s as [|c s IH]; intros b H; simpl in *; [reflexivity|].
  destruct (Py.isspace c).
  - apply andb_prop in H. destruct H as [H Hs].
    apply andb_prop in H. destruct H as [Hc Hb].
    apply Ascii.eqb_eq in Hc. subst c.
    destruct b; [discriminate|]. f_equal. now apply IH.
  - f_equal. now apply IH.
Qed.

Lemma single_spaced_weaken (s : string) :
  single_spaced true s = true -> single_spaced false s = true.
Proof.
  destruct s as [|c s]; simpl; [reflexivity|].
  destruct (Py.isspace c); [|trivial].
  rewrite andb_false_r. discriminate.
Qed.

Lemma rstrip_cons (c : ascii) (s : string) :
  Py.rstrip (String c s)
  = match Py.rstrip s with
    | EmptyString => if Py.isspace c then EmptyString else String c EmptyString
    | t => String c t
    end.
Proof. reflexivity. Qed.

Lemma single_spaced_rstrip (s : string) :
  forall b, single_spaced b s = true -> single_spaced b (Py.rstrip s) = true.
Proof.
  induction s as [|c s IH]; intros b H; [reflexivity|].
  rewrite rstrip_cons. simpl in H.
  destruct (Py.isspace c) eqn:Hc.
  - apply andb_prop in H. destruct H as [H Hs].
    specialize (IH true Hs).
    destruct (Py.rstrip s) as [|d t]; [reflexivity|].
    simpl. rewrite Hc, H. exact IH.
  - specialize (IH false H).
    destruct (Py.rstrip s) as [|d t]; simpl; rewrite Hc; [reflexivity|exact IH].
Qed.

Lemma rstrip_idempotent (s : string) : Py.rstrip (Py.rstrip s) = Py.rstrip s.
Proof.
  induction s as [|c s IH]; [reflexivity|].
  rewrite rstrip_cons.
  destruct (Py.rstrip s) as [|d t] eqn:E.
  - destruct (Py.isspace c) eqn:Hc; [reflexivity|].
    simpl. now rewrite Hc.
  - rewrite rstrip_cons, IH. reflexivity.
Qed.

Lemma lstrip_clean (s : string) : starts_clean s = true -> Py.lstrip s = s.
Proof.
  destruct s as [|c s]; simpl; [reflexivity|].
  now destruct (Py.isspace c).
Qed.

Lemma starts_clean_rstrip (s : string) :
  starts_clean s = true -> starts_clean (Py.rstrip s) = true.
Proof.
  destruct s as [|c s]; [reflexivity|].
  rewrite rstrip_cons. cbn [starts_clean]. intro H.
  destruct (Py.rstrip s); [|exact H].
  destruct (Py.isspace c) eqn:Hc; [reflexivity|].
  cbn [starts_clean]. now rewrite Hc.
Qed.

Lemma squeeze_true_clean (s : string) : starts_clean (squeeze true s) = true.
Proof.
  induction s as [|c s IH]; simpl; [reflexivity|].
  destruct (Py.isspace c) eqn:Hc; [exact IH|]. simpl. now rewrite Hc.
Qed.

Lemma lstrip_squeeze (s : string) : Py.lstrip (squeeze false s) = squeeze true s.
Proof.
  destruct s as [|c s]; simpl; [reflexivity|].
  destruct (Py.isspace c) eqn:Hc.
  - simpl. apply lstrip_clean, squeeze_true_clean.
  - simpl. now rewrite Hc.
Qed.

(** The last two steps of [tidy], read off the text. *)
Lemma strip_sub_spaces (s : string) :
  Py.strip (Re.sub "\s+" " " s Re.NOFLAG) = Py.rstrip (squeeze true s).
Proof.
  rewrite sub_spaces. unfold Py.strip. now rewrite lstrip_squeeze.
Qed.

(** A text that went through these two steps is left alone by them. *)
Lemma strip_sub_spaces_fixed (s : string) :
  let y := Py.rstrip (squeeze true s) in
  Py.strip (Re.sub "\s+" " " y Re.NOFLAG) = y.
Proof.
  intro y. rewrite sub_spaces.
  assert (Hss : single_spaced false y = true).
  { apply single_spaced_weaken, single_spaced_rstrip, squeeze_single_spaced. }
  rewrite (squeeze_fixed y false Hss).
  unfold Py.strip. rewrite lstrip_clean.
  - apply rstrip_idempotent.
  - apply starts_clean_rstrip, squeeze_true_clean.
Qed.

(** *** The tag-stripping passes *)

Lemma fold_left_flat_map {A B C : Type} (g : A -> C -> A) (h : B -> list C)
    (l : list B) :
  forall a,
    fold_left (fun a x => fold_left g (h x) a) l a
    = fold_left g (flat_map h l) a.
Proof.
  induction l as [|x l IH]; intro a; simpl; [reflexivity|].
  now rewrite fold_left_app, IH.
Qed.

Lemma fold_left_fixed {A B : Type} (g : A -> B -> A) (l : list B) (a : A) :
  (forall x, In x l -> g a x = a) -> fold_left g l a = a.
Proof.
  induction l as [|x l IH]; intro H; simpl; [reflexivity|].
  rewrite H by now left. apply IH. intros y Hy. apply H. now right.
Qed.

(** The three loops over the tables as one loop over [removal_patterns]. *)
Lemma remove_patterns_fold (name : string) :
  remove_version_patterns (remove_special_patterns (remove_region_patterns name))
  = fold_left (fun n pattern => Re.sub pattern "" n Re.IGNORECASE)
              removal_patterns name.
Proof.
  unfold remove_version_patterns, remove_special_patterns,
    remove_region_patterns, removal_patterns.
  rewrite !fold_left_app.
  rewrite (fold_left_flat_map
             (fun n pattern => Re.sub pattern "" n Re.IGNORECASE) snd).
  (* the region table is a constant: the loop that tests the shape of each
     pattern unfolds to the loop over the patterns that pass the test *)
  reflexivity.
Qed.

Lemma any_match_false (patterns : list string) (text : string) :
  any_match patterns text = false ->
  forall pattern, In pattern patterns ->
                  Re.found pattern text Re.IGNORECASE = false.
Proof. unfold any_match. apply existsb_false_all. Qed.

Lemma strip_tags_no_tag (name : string) :
  any_match removal_patterns name = false ->
  strip_tags name = tidy name.
Proof.
  intro H. unfold strip_tags. rewrite remove_patterns_fold.
  rewrite fold_left_fixed; [reflexivity|].
  intros p Hp. apply sub_no_match. now apply (any_match_false _ _ H).
Qed.

(** The result of the passes went through the last two steps of [tidy]. *)
Lemma strip_tags_shape (name : string) :
  exists s, strip_tags name = Py.rstrip (squeeze true s).
Proof.
  unfold strip_tags, tidy. eexists. apply strip_sub_spaces.
Qed.

Lemma tidy_fixed (s : string) :
  let y := Py.rstrip (squeeze true s) in
  Re.found "\s*\(\s*\)" y Re.NOFLAG = false ->
  Re.found "\s*\[\s*\]" y Re.NOFLAG = false ->
  tidy y = y.
Proof.
  intros y Hp Hb. unfold tidy.
  rewrite (sub_no_match _ _ _ _ Hp), (sub_no_match _ _ _ _ Hb).
  apply strip_sub_spaces_fixed.
Qed.

(** *** Names without extension *)

Lemma split_no_separator (sep : ascii) (s : string) :
  Py.contains_char sep s = false -> Py.split sep s = [s].
Proof.
  induction s as [|c s IH]; simpl; [reflexivity|].
  intro H. apply orb_false_elim in H. destruct H as [Hc Hs].
  rewrite Hc, (IH Hs). reflexivity.
Qed.

Lemma rsplit_dot_none (s : string) :
  Py.contains_char "." s = false -> Path.rsplit_dot s = None.
Proof.
  induction s as [|c s IH]; simpl; [reflexivity|].
  intro H. apply orb_false_elim in H. destruct H as [Hc Hs].
  now rewrite (IH Hs), Hc.
Qed.

Lemma name_plain (s : string) :
  Py.contains_char "." s = false -> Py.contains_char "/" s = false ->
  Path.name s = s.
Proof.
  intros Hdot Hslash. unfold Path.name, Path.parts.
  rewrite (split_no_separator _ _ Hslash). simpl.
  destruct s as [|c s]; [reflexivity|]. simpl.
  destruct s as [|d s]; [|destruct (Ascii.eqb c "."); reflexivity].
  simpl in Hdot. rewrite orb_false_r in Hdot. now rewrite Hdot.
Qed.

Lemma stem_plain (s : string) :
  Py.contains_char "." s = false -> Py.contains_char "/" s = false ->
  Path.stem s = s /\ Path.suffix s = EmptyString.
Proof.
  intros Hdot Hslash. unfold Path.stem, Path.suffix, Path.split_suffix.
  rewrite (name_plain s Hdot Hslash), (rsplit_dot_none s Hdot). now split.
Qed.

(** ** The words of a pattern

    For the patterns without [\b] and look-ahead, the matches found by the
    backtracking search are the prefixes of the text that belong to the
    language of the pattern. *)

Lemma append_assoc (a b c : string) :
  ((a ++ b) ++ c = a ++ (b ++ c))%string.
Proof. induction a as [|x a IH]; simpl; [reflexivity|now rewrite IH]. Qed.

Lemma append_nil_r (a : string) : (a ++ "")%string = a.
Proof. induction a as [|x a IH]; simpl; [reflexivity|now rewrite IH]. Qed.

Lemma length_append (a b : string) :
  String.length (a ++ b) = String.length a + String.length b.
Proof. induction a as [|x a IH]; simpl; [reflexivity|now rewrite IH]. Qed.

Lemma append_inv_head (a b c : string) :
  (a ++ b)%string = (a ++ c)%string -> b = c.
Proof.
  induction a as [|x a IH]; simpl; intro H; [exact H|].
  injection H as H. now apply IH.
Qed.

Lemma rep_self (ic : bool) (a : Re.cset) (g : bool) (p : option ascii) (s : string) :
  In (p, s) (Re.rep ic a g p s).
Proof.
  destruct s as [|c s]; simpl; [now left|].
  destruct (Re.cset_match ic a c); [|now left].
  destruct g; [apply in_or_app; right; now left|now left].
Qed.

Lemma rep_sound (ic : bool) (a : Re.cset) (g : bool) (s : string) :
  forall p p' s',
    In (p', s') (Re.rep ic a g p s) ->
    exists u, s = (u ++ s')%string /\ all_match ic a u = true.
Proof.
  induction s as [|c s IH]; intros p p' s' H; simpl in H.
  - destruct H as [H|[]]. injection H as _ <-. now exists EmptyString.
  - destruct (Re.cset_match ic a c) eqn:Hc.
    + assert (Hcases : (p', s') = (p, String c s)
                       \/ In (p', s') (Re.rep ic a g (Some c) s)).
      { destruct g.
        - apply in_app_or in H. destruct H as [H|[H|[]]]; auto.
        - destruct H as [H|H]; auto. }
      destruct Hcases as [E|Hin].
      * injection E as _ ->. now exists EmptyString.
      * destruct (IH _ _ _ Hin) as [u [-> Hu]].
        exists (String c u). simpl. now rewrite Hc, Hu.
    + destruct H as [H|[]]. injection H as _ <-. now exists EmptyString.
Qed.

Lemma rep_complete (ic : bool) (a : Re.cset) (g : bool) (u : string) :
  all_match ic a u = true ->
  forall p post, exists p', In (p', post) (Re.rep ic a g p (u ++ post)).
Proof.
  induction u as [|c u IH]; intros Hu p post; simpl in *.
  - exists p. apply rep_self.
  - apply andb_prop in Hu. destruct Hu as [Hc Hu]. rewrite Hc.
    destruct (IH Hu (Some c) post) as [p' Hin]. exists p'.
    destruct g; [apply in_or_app|right]; auto.
Qed.

Lemma matches_sound (ic : bool) (r : Re.regex) :
  simple r = true ->
  forall st st',
    In st' (Re.matches ic r st) ->
    exists u, Re.rest st = (u ++ Re.rest st')%string /\ lang ic r u.
Proof.
  induction r as [|a|a one g|r1 IH1|r1 IH1 r2 IH2|r1 IH1 r2 IH2|i r1 IH1| |r1 IH1];
    intros Hs st st' H; simpl in Hs, H |- *; try discriminate.
  - destruct H as [<-|[]]. now exists EmptyString.
  - destruct (Re.rest st) as [|c s] eqn:E; [destruct H|].
    destruct (Re.cset_match ic a c) eqn:Hc; [|destruct H].
    destruct H as [<-|[]]. exists (String c EmptyString). simpl.
    split; [reflexivity|]. now exists c.
  - apply in_map_iff in H. destruct H as [[p' s'] [<- Hin]]. simpl.
    destruct one.
    + destruct (Re.rest st) as [|c s] eqn:E; [destruct Hin|].
      destruct (Re.cset_match ic a c) eqn:Hc; [|destruct Hin].
      destruct (rep_sound _ _ _ _ _ _ _ Hin) as [u [-> Hu]].
      exists (String c u). simpl. rewrite Hc, Hu. repeat split. discriminate.
    + destruct (rep_sound _ _ _ _ _ _ _ Hin) as [u [-> Hu]].
      exists u. repeat split; [assumption|discriminate].
  - apply in_app_or in H. destruct H as [H|[<-|[]]].
    + destruct (IH1 Hs _ _ H) as [u [E Hu]]. exists u. tauto.
    + exists EmptyString. simpl. tauto.
  - apply andb_prop in Hs. destruct Hs as [Hs1 Hs2].
    apply in_flat_map in H. destruct H as [st1 [H1 H2]].
    destruct (IH1 Hs1 _ _ H1) as [u1 [E1 Hu1]].
    destruct (IH2 Hs2 _ _ H2) as [u2 [E2 Hu2]].
    exists (u1 ++ u2)%string. split.
    + now rewrite E1, E2, append_assoc.
    + now exists u1, u2.
  - apply andb_prop in Hs. destruct Hs as [Hs1 Hs2].
    apply in_app_or in H. destruct H as [H|H].
    + destruct (IH1 Hs1 _ _ H) as [u [E Hu]]. exists u. tauto.
    + destruct (IH2 Hs2 _ _ H) as [u [E Hu]]. exists u. tauto.
  - apply in_map_iff in H. destruct H as [st1 [<- H1]]. simpl.
    now apply IH1.
Qed.

Lemma matches_complete (ic : bool) (r : Re.regex) :
  simple r = true ->
  forall u, lang ic r u ->
  forall pv post cs,
    exists st', In st' (Re.matches ic r (Re.MState pv (u ++ post) cs))
                /\ Re.rest st' = post.
Proof.
  induction r as [|a|a one g|r1 IH1|r1 IH1 r2 IH2|r1 IH1 r2 IH2|i r1 IH1| |r1 IH1];
    intros Hs u Hu pv post cs; simpl in Hs, Hu |- *; try discriminate.
  - subst u. eexists. split; [now left|reflexivity].
  - destruct Hu as [c [-> Hc]]. simpl. rewrite Hc.
    eexists. split; [now left|reflexivity].
  - destruct Hu as [Hall Hne]. destruct one.
    + destruct u as [|c u]; [now destruct Hne|]. simpl in Hall |- *.
      apply andb_prop in Hall. destruct Hall as [Hc Hall]. rewrite Hc.
      destruct (rep_complete ic a g u Hall (Some c) post) as [p' Hin].
      exists (Re.MState p' post cs). split; [|reflexivity].
      apply in_map_iff. now exists (p', post).
    + destruct (rep_complete ic a g u Hall pv post) as [p' Hin].
      exists (Re.MState p' post cs). split; [|reflexivity].
      apply in_map_iff. now exists (p', post).
  - destruct Hu as [->|Hu].
    + eexists. split; [apply in_or_app; right; now left|reflexivity].
    + destruct (IH1 Hs u Hu pv post cs) as [st' [Hin E]].
      exists st'. split; [apply in_or_app; now left|assumption].
  - apply andb_prop in Hs. destruct Hs as [Hs1 Hs2].
    destruct Hu as [u1 [u2 [-> [Hu1 Hu2]]]]. rewrite append_assoc.
    destruct (IH1 Hs1 u1 Hu1 pv (u2 ++ post)%string cs) as [st1 [Hin1 E1]].
    destruct st1 as [pv1 rest1 cs1]. simpl in E1. subst rest1.
    destruct (IH2 Hs2 u2 Hu2 pv1 post cs1) as [st2 [Hin2 E2]].
    exists st2. split; [|assumption].
    apply in_flat_map. eauto.
  - apply andb_prop in Hs. destruct Hs as [Hs1 Hs2].
    destruct Hu as [Hu|Hu].
    + destruct (IH1 Hs1 u Hu pv post cs) as [st' [Hin E]].
      exists st'. split; [apply in_or_app; now left|assumption].
    + destruct (IH2 Hs2 u Hu pv post cs) as [st' [Hin E]].
      exists st'. split; [apply in_or_app; now right|assumption].
  - destruct (IH1 Hs u Hu pv post cs) as [st' [Hin E]].
    eexists. split; [apply in_map_iff; eexists; split; [reflexivity|exact Hin]|].
    exact E.
Qed.

(** *** Facts about all characters *)

Lemma forall_ascii (P : ascii -> bool) :
  forallb P all_ascii = true -> forall c, P c = true.
Proof.
  intros H c. rewrite forallb_forall in H. apply H.
  unfold all_ascii. apply in_map_iff. exists (nat_of_ascii c). split.
  - apply ascii_nat_embedding.
  - apply in_seq. pose proof (nat_ascii_bounded c). lia.
Qed.

(** Under either flag a structural character of a pattern matches itself
    only, and a character that is not structural matches no structural
    one. *)
Lemma lower_char_structural (c : ascii) :
  structural (Py.lower_char c) = structural c
  /\ (structural c = true -> Py.lower_char c = c).
Proof.
  pose (check := fun c : ascii =>
          Bool.eqb (structural (Py.lower_char c)) (structural c)
          && implb (structural c) (Ascii.eqb (Py.lower_char c) c)).
  assert (H : forallb check all_ascii = true) by (vm_compute; reflexivity).
  pose proof (forall_ascii check H c) as Hx. unfold check in Hx.
  apply andb_prop in Hx. destruct Hx as [He Hi].
  apply Bool.eqb_prop in He. split; [assumption|].
  intro Hs. rewrite Hs in Hi. now apply Ascii.eqb_eq.
Qed.

Lemma char_eq_structural (ic : bool) (x c : ascii) :
  Re.char_eq ic x c = true ->
  structural x = structural c /\ (structural x = true -> c = x).
Proof.
  unfold Re.char_eq. destruct ic; intro Hc; apply Ascii.eqb_eq in Hc.
  - destruct (lower_char_structural x) as [Hx1 Hx2].
    destruct (lower_char_structural c) as [Hc1 Hc2].
    assert (E : structural x = structural c) by congruence.
    split; [exact E|]. intro Hs.
    rewrite <- (Hx2 Hs), <- (Hc2 (eq_trans (eq_sym E) Hs)). now symmetry.
  - subst c. now split.
Qed.

Lemma digit_space_not_structural (c : ascii) :
  Py.isdigit c || Py.isspace c = true -> structural c = false.
Proof.
  intro Hc.
  pose (check := fun c : ascii =>
          implb (Py.isdigit c || Py.isspace c) (negb (structural c))).
  assert (H : forallb check all_ascii = true) by (vm_compute; reflexivity).
  pose proof (forall_ascii check H c) as Hx.
  unfold check in Hx. rewrite Hc in Hx. simpl in Hx.
  now destruct (structural c).
Qed.

(** *** The shape of the removal patterns *)

Lemma removal_patterns_tagish :
  forall pattern, In pattern removal_patterns ->
                  tagish (Re.p_regex (Re.compiled pattern)) = true.
Proof.
  apply forallb_forall. vm_compute. reflexivity.
Qed.

Lemma plain_simple (r : Re.regex) : plain r = true -> simple r = true.
Proof.
  induction r; simpl; intro H; try reflexivity; try discriminate; auto.
  - apply andb_prop in H. destruct H. rewrite IHr1, IHr2; auto.
  - apply andb_prop in H. destruct H. rewrite IHr1, IHr2; auto.
Qed.

Lemma tail_simple (r : Re.regex) : tail r = true -> simple r = true.
Proof.
  induction r; simpl; intro H; try reflexivity; try discriminate.
  apply orb_prop in H. destruct H as [H|H]; apply andb_prop in H; destruct H as [H1 H2].
  - rewrite (plain_simple _ H1), (IHr2 H2). reflexivity.
  - destruct r1; try discriminate. destruct r2; try discriminate. reflexivity.
Qed.

Lemma tagish_simple (r : Re.regex) : tagish r = true -> simple r = true.
Proof.
  destruct r; try discriminate. destruct r1; try discriminate.
  destruct a; try discriminate. simpl. intro H.
  apply andb_prop in H. destruct H as [_ H]. now apply tail_simple.
Qed.

Lemma struct_free_append (a b : string) :
  struct_free (a ++ b) = struct_free a && struct_free b.
Proof.
  induction a as [|c a IH]; simpl; [reflexivity|].
  now rewrite IH, andb_assoc.
Qed.

Lemma cset_plain_match (ic : bool) (a : Re.cset) (c : ascii) :
  cset_plain a = true -> Re.cset_match ic a c = true -> structural c = false.
Proof.
  destruct a; simpl; try discriminate; intros Hp Hm.
  - destruct (char_eq_structural ic _ _ Hm) as [E _].
    rewrite <- E. now destruct (structural c0).
  - apply digit_space_not_structural. now rewrite Hm.
  - apply digit_space_not_structural. rewrite Hm. apply orb_true_r.
Qed.

Lemma all_match_plain (ic : bool) (a : Re.cset) (u : string) :
  cset_plain a = true -> all_match ic a u = true -> struct_free u = true.
Proof.
  intro Hp. induction u as [|c u IH]; simpl; [reflexivity|].
  intro H. apply andb_prop in H. destruct H as [Hc Hu].
  rewrite (cset_plain_match ic a c Hp Hc). simpl. now apply IH.
Qed.

Lemma plain_lang (ic : bool) (r : Re.regex) :
  plain r = true -> forall u, lang ic r u -> struct_free u = true.
Proof.
  induction r as [|a|a one g|r1 IH1|r1 IH1 r2 IH2|r1 IH1 r2 IH2|i r1 IH1| |r1 IH1];
    simpl; intros Hp u Hu; try discriminate.
  - now subst u.
  - destruct Hu as [c [-> Hc]]. simpl.
    now rewrite (cset_plain_match ic a c Hp Hc).
  - destruct Hu as [Hall _]. now apply (all_match_plain ic a).
  - destruct Hu as [->|Hu]; [reflexivity|now apply IH1].
  - apply andb_prop in Hp. destruct Hp as [Hp1 Hp2].
    destruct Hu as [u1 [u2 [-> [Hu1 Hu2]]]].
    rewrite struct_free_append, (IH1 Hp1 _ Hu1), (IH2 Hp2 _ Hu2). reflexivity.
  - apply andb_prop in Hp. destruct Hp as [Hp1 Hp2].
    destruct Hu as [Hu|Hu]; [now apply IH1|now apply IH2].
  - now apply IH1.
Qed.

Lemma inner_ok_free (u : string) : struct_free u = true -> inner_ok u = true.
Proof.
  induction u as [|c u IH]; simpl; [reflexivity|].
  intro H. apply andb_prop in H. destruct H as [Hc Hu]. rewrite Hc.
  destruct u; [reflexivity|]. simpl. now apply IH.
Qed.

Lemma inner_ok_append (a b : string) :
  struct_free a = true -> inner_ok b = true -> inner_ok (a ++ b) = true.
Proof.
  intros Ha Hb. induction a as [|c a IH]; [exact Hb|].
  simpl in Ha. apply andb_prop in Ha. destruct Ha as [Hc Ha].
  specialize (IH Ha). cbn [append inner_ok]. rewrite Hc.
  destruct (a ++ b)%string; [reflexivity|exact IH].
Qed.

Lemma tail_lang (ic : bool) (r : Re.regex) :
  tail r = true -> forall v, lang ic r v -> inner_ok v = true.
Proof.
  induction r as [|a|a one g|r1 IH1|r1 IH1 r2 IH2|r1 IH1 r2 IH2|i r1 IH1| |r1 IH1];
    simpl; intros Ht v Hv; try discriminate.
  - now subst v.
  - destruct Hv as [u1 [u2 [-> [Hu1 Hu2]]]].
    apply orb_prop in Ht. destruct Ht as [Ht|Ht];
      apply andb_prop in Ht; destruct Ht as [H1 H2].
    + apply inner_ok_append; [now apply (plain_lang ic r1)|now apply IH2].
    + destruct r1 as [|[x| | | |]| | | | | | |]; try discriminate.
      destruct r2; try discriminate. simpl in Hu1, Hu2, H1. subst u2.
      destruct Hu1 as [c [-> Hc]].
      destruct (char_eq_structural ic x c Hc) as [_ E].
      assert (Hsx : structural x = true).
      { unfold structural. rewrite H1. now rewrite orb_true_r. }
      rewrite (E Hsx). simpl. rewrite H1. apply orb_true_r.
Qed.

(** The words of a removal pattern: an opening parenthesis or bracket and
    no other structural character, but for a closing one at the end. *)
Lemma tagish_lang (ic : bool) (r : Re.regex) (u : string) :
  tagish r = true -> lang ic r u ->
  exists o v, u = String o v /\ is_open o = true /\ inner_ok v = true.
Proof.
  destruct r as [| | | |r1 r2| | | |]; try discriminate.
  destruct r1 as [|[x| | | |]| | | | | | |]; try discriminate.
  simpl. intros Ht [u1 [u2 [-> [[c [-> Hc]] Hu2]]]].
  apply andb_prop in Ht. destruct Ht as [Ho Ht].
  destruct (char_eq_structural ic x c Hc) as [_ E].
  assert (Hsx : structural x = true) by (unfold structural; now rewrite Ho).
  rewrite (E Hsx). exists x, u2. repeat split; [assumption|].
  now apply (tail_lang ic r2).
Qed.

(** A word of that shape that begins a text which begins with a tag lies
    within the tag. *)
Lemma inner_within_body (v : string) :
  forall v' post x,
    body_close v = true -> inner_ok v' = true ->
    (v ++ post)%string = (v' ++ x)%string ->
    exists y, v = (v' ++ y)%string.
Proof.
  induction v as [|c v IH]; intros v' post x Hv Hv' E; [discriminate|].
  destruct v' as [|c' v']; [now exists (String c v)|].
  simpl in E. injection E as <- E.
  destruct v as [|d v].
  - simpl in Hv. destruct v' as [|d' v'']; [now exists EmptyString|].
    cbn [inner_ok] in Hv'. apply andb_prop in Hv'. destruct Hv' as [Hc _].
    unfold structural in Hc. rewrite Hv in Hc. now rewrite orb_true_r in Hc.
  - cbn [body_close] in Hv. apply andb_prop in Hv. destruct Hv as [_ Hv].
    assert (Hi : inner_ok v' = true).
    { destruct v' as [|d' v'']; [reflexivity|].
      cbn [inner_ok] in Hv'. apply andb_prop in Hv'. tauto. }
    destruct (IH v' post x Hv Hi E) as [y ->]. now exists y.
Qed.

Lemma word_within_tag (t u post x : string) :
  is_tag t = true ->
  (exists o v, u = String o v /\ is_open o = true /\ inner_ok v = true) ->
  (t ++ post)%string = (u ++ x)%string ->
  exists y, t = (u ++ y)%string.
Proof.
  intros Ht [o [v [-> [_ Hv]]]] E.
  destruct t as [|o' s]; [discriminate|].
  simpl in Ht. apply andb_prop in Ht. destruct Ht as [_ Hs].
  simpl in E. injection E as <- E.
  destruct (inner_within_body s v post x Hs Hv E) as [y ->]. now exists y.
Qed.

(** *** A removal pattern on a text that begins with a tag *)

Lemma hits_true (pattern t : string) :
  hits pattern t = true <->
  exists st, In st (Re.matches_at Re.IGNORECASE (Re.compiled pattern) None t).
Proof.
  unfold hits.
  destruct (Re.matches_at Re.IGNORECASE (Re.compiled pattern) None t) as [|st l];
    simpl; split.
  - discriminate.
  - intros [st []].
  - intros _. exists st. now left.
  - reflexivity.
Qed.

Section TagInContext.

Variables pattern t : string.
Hypothesis Hpattern : In pattern removal_patterns.
Hypothesis Htag : is_tag t = true.

Let r : Re.regex := Re.p_regex (Re.compiled pattern).

Lemma r_tagish : tagish r = true.
Proof. apply removal_patterns_tagish, Hpattern. Qed.

Lemma r_simple : simple r = true.
Proof. apply tagish_simple, r_tagish. Qed.

(** A match at the start of [t ++ post] is a match at the start of [t]. *)
Lemma match_in_context_within (pv : option ascii) (post : string) (st : Re.mstate) :
  In st (Re.matches_at Re.IGNORECASE (Re.compiled pattern) pv (t ++ post)) ->
  exists u y st0,
    t = (u ++ y)%string
    /\ (t ++ post)%string = (u ++ Re.rest st)%string
    /\ In st0 (Re.matches_at Re.IGNORECASE (Re.compiled pattern) None t)
    /\ Re.rest st0 = y.
Proof.
  intro Hin. unfold Re.matches_at in Hin. fold r in Hin.
  destruct (matches_sound _ r r_simple _ _ Hin) as [u [E Hu]]. simpl in E.
  destruct (word_within_tag t u post (Re.rest st) Htag
              (tagish_lang _ r u r_tagish Hu) E) as [y Hy].
  destruct (matches_complete _ r r_simple u Hu None y []) as [st0 [Hin0 E0]].
  exists u, y, st0. rewrite <- Hy in Hin0. auto.
Qed.

Lemma miss_in_context (pv : option ascii) (post : string) :
  hits pattern t = false ->
  Re.matches_at Re.IGNORECASE (Re.compiled pattern) pv (t ++ post) = [].
Proof.
  intro Hmiss.
  destruct (Re.matches_at Re.IGNORECASE (Re.compiled pattern) pv (t ++ post))
    as [|st l] eqn:E; [reflexivity|].
  destruct (match_in_context_within pv post st) as [u [y [st0 [_ [_ [Hin0 _]]]]]].
  { rewrite E. now left. }
  assert (Hhit : hits pattern t = true) by (apply hits_true; eauto).
  congruence.
Qed.

Lemma hit_in_context (pv : option ascii) (post : string) :
  hits pattern t = true -> wholly pattern t = true ->
  exists st l,
    Re.matches_at Re.IGNORECASE (Re.compiled pattern) pv (t ++ post) = st :: l
    /\ Re.rest st = post.
Proof.
  intros Hhit Hwhole.
  unfold wholly in Hwhole. rewrite forallb_forall in Hwhole.
  apply hits_true in Hhit. destruct Hhit as [st0 Hin0].
  pose proof (Hwhole st0 Hin0) as E0. apply String.eqb_eq in E0.
  unfold Re.matches_at in Hin0. fold r in Hin0.
  destruct (matches_sound _ r r_simple _ _ Hin0) as [u [Eu Hu]].
  simpl in Eu. rewrite E0, append_nil_r in Eu. subst u.
  destruct (matches_complete _ r r_simple t Hu pv post []) as [st1 [Hin1 _]].
  destruct (Re.matches Re.IGNORECASE r (Re.MState pv (t ++ post) []))
    as [|st l] eqn:E; [destruct Hin1|].
  exists st, l. split; [exact E|].
  destruct (match_in_context_within pv post st) as [u [y [st2 [Ht [Ectx [Hin2 Ey]]]]]].
  { unfold Re.matches_at. fold r. rewrite E. now left. }
  pose proof (Hwhole st2 Hin2) as E2. apply String.eqb_eq in E2.
  rewrite E2 in Ey. subst y. rewrite append_nil_r in Ht. subst u.
  now apply append_inv_head in Ectx.
Qed.

End TagInContext.

(** *** Substitution along a text *)

(** A removal pattern does not match where the text does not open a
    group. *)
Lemma tagish_head_fail (ic : bool) (r : Re.regex) (pv : option ascii)
    (s : string) (cs : list (nat * string)) :
  tagish r = true ->
  match s with String c _ => is_open c = false | EmptyString => True end ->
  Re.matches ic r (Re.MState pv s cs) = [].
Proof.
  destruct r as [| | | |r1 r2| | | |]; try discriminate.
  destruct r1 as [|[x| | | |]| | | | | | |]; try discriminate.
  simpl. intros Ht Hs. apply andb_prop in Ht. destruct Ht as [Ho _].
  destruct s as [|c s]; [reflexivity|].
  destruct (Re.char_eq ic x c) eqn:Hc; [|reflexivity].
  destruct (char_eq_structural ic x c Hc) as [_ E].
  assert (Hsx : structural x = true) by (unfold structural; now rewrite Ho).
  rewrite (E Hsx) in Hs. congruence.
Qed.

Lemma scan_skip (ic : bool) (p : Re.pattern) (u s : string) :
  forall pos pv,
    Re.scan ic p (String.length u) pos pv (u ++ s)
    = Re.scan ic p 0 (pos + String.length u) (prev_after pv u) s.
Proof.
  induction u as [|c u IH]; intros pos pv.
  - simpl. now rewrite Nat.add_0_r.
  - cbn [String.length append prev_after]. rewrite Nat.add_succ_r.
    destruct s; cbn [Re.scan]; apply (IH (S pos) (Some c)).
Qed.

Section Substitution.

Variables (ic : bool) (p : Re.pattern) (repl : string).

Lemma subst_literal (pos : nat) (pv : option ascii) (c : ascii) (s : string) :
  Re.matches_at ic p pv (String c s) = [] ->
  subst_from ic p repl pos pv (String c s) = String c (subst_from ic p repl (S pos) (Some c) s).
Proof.
  intro H. unfold subst_from. cbn [Re.scan]. rewrite H. reflexivity.
Qed.

Lemma subst_end (pos : nat) (pv : option ascii) :
  Re.matches_at ic p pv EmptyString = [] ->
  subst_from ic p repl pos pv EmptyString = EmptyString.
Proof.
  intro H. unfold subst_from. cbn [Re.scan]. rewrite H. reflexivity.
Qed.

Lemma subst_match (pos : nat) (pv : option ascii) (u s : string)
    (st : Re.mstate) (l : list Re.mstate) :
  u <> EmptyString ->
  Re.matches_at ic p pv (u ++ s) = st :: l -> Re.rest st = s ->
  subst_from ic p repl pos pv (u ++ s)
  = (repl ++ subst_from ic p repl (pos + String.length u) (prev_after pv u) s)%string.
Proof.
  intros Hu H E. unfold subst_from.
  destruct u as [|c u]; [congruence|].
  cbn [append Re.scan]. cbn [append] in H. rewrite H.
  unfold Re.nonempty_from. rewrite E. cbn [String.length].
  rewrite length_append.
  replace (S (String.length u + String.length s) - String.length s =? 0)
    with false by (symmetry; apply Nat.eqb_neq; lia).
  cbn [negb Re.sub_tokens fold_right]. f_equal.
  replace (S (String.length u + String.length s) - String.length s - 1)
    with (String.length u) by lia.
  rewrite scan_skip. cbn [prev_after]. now rewrite Nat.add_succ_r.
Qed.

(** Where the pattern is a removal pattern, a stretch without opening
    parenthesis or bracket is copied. *)
Lemma subst_no_open (v s : string) :
  tagish (Re.p_regex p) = true -> no_open v = true ->
  forall pos pv,
    subst_from ic p repl pos pv (v ++ s)
    = (v ++ subst_from ic p repl (pos + String.length v) (prev_after pv v) s)%string.
Proof.
  intros Ht. induction v as [|c v IH]; intros Hv pos pv.
  - simpl. now rewrite Nat.add_0_r.
  - simpl in Hv. apply andb_prop in Hv. destruct Hv as [Hc Hv].
    cbn [append]. rewrite subst_literal.
    + rewrite (IH Hv). cbn [String.length prev_after].
      now rewrite Nat.add_succ_r.
    + apply tagish_head_fail; [assumption|]. now destruct (is_open c).
Qed.

End Substitution.

Lemma body_close_no_open (v : string) : body_close v = true -> no_open v = true.
Proof.
  induction v as [|c v IH]; [discriminate|].
  destruct v as [|d v].
  - simpl. unfold is_open, is_close.
    destruct (Ascii.eqb_spec c "("), (Ascii.eqb_spec c "["); subst; try discriminate.
    reflexivity.
  - cbn [body_close]. intro H. apply andb_prop in H. destruct H as [Hc Hv].
    change (negb (is_open c) && no_open (String d v) = true).
    rewrite (IH Hv). unfold structural in Hc.
    destruct (is_open c); [discriminate|reflexivity].
Qed.

Lemma struct_free_no_open (s : string) : struct_free s = true -> no_open s = true.
Proof.
  induction s as [|c s IH]; simpl; [reflexivity|].
  intro H. apply andb_prop in H. destruct H as [Hc Hs].
  rewrite (IH Hs). unfold structural in Hc.
  destruct (is_open c); [discriminate|reflexivity].
Qed.

(** *** One pass over a decorated title *)

Lemma strippable_tag (t : string) : strippable t = true -> is_tag t = true.
Proof.
  unfold strippable. intro H.
  apply andb_prop in H. destruct H as [H _].
  apply andb_prop in H. tauto.
Qed.

Lemma strippable_wholly (pattern t : string) :
  strippable t = true -> In pattern removal_patterns ->
  wholly pattern t = true.
Proof.
  unfold strippable. intros H Hin.
  apply andb_prop in H. destruct H as [_ H].
  rewrite forallb_forall in H. now apply H.
Qed.

Lemma subst_decorated (pattern : string) (tags : list string) :
  In pattern removal_patterns -> Forall tag_or_gone tags ->
  forall pos pv,
    subst_from Re.IGNORECASE (Re.compiled pattern) "" pos pv (decorate tags)
    = decorate (pass pattern tags).
Proof.
  intros Hp Htags.
  pose proof (removal_patterns_tagish pattern Hp) as Htagish.
  induction Htags as [|t tags Ht Htags IH]; intros pos pv.
  - apply subst_end. now apply tagish_head_fail.
  - cbn [decorate pass map append].
    rewrite subst_literal
      by (apply tagish_head_fail; [assumption|reflexivity]).
    f_equal. destruct Ht as [->|Ht].
    + cbn [append]. rewrite IH. now destruct (hits pattern "").
    + pose proof (strippable_tag t Ht) as Htag.
      destruct (hits pattern t) eqn:Hhit.
      * destruct (hit_in_context pattern t Hp Htag (Some " "%char)
                    (decorate tags) Hhit (strippable_wholly pattern t Ht Hp))
          as [st [l [E Erest]]].
        rewrite (subst_match _ _ _ _ _ t (decorate tags) st l); try assumption.
        -- cbn [append]. apply IH.
        -- destruct t; [discriminate|discriminate].
      * destruct t as [|o v]; [discriminate|].
        simpl in Htag. apply andb_prop in Htag. destruct Htag as [Ho Hv].
        cbn [append]. rewrite subst_literal.
        -- f_equal. rewrite subst_no_open;
             [|assumption|now apply body_close_no_open].
           now rewrite IH.
        -- apply (miss_in_context pattern (String o v) Hp); [|assumption].
           simpl. now rewrite Ho, Hv.
Qed.

Lemma pass_keeps (pattern : string) (tags : list string) :
  Forall tag_or_gone tags -> Forall tag_or_gone (pass pattern tags).
Proof.
  intro H. unfold pass. apply Forall_map.
  apply (Forall_impl _ (P := tag_or_gone)); [|exact H].
  intros t Ht. destruct (hits pattern t); [now left|exact Ht].
Qed.

(** One removal pattern on a title followed by tags. *)
Lemma sub_decorated (pattern title : string) (tags : list string) :
  In pattern removal_patterns -> no_open title = true ->
  Forall tag_or_gone tags ->
  Re.sub pattern "" (title ++ decorate tags) Re.IGNORECASE
  = (title ++ decorate (pass pattern tags))%string.
Proof.
  intros Hp Htitle Htags. unfold Re.sub.
  change (Re.sub_tokens "" (Re.scan Re.IGNORECASE (Re.compiled pattern) 0 0 None
                                    (title ++ decorate tags)))
    with (subst_from Re.IGNORECASE (Re.compiled pattern) "" 0 None
                     (title ++ decorate tags)).
  rewrite subst_no_open;
    [|now apply removal_patterns_tagish|assumption].
  now rewrite subst_decorated.
Qed.

(** All the passes. *)
Lemma fold_sub_decorated (patterns : list string) (title : string) :
  incl patterns removal_patterns -> no_open title = true ->
  forall tags, Forall tag_or_gone tags ->
    fold_left (fun n pattern => Re.sub pattern "" n Re.IGNORECASE) patterns
              (title ++ decorate tags)%string
    = (title ++ decorate (fold_left (fun ts pattern => pass pattern ts)
                                    patterns tags))%string.
Proof.
  intros Hincl Htitle.
  induction patterns as [|p ps IH]; intros tags Htags; [reflexivity|].
  cbn [fold_left].
  rewrite sub_decorated; [|apply Hincl; now left|assumption|assumption].
  apply IH.
  - intros q Hq. apply Hincl. now right.
  - now apply pass_keeps.
Qed.

Lemma fold_pass (patterns : list string) :
  forall tags,
    fold_left (fun ts pattern => pass pattern ts) patterns tags
    = map (fun t => if existsb (fun pattern => hits pattern t) patterns
                    then EmptyString else t) tags.
Proof.
  induction patterns as [|p ps IH]; intro tags; cbn [fold_left existsb].
  - symmetry. apply map_id.
  - rewrite IH. unfold pass. rewrite map_map. apply map_ext. intro t.
    destruct (hits p t); simpl; [|reflexivity].
    now destruct (existsb _ ps).
Qed.

Lemma strippable_hit (t : string) :
  strippable t = true ->
  existsb (fun pattern => hits pattern t) removal_patterns = true.
Proof.
  unfold strippable. intro H.
  apply andb_prop in H. destruct H as [H _].
  apply andb_prop in H. tauto.
Qed.

(** The tags are gone after the passes; their spaces remain. *)
Lemma remove_patterns_decorated (title : string) (tags : list string) :
  no_open title = true ->
  Forall (fun t => strippable t = true) tags ->
  remove_version_patterns
    (remove_special_patterns
       (remove_region_patterns (title ++ decorate tags)%string))
  = (title ++ spaces (length tags))%string.
Proof.
  intros Htitle Htags. rewrite remove_patterns_fold.
  rewrite fold_sub_decorated;
    [|apply incl_refl|assumption
     |apply (Forall_impl _ (P := fun t => strippable t = true));
      [intros t Ht; now right|assumption]].
  f_equal. rewrite fold_pass.
  induction Htags as [|t tags Ht Htags IH]; [reflexivity|].
  cbn [map decorate length spaces]. rewrite (strippable_hit t Ht), IH.
  reflexivity.
Qed.

(** *** Tidying a text without opening parenthesis or bracket *)

Lemma no_open_suffix (u s : string) :
  no_open (u ++ s) = true -> no_open s = true.
Proof.
  induction u as [|c u IH]; simpl; [trivial|].
  intro H. apply andb_prop in H. now apply IH.
Qed.

Lemma flat_map_all_nil {A B : Type} (f : A -> list B) (l : list A) :
  (forall x, In x l -> f x = []) -> flat_map f l = [].
Proof.
  induction l as [|x l IH]; intro H; simpl; [reflexivity|].
  rewrite (H x) by now left. apply IH. intros y Hy. apply H. now right.
Qed.

Lemma open_head_fail (ic : bool) (o : ascii) (r : Re.regex) (st : Re.mstate) :
  is_open o = true -> no_open (Re.rest st) = true ->
  Re.matches ic (Re.Seq (Re.Atom (Re.CChar o)) r) st = [].
Proof.
  intros Ho Hs. cbn [Re.matches].
  destruct (Re.rest st) as [|c s]; [reflexivity|].
  cbn [Re.cset_match]. destruct (Re.char_eq ic o c) eqn:Hc; [|reflexivity].
  destruct (char_eq_structural ic o c Hc) as [_ E].
  assert (Hso : structural o = true) by (unfold structural; now rewrite Ho).
  rewrite (E Hso) in Hs. simpl in Hs. now rewrite Ho in Hs.
Qed.

(** White space, then an opening parenthesis or bracket: no match in such
    a text. *)
Lemma spaces_then_open_fail (ic g : bool) (o : ascii) (r : Re.regex)
    (pv : option ascii) (s : string) :
  is_open o = true -> no_open s = true ->
  Re.matches ic (Re.Seq (Re.Rep Re.CSpace false g)
                        (Re.Seq (Re.Atom (Re.CChar o)) r))
             (Re.MState pv s []) = [].
Proof.
  intros Ho Hs.
  change (flat_map (Re.matches ic (Re.Seq (Re.Atom (Re.CChar o)) r))
                   (Re.matches ic (Re.Rep Re.CSpace false g) (Re.MState pv s []))
          = []).
  apply flat_map_all_nil. intros st Hst.
  apply open_head_fail; [assumption|].
  cbn [Re.matches Re.prev Re.rest Re.caps] in Hst.
  apply in_map_iff in Hst. destruct Hst as [[p' s'] [<- Hin]]. simpl.
  destruct (rep_sound _ _ _ _ _ _ _ Hin) as [u [-> _]].
  now apply no_open_suffix in Hs.
Qed.

(** A pattern that matches at no position of the texts without opening
    parenthesis or bracket is not found in them. *)
Lemma no_open_not_found (ic : bool) (p : Re.pattern) :
  (forall pv s, no_open s = true -> Re.matches_at ic p pv s = []) ->
  forall s, no_open s = true ->
  forall pos pv, Re.search_from ic p pos pv s = None.
Proof.
  intros Hfail s. induction s as [|c s IH]; intros Hs pos pv; simpl.
  - now rewrite (Hfail pv "" Hs).
  - rewrite (Hfail pv (String c s) Hs).
    simpl in Hs. apply andb_prop in Hs. now apply IH.
Qed.

Lemma empty_pairs_not_found (s : string) :
  no_open s = true ->
  Re.found "\s*\(\s*\)" s Re.NOFLAG = false
  /\ Re.found "\s*\[\s*\]" s Re.NOFLAG = false.
Proof.
  intro Hs. unfold Re.found, Re.search. split.
  - rewrite no_open_not_found; [reflexivity| |assumption].
    intros pv s' Hs'. now apply spaces_then_open_fail.
  - rewrite no_open_not_found; [reflexivity| |assumption].
    intros pv s' Hs'. now apply spaces_then_open_fail.
Qed.

Lemma removal_pattern_not_found (pattern s : string) :
  In pattern removal_patterns -> no_open s = true ->
  Re.found pattern s Re.IGNORECASE = false.
Proof.
  intros Hp Hs. unfold Re.found, Re.search.
  rewrite no_open_not_found; [reflexivity| |assumption].
  intros pv s' Hs'. apply tagish_head_fail.
  - now apply removal_patterns_tagish.
  - destruct s' as [|c s']; [exact I|].
    simpl in Hs'. now destruct (is_open c).
Qed.

(** A name without opening parenthesis or bracket has nothing left to
    remove. *)
Lemma no_open_no_leftover (s : string) : no_open s = true -> leftover s = false.
Proof.
  intro Hs. unfold leftover.
  destruct (empty_pairs_not_found s Hs) as [-> ->].
  rewrite !orb_false_r. unfold any_match. apply existsb_false_all.
  intros p Hp. now apply removal_pattern_not_found.
Qed.

Lemma tidy_no_open (s : string) :
  no_open s = true -> tidy s = Py.rstrip (squeeze true s).
Proof.
  intro Hs. unfold tidy.
  destruct (empty_pairs_not_found s Hs) as [Hp Hb].
  rewrite (sub_no_match _ _ _ _ Hp), (sub_no_match _ _ _ _ Hb).
  apply strip_sub_spaces.
Qed.

(** C4, as stated, fails: the base identity of ["Game ([]).zip"] still has a
    pair of parentheses, which a second run removes.  The same happens
    with a tag that the removal of another tag puts together. *)
Lemma base_filename_not_idempotent :
  get_base_filename "Game ([]).zip" = "Game ()"
  /\ strip_tags "Game ()" = "Game"
  /\ get_base_filename "Game ()" = "Game"
  /\ get_base_filename "Game (U(Beta)SA).zip" = "Game (USA)"
  /\ strip_tags "Game (USA)" = "Game".
Proof. vm_compute. repeat split; reflexivity. Qed.

(** C4, amended: re-running the tag-stripping passes on a base identity in
    which no removal pattern matches and no empty pair of parentheses or
    brackets is left is a no-op; this is the case of every base identity
    without opening parenthesis or bracket.  When that base identity
    moreover has no dot and no path separator, [get_base_filename] returns
    it unchanged. *)
Theorem base_filename_idempotent_when_clean (filename : string) :
  let y := get_base_filename filename in
  (no_open y = true -> leftover y = false)
  /\ (leftover y = false ->
      strip_tags y = y
      /\ (Py.contains_char "." y = false -> Py.contains_char "/" y = false ->
          get_base_filename y = y)).
Proof.
  intro y. split; [apply no_open_no_leftover|]. intro Hleft.
  assert (Hfix : strip_tags y = y).
  { unfold leftover in Hleft.
    apply orb_false_elim in Hleft. destruct Hleft as [Hleft Hb].
    apply orb_false_elim in Hleft. destruct Hleft as [Htags Hp].
    rewrite (strip_tags_no_tag y Htags).
    destruct (strip_tags_shape
                (if Py.mem (Py.lower (Path.suffix (Path.stem filename)))
                           compression_suffixes
                 then Path.stem (Path.stem filename) else Path.stem filename))
      as [s Hs].
    change (y = Py.rstrip (squeeze true s)) in Hs.
    rewrite Hs in Hp, Hb |- *. now apply tidy_fixed. }
  split; [exact Hfix|].
  intros Hdot Hslash. unfold get_base_filename.
  destruct (stem_plain y Hdot Hslash) as [Hstem Hsuffix].
  rewrite Hstem, Hsuffix. simpl Py.mem. cbv iota. exact Hfix.
Qed.

Lemma base_filename_idempotent_when_clean_witness :
  no_open (get_base_filename "Game (USA) (Beta).zip") = true
  /\ strip_tags (get_base_filename "Game (USA) (Beta).zip")
     = get_base_filename "Game (USA) (Beta).zip"
  /\ get_base_filename (get_base_filename "Game (USA) (Beta).zip")
     = get_base_filename "Game (USA) (Beta).zip".
Proof.
  assert (Hopen : no_open (get_base_filename "Game (USA) (Beta).zip") = true)
    by (vm_compute; reflexivity).
  destruct (base_filename_idempotent_when_clean "Game (USA) (Beta).zip")
    as [Hleft Hfixed].
  destruct (Hfixed (Hleft Hopen)) as [Hpasses Hwhole].
  split; [exact Hopen|]. split; [exact Hpasses|].
  apply Hwhole; vm_compute; reflexivity.
Defined.

Lemma squeeze_spaces (n : nat) :
  forall b, Py.rstrip (squeeze b (spaces n)) = EmptyString.
Proof.
  induction n as [|n IH]; intro b; [reflexivity|].
  cbn [spaces squeeze]. change (Py.isspace " ") with true. cbv iota.
  destruct b; [apply IH|]. rewrite rstrip_cons, IH. reflexivity.
Qed.

(** Spaces at the end of a text do not survive. *)
Lemma rstrip_squeeze_spaces (s : string) (n : nat) :
  forall b,
    Py.rstrip (squeeze b (s ++ spaces n)) = Py.rstrip (squeeze b s).
Proof.
  induction s as [|c s IH]; intro b.
  - apply squeeze_spaces.
  - cbn [append squeeze]. destruct (Py.isspace c).
    + destruct b; [apply IH|]. now rewrite !rstrip_cons, IH.
    + now rewrite !rstrip_cons, IH.
Qed.

Lemma no_open_spaces (title : string) (n : nat) :
  no_open title = true -> no_open (title ++ spaces n) = true.
Proof.
  intro H. induction title as [|c title IH].
  - induction n as [|n IHn]; [reflexivity|exact IHn].
  - simpl in H |- *. apply andb_prop in H. destruct H as [Hc Ht].
    now rewrite Hc, IH.
Qed.

(** The passes on a title followed by strippable tags. *)
Lemma strip_tags_decorated (title : string) (tags : list string) :
  no_open title = true ->
  Forall (fun t => strippable t = true) tags ->
  strip_tags (title ++ decorate tags) = Py.rstrip (squeeze true title).
Proof.
  intros Htitle Htags. unfold strip_tags.
  rewrite remove_patterns_decorated by assumption.
  rewrite tidy_no_open by now apply no_open_spaces.
  apply rstrip_squeeze_spaces.
Qed.

(** *** The stem of a decorated name *)

Lemma contains_char_append (c : ascii) (a b : string) :
  Py.contains_char c (a ++ b) = Py.contains_char c a || Py.contains_char c b.
Proof.
  induction a as [|x a IH]; simpl; [reflexivity|].
  now rewrite IH, orb_assoc.
Qed.

Lemma struct_free_no_slash (s : string) :
  struct_free s = true -> Py.contains_char "/" s = false.
Proof.
  induction s as [|c s IH]; simpl; [reflexivity|].
  intro H. apply andb_prop in H. destruct H as [Hc Hs].
  rewrite (IH Hs), orb_false_r. unfold structural in Hc.
  destruct (Ascii.eqb c "/"); [|reflexivity].
  now rewrite orb_true_r in Hc.
Qed.

Lemma body_close_no_slash (v : string) :
  body_close v = true -> Py.contains_char "/" v = false.
Proof.
  induction v as [|c v IH]; [discriminate|].
  destruct v as [|d v].
  - simpl. unfold is_close.
    destruct (Ascii.eqb_spec c ")"), (Ascii.eqb_spec c "]"); subst;
      try discriminate; reflexivity.
  - cbn [body_close]. intro H. apply andb_prop in H. destruct H as [Hc Hv].
    change (Ascii.eqb c "/" || Py.contains_char "/" (String d v) = false).
    rewrite (IH Hv), orb_false_r. unfold structural in Hc.
    destruct (Ascii.eqb c "/"); [|reflexivity].
    now rewrite orb_true_r in Hc.
Qed.

Lemma is_tag_no_slash (t : string) :
  is_tag t = true -> Py.contains_char "/" t = false.
Proof.
  destruct t as [|o v]; [discriminate|]. simpl. intro H.
  apply andb_prop in H. destruct H as [Ho Hv].
  rewrite (body_close_no_slash v Hv), orb_false_r.
  unfold is_open in Ho.
  destruct (Ascii.eqb_spec o "("), (Ascii.eqb_spec o "["); subst;
    try discriminate; reflexivity.
Qed.

Lemma decorate_no_slash (tags : list string) :
  Forall (fun t => is_tag t = true) tags ->
  Py.contains_char "/" (decorate tags) = false.
Proof.
  induction 1 as [|t tags Ht _ IH]; [reflexivity|].
  cbn [decorate append Py.contains_char].
  now rewrite contains_char_append, (is_tag_no_slash t Ht), IH.
Qed.

Lemma name_no_slash (c : ascii) (s : string) :
  Ascii.eqb c "." = false -> Py.contains_char "/" (String c s) = false ->
  Path.name (String c s) = String c s.
Proof.
  intros Hc Hs. unfold Path.name, Path.parts.
  rewrite (split_no_separator _ _ Hs). simpl. now rewrite Hc.
Qed.

Lemma rsplit_dot_extension (a ext : string) :
  Py.contains_char "." ext = false ->
  Path.rsplit_dot (a ++ String "." ext) = Some (a, String "." ext).
Proof.
  intro Hext. induction a as [|c a IH]; simpl.
  - now rewrite (rsplit_dot_none ext Hext).
  - now rewrite IH.
Qed.

Lemma rsplit_dot_append (s : string) :
  forall a b, Path.rsplit_dot s = Some (a, b) -> s = (a ++ b)%string.
Proof.
  induction s as [|c s IH]; intros a b; simpl; [discriminate|].
  destruct (Path.rsplit_dot s) as [[a' b']|].
  - intro H. injection H as <- <-. simpl. f_equal. now apply IH.
  - destruct (Ascii.eqb c "."); [|discriminate].
    intro H. now injection H as <- <-.
Qed.

Lemma split_suffix_append (s : string) :
  s = (fst (Path.split_suffix s) ++ snd (Path.split_suffix s))%string.
Proof.
  unfold Path.split_suffix.
  destruct (Path.rsplit_dot s) as [[a b]|] eqn:E.
  - destruct ((0 <? String.length a) && (1 <? String.length b)); simpl.
    + now apply rsplit_dot_append.
    + now rewrite append_nil_r.
  - simpl. now rewrite append_nil_r.
Qed.

Lemma last_char_append (a b : string) :
  b <> EmptyString -> last_char (a ++ b) = last_char b.
Proof.
  intro Hb. induction a as [|c a IH]; [reflexivity|].
  cbn [append last_char]. rewrite IH.
  destruct (a ++ b)%string eqn:E; [|reflexivity].
  destruct a; [simpl in E; congruence|discriminate].
Qed.

Lemma last_char_lower (s : string) :
  last_char (Py.lower s) = option_map Py.lower_char (last_char s).
Proof.
  induction s as [|c s IH]; [reflexivity|].
  destruct s as [|d s]; [reflexivity|]. exact IH.
Qed.

Lemma body_close_ends (v : string) : body_close v = true -> ends_close v = true.
Proof.
  induction v as [|c v IH]; [discriminate|].
  destruct v as [|d v]; [trivial|].
  cbn [body_close]. intro H. apply andb_prop in H. now apply IH.
Qed.

Lemma is_tag_ends (t : string) : is_tag t = true -> ends_close t = true.
Proof.
  destruct t as [|o v]; [discriminate|]. simpl. intro H.
  apply andb_prop in H. destruct H as [_ Hv].
  pose proof (body_close_ends v Hv) as He.
  destruct v; [discriminate|exact He].
Qed.

Lemma decorate_ends (tags : list string) :
  Forall (fun t => is_tag t = true) tags -> tags <> [] ->
  forall pre, ends_close (pre ++ decorate tags) = true.
Proof.
  induction 1 as [|t tags Ht Htags IH]; intros Hne pre; [congruence|].
  cbn [decorate]. destruct tags as [|t' tags].
  - cbn [decorate]. rewrite append_nil_r.
    unfold ends_close. rewrite last_char_append.
    + pose proof (is_tag_ends t Ht) as He. unfold ends_close in He.
      destruct t as [|o v]; [discriminate|]. exact He.
    + discriminate.
  - replace (pre ++ " " ++ t ++ decorate (t' :: tags))%string
      with ((pre ++ " " ++ t) ++ decorate (t' :: tags))%string
      by now rewrite !append_assoc.
    apply IH. discriminate.
Qed.

(** A text that ends with a closing parenthesis or bracket has no
    compression suffix. *)
Lemma ends_close_not_compressed (s : string) :
  ends_close s = true \/ Py.contains_char "." s = false ->
  Py.contains_char "/" s = false ->
  match s with String c _ => Ascii.eqb c "." = false | EmptyString => False end ->
  Py.mem (Py.lower (Path.suffix s)) compression_suffixes = false.
Proof.
  intros Hs Hslash Hfirst. destruct s as [|c s]; [destruct Hfirst|].
  unfold Path.suffix. rewrite (name_no_slash c s Hfirst Hslash).
  destruct Hs as [Hclose|Hdot].
  - pose proof (split_suffix_append (String c s)) as E.
    destruct (Path.split_suffix (String c s)) as [a b]. cbn [fst snd] in E |- *.
    destruct (Py.mem (Py.lower b) compression_suffixes) eqn:Hmem; [|reflexivity].
    assert (Hb : b <> EmptyString) by (intros ->; discriminate).
    unfold ends_close in Hclose. rewrite E, (last_char_append a b Hb) in Hclose.
    pose proof (last_char_lower b) as Hl.
    destruct (last_char b) as [l|]; [|discriminate].
    destruct (lower_char_structural l) as [_ Hfix].
    assert (Hsl : structural l = true).
    { unfold structural. rewrite Hclose. now rewrite orb_true_r. }
    simpl in Hl. rewrite (Hfix Hsl) in Hl.
    apply mem_In in Hmem. simpl in Hmem.
    destruct Hmem as [Hm|[Hm|[Hm|[]]]]; rewrite <- Hm in Hl; simpl in Hl;
      injection Hl as <-; discriminate.
  - unfold Path.split_suffix. now rewrite (rsplit_dot_none _ Hdot).
Qed.

(** The base identity of a title followed by strippable tags and an
    extension is the title with its white space tidied. *)
Lemma get_base_filename_decorated (title : string) (tags : list string)
    (ext : string) :
  plain_title title = true ->
  Forall (fun t => strippable t = true) tags ->
  plain_extension ext = true ->
  get_base_filename (title ++ decorate tags ++ String "." ext)
  = Py.rstrip (squeeze true title).
Proof.
  intros Htitle Htags Hext.
  unfold plain_title in Htitle.
  apply andb_prop in Htitle. destruct Htitle as [Htitle Hdot].
  apply andb_prop in Htitle. destruct Htitle as [Hne Hfree].
  apply negb_true_iff in Hdot.
  unfold plain_extension in Hext.
  apply andb_prop in Hext. destruct Hext as [Hext Heslash].
  apply andb_prop in Hext. destruct Hext as [Hene Hedot].
  apply negb_true_iff in Hedot. apply negb_true_iff in Heslash.
  assert (Htag : Forall (fun t => is_tag t = true) tags).
  { apply (Forall_impl _ (P := fun t => strippable t = true));
      [exact strippable_tag|exact Htags]. }
  destruct title as [|c title]; [discriminate|].
  assert (Hc : Ascii.eqb c "." = false).
  { simpl in Hdot. now apply orb_false_elim in Hdot. }
  set (stem := (String c title ++ decorate tags)%string).
  assert (Hstem_slash : Py.contains_char "/" stem = false).
  { unfold stem.
    now rewrite contains_char_append, (struct_free_no_slash _ Hfree),
      (decorate_no_slash tags Htag). }
  assert (Hfull : (String c title ++ decorate tags ++ String "." ext)%string
                  = (stem ++ String "." ext)%string).
  { unfold stem. now rewrite append_assoc. }
  assert (Hfull_slash : Py.contains_char "/" (stem ++ String "." ext) = false).
  { rewrite contains_char_append, Hstem_slash. simpl. exact Heslash. }
  assert (Hstem : Path.stem (stem ++ String "." ext) = stem).
  { unfold Path.stem.
    change (stem ++ String "." ext)%string
      with (String c (title ++ decorate tags) ++ String "." ext)%string in *.
    cbn [append] in Hfull_slash |- *.
    rewrite (name_no_slash c _ Hc Hfull_slash).
    unfold Path.split_suffix.
    change (String c ((title ++ decorate tags) ++ String "." ext))
      with (String c (title ++ decorate tags) ++ String "." ext)%string.
    rewrite (rsplit_dot_extension _ ext Hedot).
    destruct ext as [|e ext]; [discriminate|]. reflexivity. }
  unfold get_base_filename. rewrite Hfull, Hstem.
  rewrite ends_close_not_compressed.
  - unfold stem. apply strip_tags_decorated; [|assumption].
    now apply struct_free_no_open.
  - destruct tags as [|t tags].
    + right. unfold stem. cbn [decorate]. now rewrite append_nil_r.
    + left. apply decorate_ends; [assumption|discriminate].
  - exact Hstem_slash.
  - exact Hc.
Qed.




(** ** The renaming loop ends on a free destination *)

Lemma append_inv_tail (a b x : string) :
  (a ++ x)%string = (b ++ x)%string -> a = b.
Proof.
  revert b. induction a as [|c a IH]; intros b H.
  - destruct b as [|d b]; [reflexivity|].
    apply (f_equal String.length) in H. simpl in H.
    rewrite length_append in H. lia.
  - destruct b as [|d b].
    + apply (f_equal String.length) in H. simpl in H.
      rewrite length_append in H. lia.
    + simpl in H. injection H as <- H. f_equal. now apply IH.
Qed.

Lemma to_uint_not_nil (n : nat) : Nat.to_uint n <> Decimal.Nil.
Proof.
  intro H. assert (E : n = 0).
  { rewrite <- (Unsigned.of_to n), H. reflexivity. }
  subst n. discriminate H.
Qed.

Lemma str_injective (n m : nat) : Py.str n = Py.str m -> n = m.
Proof.
  unfold Py.str. intro H. apply Unsigned.to_uint_inj.
  assert (Hsome : Some (Nat.to_uint n) = Some (Nat.to_uint m)).
  { rewrite <- (NilZero.usu (Nat.to_uint n)), <- (NilZero.usu (Nat.to_uint m)).
    - now rewrite H.
    - apply to_uint_not_nil.
    - apply to_uint_not_nil. }
  now injection Hsome.
Qed.

Lemma split_parts_no_separator (sep : ascii) (s : string) :
  Forall (fun p => Py.contains_char sep p = false) (Py.split sep s).
Proof.
  induction s as [|c s IH]; simpl.
  - repeat constructor.
  - destruct (Ascii.eqb c sep) eqn:E.
    + constructor; [reflexivity | exact IH].
    + destruct (Py.split sep s) as [|p ps].
      * repeat constructor. simpl. now rewrite E.
      * inversion IH; subst. constructor; [|assumption].
        simpl. now rewrite E.
Qed.

Lemma Forall_last {A : Type} (P : A -> Prop) (l : list A) (d : A) :
  Forall P l -> P d -> P (last l d).
Proof.
  intros Hl Hd. induction Hl as [|x l Hx Hl IH]; [exact Hd|].
  destruct l; [exact Hx | exact IH].
Qed.

Lemma name_without_slash (p : string) :
  Py.contains_char "/" (Path.name p) = false.
Proof.
  unfold Path.name, Path.parts. apply Forall_last; [|reflexivity].
  apply Forall_forall. intros x Hx. apply filter_In in Hx.
  destruct Hx as [Hx _].
  exact (proj1 (Forall_forall _ _) (split_parts_no_separator "/" p) x Hx).
Qed.

Lemma digits_without_slash (d : Decimal.uint) :
  Py.contains_char "/" (NilEmpty.string_of_uint d) = false.
Proof. induction d; simpl; auto. Qed.

Lemma str_without_slash (n : nat) : Py.contains_char "/" (Py.str n) = false.
Proof.
  unfold Py.str, NilZero.string_of_uint.
  destruct (Nat.to_uint n) eqn:E; try reflexivity;
    rewrite <- E; apply digits_without_slash.
Qed.

(** A name without slash that has an underscore is a single relative
    component. *)
Lemma parts_single (x : string) :
  Py.contains_char "/" x = false -> Py.contains_char "_" x = true ->
  Path.parts x = [x] /\ Path.root x = EmptyString.
Proof.
  intros Hslash Hunder. unfold Path.parts.
  rewrite (split_no_separator _ _ Hslash).
  destruct x as [|c x]; [discriminate Hunder|]. split.
  - cbn [filter String.eqb orb negb].
    destruct x as [|d x].
    + simpl in Hunder. rewrite orb_false_r in Hunder.
      apply Ascii.eqb_eq in Hunder. subst c. reflexivity.
    + destruct (Ascii.eqb c "."); reflexivity.
  - simpl in Hslash. apply orb_false_elim in Hslash. destruct Hslash as [Hc _].
    destruct c as [[] [] [] [] [] [] [] []]; try reflexivity; discriminate Hc.
Qed.

Lemma concat_snoc (ps : list string) :
  exists pre, forall x, String.concat "/" (ps ++ [x]) = (pre ++ x)%string.
Proof.
  induction ps as [|p ps [pre IH]].
  - exists EmptyString. reflexivity.
  - exists (p ++ "/" ++ pre)%string. intro x.
    specialize (IH x). cbn [app String.concat].
    destruct (ps ++ [x]) as [|q qs] eqn:E.
    + now destruct ps.
    + rewrite IH. now rewrite <- !append_assoc.
Qed.

Lemma join_single (a : string) :
  exists pre, forall x,
    Py.contains_char "/" x = false -> Py.contains_char "_" x = true ->
    Path.join a x = (pre ++ x)%string.
Proof.
  destruct (concat_snoc (Path.parts a)) as [pre Hpre].
  exists (Path.root a ++ pre)%string. intros x Hslash Hunder.
  destruct (parts_single x Hslash Hunder) as [Hparts Hroot].
  unfold Path.join. rewrite Hroot, Hparts. unfold Path.of_parts.
  rewrite Hpre, append_assoc.
  destruct (Path.root a); [|reflexivity].
  destruct (Path.parts a ++ [x]) eqn:E; [|reflexivity].
  now destruct (Path.parts a).
Qed.

Lemma renamed_injective (original_dest : string) (i j : nat) :
  renamed original_dest i = renamed original_dest j -> i = j.
Proof.
  unfold renamed.
  destruct (join_single (Path.parent original_dest)) as [pre Hpre].
  assert (Hname : forall n,
    Py.contains_char "/" (Path.stem original_dest ++ "_" ++ Py.str n
                          ++ Path.suffix original_dest) = false
    /\ Py.contains_char "_" (Path.stem original_dest ++ "_" ++ Py.str n
                             ++ Path.suffix original_dest) = true).
  { intro n.
    pose proof (name_without_slash original_dest) as Hn.
    rewrite (split_suffix_append (Path.name original_dest)) in Hn.
    fold (Path.stem original_dest) (Path.suffix original_dest) in Hn.
    rewrite contains_char_append in Hn. apply orb_false_elim in Hn.
    destruct Hn as [Hstem Hsuffix].
    rewrite !contains_char_append, Hstem, Hsuffix, str_without_slash.
    split; [reflexivity|]. simpl. now rewrite orb_true_r. }
  rewrite (Hpre _ (proj1 (Hname i)) (proj2 (Hname i))).
  rewrite (Hpre _ (proj1 (Hname j)) (proj2 (Hname j))).
  intro H. apply append_inv_head in H. apply append_inv_head in H.
  injection H as H. apply append_inv_tail in H. now apply str_injective.
Qed.

Lemma NoDup_map_injective {A B : Type} (f : A -> B) (l : list A) :
  (forall x y, f x = f y -> x = y) -> NoDup l -> NoDup (map f l).
Proof.
  intros Hinj H. induction H as [|x l Hnotin _ IH]; simpl; constructor.
  - intro Hin. apply in_map_iff in Hin. destruct Hin as [y [E Hy]].
    apply Hinj in E. now subst y.
  - exact IH.
Qed.

Lemma free_destination_taken (rounds : nat) (w : World) (original_dest : string) :
  forall counter destination,
    path_exists w (free_destination rounds w original_dest counter destination)
    = true ->
    forall i, counter <= i < counter + rounds ->
              path_exists w (renamed original_dest i) = true.
Proof.
  induction rounds as [|rounds IH]; intros counter destination H i Hi; [lia|].
  simpl in H. destruct (path_exists w destination) eqn:E.
  - destruct (Nat.eq_dec i counter) as [->|Hne].
    + destruct rounds; simpl in H.
      * destruct (path_exists w (renamed original_dest counter)) eqn:E';
          [reflexivity|congruence].
      * destruct (path_exists w (renamed original_dest counter)) eqn:E';
          [reflexivity|congruence].
    + apply (IH (S counter) _ H). lia.
  - congruence.
Qed.

(** The destination chosen by the renaming loop does not exist. *)
Lemma free_destination_free (w : World) (original_dest : string) :
  path_exists w (free_destination (S (length (files w))) w original_dest 1
                                  original_dest) = false.
Proof.
  destruct (path_exists w (free_destination _ w original_dest 1 original_dest))
    eqn:E; [|reflexivity].
  exfalso.
  pose proof (free_destination_taken _ w original_dest 1 original_dest E) as Hall.
  set (n := length (files w)) in *.
  assert (Hincl : incl (map (renamed original_dest) (seq 1 (S n))) (files w)).
  { intros x Hx. apply in_map_iff in Hx. destruct Hx as [i [<- Hi]].
    apply in_seq in Hi. apply mem_In. apply Hall. lia. }
  assert (Hnd : NoDup (map (renamed original_dest) (seq 1 (S n)))).
  { apply NoDup_map_injective.
    - intros i j. apply renamed_injective.
    - apply seq_NoDup. }
  pose proof (NoDup_incl_length Hnd Hincl) as Hlen.
  rewrite length_map, length_seq in Hlen. unfold n in Hlen. lia.
Qed.

(** ** The calls of the bulk moves *)

Lemma free_destination_shape (w : World) (original_dest : string) (rounds : nat) :
  forall counter destination,
    path_exists w (free_destination rounds w original_dest counter destination)
    = false ->
    if path_exists w destination then
      exists k, counter <= k
                /\ free_destination rounds w original_dest counter destination
                   = renamed original_dest k
                /\ forall i, counter <= i < k ->
                             path_exists w (renamed original_dest i) = true
    else free_destination rounds w original_dest counter destination = destination.
Proof.
  induction rounds as [|rounds IH]; intros counter destination H;
    cbn [free_destination] in *.
  - destruct (path_exists w destination) eqn:E; [congruence|reflexivity].
  - destruct (path_exists w destination) eqn:E; [|reflexivity].
    specialize (IH (S counter) (renamed original_dest counter) H).
    destruct (path_exists w (renamed original_dest counter)) eqn:E1.
    + destruct IH as (k & Hk & Hr & Hall). exists k. split; [lia|].
      split; [assumption|]. intros i Hi.
      destruct (Nat.eq_dec i counter) as [->|Hne]; [assumption|].
      apply Hall. lia.
    + exists counter. split; [lia|]. split; [assumption|]. intros i Hi. lia.
Qed.

Lemma mem_filter (f : string -> bool) (p : string) (l : list string) :
  Py.mem p (filter f l) = Py.mem p l && f p.
Proof.
  induction l as [|x l IH]; [reflexivity|]. cbn [filter].
  destruct (f x) eqn:Hx; unfold Py.mem in *; cbn [existsb]; rewrite IH.
  - destruct (String.eqb_spec p x) as [->|_]; [now rewrite Hx|reflexivity].
  - destruct (String.eqb_spec p x) as [->|_]; [|reflexivity].
    rewrite Hx, andb_false_r. reflexivity.
Qed.

Section Calls.

Variable move_error : list string -> string -> string -> option string.
Variable mkdir_error : list string -> string -> option string.

Lemma run_app (calls1 calls2 : list call) (w w1 w2 : World) :
  run move_error mkdir_error calls1 w w1 ->
  run move_error mkdir_error calls2 w1 w2 ->
  run move_error mkdir_error (calls1 ++ calls2) w w2.
Proof.
  revert w. induction calls1 as [|c calls1 IH]; intros w H1 H2.
  - cbn in H1. subst w1. exact H2.
  - destruct H1 as (w0 & Hc & H1). exists w0. split; [exact Hc|].
    now apply IH.
Qed.

(** The destination chosen by the renaming loop is the first free one. *)
Lemma free_destination_first_free (w : World) (rom_file destination_folder : string) :
  let original_dest := Path.join destination_folder (Path.name rom_file) in
  first_free (files w) destination_folder rom_file
             (free_destination (S (length (files w))) w original_dest 1
                               original_dest).
Proof.
  cbn zeta.
  set (original_dest := Path.join destination_folder (Path.name rom_file)).
  pose proof (free_destination_free w original_dest) as Hfree.
  pose proof (free_destination_shape w original_dest _ _ _ Hfree) as Hshape.
  destruct (path_exists w original_dest) eqn:E.
  - destruct Hshape as (k & Hk & Hd & Hall).
    exists k. destruct k as [|k]; [lia|]. split; [exact Hd|].
    split; [exact Hfree|].
    intros [|j] Hj; [exact E|]. apply Hall. lia.
  - exists 0. split; [exact Hshape|]. split; [exact Hfree|]. intros j Hj. lia.
Qed.

(** One [try] statement, as calls. *)
Lemma try_move_performs (w : World) (rom_file destination_folder : string) :
  exists e : option string,
    fst (try_move move_error w rom_file destination_folder)
    = moved_ok (rom_file, e)
    /\ run move_error mkdir_error (attempt destination_folder (rom_file, e)) w
           (snd (try_move move_error w rom_file destination_folder)).
Proof.
  pose proof (free_destination_first_free w rom_file destination_folder) as Hff.
  cbn zeta in Hff. unfold try_move, shutil_move.
  set (destination := free_destination _ _ _ _ _) in *.
  destruct (move_error (files w) rom_file destination) as [e|] eqn:E.
  - exists (Some e). split; [reflexivity|].
    exists w. split.
    + exists destination. repeat split; assumption.
    + exists (print (error_line (Path.name rom_file) e) w).
      split; reflexivity.
  - exists None. split; [reflexivity|]. eexists. split; [|reflexivity].
    exists destination. split; [exact Hff|]. split; [exact E|].
    split; [reflexivity|]. intro p. unfold path_exists. cbn [files snd fst].
    change (Py.mem p (destination
                      :: filter (fun f => negb (String.eqb f rom_file)) (files w)))
      with (String.eqb p destination
            || Py.mem p (filter (fun f => negb (String.eqb f rom_file)) (files w))).
    now rewrite mem_filter.
Qed.

Section MoveLoop.

Variable test : ROMAnalyzer -> string -> bool * ROMAnalyzer.
Variable sel : string -> bool.
Variable destination_folder : string.
Variable step :
  list string * ROMAnalyzer * World -> string -> list string * ROMAnalyzer * World.
Hypothesis test_sel : forall self rom_file, fst (test self rom_file) = sel rom_file.
Hypothesis step_eq :
  forall moved_files self w rom_file,
    step (moved_files, self, w) rom_file
    = (let (should_move, self) := test self rom_file in
       if should_move then
         let (moved, w) := try_move move_error w rom_file destination_folder in
         (if moved then moved_files ++ [Path.name rom_file] else moved_files,
          self, w)
       else (moved_files, self, w)).

(** The loop shared by [move_files_by_criteria] and
    [move_files_keep_main_regions]: one [try] statement for every file
    that passes the test, whatever happened to the files before it. *)
Lemma move_loop (rom_files : list string) :
  forall (moved_files : list string) (self : ROMAnalyzer) (w : World),
  exists (outcomes : list outcome) (self' : ROMAnalyzer) (w' : World),
    fold_left step rom_files (moved_files, self, w)
    = (moved_files ++ names_moved outcomes, self', w')
    /\ map fst outcomes = filter sel rom_files
    /\ run move_error mkdir_error
           (flat_map (attempt destination_folder) outcomes) w w'.
Proof.
  induction rom_files as [|rom_file rest IH]; intros moved_files self w.
  - exists [], self, w. cbn. now rewrite app_nil_r.
  - cbn [fold_left filter]. rewrite step_eq.
    pose proof (test_sel self rom_file) as Hsel.
    destruct (test self rom_file) as [should_move self1].
    cbn [fst] in Hsel. subst should_move.
    destruct (sel rom_file).
    + destruct (try_move_performs w rom_file destination_folder)
        as (e & Hok & Hrun).
      destruct (try_move move_error w rom_file destination_folder)
        as [moved w1].
      cbn [fst snd] in Hok, Hrun. subst moved.
      destruct (IH (if moved_ok (rom_file, e)
                    then moved_files ++ [Path.name rom_file] else moved_files)
                   self1 w1) as (os & self' & w' & Hfold & Hmap & Hos).
      exists ((rom_file, e) :: os), self', w'. rewrite Hfold.
      split; [|split].
      * unfold names_moved. cbn [filter].
        destruct (moved_ok (rom_file, e)); cbn [map fst];
          [now rewrite <- app_assoc|reflexivity].
      * cbn [map fst]. now f_equal.
      * cbn [flat_map]. eapply run_app; eassumption.
    + destruct (IH moved_files self1 w) as (os & self' & w' & Hfold & Hmap & Hos).
      exists os, self', w'. auto.
Qed.

End MoveLoop.

(** What the calls of a list of attempts print: the reports of the moves
    that raised. *)
Lemma run_attempts_stdout (destination_folder : string) (outcomes : list outcome) :
  forall w w',
    run move_error mkdir_error
        (flat_map (attempt destination_folder) outcomes) w w' ->
    stdout w' = stdout w ++ flat_map reported outcomes.
Proof.
  induction outcomes as [|[rom_file e] outcomes IH]; intros w w' H.
  - cbn in H. subst w'. cbn. now rewrite app_nil_r.
  - destruct e as [e|];
      cbn [flat_map attempt fst snd reported map app run] in H;
      destruct H as (w1 & (dst & _ & _ & Heff) & H).
    + subst w1. destruct H as (w2 & Hp & H). cbn [performs] in Hp. subst w2.
      rewrite (IH _ _ H). cbn [print stdout flat_map reported snd fst].
      now rewrite <- app_assoc.
    + destruct Heff as (Hstd & _). rewrite (IH _ _ H), Hstd. reflexivity.
Qed.


(** C2, amended: [move_files_keep_main_regions] makes one attempt, in
    order, for exactly the files none of whose regions is USA, Europe,
    Japan or World, each with the first free destination in the folder,
    and returns the names of those whose move succeeded; when the priority
    order lists exactly those four regions, as the default order does,
    these are the files whose primary region is outside the four. *)
Theorem keep_main_regions_moves (self : ROMAnalyzer) (w : World)
    (rom_files : list string) (destination_folder : string) :
  let result :=
    move_files_keep_main_regions move_error self w rom_files
                                 destination_folder in
  (exists outcomes : list outcome,
     map fst outcomes
     = filter (fun rom_file => outside_main_regions (Path.name rom_file))
              rom_files
     /\ run move_error mkdir_error
            (flat_map (attempt destination_folder) outcomes) w (snd result)
     /\ fst (fst result) = names_moved outcomes)
  /\ ((forall r, In r (region_priority self) <-> In r keep_regions) ->
      forall filename,
        outside_main_regions filename
        = negb (Py.mem (fst (get_primary_region self filename)) keep_regions)).
Proof.
  cbn zeta. split.
  - unfold move_files_keep_main_regions.
    destruct (move_loop
                (fun self rom_file =>
                   let (regions, self) :=
                     detect_regions self (Path.name rom_file) in
                   (negb (existsb (fun region => Py.mem region keep_regions)
                                  regions), self))
                (fun rom_file => outside_main_regions (Path.name rom_file))
                destination_folder
                (keep_main_regions_step move_error destination_folder))
      with (rom_files := rom_files) (moved_files := @nil string)
           (self := self) (w := w)
      as (outcomes & self' & w' & Hfold & Hsel & Hrun).
    + intros self0 rom_file.
      rewrite (outside_main_regions_self self0 (Path.name rom_file)).
      now destruct (detect_regions self0 (Path.name rom_file)).
    + intros moved_files self0 w0 rom_file. unfold keep_main_regions_step.
      now destruct (detect_regions self0 (Path.name rom_file)).
    + exists outcomes. rewrite Hfold. cbn [fst snd app]. auto.
  - intros Hprio filename.
    rewrite (outside_main_regions_self self filename).
    unfold get_primary_region.
    pose proof (detect_regions_not_nil self filename) as Hne.
    pose proof (detect_regions_priority self filename) as Hsame.
    destruct (detect_regions self filename) as [regions self1].
    cbn [fst snd] in Hne, Hsame |- *. rewrite Hsame.
    destruct regions as [|r0 regions]; [congruence|]. cbn [is_empty].
    destruct (find (fun priority_region => Py.mem priority_region (r0 :: regions))
                   (region_priority self)) as [pr|] eqn:Hfind.
    + apply find_some in Hfind. destruct Hfind as [Hin Hmem].
      apply Hprio in Hin. cbn [fst].
      replace (Py.mem pr keep_regions) with true
        by (symmetry; now apply mem_In).
      f_equal. apply existsb_exists. exists pr. split.
      * now apply mem_In.
      * now apply mem_In.
    + cbn [fst hd].
      assert (Hall : forall x, In x (r0 :: regions) -> Py.mem x keep_regions = false).
      { intros x Hx. apply mem_false. intro Hk. apply Hprio in Hk.
        pose proof (find_none_all _ _ Hfind x Hk) as Hf. cbn beta in Hf.
        apply mem_false in Hf. contradiction. }
      rewrite (Hall r0) by now left.
      f_equal. now apply existsb_false_all.
Qed.

End Calls.

Lemma keep_main_regions_moves_witness :
  let move_error := fun (fs : list string) (src dst : string) =>
                      if String.eqb src "C (Korea).zip"
                      then Some "Permission denied" else None in
  let mkdir_error := fun (fs : list string) (p : string) => @None string in
  let rom_files := ["A (USA).zip"; "B (Asia).zip"; "C (Korea).zip"] in
  let w := MkWorld ("ROM_DELETE/B (Asia).zip" :: rom_files) [] in
  let result :=
    move_files_keep_main_regions move_error new_analyzer w rom_files
                                 "ROM_DELETE" in
  (exists outcomes : list outcome,
     map fst outcomes
     = filter (fun rom_file => outside_main_regions (Path.name rom_file))
              rom_files
     /\ run move_error mkdir_error
            (flat_map (attempt "ROM_DELETE") outcomes) w (snd result)
     /\ fst (fst result) = names_moved outcomes)
  /\ forall filename,
       outside_main_regions filename
       = negb (Py.mem (fst (get_primary_region new_analyzer filename))
                      keep_regions).
Proof.
  intros move_error mkdir_error rom_files w.
  destruct (keep_main_regions_moves move_error mkdir_error new_analyzer w
              rom_files "ROM_DELETE") as [Hmoves Hprimary].
  split; [exact Hmoves|].
  apply Hprimary. intro r. simpl. tauto.
Defined.

(** * Further properties of the analyzer and of the bulk operations *)
(** ** Versions are strictly and totally ordered *)

(** The tuple order of Python, written out. *)
Lemma compare_versions_spec (v1 v2 : version) :
  compare_versions v1 v2 = true <->
  let '(a1, b1, c1, d1) := v1 in
  let '(a2, b2, c2, d2) := v2 in
  (a2 < a1 \/ (a1 = a2 /\ (b2 < b1 \/ (b1 = b2 /\ (c2 < c1
     \/ (c1 = c2 /\ d2 < d1))))))%N.
Proof.
  destruct v1 as [[[a1 b1] c1] d1], v2 as [[[a2 b2] c2] d2].
  unfold compare_versions.
  destruct (N.compare_spec a1 a2); [|split; [discriminate|lia]|split; [lia|trivial]].
  destruct (N.compare_spec b1 b2); [|split; [discriminate|lia]|split; [lia|trivial]].
  destruct (N.compare_spec c1 c2); [|split; [discriminate|lia]|split; [lia|trivial]].
  rewrite N.ltb_lt. lia.
Qed.

Lemma compare_versions_false (v1 v2 : version) :
  compare_versions v1 v2 = false <->
  let '(a1, b1, c1, d1) := v1 in
  let '(a2, b2, c2, d2) := v2 in
  (a1 < a2 \/ (a1 = a2 /\ (b1 < b2 \/ (b1 = b2 /\ (c1 < c2
     \/ (c1 = c2 /\ d1 <= d2))))))%N.
Proof.
  pose proof (compare_versions_spec v1 v2) as H.
  destruct v1 as [[[a1 b1] c1] d1], v2 as [[[a2 b2] c2] d2].
  destruct (compare_versions _ _).
  - split; [discriminate|]. intro H'.
    assert (Ht : true = true) by reflexivity. apply H in Ht. lia.
  - split; [|reflexivity]. intros _.
    assert (Hn : ~ (a2 < a1 \/ (a1 = a2 /\ (b2 < b1 \/ (b1 = b2 /\ (c2 < c1
                     \/ (c1 = c2 /\ d2 < d1))))))%N).
    { intro Hx. apply H in Hx. discriminate. }
    lia.
Qed.

(** X1: [compare_versions], "newer than", is a strict total order on version
    tuples: no version is newer than itself, the relation is transitive,
    and of two different versions exactly one is newer than the other. *)
Theorem compare_versions_strict_total_order (v1 v2 v3 : version) :
  compare_versions v1 v1 = false
  /\ (compare_versions v1 v2 = true -> compare_versions v2 v3 = true ->
      compare_versions v1 v3 = true)
  /\ (compare_versions v1 v2 = true -> compare_versions v2 v1 = false)
  /\ (compare_versions v1 v2 = false -> compare_versions v2 v1 = false ->
      v1 = v2).
Proof.
  pose proof (compare_versions_spec v1 v2) as H12.
  pose proof (compare_versions_spec v2 v3) as H23.
  pose proof (compare_versions_spec v1 v3) as H13.
  pose proof (compare_versions_false v1 v1) as H11.
  pose proof (compare_versions_false v2 v1) as H21.
  pose proof (compare_versions_false v1 v2) as H12'.
  destruct v1 as [[[a1 b1] c1] d1], v2 as [[[a2 b2] c2] d2],
           v3 as [[[a3 b3] c3] d3].
  repeat split.
  - apply H11. lia.
  - intros Ha Hb. apply H12 in Ha. apply H23 in Hb. apply H13. lia.
  - intro Ha. apply H12 in Ha. apply H21. lia.
  - intros Ha Hb. apply H12' in Ha. apply H21 in Hb.
    assert (a1 = a2 /\ b1 = b2 /\ c1 = c2 /\ d1 = d2)%N by lia.
    intuition congruence.
Qed.

Lemma compare_versions_strict_total_order_witness :
  compare_versions (2, 1, 1, 0)%N (2, 1, 0, 0)%N = true
  /\ compare_versions (2, 1, 0, 0)%N (1, 9, 9, 0)%N = true
  /\ compare_versions (2, 1, 1, 0)%N (1, 9, 9, 0)%N = true
  /\ compare_versions (2, 1, 0, 0)%N (2, 1, 1, 0)%N = false.
Proof.
  destruct (compare_versions_strict_total_order
              (2, 1, 1, 0)%N (2, 1, 0, 0)%N (1, 9, 9, 0)%N)
    as [_ [Htrans [Hasym _]]].
  assert (H1 : compare_versions (2, 1, 1, 0)%N (2, 1, 0, 0)%N = true)
    by reflexivity.
  assert (H2 : compare_versions (2, 1, 0, 0)%N (1, 9, 9, 0)%N = true)
    by reflexivity.
  split; [exact H1|]. split; [exact H2|].
  split; [exact (Htrans H1 H2) | exact (Hasym H1)].
Defined.

(** ** Regions and tags detected *)

(** X2: the regions returned by [detect_regions] are keys of the region
    table, each at most once. *)
Theorem detect_regions_wellformed (self : ROMAnalyzer) (filename : string) :
  incl (fst (detect_regions self filename)) region_names
  /\ NoDup (fst (detect_regions self filename)).
Proof.
  split; [apply detect_regions_known|].
  rewrite detect_regions_cases.
  destruct (found_regions_inv filename) as [_ Hnd].
  assert (Hothers : NoDup (filter (fun r => negb (String.eqb r "Japan"))
                                  (found_regions filename)))
    by now apply NoDup_filter.
  destruct (has_translation filename && Py.mem "Japan" (found_regions filename)).
  - destruct (Py.mem "USA" _) eqn:Hu; [assumption|].
    apply mem_false in Hu. apply NoDup_app; auto.
    + repeat constructor. simpl. tauto.
    + intros r Hr [<-|[]]. contradiction.
  - destruct (is_empty (found_regions filename)); [|assumption].
    repeat constructor. simpl. tauto.
Qed.

Lemma set_add_In (x y : string) (s : list string) :
  In y (set_add x s) <-> In y s \/ y = x.
Proof.
  unfold set_add. destruct (Py.mem x s) eqn:E.
  - apply mem_In in E. split; [tauto|]. intros [H| ->]; assumption.
  - rewrite in_app_iff. simpl. split; intros [H|H]; try tauto.
    + destruct H as [<-|[]]. now right.
    + subst y. tauto.
Qed.

Lemma set_add_NoDup (x : string) (s : list string) :
  NoDup s -> NoDup (set_add x s).
Proof.
  intro H. unfold set_add. destruct (Py.mem x s) eqn:E; [assumption|].
  apply mem_false in E. apply NoDup_app; auto.
  - repeat constructor. simpl. tauto.
  - intros r Hr [<-|[]]. contradiction.
Qed.

(** What [detect_regions] does to the analyzer. *)
Lemma detect_regions_logging (self : ROMAnalyzer) (filename : string) :
  let self' := snd (detect_regions self filename) in
  region_priority self' = region_priority self
  /\ unknown_specials self' = unknown_specials self
  /\ incl (unknown_regions self) (unknown_regions self')
  /\ (NoDup (unknown_regions self) -> NoDup (unknown_regions self'))
  /\ (forall x, In x (unknown_regions self') ->
        In x (unknown_regions self)
        \/ (found_regions filename = []
            /\ In x (bracketed_texts filename)
            /\ String.length x <= 20
            /\ Py.contains_char "," x = false
            /\ is_special_text x = false)).
Proof.
  unfold detect_regions. cbn [snd].
  destruct (is_empty (found_regions filename)) eqn:Hempty.
  2:{ repeat split; auto using incl_refl. }
  apply is_empty_true in Hempty.
  unfold log_unknown_regions.
  apply (fold_left_invariant
           (fun s : ROMAnalyzer =>
              region_priority s = region_priority self
              /\ unknown_specials s = unknown_specials self
              /\ incl (unknown_regions self) (unknown_regions s)
              /\ (NoDup (unknown_regions self) -> NoDup (unknown_regions s))
              /\ (forall x, In x (unknown_regions s) ->
                    In x (unknown_regions self)
                    \/ (found_regions filename = []
                        /\ In x (bracketed_texts filename)
                        /\ String.length x <= 20
                        /\ Py.contains_char "," x = false
                        /\ is_special_text x = false)))).
  - intros s match_ Hin (Hp & Hs & Hi & Hn & Hx).
    destruct (Py.contains_char "," match_) eqn:Hcomma; [tauto|].
    destruct (is_special_text match_) eqn:Hspecial; cbn [negb andb]; [tauto|].
    destruct (String.length match_ <=? 20) eqn:Hlen; [|tauto].
    apply Nat.leb_le in Hlen.
    unfold add_unknown_region. cbn [region_priority unknown_specials unknown_regions].
    repeat split; try assumption.
    + intros y Hy. apply set_add_In. left. now apply Hi.
    + intro Hnd. apply set_add_NoDup. now apply Hn.
    + intros x Hin'. apply set_add_In in Hin'. destruct Hin' as [Hin'| ->].
      * now apply Hx.
      * right. tauto.
  - repeat split; auto using incl_refl.
Qed.

(** X3: [detect_regions] touches the analyzer only through
    [unknown_regions], and only for a name in which the two detection
    passes found no region: that set keeps what it had, stays free of
    duplicates, and gains only texts found in parentheses or brackets that
    have at most 20 characters, no comma and do not read as a special
    tag. *)
Theorem detect_regions_accumulators (self : ROMAnalyzer) (filename : string) :
  let self' := snd (detect_regions self filename) in
  region_priority self' = region_priority self
  /\ unknown_specials self' = unknown_specials self
  /\ incl (unknown_regions self) (unknown_regions self')
  /\ (NoDup (unknown_regions self) -> NoDup (unknown_regions self'))
  /\ (forall x, In x (unknown_regions self') ->
        In x (unknown_regions self)
        \/ (found_regions filename = []
            /\ In x (bracketed_texts filename)
            /\ String.length x <= 20
            /\ Py.contains_char "," x = false
            /\ is_special_text x = false)).
Proof. exact (detect_regions_logging self filename). Qed.

Lemma detect_regions_accumulators_witness :
  NoDup (unknown_regions (snd (detect_regions new_analyzer "Game (Xyz).zip")))
  /\ unknown_regions (snd (detect_regions new_analyzer "Game (Xyz).zip")) = ["Xyz"].
Proof.
  split; [|reflexivity].
  destruct (detect_regions_accumulators new_analyzer "Game (Xyz).zip")
    as (_ & _ & _ & Hnd & _).
  apply Hnd. simpl. constructor.
Defined.

Lemma priority_of_cons (y : string) (l us ss : list string) (x : string) :
  String.eqb y x = false ->
  priority_of (Analyzer us ss (y :: l)) x = S (priority_of (Analyzer us ss l) x).
Proof.
  intro H. unfold priority_of. cbn [region_priority index]. rewrite H.
  destruct (index x l); reflexivity.
Qed.

Lemma find_first_rank (f : string -> bool) (l us ss : list string) (p : string) :
  find f l = Some p ->
  f p = true
  /\ forall r, f r = true ->
       priority_of (Analyzer us ss l) p <= priority_of (Analyzer us ss l) r.
Proof.
  induction l as [|y l IH]; [discriminate|].
  cbn [find]. destruct (f y) eqn:Hy.
  - intro H. injection H as <-. split; [assumption|]. intros r _.
    unfold priority_of at 1. cbn [region_priority index].
    rewrite String.eqb_refl. lia.
  - intro H. destruct (IH H) as [Hp Hle]. split; [assumption|].
    intros r Hr.
    rewrite !priority_of_cons.
    + specialize (Hle r Hr). lia.
    + destruct (String.eqb_spec y r); [congruence|reflexivity].
    + destruct (String.eqb_spec y p); [congruence|reflexivity].
Qed.

Lemma find_none_rank (l : list string) (x : string) :
  ~ In x l -> index x l = None.
Proof.
  induction l as [|y l IH]; [reflexivity|].
  intro H. cbn [index]. destruct (String.eqb_spec y x).
  - subst. exfalso. apply H. now left.
  - rewrite IH; [reflexivity|]. intro Hin. apply H. now right.
Qed.

(** What [get_primary_region] returns. *)
Lemma get_primary_region_spec (self : ROMAnalyzer) (filename : string) :
  let regions := fst (detect_regions self filename) in
  let primary := fst (get_primary_region self filename) in
  In primary regions
  /\ (forall r, In r regions -> priority_of self primary <= priority_of self r)
  /\ snd (get_primary_region self filename) = snd (detect_regions self filename).
Proof.
  cbn zeta. unfold get_primary_region.
  pose proof (detect_regions_not_nil self filename) as Hnil.
  destruct (detect_regions self filename) as [regions self'] eqn:E.
  cbn [fst snd] in *.
  assert (Hp : region_priority self' = region_priority self).
  { pose proof (detect_regions_priority self filename) as H.
    rewrite E in H. exact H. }
  destruct regions as [|r0 regions]; [congruence|]. cbn [is_empty].
  rewrite Hp.
  destruct self as [us ss priority]. cbn [region_priority] in *.
  destruct (find (fun priority_region => Py.mem priority_region (r0 :: regions))
                 priority) as [p|] eqn:Hfind; cbn [fst snd].
  - destruct (find_first_rank _ priority us ss p Hfind) as [Hmem Hle].
    repeat split.
    + now apply mem_In.
    + intros r Hr. apply Hle. now apply mem_In.
  - repeat split; [now left|].
    intros r Hr. unfold priority_of. cbn [region_priority hd].
    pose proof (find_none_all _ _ Hfind) as Hall.
    assert (Hout : forall x, In x (r0 :: regions) -> ~ In x priority).
    { intros x Hx Hin. specialize (Hall x Hin). cbn beta in Hall.
      apply mem_false in Hall. contradiction. }
    rewrite (find_none_rank priority r0), (find_none_rank priority r); auto.
    apply Hout. now left.
Qed.

(** X4: the primary region of a name is one of its detected regions, and
    among them it has the best rank in the priority list of the analyzer
    (a region missing from the list ranks after all listed ones); the
    analyzer is left as [detect_regions] leaves it. *)
Theorem primary_region_is_best_detected (self : ROMAnalyzer) (filename : string) :
  let regions := fst (detect_regions self filename) in
  let primary := fst (get_primary_region self filename) in
  In primary regions
  /\ (forall r, In r regions -> priority_of self primary <= priority_of self r)
  /\ snd (get_primary_region self filename) = snd (detect_regions self filename).
Proof. exact (get_primary_region_spec self filename). Qed.

Lemma primary_region_is_best_detected_witness :
  priority_of new_analyzer (fst (get_primary_region new_analyzer "Game (Europe, USA).zip"))
  <= priority_of new_analyzer "Europe".
Proof.
  apply (proj1 (proj2 (primary_region_is_best_detected
                         new_analyzer "Game (Europe, USA).zip"))).
  vm_compute. tauto.
Defined.

(** The loop of [detect_special_versions] over the table computes a
    filter. *)
Lemma found_specials_filter (filename : string) :
  map fst (found_specials filename)
  = map fst (filter (fun entry : string * list string =>
                       any_match (snd entry) filename) special_patterns).
Proof.
  unfold found_specials.
  assert (H : forall l init,
    map fst (fold_left
      (fun acc (entry : string * list string) =>
         let (special, patterns) := entry in
         match find (fun pattern => Re.found pattern filename Re.IGNORECASE)
                    patterns with
         | Some pattern => acc ++ [(special, pattern)]
         | None => acc
         end) l init)
    = map fst init
      ++ map fst (filter (fun entry : string * list string =>
                            any_match (snd entry) filename) l)).
  { induction l as [|[special patterns] l IH]; intro init; cbn [fold_left filter snd].
    - now rewrite app_nil_r.
    - rewrite IH. unfold any_match at 2.
      destruct (find _ patterns) as [pattern|] eqn:Hf.
      + apply find_some in Hf. destruct Hf as [Hin Hfound].
        assert (He : existsb (fun pattern => Re.found pattern filename Re.IGNORECASE)
                             patterns = true).
        { apply existsb_exists. now exists pattern. }
        rewrite He. rewrite map_app. cbn [map fst]. now rewrite <- app_assoc.
      + assert (He : existsb (fun pattern => Re.found pattern filename Re.IGNORECASE)
                             patterns = false).
        { apply existsb_false_all. exact (find_none_all _ _ Hf). }
        now rewrite He. }
  apply (H special_patterns []).
Qed.

Lemma special_names_NoDup : NoDup (map fst special_patterns).
Proof.
  repeat (constructor; [simpl; intuition discriminate|]). constructor.
Qed.

Lemma special_versions_accumulators (self : ROMAnalyzer) (filename : string) :
  only_specials_grow self (snd (detect_special_versions self filename)).
Proof.
  unfold detect_special_versions, only_specials_grow. cbn [snd].
  apply (fold_left_invariant
           (fun s : ROMAnalyzer =>
              unknown_regions s = unknown_regions self
              /\ region_priority s = region_priority self
              /\ incl (unknown_specials self) (unknown_specials s))).
  - intros s match_ _ (Hr & Hp & Hi).
    match goal with |- context [if ?c then _ else _] => destruct c end; [|tauto].
    match goal with |- context [if ?c then _ else _] => destruct c end; [|tauto].
    unfold add_unknown_special. cbn [unknown_regions region_priority unknown_specials].
    repeat split; try assumption.
    intros y Hy. apply set_add_In. left. now apply Hi.
  - repeat split; auto using incl_refl.
Qed.

(** X5: the tags returned by [detect_special_versions] are the keys of the
    special-tag table one of whose patterns is found in the name, in the
    order of the table and each once, whatever the analyzer holds; the
    call changes neither [unknown_regions] nor the region priority, and
    [unknown_specials] keeps what it had. *)
Theorem detect_special_versions_wellformed (self : ROMAnalyzer) (filename : string) :
  let specials := fst (detect_special_versions self filename) in
  let self' := snd (detect_special_versions self filename) in
  specials = map fst (filter (fun entry : string * list string =>
                                any_match (snd entry) filename) special_patterns)
  /\ NoDup specials
  /\ unknown_regions self' = unknown_regions self
  /\ region_priority self' = region_priority self
  /\ incl (unknown_specials self) (unknown_specials self').
Proof.
  cbn zeta. split; [apply found_specials_filter|]. split.
  - unfold detect_special_versions. cbn [fst].
    rewrite found_specials_filter. apply NoDup_map_filter, special_names_NoDup.
  - apply special_versions_accumulators.
Qed.

(** X6: a bracketed [b] tag, with or without digits, is read both as a beta
    and as a bad dump: the tables give the two tags the same pattern. *)
Theorem bad_dump_tag_is_also_beta (self : ROMAnalyzer) (filename : string) :
  Re.found "\[b\d*\]" filename Re.IGNORECASE = true ->
  In "Beta" (fst (detect_special_versions self filename))
  /\ In "Bad Dump" (fst (detect_special_versions self filename)).
Proof.
  intro H. unfold detect_special_versions. cbn [fst].
  rewrite found_specials_filter.
  assert (Hkey : forall special patterns,
            In (special, patterns) special_patterns ->
            In "\[b\d*\]" patterns ->
            In special (map fst (filter (fun entry : string * list string =>
                                           any_match (snd entry) filename)
                                        special_patterns))).
  { intros special patterns Hin Hpat. apply in_map_iff.
    exists (special, patterns). split; [reflexivity|].
    apply filter_In. split; [assumption|]. cbn [snd].
    apply existsb_exists. now exists "\[b\d*\]". }
  split.
  - apply (Hkey "Beta" ["\(Beta\s*\d*\)"; "\[beta\s*\d*\]"; "\[b\d*\]"]);
      simpl; tauto.
  - apply (Hkey "Bad Dump" ["\[b\d*\]"; "\(Bad\)"; "\[!p\]"]); simpl; tauto.
Qed.

Lemma bad_dump_tag_is_also_beta_witness :
  In "Beta" (fst (detect_special_versions new_analyzer "Game (USA) [b1].nes"))
  /\ In "Bad Dump" (fst (detect_special_versions new_analyzer "Game (USA) [b1].nes")).
Proof.
  apply (bad_dump_tag_is_also_beta new_analyzer "Game (USA) [b1].nes").
  vm_compute. reflexivity.
Defined.

(** ** The best copy of a group *)

(** [max] with a key: when "greater" is asymmetric and such that what is
    greater than one key is greater than every key not above that one,
    the result is the first of the items whose key none exceeds. *)
Lemma fold_max_spec {A K : Type} (gt : K -> K -> bool) (key : A -> K) :
  (forall a, gt a a = false) ->
  (forall a b c, gt a b = true -> gt c b = false -> gt a c = true) ->
  (forall a b, gt a b = true -> gt b a = false) ->
  forall (xs before : list A) (x : A) (middle : list A),
    (forall y, In y before -> gt (key x) (key y) = true) ->
    (forall y, In y middle -> gt (key y) (key x) = false) ->
    exists before' best after',
      fold_left (fun best y => if gt (key y) (key best) then y else best) xs x
      = best
      /\ before ++ x :: middle ++ xs = before' ++ best :: after'
      /\ (forall y, In y before' -> gt (key best) (key y) = true)
      /\ (forall y, In y after' -> gt (key y) (key best) = false).
Proof.
  intros Hirr Hneg Hasym.
  induction xs as [|y xs IH]; intros before x middle Hb Hm; cbn [fold_left].
  - exists before, x, middle. rewrite app_nil_r. tauto.
  - destruct (gt (key y) (key x)) eqn:Hy.
    + destruct (IH (before ++ x :: middle) y []) as (b' & best & a' & H1 & H2 & H3 & H4).
      * intros z Hz. apply in_app_iff in Hz. destruct Hz as [Hz|[<-|Hz]].
        -- apply (Hneg _ (key x)); [assumption|].
           apply Hasym. now apply Hb.
        -- assumption.
        -- apply (Hneg _ (key x)); [assumption|]. now apply Hm.
      * intros z [].
      * exists b', best, a'. repeat split; try assumption.
        rewrite <- H2. cbn [app]. now rewrite <- app_assoc.
    + destruct (IH before x (middle ++ [y])) as (b' & best & a' & H1 & H2 & H3 & H4).
      * assumption.
      * intros z Hz. apply in_app_iff in Hz. destruct Hz as [Hz|[<-|[]]]; auto.
      * exists b', best, a'. repeat split; try assumption.
        rewrite <- H2. now rewrite <- app_assoc.
Qed.

Lemma max_by_spec {A K : Type} (gt : K -> K -> bool) (key : A -> K)
    (items : list A) :
  (forall a, gt a a = false) ->
  (forall a b c, gt a b = true -> gt c b = false -> gt a c = true) ->
  (forall a b, gt a b = true -> gt b a = false) ->
  match max_by gt key items with
  | None => items = []
  | Some best =>
      exists before after,
        items = before ++ best :: after
        /\ (forall y, In y before -> gt (key best) (key y) = true)
        /\ (forall y, In y after -> gt (key y) (key best) = false)
  end.
Proof.
  intros Hirr Hneg Hasym. destruct items as [|x xs]; [reflexivity|].
  cbn [max_by].
  destruct (fold_max_spec gt key Hirr Hneg Hasym xs [] x [])
    as (b' & best & a' & H1 & H2 & H3 & H4); try (intros z []).
  rewrite H1. exists b', a'. tauto.
Qed.

Lemma filter_all_false {A : Type} (f : A -> bool) (l : list A) :
  filter f l = [] -> forall x, In x l -> f x = false.
Proof.
  intros H x Hx. destruct (f x) eqn:E; [|reflexivity].
  assert (Hin : In x (filter f l)) by (apply filter_In; tauto).
  rewrite H in Hin. destruct Hin.
Qed.

(** What [get_best_format_rom] returns. *)
Lemma best_format_rom_spec (rom_files : list string) :
  match get_best_format_rom rom_files with
  | None => forall rom, In rom rom_files -> is_save_state (Path.name rom) = true
  | Some best =>
      exists before after,
        filter (fun rom => negb (is_save_state (Path.name rom))) rom_files
        = before ++ best :: after
        /\ (forall rom, In rom before ->
              get_format_preference (Path.name rom)
              < get_format_preference (Path.name best))
        /\ (forall rom, In rom after ->
              get_format_preference (Path.name rom)
              <= get_format_preference (Path.name best))
  end.
Proof.
  unfold get_best_format_rom.
  destruct rom_files as [|r0 rs] eqn:Hrs; cbn [is_empty]; [intros rom []|].
  rewrite <- Hrs. clear Hrs r0 rs.
  set (actual_roms := filter _ rom_files).
  destruct actual_roms as [|a l] eqn:Ha; cbn [is_empty].
  - intros rom Hin. pose proof (filter_all_false _ _ Ha rom Hin) as H.
    cbn beta in H. now destruct (is_save_state (Path.name rom)).
  - rewrite <- Ha.
    pose proof (max_by_spec (fun a b : nat => b <? a)
                  (fun rom => get_format_preference (Path.name rom)) actual_roms)
      as H.
    destruct (max_by _ _ actual_roms) as [best|].
    + destruct H as (before & after & H1 & H2 & H3).
      * intro n. apply Nat.ltb_irrefl.
      * intros x y z Hxy Hzy. apply Nat.ltb_lt in Hxy. apply Nat.ltb_ge in Hzy.
        apply Nat.ltb_lt. lia.
      * intros x y Hxy. apply Nat.ltb_lt in Hxy. apply Nat.ltb_ge. lia.
      * exists before, after. split; [assumption|]. split.
        -- intros rom Hin. apply Nat.ltb_lt. now apply H2.
        -- intros rom Hin. apply Nat.ltb_ge. now apply H3.
    + rewrite H in Ha.
      * discriminate.
      * intro n. apply Nat.ltb_irrefl.
      * intros x y z Hxy Hzy. apply Nat.ltb_lt in Hxy. apply Nat.ltb_ge in Hzy.
        apply Nat.ltb_lt. lia.
      * intros x y Hxy. apply Nat.ltb_lt in Hxy. apply Nat.ltb_ge. lia.
Qed.

(** X7: [get_best_format_rom] returns nothing exactly when every file is a
    save state or save file; otherwise it returns the first of the other
    files whose format preference none of them exceeds. *)
Theorem best_format_rom_is_first_maximum (rom_files : list string) :
  match get_best_format_rom rom_files with
  | None => forall rom, In rom rom_files -> is_save_state (Path.name rom) = true
  | Some best =>
      exists before after,
        filter (fun rom => negb (is_save_state (Path.name rom))) rom_files
        = before ++ best :: after
        /\ (forall rom, In rom before ->
              get_format_preference (Path.name rom)
              < get_format_preference (Path.name best))
        /\ (forall rom, In rom after ->
              get_format_preference (Path.name rom)
              <= get_format_preference (Path.name best))
  end.
Proof. exact (best_format_rom_spec rom_files). Qed.

Lemma version_key_gt_spec (k1 k2 : version * nat) :
  version_key_gt k1 k2 = true <->
  compare_versions (fst k1) (fst k2) = true
  \/ (fst k1 = fst k2 /\ snd k2 < snd k1).
Proof.
  unfold version_key_gt.
  pose proof (compare_versions_spec (fst k1) (fst k2)) as H12.
  pose proof (compare_versions_false (fst k1) (fst k2)) as H12'.
  pose proof (compare_versions_spec (fst k2) (fst k1)) as H21.
  pose proof (compare_versions_false (fst k2) (fst k1)) as H21'.
  destruct k1 as [[[[a1 b1] c1] d1] n1], k2 as [[[[a2 b2] c2] d2] n2].
  cbn [fst snd] in *.
  destruct (compare_versions (a1, b1, c1, d1) (a2, b2, c2, d2)) eqn:E1;
    cbn [orb]; [tauto|].
  destruct (compare_versions (a2, b2, c2, d2) (a1, b1, c1, d1)) eqn:E2.
  - split; [discriminate|]. intros [H|[H _]]; [discriminate|].
    injection H as -> -> -> ->.
    assert (Ht : true = true) by reflexivity. apply H21 in Ht. lia.
  - rewrite Nat.ltb_lt. split.
    + intro Hn. right. split; [|assumption].
      assert (Hf : false = false) by reflexivity.
      pose proof (proj1 H12' Hf). pose proof (proj1 H21' Hf).
      assert (a1 = a2 /\ b1 = b2 /\ c1 = c2 /\ d1 = d2)%N by lia.
      intuition congruence.
    + intros [H|[_ H]]; [discriminate|assumption].
Qed.

Lemma version_key_gt_lex (k1 k2 : version * nat) :
  version_key_gt k1 k2 = true <->
  let '(a1, b1, c1, d1, n1) := k1 in
  let '(a2, b2, c2, d2, n2) := k2 in
  (a2 < a1)%N \/ (a1 = a2 /\ ((b2 < b1)%N \/ (b1 = b2 /\ ((c2 < c1)%N
     \/ (c1 = c2 /\ ((d2 < d1)%N \/ (d1 = d2 /\ n2 < n1))))))).
Proof.
  rewrite version_key_gt_spec.
  pose proof (compare_versions_spec (fst k1) (fst k2)) as H.
  destruct k1 as [[[[a1 b1] c1] d1] n1], k2 as [[[[a2 b2] c2] d2] n2].
  cbn [fst snd] in *. split.
  - intros [Hc|[He Hn]].
    + apply H in Hc. lia.
    + injection He as -> -> -> ->. lia.
  - intro Hl.
    destruct (N.eq_dec a1 a2) as [->|]; [|left; apply H; lia].
    destruct (N.eq_dec b1 b2) as [->|]; [|left; apply H; lia].
    destruct (N.eq_dec c1 c2) as [->|]; [|left; apply H; lia].
    destruct (N.eq_dec d1 d2) as [->|]; [|left; apply H; lia].
    right. split; [reflexivity|lia].
Qed.

Lemma version_key_gt_order :
  (forall a, version_key_gt a a = false)
  /\ (forall a b c, version_key_gt a b = true -> version_key_gt c b = false ->
                    version_key_gt a c = true)
  /\ (forall a b, version_key_gt a b = true -> version_key_gt b a = false).
Proof.
  assert (Hfalse : forall k1 k2,
            version_key_gt k1 k2 = false <-> ~ (version_key_gt k1 k2 = true)).
  { intros k1 k2. destruct (version_key_gt k1 k2); split; congruence. }
  repeat split.
  - intro a. apply Hfalse. rewrite version_key_gt_lex.
    destruct a as [[[[a1 b1] c1] d1] n1]. lia.
  - intros a b c Hab Hcb. apply Hfalse in Hcb.
    rewrite version_key_gt_lex in *.
    destruct a as [[[[a1 b1] c1] d1] n1], b as [[[[a2 b2] c2] d2] n2],
             c as [[[[a3 b3] c3] d3] n3]. lia.
  - intros a b Hab. apply Hfalse. rewrite version_key_gt_lex in *.
    destruct a as [[[[a1 b1] c1] d1] n1], b as [[[[a2 b2] c2] d2] n2]. lia.
Qed.

(** What [get_best_version_rom] returns. *)
Lemma best_version_rom_spec (rom_files : list string) :
  match get_best_version_rom rom_files with
  | None => forall rom, In rom rom_files -> is_save_state (Path.name rom) = true
  | Some best =>
      exists before after,
        roms_only rom_files = before ++ best :: after
        /\ (forall rom, In rom before -> beats best rom)
        /\ (forall rom, In rom after -> ~ beats rom best)
  end.
Proof.
  unfold get_best_version_rom, roms_only, beats.
  destruct rom_files as [|r0 rs] eqn:Hrs; cbn [is_empty]; [intros rom []|].
  rewrite <- Hrs. clear Hrs r0 rs.
  set (actual_roms := filter _ rom_files).
  destruct version_key_gt_order as (Hirr & Hneg & Hasym).
  pose proof (max_by_spec version_key_gt
                (fun rom => (detect_version (Path.name rom),
                             get_format_preference (Path.name rom)))
                actual_roms Hirr Hneg Hasym) as H.
  destruct actual_roms as [|a l] eqn:Ha; cbn [is_empty].
  - intros rom Hin. pose proof (filter_all_false _ _ Ha rom Hin) as Hf.
    cbn beta in Hf. now destruct (is_save_state (Path.name rom)).
  - destruct (max_by _ _ (a :: l)) as [best|]; [|discriminate].
    destruct H as (before & after & H1 & H2 & H3).
    exists before, after. split; [assumption|]. split.
    + intros rom Hin. specialize (H2 rom Hin).
      apply version_key_gt_spec in H2. exact H2.
    + intros rom Hin Hbeats. specialize (H3 rom Hin).
      assert (Ht : version_key_gt
                     (detect_version (Path.name rom),
                      get_format_preference (Path.name rom))
                     (detect_version (Path.name best),
                      get_format_preference (Path.name best)) = true)
        by (apply version_key_gt_spec; exact Hbeats).
      congruence.
Qed.

(** X8: [get_best_version_rom] returns nothing exactly when every file is a
    save state or save file; otherwise it returns the first of the other
    files that no other beats, where a file beats another when its version
    is newer or, the versions being equal, its format preference is
    higher. *)
Theorem best_version_rom_is_first_maximum (rom_files : list string) :
  match get_best_version_rom rom_files with
  | None => forall rom, In rom rom_files -> is_save_state (Path.name rom) = true
  | Some best =>
      exists before after,
        roms_only rom_files = before ++ best :: after
        /\ (forall rom, In rom before -> beats best rom)
        /\ (forall rom, In rom after -> ~ beats rom best)
  end.
Proof. exact (best_version_rom_spec rom_files). Qed.

(** ** The extension tables *)

Lemma dict_get_app (d : list (string * nat)) (k : string) (v : nat) (key : string) :
  dict_get (d ++ [(k, v)]) key
  = if String.eqb k key then v else dict_get d key.
Proof. unfold dict_get. rewrite fold_left_app. reflexivity. Qed.

(** A dictionary with positive values gives a positive value exactly for
    its keys. *)
Lemma dict_get_positive (d : list (string * nat)) (key : string) :
  forallb (fun kv : string * nat => 0 <? snd kv) d = true ->
  (0 <? dict_get d key) = Py.mem key (map fst d).
Proof.
  induction d as [|[k v] d IH] using rev_ind; intro H; [reflexivity|].
  rewrite forallb_app in H. apply andb_prop in H. destruct H as [Hd Hkv].
  cbn [forallb snd] in Hkv. rewrite andb_true_r in Hkv.
  rewrite dict_get_app, map_app. unfold Py.mem. rewrite existsb_app.
  fold (Py.mem key (map fst d)). rewrite <- (IH Hd). cbn [map fst existsb].
  rewrite orb_false_r, (String.eqb_sym key k).
  destruct (String.eqb k key); [|now rewrite orb_false_r].
  now rewrite Hkv, orb_true_r.
Qed.

Lemma mem_same (xs ys : list string) :
  forallb (fun x => Py.mem x ys) xs = true ->
  forallb (fun y => Py.mem y xs) ys = true ->
  forall x, Py.mem x xs = Py.mem x ys.
Proof.
  intros H1 H2 x. rewrite forallb_forall in H1, H2.
  destruct (Py.mem x xs) eqn:E1, (Py.mem x ys) eqn:E2; try reflexivity.
  - apply mem_In in E1. rewrite (H1 x E1) in E2. discriminate.
  - apply mem_In in E2. rewrite (H2 x E2) in E1. discriminate.
Qed.

Lemma mem_subset (xs ys : list string) :
  forallb (fun x => Py.mem x ys) xs = true ->
  forall x, Py.mem x xs = true -> Py.mem x ys = true.
Proof.
  intros H x Hx. rewrite forallb_forall in H. apply H. now apply mem_In.
Qed.

(** X9: the extension tables agree: a file is a ROM file exactly when its
    extension has a format preference, which is then at least 1; save
    files and multi-file formats are ROM files. *)
Theorem extension_tables_agree (filename : string) :
  is_rom_file filename = (1 <=? get_format_preference filename)
  /\ (is_save_state filename = true -> is_rom_file filename = true)
  /\ (is_multi_file_format filename = true -> is_rom_file filename = true).
Proof.
  unfold is_rom_file, get_format_preference, is_save_state, is_multi_file_format.
  set (ext := Py.lower (Path.suffix filename)).
  split; [|split].
  - change (1 <=? dict_get format_preference ext)
      with (0 <? dict_get format_preference ext).
    rewrite dict_get_positive by (vm_compute; reflexivity).
    apply mem_same; vm_compute; reflexivity.
  - apply mem_subset. vm_compute. reflexivity.
  - apply mem_subset. vm_compute. reflexivity.
Qed.

Lemma extension_tables_agree_witness :
  is_rom_file "Game (USA).srm" = true /\ is_rom_file "Disc 1.cue" = true.
Proof.
  split.
  - apply (proj1 (proj2 (extension_tables_agree "Game (USA).srm"))).
    vm_compute. reflexivity.
  - apply (proj2 (proj2 (extension_tables_agree "Disc 1.cue"))).
    vm_compute. reflexivity.
Defined.

(** ** Letter case *)

Lemma lower_char_separator (c : ascii) :
  Ascii.eqb (Py.lower_char c) "/" = Ascii.eqb c "/"
  /\ Ascii.eqb (Py.lower_char c) "." = Ascii.eqb c ".".
Proof.
  pose (check := fun c : ascii =>
          Bool.eqb (Ascii.eqb (Py.lower_char c) "/") (Ascii.eqb c "/")
          && Bool.eqb (Ascii.eqb (Py.lower_char c) ".") (Ascii.eqb c ".")).
  assert (H : forallb check all_ascii = true) by (vm_compute; reflexivity).
  pose proof (forall_ascii check H c) as Hx. unfold check in Hx.
  apply andb_prop in Hx. destruct Hx as [H1 H2].
  split; now apply Bool.eqb_prop.
Qed.

Lemma lower_char_idempotent (c : ascii) :
  Py.lower_char (Py.lower_char c) = Py.lower_char c.
Proof.
  pose (check := fun c : ascii =>
          Ascii.eqb (Py.lower_char (Py.lower_char c)) (Py.lower_char c)).
  assert (H : forallb check all_ascii = true) by (vm_compute; reflexivity).
  apply Ascii.eqb_eq. exact (forall_ascii check H c).
Qed.

Lemma lower_idempotent (s : string) : Py.lower (Py.lower s) = Py.lower s.
Proof.
  induction s as [|c s IH]; [reflexivity|].
  cbn [Py.lower]. now rewrite lower_char_idempotent, IH.
Qed.

Lemma lower_length (s : string) : String.length (Py.lower s) = String.length s.
Proof. induction s as [|c s IH]; [reflexivity|]. cbn. now rewrite IH. Qed.

Lemma lower_is_empty (s : string) :
  String.eqb (Py.lower s) "" = String.eqb s "".
Proof. now destruct s. Qed.

Lemma lower_is_dot (s : string) :
  String.eqb (Py.lower s) "." = String.eqb s ".".
Proof.
  destruct s as [|c s]; [reflexivity|].
  cbn [Py.lower String.eqb].
  rewrite (proj2 (lower_char_separator c)), lower_is_empty. reflexivity.
Qed.

Lemma split_lower (s : string) :
  Py.split "/" (Py.lower s) = map Py.lower (Py.split "/" s).
Proof.
  induction s as [|c s IH]; [reflexivity|].
  cbn [Py.lower Py.split]. rewrite (proj1 (lower_char_separator c)), IH.
  destruct (Ascii.eqb c "/"); [reflexivity|].
  destruct (Py.split "/" s); reflexivity.
Qed.

Lemma parts_lower (s : string) :
  Path.parts (Py.lower s) = map Py.lower (Path.parts s).
Proof.
  unfold Path.parts. rewrite split_lower.
  induction (Py.split "/" s) as [|p ps IH]; [reflexivity|].
  cbn [map filter]. rewrite lower_is_empty, lower_is_dot, IH.
  destruct (negb _); reflexivity.
Qed.

Lemma name_lower (s : string) : Path.name (Py.lower s) = Py.lower (Path.name s).
Proof.
  unfold Path.name. rewrite parts_lower.
  induction (Path.parts s) as [|p ps IH]; [reflexivity|].
  cbn [map]. destruct ps as [|q ps]; [reflexivity|]. exact IH.
Qed.

Lemma rsplit_dot_lower (s : string) :
  Path.rsplit_dot (Py.lower s)
  = option_map (fun ab : string * string => (Py.lower (fst ab), Py.lower (snd ab)))
               (Path.rsplit_dot s).
Proof.
  induction s as [|c s IH]; [reflexivity|].
  cbn [Py.lower Path.rsplit_dot]. rewrite IH.
  destruct (Path.rsplit_dot s) as [[a b]|]; [reflexivity|].
  cbn [option_map]. rewrite (proj2 (lower_char_separator c)).
  destruct (Ascii.eqb c "."); reflexivity.
Qed.

Lemma split_suffix_lower (s : string) :
  Path.split_suffix (Py.lower s)
  = (Py.lower (fst (Path.split_suffix s)), Py.lower (snd (Path.split_suffix s))).
Proof.
  unfold Path.split_suffix. rewrite rsplit_dot_lower.
  destruct (Path.rsplit_dot s) as [[a b]|]; cbn [option_map fst snd];
    [|reflexivity].
  rewrite !lower_length.
  destruct ((0 <? String.length a) && (1 <? String.length b)); reflexivity.
Qed.

Lemma stem_lower (s : string) : Path.stem (Py.lower s) = Py.lower (Path.stem s).
Proof.
  unfold Path.stem. now rewrite name_lower, split_suffix_lower.
Qed.

Lemma suffix_lower (s : string) :
  Path.suffix (Py.lower s) = Py.lower (Path.suffix s).
Proof.
  unfold Path.suffix. now rewrite name_lower, split_suffix_lower.
Qed.

(** X10: the classification by extension and the casino and adult tests do
    not look at letter case: two names that are equal once lower-cased are
    classified alike. *)
Theorem classification_ignores_case (filename other : string) :
  Py.lower filename = Py.lower other ->
  is_rom_file filename = is_rom_file other
  /\ is_save_state filename = is_save_state other
  /\ is_multi_file_format filename = is_multi_file_format other
  /\ get_format_preference filename = get_format_preference other
  /\ is_casino_game filename = is_casino_game other
  /\ is_adult_game filename = is_adult_game other.
Proof.
  intro H.
  assert (Hsuffix : Py.lower (Path.suffix filename) = Py.lower (Path.suffix other)).
  { now rewrite <- !suffix_lower, H. }
  assert (Hstem : Py.lower (Path.stem filename) = Py.lower (Path.stem other)).
  { now rewrite <- !stem_lower, H. }
  unfold is_rom_file, is_save_state, is_multi_file_format, get_format_preference,
    is_casino_game, is_adult_game.
  rewrite Hsuffix, Hstem. repeat split.
Qed.

Lemma classification_ignores_case_witness :
  is_rom_file "GAME.NES" = is_rom_file "game.nes"
  /\ is_casino_game "Vegas Stakes.SFC" = is_casino_game "VEGAS STAKES.sfc".
Proof.
  split.
  - apply (classification_ignores_case "GAME.NES" "game.nes").
    vm_compute. reflexivity.
  - apply (classification_ignores_case "Vegas Stakes.SFC" "VEGAS STAKES.sfc").
    vm_compute. reflexivity.
Defined.

(** ** Folders that hold one game *)

Lemma count_ext_app (ext : string) (items more : list (string * bool)) :
  count_ext ext (items ++ more) = count_ext ext items + count_ext ext more.
Proof. unfold count_ext. now rewrite filter_app, length_app. Qed.

Lemma count_ext_permutation (ext : string) (items items' : list (string * bool)) :
  Permutation items items' -> count_ext ext items = count_ext ext items'.
Proof.
  intro H. unfold count_ext.
  induction H as [|x l l' H IH|x y l|l l' l'' H1 IH1 H2 IH2]; cbn [filter].
  - reflexivity.
  - destruct (_ && _); cbn [length]; now rewrite IH.
  - destruct (snd y && _), (snd x && _); reflexivity.
  - now rewrite IH1.
Qed.

(** The loop over the children counts, for each of the six extensions, the
    regular files that have it. *)
Lemma count_files (items : list (string * bool)) (c : file_counts) :
  fold_left count_file items c
  = Counts (chd_count c + count_ext ".chd" items)
           (cue_count c + count_ext ".cue" items)
           (bin_count c + count_ext ".bin" items)
           (zip_count c + count_ext ".zip" items)
           (iso_count c + count_ext ".iso" items)
           (m3u_count c + count_ext ".m3u" items).
Proof.
  revert c. induction items as [|[file_path is_file] items IH]; intro c.
  - destruct c. cbn. now rewrite !Nat.add_0_r.
  - cbn [fold_left]. rewrite IH. unfold count_ext. cbn [filter fst snd].
    unfold count_file.
    destruct is_file; cbn [andb]; [|reflexivity].
    set (ext := Py.lower (Path.suffix file_path)).
    destruct (String.eqb_spec ext ".chd") as [->|_];
      [cbn; f_equal; lia|].
    destruct (String.eqb_spec ext ".cue") as [->|_];
      [cbn; f_equal; lia|].
    destruct (String.eqb_spec ext ".bin") as [->|_];
      [cbn; f_equal; lia|].
    destruct (String.eqb_spec ext ".zip") as [->|_];
      [cbn; f_equal; lia|].
    destruct (String.eqb_spec ext ".iso") as [->|_];
      [cbn; f_equal; lia|].
    destruct (String.eqb_spec ext ".m3u") as [->|_];
      [cbn; f_equal; lia|].
    reflexivity.
Qed.

(** Each regular file is counted at most once. *)
Lemma counted_once (items : list (string * bool)) :
  count_ext ".chd" items + count_ext ".cue" items + count_ext ".bin" items
  + count_ext ".zip" items + count_ext ".iso" items + count_ext ".m3u" items
  <= length (filter snd items).
Proof.
  unfold count_ext.
  induction items as [|[file_path is_file] items IH]; [cbn; lia|].
  cbn [filter fst snd]. destruct is_file; cbn [andb]; [|exact IH].
  set (ext := Py.lower (Path.suffix file_path)).
  destruct (String.eqb_spec ext ".chd") as [->|_]; [cbn in *; lia|].
  destruct (String.eqb_spec ext ".cue") as [->|_]; [cbn in *; lia|].
  destruct (String.eqb_spec ext ".bin") as [->|_]; [cbn in *; lia|].
  destruct (String.eqb_spec ext ".zip") as [->|_]; [cbn in *; lia|].
  destruct (String.eqb_spec ext ".iso") as [->|_]; [cbn in *; lia|].
  destruct (String.eqb_spec ext ".m3u") as [->|_]; [cbn in *; lia|].
  cbn [length]. lia.
Qed.

Ltac decide_counts :=
  repeat match goal with
         | |- context [?x <=? ?y] => destruct (Nat.leb_spec x y)
         | H : context [?x <=? ?y] |- _ => destruct (Nat.leb_spec x y)
         end;
  cbn [andb orb] in *; try reflexivity; try discriminate; try lia.

(** X11: whether a folder holds one game depends only on how many regular
    files of each kind it has: the order in which the file system lists
    the children does not matter, more children never undo a positive
    answer, and a positive answer takes at least two regular files. *)
Theorem folder_game_detection (items more items' : list (string * bool)) :
  (Permutation items items' ->
   is_folder_based_game (Children items) = is_folder_based_game (Children items'))
  /\ (is_folder_based_game (Children items) = true ->
      is_folder_based_game (Children (items ++ more)) = true)
  /\ (is_folder_based_game (Children items) = true ->
      2 <= length (filter snd items)).
Proof.
  unfold is_folder_based_game. rewrite !count_files.
  cbn [chd_count cue_count bin_count zip_count iso_count m3u_count Nat.add].
  repeat split.
  - intro H. now rewrite !(count_ext_permutation _ _ _ H).
  - rewrite !count_ext_app.
    generalize (count_ext ".chd" items) (count_ext ".cue" items)
      (count_ext ".bin" items) (count_ext ".zip" items)
      (count_ext ".iso" items) (count_ext ".m3u" items)
      (count_ext ".chd" more) (count_ext ".cue" more)
      (count_ext ".bin" more) (count_ext ".zip" more)
      (count_ext ".iso" more) (count_ext ".m3u" more).
    intros a b c d e f a' b' c' d' e' f' H.
    destruct (Nat.leb_spec 2 (a + a')); [reflexivity|].
    destruct (Nat.leb_spec 2 (b + b')); [reflexivity|].
    destruct (Nat.leb_spec 1 (b + b')), (Nat.leb_spec 1 (c + c'));
      cbn [andb]; try reflexivity;
    destruct (Nat.leb_spec 1 (a + a')), (Nat.leb_spec 1 (d + d'));
      cbn [andb]; try reflexivity;
    destruct (Nat.leb_spec 2 (e + e')); try reflexivity;
    destruct (Nat.leb_spec 1 (f + f')), (Nat.leb_spec 1 (e + e'));
      cbn [andb orb]; try reflexivity;
    exfalso; decide_counts.
  - pose proof (counted_once items) as Hsum. revert Hsum.
    generalize (count_ext ".chd" items) (count_ext ".cue" items)
      (count_ext ".bin" items) (count_ext ".zip" items)
      (count_ext ".iso" items) (count_ext ".m3u" items).
    intros a b c d e f Hsum H. decide_counts.
Qed.

Lemma folder_game_detection_witness :
  is_folder_based_game
    (Children [("Disc 2.chd", true); ("Disc 1.chd", true)]) = true
  /\ is_folder_based_game
       (Children [("Disc 1.chd", true); ("Disc 2.chd", true); ("notes", false)])
     = true.
Proof.
  destruct (folder_game_detection
              [("Disc 1.chd", true); ("Disc 2.chd", true)] [("notes", false)]
              [("Disc 2.chd", true); ("Disc 1.chd", true)])
    as (Hperm & Hmore & _).
  assert (H : is_folder_based_game
                (Children [("Disc 1.chd", true); ("Disc 2.chd", true)]) = true)
    by (vm_compute; reflexivity).
  split.
  - rewrite <- Hperm; [exact H|]. apply perm_swap.
  - exact (Hmore H).
Defined.

(** ** Grouping *)

Lemma dict_append_keys {A : Type} (key : string) (x : A) (d : list (string * list A)) :
  map fst (dict_append key x d)
  = if Py.mem key (map fst d) then map fst d else map fst d ++ [key].
Proof.
  induction d as [|[k xs] d IH]; [reflexivity|].
  cbn [dict_append map fst]. unfold Py.mem in *. cbn [existsb].
  rewrite (String.eqb_sym key k).
  destruct (String.eqb k key); [reflexivity|].
  cbn [orb map fst]. rewrite IH. now destruct (existsb _ _).
Qed.

Lemma dict_append_lookup {A : Type} (key : string) (x : A)
    (d : list (string * list A)) (key' : string) :
  dict_lookup (dict_append key x d) key'
  = if String.eqb key key' then dict_lookup d key' ++ [x] else dict_lookup d key'.
Proof.
  induction d as [|[k xs] d IH]; cbn [dict_append dict_lookup].
  - now destruct (String.eqb key key').
  - destruct (String.eqb_spec k key) as [->|Hk]; cbn [dict_lookup].
    + destruct (String.eqb_spec key key'); reflexivity.
    + destruct (String.eqb_spec k key') as [->|Hk'].
      * destruct (String.eqb_spec key key'); [congruence|reflexivity].
      * exact IH.
Qed.

Lemma dict_lookup_In {A : Type} (d : list (string * list A)) (k : string)
    (xs : list A) :
  NoDup (map fst d) -> In (k, xs) d -> dict_lookup d k = xs.
Proof.
  induction d as [|[k' xs'] d IH]; [intros _ []|].
  cbn [map fst dict_lookup]. intros Hnd [H|H].
  - injection H as -> ->. now rewrite String.eqb_refl.
  - inversion Hnd as [|? ? Hnotin Hnd']; subst.
    destruct (String.eqb_spec k' k) as [->|_].
    + exfalso. apply Hnotin. apply in_map_iff. now exists (k, xs).
    + now apply IH.
Qed.

Lemma dict_lookup_key {A : Type} (d : list (string * list A)) (k : string) :
  In k (map fst d) -> In (k, dict_lookup d k) d.
Proof.
  induction d as [|[k' xs'] d IH]; [intros []|].
  cbn [map fst dict_lookup]. intros [->|H].
  - rewrite String.eqb_refl. now left.
  - destruct (String.eqb_spec k' k) as [->|_]; [now left|].
    right. now apply IH.
Qed.

(** A loop of [dict_append] files every selected item under its key, in
    the order of the list, and creates no empty group. *)
Lemma grouping_loop {A : Type} (sel : A -> bool) (key : A -> string)
    (items : list A) :
  let d := fold_left (fun d x => if sel x then d else dict_append (key x) x d)
                     items [] in
  NoDup (map fst d)
  /\ (forall k, dict_lookup d k
                = filter (fun x => negb (sel x) && String.eqb (key x) k) items)
  /\ (forall k, In k (map fst d) <-> dict_lookup d k <> []).
Proof.
  cbn zeta.
  induction items as [|x items IH] using rev_ind.
  - cbn. repeat split; try constructor; intros; tauto.
  - rewrite fold_left_app. cbn [fold_left].
    destruct IH as (Hnd & Hlook & Hkeys).
    set (d := fold_left _ items []) in *.
    destruct (sel x) eqn:Hsel.
    + repeat split; try assumption; try apply Hkeys.
      intro k. rewrite filter_app. cbn [filter]. rewrite Hsel. cbn [negb andb].
      now rewrite app_nil_r.
    + split; [|split].
      * rewrite dict_append_keys.
        destruct (Py.mem (key x) (map fst d)) eqn:Hmem; [assumption|].
        apply mem_false in Hmem. apply NoDup_app; auto.
        -- repeat constructor. simpl. tauto.
        -- intros r Hr [<-|[]]. contradiction.
      * intro k. rewrite dict_append_lookup, filter_app, Hlook. cbn [filter].
        rewrite Hsel. cbn [negb andb].
        destruct (String.eqb (key x) k); [reflexivity|now rewrite app_nil_r].
      * intro k. rewrite dict_append_keys, dict_append_lookup.
        destruct (String.eqb_spec (key x) k) as [<-|Hk].
        -- split.
           ++ intros _ E. now destruct (dict_lookup d (key x)).
           ++ intros _. destruct (Py.mem (key x) (map fst d)) eqn:Hmem.
              ** now apply mem_In.
              ** apply in_app_iff. right. now left.
        -- rewrite <- Hkeys.
           destruct (Py.mem (key x) (map fst d)); [tauto|].
           rewrite in_app_iff. simpl. tauto.
Qed.

(** X12: [group_roms_by_base_and_version] puts every file that is no save
    state in exactly one group, the one of its key; the keys are distinct,
    no group is empty, and a group lists its files in the order of the
    input. *)
Theorem version_groups_partition (rom_files : list string) :
  let groups := group_roms_by_base_and_version rom_files in
  NoDup (map fst groups)
  /\ (forall key files,
        In (key, files) groups ->
        files <> []
        /\ files = filter (fun rom_file =>
                             negb (is_save_state (Path.name rom_file))
                             && String.eqb (version_key_of rom_file) key)
                          rom_files)
  /\ (forall rom_file,
        In rom_file rom_files ->
        is_save_state (Path.name rom_file) = false ->
        exists files,
          In (version_key_of rom_file, files) groups /\ In rom_file files).
Proof.
  cbn zeta. unfold group_roms_by_base_and_version.
  destruct (grouping_loop (fun rom_file => is_save_state (Path.name rom_file))
                          version_key_of rom_files) as (Hnd & Hlook & Hkeys).
  unfold version_key_of in *. cbn zeta in *.
  set (groups := fold_left _ rom_files []) in *.
  split; [assumption|]. split.
  - intros key files Hin.
    pose proof (dict_lookup_In groups key files Hnd Hin) as E.
    split.
    + rewrite <- E. apply Hkeys. apply in_map_iff. now exists (key, files).
    + rewrite <- E. apply Hlook.
  - intros rom_file Hin Hsave.
    set (key := version_key _ _).
    assert (Hmem : In rom_file (dict_lookup groups key)).
    { rewrite Hlook. apply filter_In. split; [assumption|].
      rewrite Hsave. cbn [negb andb]. apply String.eqb_refl. }
    exists (dict_lookup groups key). split; [|assumption].
    apply dict_lookup_key. apply Hkeys. intro E. rewrite E in Hmem. destruct Hmem.
Qed.

Lemma version_groups_partition_witness :
  exists files,
    In (version_key_of "Game (USA) (v1.1).nes", files)
       (group_roms_by_base_and_version
          ["Game (USA).nes"; "Game (USA) (v1.1).nes"; "Game.srm"])
    /\ In "Game (USA) (v1.1).nes" files.
Proof.
  apply (version_groups_partition
           ["Game (USA).nes"; "Game (USA) (v1.1).nes"; "Game.srm"]).
  - simpl. tauto.
  - vm_compute. reflexivity.
Defined.

(** ** The key of a group tells the base name and the version *)

Lemma split_at_last (c : ascii) (a1 b1 a2 b2 : string) :
  Py.contains_char c b1 = false -> Py.contains_char c b2 = false ->
  (a1 ++ String c b1)%string = (a2 ++ String c b2)%string ->
  a1 = a2 /\ b1 = b2.
Proof.
  intros H1 H2. revert a2.
  induction a1 as [|x a1 IH]; intros [|y a2] E; cbn [append] in E.
  - injection E as <-. now split.
  - injection E as <- ->. rewrite contains_char_append in H1.
    cbn [Py.contains_char] in H1. rewrite Ascii.eqb_refl in H1.
    cbn [orb] in H1. rewrite orb_true_r in H1. discriminate.
  - injection E as -> <-. rewrite contains_char_append in H2.
    cbn [Py.contains_char] in H2. rewrite Ascii.eqb_refl in H2.
    cbn [orb] in H2. rewrite orb_true_r in H2. discriminate.
  - injection E as -> E. destruct (IH a2 E) as [-> ->]. now split.
Qed.

Lemma digits_only (c : ascii) (d : Decimal.uint) :
  Py.isdigit c = false ->
  Py.contains_char c (NilEmpty.string_of_uint d) = false.
Proof.
  intro Hc.
  induction d; cbn [NilEmpty.string_of_uint Py.contains_char];
    try reflexivity; rewrite IHd, orb_false_r;
    match goal with
    | |- Ascii.eqb ?x c = false =>
        destruct (Ascii.eqb_spec x c) as [<-|_]; [discriminate Hc|reflexivity]
    end.
Qed.

Lemma N_to_uint_not_nil (n : N) : N.to_uint n <> Decimal.Nil.
Proof.
  intro H. assert (E : n = 0%N).
  { rewrite <- (DecimalN.Unsigned.of_to n), H. reflexivity. }
  subst n. discriminate H.
Qed.

Lemma str_N_digits (c : ascii) (n : N) :
  Py.isdigit c = false -> Py.contains_char c (Py.str_N n) = false.
Proof.
  intro Hc. unfold Py.str_N, NilZero.string_of_uint.
  destruct (N.to_uint n) eqn:E; try (rewrite <- E; now apply digits_only).
  now destruct (N_to_uint_not_nil n).
Qed.

Lemma str_N_injective (n m : N) : Py.str_N n = Py.str_N m -> n = m.
Proof.
  unfold Py.str_N. intro H. apply DecimalN.Unsigned.to_uint_inj.
  assert (Hsome : Some (N.to_uint n) = Some (N.to_uint m)).
  { rewrite <- (NilZero.usu (N.to_uint n)), <- (NilZero.usu (N.to_uint m)).
    - now rewrite H.
    - apply N_to_uint_not_nil.
    - apply N_to_uint_not_nil. }
  now injection Hsome.
Qed.

Lemma split_at_first (c : ascii) (a1 b1 a2 b2 : string) :
  Py.contains_char c a1 = false -> Py.contains_char c a2 = false ->
  (a1 ++ String c b1)%string = (a2 ++ String c b2)%string ->
  a1 = a2 /\ b1 = b2.
Proof.
  revert a2. induction a1 as [|x a1 IH]; intros [|y a2] H1 H2 E;
    cbn [append Py.contains_char] in *.
  - injection E as <-. now split.
  - injection E as <- _. rewrite Ascii.eqb_refl in H2. discriminate.
  - injection E as -> _. rewrite Ascii.eqb_refl in H1. discriminate.
  - injection E as -> E. apply orb_false_elim in H1, H2.
    destruct (IH a2 (proj2 H1) (proj2 H2) E) as [-> ->]. now split.
Qed.

(** X13: the key [base__vA.B.C.D] of a version group determines the base
    name and the version tuple, so two files share a group only when they
    have the same base name and the same version. *)
Theorem version_key_injective (base1 base2 : string) (v1 v2 : version) :
  version_key base1 v1 = version_key base2 v2 -> base1 = base2 /\ v1 = v2.
Proof.
  destruct v1 as [[[a1 b1] c1] d1], v2 as [[[a2 b2] c2] d2].
  unfold version_key. intro H.
  assert (Hdot : forall n, Py.contains_char "." (Py.str_N n) = false)
    by (intro n; now apply str_N_digits).
  assert (Hv : forall n, Py.contains_char "v" (Py.str_N n) = false)
    by (intro n; now apply str_N_digits).
  set (t1 := (Py.str_N a1 ++ "." ++ Py.str_N b1 ++ "." ++ Py.str_N c1 ++ "."
              ++ Py.str_N d1)%string) in *.
  set (t2 := (Py.str_N a2 ++ "." ++ Py.str_N b2 ++ "." ++ Py.str_N c2 ++ "."
              ++ Py.str_N d2)%string) in *.
  assert (Ht1 : Py.contains_char "v" t1 = false).
  { unfold t1. rewrite !contains_char_append, !Hv. reflexivity. }
  assert (Ht2 : Py.contains_char "v" t2 = false).
  { unfold t2. rewrite !contains_char_append, !Hv. reflexivity. }
  change (base1 ++ "__v" ++ t1)%string
    with (base1 ++ "__" ++ String "v" t1)%string in H.
  change (base2 ++ "__v" ++ t2)%string
    with (base2 ++ "__" ++ String "v" t2)%string in H.
  rewrite <- !append_assoc in H.
  destruct (split_at_last "v" _ _ _ _ Ht1 Ht2 H) as [Hbase Ht].
  apply append_inv_tail in Hbase. split; [assumption|].
  unfold t1, t2 in Ht.
  change (Py.str_N a1 ++ "." ++ Py.str_N b1 ++ "." ++ Py.str_N c1 ++ "."
          ++ Py.str_N d1)%string
    with (Py.str_N a1 ++ String "." (Py.str_N b1 ++ String "."
            (Py.str_N c1 ++ String "." (Py.str_N d1))))%string in Ht.
  change (Py.str_N a2 ++ "." ++ Py.str_N b2 ++ "." ++ Py.str_N c2 ++ "."
          ++ Py.str_N d2)%string
    with (Py.str_N a2 ++ String "." (Py.str_N b2 ++ String "."
            (Py.str_N c2 ++ String "." (Py.str_N d2))))%string in Ht.
  destruct (split_at_first "." _ _ _ _ (Hdot a1) (Hdot a2) Ht) as [Ea Ht'].
  destruct (split_at_first "." _ _ _ _ (Hdot b1) (Hdot b2) Ht') as [Eb Ht''].
  destruct (split_at_first "." _ _ _ _ (Hdot c1) (Hdot c2) Ht'') as [Ec Ed].
  apply str_N_injective in Ea, Eb, Ec, Ed. congruence.
Qed.

Lemma version_key_injective_witness :
  get_base_filename "Game (USA) (v1.1).nes" = get_base_filename "Game (v1.1).sfc"
  /\ detect_version "Game (USA) (v1.1).nes" = detect_version "Game (v1.1).sfc".
Proof.
  apply (version_key_injective
           (get_base_filename "Game (USA) (v1.1).nes")
           (get_base_filename "Game (v1.1).sfc")
           (detect_version "Game (USA) (v1.1).nes")
           (detect_version "Game (v1.1).sfc")).
  vm_compute. reflexivity.
Defined.

(** ** The shape of a base name and of a version *)

(** X14: a base name has no white space at either end, and the only white
    space inside it is single spaces. *)
Theorem base_filename_is_tidy (filename : string) :
  Py.strip (get_base_filename filename) = get_base_filename filename
  /\ single_spaced false (get_base_filename filename) = true.
Proof.
  unfold get_base_filename, strip_tags, tidy. cbn zeta.
  match goal with
  | |- context [Re.sub "\s+" " " ?x Re.NOFLAG] => generalize x
  end.
  intro x. rewrite strip_sub_spaces. split.
  - unfold Py.strip. rewrite lstrip_clean.
    + apply rstrip_idempotent.
    + apply starts_clean_rstrip, squeeze_true_clean.
  - apply single_spaced_weaken, single_spaced_rstrip, squeeze_single_spaced.
Qed.

Lemma version_of_groups_shape (pattern : string) (groups : list (option string)) :
  In pattern version_patterns ->
  let '(stage, major, minor, patch) := version_of_groups pattern groups in
  (stage <= 2 /\ (stage < 2 -> patch = 0))%N.
Proof.
  rewrite version_patterns_families. intro H.
  apply in_app_iff in H. destruct H as [H|H].
  - rewrite (version_of_standard _ _ H). lia.
  - apply in_app_iff in H. destruct H as [H|H].
    + rewrite (version_of_revision _ _ H). lia.
    + rewrite (version_of_alpha_beta _ _ H).
      destruct (String.eqb _ "alpha"); lia.
Qed.

(** X15: the release stage of a detected version is 0, 1 or 2, and a version
    of stage 0 or 1, an alpha or a beta, has patch number 0. *)
Theorem detect_version_shape (filename : string) :
  let '(stage, major, minor, patch) := detect_version filename in
  (stage <= 2 /\ (stage < 2 -> patch = 0))%N.
Proof.
  unfold detect_version.
  assert (H : forall patterns,
            incl patterns version_patterns ->
            let '(stage, major, minor, patch) :=
              detect_version_in patterns filename in
            (stage <= 2 /\ (stage < 2 -> patch = 0))%N).
  { induction patterns as [|pattern patterns IH]; intro Hincl.
    - cbn. lia.
    - cbn [detect_version_in].
      destruct (Re.search pattern filename Re.IGNORECASE) as [match_|].
      + apply version_of_groups_shape. apply Hincl. now left.
      + apply IH. intros p Hp. apply Hincl. now right. }
  apply H, incl_refl.
Qed.

Lemma detect_version_shape_witness :
  detect_version "Game (Beta 3).nes" = (1, 3, 0, 0)%N.
Proof.
  pose proof (detect_version_shape "Game (Beta 3).nes") as H.
  destruct (detect_version "Game (Beta 3).nes") as [[[stage major] minor] patch]
    eqn:E.
  destruct H as [_ Hpatch].
  assert (Hs : stage = 1%N /\ major = 3%N /\ minor = 0%N).
  { vm_compute in E. injection E as <- <- <- _. repeat split. }
  destruct Hs as (-> & -> & ->). rewrite Hpatch; [reflexivity|]. lia.
Defined.

(** ** Loops and the primitive actions *)

Lemma for_each_prefix {A S : Type} (items : list A) (body : S -> A -> action S)
    (I : list A -> S -> ROMAnalyzer -> World -> Prop)
    (Q : string -> ROMAnalyzer -> World -> Prop) :
  (forall done x rest state self w,
     items = done ++ x :: rest -> I done state self w ->
     match body state x self w with
     | Returned state' self' w' => I (done ++ [x]) state' self' w'
     | Raised e self' w' => Q e self' w'
     end) ->
  forall state self w,
    I [] state self w ->
    match for_each items body state self w with
    | Returned state' self' w' => I items state' self' w'
    | Raised e self' w' => Q e self' w'
    end.
Proof.
  intro Hstep.
  assert (H : forall rest done state self w,
             items = done ++ rest -> I done state self w ->
             match for_each rest body state self w with
             | Returned state' self' w' => I items state' self' w'
             | Raised e self' w' => Q e self' w'
             end).
  { induction rest as [|x rest IH]; intros done state self w Hitems HI.
    - rewrite app_nil_r in Hitems. subst done. exact HI.
    - cbn [for_each]. unfold bind.
      pose proof (Hstep done x rest state self w Hitems HI) as Hx.
      destruct (body state x self w) as [state' self' w'|e self' w'];
        [|exact Hx].
      apply (IH (done ++ [x])); [|exact Hx].
      rewrite <- app_assoc. exact Hitems. }
  intros state self w HI. now apply (H items []).
Qed.

Lemma for_each_ext {A S : Type} (items : list A) (body1 body2 : S -> A -> action S) :
  (forall state x self w, body1 state x self w = body2 state x self w) ->
  forall state self w,
    for_each items body1 state self w = for_each items body2 state self w.
Proof.
  intro H. induction items as [|x items IH]; intros state self w;
    [reflexivity|].
  cbn [for_each]. unfold bind. rewrite H.
  destruct (body2 state x self w); [apply IH|reflexivity].
Qed.

Lemma for_each_map {A S T : Type} (f : T -> S) (items : list A)
    (body1 : S -> A -> action S) (body2 : T -> A -> action T) :
  (forall state x self w,
     body1 (f state) x self w = map_result f (body2 state x self w)) ->
  forall state self w,
    for_each items body1 (f state) self w
    = map_result f (for_each items body2 state self w).
Proof.
  intro H. induction items as [|x items IH]; intros state self w;
    [reflexivity|].
  cbn [for_each]. unfold bind. rewrite H.
  destruct (body2 state x self w); cbn [map_result]; [apply IH|reflexivity].
Qed.

Lemma untouched_refl (sources : list string) (w : World) : untouched sources w w.
Proof. intros p Hp _. exact Hp. Qed.

Lemma untouched_trans (s1 s2 : list string) (w1 w2 w3 : World) :
  untouched s1 w1 w2 -> untouched s2 w2 w3 -> untouched (s1 ++ s2) w1 w3.
Proof.
  intros H1 H2 p Hp Hn. apply H2.
  - apply H1; [assumption|]. intro Hi. apply Hn. apply in_app_iff. now left.
  - intro Hi. apply Hn. apply in_app_iff. now right.
Qed.

Lemma untouched_weaken (s1 s2 : list string) (w1 w2 : World) :
  incl s1 s2 -> untouched s1 w1 w2 -> untouched s2 w1 w2.
Proof. intros Hi H p Hp Hn. apply H; [assumption|]. intro Hx. apply Hn, Hi, Hx. Qed.

Lemma untouched_same_files (sources : list string) (w w' : World) :
  files w' = files w -> untouched sources w w'.
Proof. intros E p Hp _. unfold path_exists in *. now rewrite E. Qed.

Lemma names_moved_app (os1 os2 : list outcome) :
  names_moved (os1 ++ os2) = names_moved os1 ++ names_moved os2.
Proof. unfold names_moved. now rewrite filter_app, map_app. Qed.

Section Primitives.

Variable move_error : list string -> string -> string -> option string.
Variable mkdir_error : list string -> string -> option string.

(** One [try] statement: no path other than the source is lost. *)
Lemma attempt_untouched (rom_file destination_folder : string)
    (e : option string) (w w' : World) :
  run move_error mkdir_error (attempt destination_folder (rom_file, e)) w w' ->
  untouched [rom_file] w w' /\ raised_by move_error (rom_file, e).
Proof.
  intro H. destruct e as [e|];
    cbn [attempt fst snd reported map run] in H;
    destruct H as (w1 & (dst & _ & He & Heff) & H).
  - destruct H as (w2 & Hp & ->). cbn [performs] in Hp. subst w1 w2.
    split; [now apply untouched_same_files|now exists (files w), dst].
  - subst w1. split; [|now exists (files w), dst].
    destruct Heff as (_ & Hpaths). intros p Hp Hn. rewrite Hpaths, Hp.
    destruct (String.eqb_spec p rom_file) as [->|_];
      [exfalso; apply Hn; now left|].
    apply orb_true_r.
Qed.

(** One [try] statement: the file is moved or the failure is reported, and
    no other path is lost. *)
Lemma move_spec (rom_file destination_folder : string) (self : ROMAnalyzer)
    (w : World) :
  exists (e : option string) (w' : World),
    move move_error rom_file destination_folder self w
    = Returned (moved_ok (rom_file, e)) self w'
    /\ stdout w' = stdout w ++ reported (rom_file, e)
    /\ untouched [rom_file] w w'
    /\ raised_by move_error (rom_file, e)
    /\ run move_error mkdir_error (attempt destination_folder (rom_file, e))
           w w'.
Proof.
  unfold move.
  destruct (try_move_performs move_error mkdir_error w rom_file
                              destination_folder) as (e & Hok & Hrun).
  destruct (try_move move_error w rom_file destination_folder) as [moved w'].
  cbn [fst snd] in Hok, Hrun. subst moved. exists e, w'.
  split; [reflexivity|].
  destruct (attempt_untouched _ _ _ _ _ Hrun) as (Hun & Hby).
  split; [|tauto].
  pose proof (run_attempts_stdout move_error mkdir_error destination_folder
                [(rom_file, e)] w w') as Hstd.
  cbn [flat_map] in Hstd. rewrite !app_nil_r in Hstd. now apply Hstd.
Qed.

Lemma mkdir_spec (p : string) (self : ROMAnalyzer) (w : World) :
  match mkdir mkdir_error p self w with
  | Returned _ self' w' =>
      self' = self /\ stdout w' = stdout w /\ untouched [] w w'
      /\ mkdir_error (files w) (Path.path p) = None
      /\ run move_error mkdir_error [Mkdir p] w w'
  | Raised e self' w' =>
      self' = self /\ w' = w /\ mkdir_error (files w) (Path.path p) = Some e
  end.
Proof.
  unfold mkdir. destruct (mkdir_error (files w) (Path.path p)) as [e|] eqn:E.
  - repeat split.
  - split; [reflexivity|]. split; [reflexivity|]. split.
    { intros q Hq _. unfold path_exists in *. cbn [files].
      destruct (Py.mem (Path.path p) (files w)); [assumption|].
      apply mem_In. right. now apply mem_In. }
    split; [reflexivity|]. eexists. split; [|reflexivity].
    split; [exact E|]. split; [reflexivity|].
    intro q. unfold path_exists. cbn [files].
    destruct (Py.mem (Path.path p) (files w)) eqn:Hp.
    + destruct (String.eqb_spec q (Path.path p)) as [->|_];
        [now rewrite Hp|reflexivity].
    + reflexivity.
Qed.

(** A path that is the source of no move outlives a sequence of calls. *)
Lemma run_keeps (calls : list call) (p : string) :
  (forall rom_file destination_folder e,
     In (Move rom_file destination_folder e) calls -> p <> rom_file) ->
  forall w w',
    run move_error mkdir_error calls w w' ->
    path_exists w p = true -> path_exists w' p = true.
Proof.
  induction calls as [|c calls IH]; intros Hsrc w w' Hrun Hp.
  - cbn in Hrun. now subst w'.
  - destruct Hrun as (w1 & Hc & Hrun).
    apply (IH (fun r f e H => Hsrc r f e (or_intror H)) w1 w' Hrun).
    destruct c as [folder_name|rom_file destination_folder e|line];
      cbn [performs] in Hc.
    + destruct Hc as (_ & _ & Hpaths). rewrite Hpaths, Hp. apply orb_true_r.
    + destruct Hc as (dst & _ & _ & Heff). destruct e as [e|]; [now subst w1|].
      destruct Heff as (_ & Hpaths). rewrite Hpaths, Hp.
      destruct (String.eqb_spec p rom_file) as [E|_]; [|apply orb_true_r].
      exfalso. exact (Hsrc rom_file destination_folder None (or_introl eq_refl) E).
    + now subst w1.
Qed.

Lemma attempts_sources (destination_folder : string) (outcomes : list outcome)
    (rom_file folder_name : string) (e : option string) :
  In (Move rom_file folder_name e)
     (flat_map (attempt destination_folder) outcomes) ->
  In rom_file (map fst outcomes).
Proof.
  induction outcomes as [|[x ex] outcomes IH]; [intros []|].
  cbn [flat_map attempt fst snd map]. intro H.
  destruct H as [H|H]; [injection H as -> _ _; now left|].
  apply in_app_iff in H. destruct H as [H|H]; [|right; now apply IH].
  exfalso. destruct ex; cbn in H; [destruct H as [H|[]]; discriminate H|exact H].
Qed.

End Primitives.

Lemma filter_snoc {A : Type} (f : A -> bool) (l : list A) (x : A) :
  filter f (l ++ [x]) = filter f l ++ (if f x then [x] else []).
Proof. rewrite filter_app. cbn [filter]. now destruct (f x). Qed.

Section SelectiveMove.

Variable move_error : list string -> string -> string -> option string.
Variable mkdir_error : list string -> string -> option string.
Variable sel : string -> bool.
Variable probe : string -> action bool.
Variable R : ROMAnalyzer -> ROMAnalyzer -> Prop.
Hypothesis R_refl : forall a, R a a.
Hypothesis R_trans : forall a b c, R a b -> R b c -> R a c.
Hypothesis probe_spec :
  forall rom_file self w,
    exists self', probe rom_file self w = Returned (sel rom_file) self' w
                  /\ R self self'.

(** The loop attempts the selected files in order, after creating the
    folder at the first of them. *)
Lemma selective_move_spec (creates : bool) (rom_files : list string)
    (destination_folder : string) (self : ROMAnalyzer) (w : World) :
  let selected := filter sel rom_files in
  match selective_move move_error mkdir_error probe creates rom_files
                       destination_folder self w with
  | Returned (moved_files, created) self' w' =>
      R self self'
      /\ created = creates && negb (is_empty selected)
      /\ (exists outcomes : list outcome,
            map fst outcomes = selected
            /\ Forall (raised_by move_error) outcomes
            /\ moved_files = names_moved outcomes
            /\ stdout w'
               = stdout w
                 ++ (if created then [created_line destination_folder] else [])
                 ++ flat_map reported outcomes
            /\ run move_error mkdir_error
                   ((if created
                     then [Mkdir destination_folder;
                           Print (created_line destination_folder)]
                     else [])
                    ++ flat_map (attempt destination_folder) outcomes) w w')
      /\ untouched selected w w'
      /\ (created = true ->
          mkdir_error (files w) (Path.path destination_folder) = None
          /\ (~ In (Path.path destination_folder) selected ->
              path_exists w' (Path.path destination_folder) = true))
  | Raised e self' w' =>
      creates = true /\ selected <> [] /\ R self self' /\ w' = w
      /\ mkdir_error (files w) (Path.path destination_folder) = Some e
  end.
Proof.
  cbn zeta. unfold selective_move.
  pose (I := fun (done : list string) (state : list string * bool)
                 (self' : ROMAnalyzer) (w' : World) =>
          let '(moved_files, created) := state in
          R self self'
          /\ created = creates && negb (is_empty (filter sel done))
          /\ (exists outcomes : list outcome,
                map fst outcomes = filter sel done
                /\ Forall (raised_by move_error) outcomes
                /\ moved_files = names_moved outcomes
                /\ stdout w'
                   = stdout w
                     ++ (if created then [created_line destination_folder]
                         else [])
                     ++ flat_map reported outcomes
                /\ run move_error mkdir_error
                       ((if created
                         then [Mkdir destination_folder;
                               Print (created_line destination_folder)]
                         else [])
                        ++ flat_map (attempt destination_folder) outcomes)
                       w w')
          /\ untouched (filter sel done) w w'
          /\ (created = false -> creates = true -> w' = w)).
  pose (Q := fun (e : string) (self' : ROMAnalyzer) (w' : World) =>
          creates = true /\ filter sel rom_files <> [] /\ R self self' /\ w' = w
          /\ mkdir_error (files w) (Path.path destination_folder) = Some e).
  match goal with
  | |- match for_each _ ?body _ _ _ with _ => _ end =>
      pose proof (for_each_prefix rom_files body I Q) as Hloop
  end.
  match type of Hloop with
  | ?P -> _ => assert (Hstep : P); [|specialize (Hloop Hstep ([], false) self w)]
  end.
  { clear Hloop. intros done x rest [moved_files created] self1 w1 Hitems HI.
    destruct HI as (HR & Hcreated
                    & (outcomes & Hsel & Hby & Hmoved & Hout & Hrun)
                    & Hun & Hsame).
    unfold bind at 1.
    destruct (probe_spec x self1 w1) as (self2 & Hprobe & HR2).
    rewrite Hprobe.
    assert (HR' : R self self2) by (eapply R_trans; eassumption).
    destruct (sel x) eqn:Hx.
    2:{ unfold ret, I. rewrite filter_snoc, Hx, app_nil_r.
        repeat split; try assumption. exists outcomes. tauto. }
    assert (Hin : filter sel rom_files <> []).
    { rewrite Hitems, filter_app. cbn [filter]. rewrite Hx.
      now destruct (filter sel done). }
    destruct (creates && negb created) eqn:Hc.
    - apply andb_prop in Hc. destruct Hc as [-> Hc].
      destruct created; [discriminate|]. clear Hc.
      specialize (Hsame eq_refl eq_refl). subst w1.
      cbn [andb] in Hcreated.
      assert (Hdone : filter sel done = []).
      { destruct (filter sel done); [reflexivity|discriminate]. }
      rewrite Hdone in *. destruct outcomes; [|discriminate].
      unfold bind at 1. unfold bind at 1.
      pose proof (mkdir_spec move_error mkdir_error destination_folder self2 w)
        as Hmk.
      destruct (mkdir mkdir_error destination_folder self2 w)
        as [[] self3 w3|e self3 w3].
      + destruct Hmk as (-> & Hstd3 & Hun3 & _ & Hrun3).
        unfold bind at 1. unfold say at 1. unfold ret at 1. unfold bind at 1.
        destruct (move_spec move_error mkdir_error x destination_folder self2
                    (print (created_line destination_folder) w3))
          as (e & w4 & Hmove & Hstd4 & Hun4 & Hby4 & Hrun4).
        rewrite Hmove. unfold ret, I. rewrite filter_snoc, Hx, Hdone.
        cbn [app is_empty negb andb].
        split; [assumption|]. split; [reflexivity|]. split.
        { exists [(x, e)]. split; [reflexivity|]. split; [now constructor|].
          split.
          { subst moved_files. unfold names_moved. cbn [filter].
            now destruct (moved_ok (x, e)). }
          split.
          { rewrite Hstd4. cbn [print stdout flat_map]. rewrite Hstd3.
            rewrite app_nil_r, <- !app_assoc. reflexivity. }
          apply (run_app move_error mkdir_error
                         [Mkdir destination_folder;
                          Print (created_line destination_folder)]
                         (flat_map (attempt destination_folder) [(x, e)]) w
                         (print (created_line destination_folder) w3) w4).
          - destruct Hrun3 as (w5 & Hmk5 & ->). exists w5.
            split; [exact Hmk5|]. eexists. split; reflexivity.
          - cbn [flat_map]. rewrite app_nil_r. exact Hrun4. }
        split.
        { intros p Hp Hn. apply Hun4; [|assumption].
          unfold path_exists, print. cbn [files]. now apply Hun3. }
        discriminate.
      + destruct Hmk as (-> & -> & Hmk). unfold Q. tauto.
    - unfold bind at 1. unfold ret at 1. unfold bind at 1.
      destruct (move_spec move_error mkdir_error x destination_folder self2 w1)
        as (e & w4 & Hmove & Hstd4 & Hun4 & Hby4 & Hrun4).
      rewrite Hmove. unfold ret, I. rewrite filter_snoc, Hx.
      split; [assumption|]. split.
      { destruct creates; cbn [andb] in *; [|assumption].
        destruct created; [|discriminate Hc]. now destruct (filter sel done). }
      split.
      { exists (outcomes ++ [(x, e)]). split.
        { rewrite map_app. exact (f_equal (fun l => l ++ [x]) Hsel). }
        split.
        { apply Forall_app. split; [assumption|now constructor]. }
        split.
        { rewrite names_moved_app, <- Hmoved. unfold names_moved.
          cbn [filter].
          destruct (moved_ok (x, e)); cbn [map fst];
            [reflexivity|now rewrite app_nil_r]. }
        split.
        { rewrite Hstd4, Hout, flat_map_app. cbn [flat_map].
          rewrite app_nil_r, <- !app_assoc. reflexivity. }
        rewrite flat_map_app, app_assoc. cbn [flat_map]. rewrite app_nil_r.
        exact (run_app move_error mkdir_error _ _ w w1 w4 Hrun Hrun4). }
      split.
      { apply (untouched_trans _ _ w w1 w4); assumption. }
      intros Hf Ht. rewrite Hf, Ht in Hc. discriminate Hc. }
  assert (HI0 : I [] ([], false) self w).
  { unfold I. cbn [filter is_empty negb]. rewrite andb_false_r.
    split; [apply R_refl|]. split; [reflexivity|]. split.
    { exists []. split; [reflexivity|]. split; [constructor|].
      split; [reflexivity|]. split; [cbn; now rewrite app_nil_r|reflexivity]. }
    split; [apply untouched_refl|reflexivity]. }
  specialize (Hloop HI0).
  destruct (for_each rom_files _ ([], false) self w)
    as [[moved_files created] self' w'|e self' w'].
  - unfold I in Hloop.
    destruct Hloop as (HR & Hc & (outcomes & Hsel & Hby & Hmoved & Hout & Hrun)
                       & Hun & _).
    split; [exact HR|]. split; [exact Hc|].
    split; [exists outcomes; tauto|]. split; [exact Hun|].
    intro Ht. rewrite Ht in Hrun. cbn [app] in Hrun.
    destruct Hrun as (w1 & (Hmk & _ & Hpaths) & Hrest).
    split; [exact Hmk|]. intro Hn.
    apply (run_keeps move_error mkdir_error _ _) with (w := w1) (2 := Hrest).
    + intros r f e [H|H] E; [discriminate H|].
      apply attempts_sources in H. apply Hn. rewrite E, <- Hsel. exact H.
    + rewrite Hpaths, String.eqb_refl. reflexivity.
  - exact Hloop.
Qed.

End SelectiveMove.

Lemma only_specials_grow_refl (self : ROMAnalyzer) : only_specials_grow self self.
Proof. unfold only_specials_grow. auto using incl_refl. Qed.

Lemma only_specials_grow_trans (a b c : ROMAnalyzer) :
  only_specials_grow a b -> only_specials_grow b c -> only_specials_grow a c.
Proof.
  unfold only_specials_grow. intros (H1 & H2 & H3) (H4 & H5 & H6).
  repeat split; try congruence. eapply incl_tran; eassumption.
Qed.

Lemma only_regions_grow_refl (self : ROMAnalyzer) : only_regions_grow self self.
Proof. unfold only_regions_grow. auto using incl_refl. Qed.

Lemma only_regions_grow_trans (a b c : ROMAnalyzer) :
  only_regions_grow a b -> only_regions_grow b c -> only_regions_grow a c.
Proof.
  unfold only_regions_grow. intros (H1 & H2 & H3) (H4 & H5 & H6).
  repeat split; try congruence. eapply incl_tran; eassumption.
Qed.

(** ** The operations that move the files passing a test *)

Section SelectingOperations.

Variable move_error : list string -> string -> string -> option string.
Variable mkdir_error : list string -> string -> option string.

Lemma casino_probe (rom_file : string) (self : ROMAnalyzer) (w : World) :
  exists self',
    ret (is_casino_game (Path.name rom_file)) self w
    = Returned (is_casino_game (Path.name rom_file)) self' w
    /\ self = self'.
Proof. now exists self. Qed.

Lemma adult_probe (rom_file : string) (self : ROMAnalyzer) (w : World) :
  exists self',
    ret (is_adult_game (Path.name rom_file)) self w
    = Returned (is_adult_game (Path.name rom_file)) self' w
    /\ self = self'.
Proof. now exists self. Qed.

Lemma beta_proto_probe (rom_file : string) (self : ROMAnalyzer) (w : World) :
  exists self',
    bind (special_versions_of (Path.name rom_file))
         (fun specials =>
            ret (existsb (fun special => Py.mem special ["Beta"; "Proto"; "Alpha"])
                         specials)) self w
    = Returned (is_beta_proto rom_file) self' w
    /\ only_specials_grow self self'.
Proof.
  unfold bind, special_versions_of, ret, is_beta_proto.
  pose proof (special_versions_accumulators self (Path.name rom_file)) as H.
  destruct (detect_special_versions self (Path.name rom_file))
    as [specials self'] eqn:E.
  exists self'. split; [|exact H].
  change specials with (fst (specials, self')). rewrite <- E. reflexivity.
Qed.

Lemma special_probe (rom_file : string) (self : ROMAnalyzer) (w : World) :
  exists self',
    bind (special_versions_of (Path.name rom_file))
         (fun specials => ret (negb (is_empty specials))) self w
    = Returned (has_special_tag rom_file) self' w
    /\ only_specials_grow self self'.
Proof.
  unfold bind, special_versions_of, ret, has_special_tag.
  pose proof (special_versions_accumulators self (Path.name rom_file)) as H.
  destruct (detect_special_versions self (Path.name rom_file))
    as [specials self'] eqn:E.
  exists self'. split; [|exact H].
  change specials with (fst (specials, self')). rewrite <- E. reflexivity.
Qed.

(** X16: [move_casino_games] attempts, in order, exactly the files that
    [is_casino_game] accepts, each with the first free destination in the
    folder; before the first of them it makes the folder, which then
    exists, and prints the line about it; it returns the names of those
    whose move succeeded and reports the others; the flag tells that such
    a file was found, not that the folder is new; no other path is lost.
    It returns only if making the folder did not raise; when that raises,
    the exception escapes before anything was moved or printed. *)
Theorem move_casino_games_moves_casino_games (rom_files : list string)
    (destination_folder : string) (self : ROMAnalyzer) (w : World) :
  let selected :=
    filter (fun rom_file => is_casino_game (Path.name rom_file)) rom_files in
  match move_casino_games move_error mkdir_error rom_files destination_folder
                          self w with
  | Returned (moved_files, casino_folder_created) self' w' =>
      self' = self
      /\ casino_folder_created = negb (is_empty selected)
      /\ (exists outcomes : list outcome,
            map fst outcomes = selected
            /\ Forall (raised_by move_error) outcomes
            /\ moved_files = names_moved outcomes
            /\ stdout w'
               = stdout w
                 ++ (if casino_folder_created
                     then [created_line destination_folder] else [])
                 ++ flat_map reported outcomes
            /\ run move_error mkdir_error
                   ((if casino_folder_created
                     then [Mkdir destination_folder;
                           Print (created_line destination_folder)]
                     else [])
                    ++ flat_map (attempt destination_folder) outcomes) w w')
      /\ untouched selected w w'
      /\ (selected <> [] ->
          mkdir_error (files w) (Path.path destination_folder) = None
          /\ (~ In (Path.path destination_folder) selected ->
              path_exists w' (Path.path destination_folder) = true))
  | Raised e self' w' =>
      selected <> [] /\ self' = self /\ w' = w
      /\ mkdir_error (files w) (Path.path destination_folder) = Some e
  end.
Proof.
  cbn zeta.
  pose proof (selective_move_spec move_error mkdir_error
                (fun rom_file => is_casino_game (Path.name rom_file))
                (fun rom_file => ret (is_casino_game (Path.name rom_file)))
                (fun a b => a = b) (fun a => eq_refl)
                (fun a b c H1 H2 => eq_trans H1 H2) casino_probe
                true rom_files destination_folder self w) as H.
  cbn zeta in H.
  replace (move_casino_games move_error mkdir_error rom_files destination_folder
                             self w)
    with (selective_move move_error mkdir_error
            (fun rom_file => ret (is_casino_game (Path.name rom_file)))
            true rom_files destination_folder self w).
  2:{ apply for_each_ext. intros [moved_files created] x s w0. reflexivity. }
  destruct (selective_move _ _ _ _ _ _ _ _)
    as [[moved_files created] self' w'|e self' w'].
  - destruct H as (HR & Hc & Ho & Hu & Hmk). cbn [andb] in Hc.
    do 4 (split; [auto|]).
    intro Hne. apply Hmk. rewrite Hc.
    destruct (filter _ rom_files); [now destruct Hne|reflexivity].
  - destruct H as (_ & Hs & HR & Hw & He). auto.
Qed.

(** X17: [move_adult_games] attempts, in order, exactly the files that
    [is_adult_game] accepts, each with the first free destination in the
    folder; before the first of them it makes the folder, which then
    exists, and prints the line about it; it returns the names of those
    whose move succeeded and reports the others; no other path is lost.
    It returns only if making the folder did not raise; when that raises,
    the exception escapes before anything was moved or printed. *)
Theorem move_adult_games_moves_adult_games (rom_files : list string)
    (destination_folder : string) (self : ROMAnalyzer) (w : World) :
  let selected :=
    filter (fun rom_file => is_adult_game (Path.name rom_file)) rom_files in
  match move_adult_games move_error mkdir_error rom_files destination_folder
                         self w with
  | Returned (moved_files, adult_folder_created) self' w' =>
      self' = self
      /\ adult_folder_created = negb (is_empty selected)
      /\ (exists outcomes : list outcome,
            map fst outcomes = selected
            /\ Forall (raised_by move_error) outcomes
            /\ moved_files = names_moved outcomes
            /\ stdout w'
               = stdout w
                 ++ (if adult_folder_created
                     then [created_line destination_folder] else [])
                 ++ flat_map reported outcomes
            /\ run move_error mkdir_error
                   ((if adult_folder_created
                     then [Mkdir destination_folder;
                           Print (created_line destination_folder)]
                     else [])
                    ++ flat_map (attempt destination_folder) outcomes) w w')
      /\ untouched selected w w'
      /\ (selected <> [] ->
          mkdir_error (files w) (Path.path destination_folder) = None
          /\ (~ In (Path.path destination_folder) selected ->
              path_exists w' (Path.path destination_folder) = true))
  | Raised e self' w' =>
      selected <> [] /\ self' = self /\ w' = w
      /\ mkdir_error (files w) (Path.path destination_folder) = Some e
  end.
Proof.
  cbn zeta.
  pose proof (selective_move_spec move_error mkdir_error
                (fun rom_file => is_adult_game (Path.name rom_file))
                (fun rom_file => ret (is_adult_game (Path.name rom_file)))
                (fun a b => a = b) (fun a => eq_refl)
                (fun a b c H1 H2 => eq_trans H1 H2) adult_probe
                true rom_files destination_folder self w) as H.
  cbn zeta in H.
  replace (move_adult_games move_error mkdir_error rom_files destination_folder
                            self w)
    with (selective_move move_error mkdir_error
            (fun rom_file => ret (is_adult_game (Path.name rom_file)))
            true rom_files destination_folder self w).
  2:{ apply for_each_ext. intros [moved_files created] x s w0. reflexivity. }
  destruct (selective_move _ _ _ _ _ _ _ _)
    as [[moved_files created] self' w'|e self' w'].
  - destruct H as (HR & Hc & Ho & Hu & Hmk). cbn [andb] in Hc.
    do 4 (split; [auto|]).
    intro Hne. apply Hmk. rewrite Hc.
    destruct (filter _ rom_files); [now destruct Hne|reflexivity].
  - destruct H as (_ & Hs & HR & Hw & He). auto.
Qed.

(** X18: [move_beta_proto_games] attempts, in order, exactly the files with
    a Beta, Proto or Alpha tag, each with the first free destination in
    the folder; before the first of them it makes the folder, which then
    exists, and prints the line about it; it returns the names of those
    whose move succeeded and reports the others; no other path is lost,
    and of the analyzer only [unknown_specials] may have grown.  It
    returns only if making the folder did not raise; when that raises, the
    exception escapes with the file system as it was. *)
Theorem move_beta_proto_games_moves_tagged (rom_files : list string)
    (destination_folder : string) (self : ROMAnalyzer) (w : World) :
  let selected := filter is_beta_proto rom_files in
  match move_beta_proto_games move_error mkdir_error rom_files
                              destination_folder self w with
  | Returned (moved_files, folder_created) self' w' =>
      only_specials_grow self self'
      /\ folder_created = negb (is_empty selected)
      /\ (exists outcomes : list outcome,
            map fst outcomes = selected
            /\ Forall (raised_by move_error) outcomes
            /\ moved_files = names_moved outcomes
            /\ stdout w'
               = stdout w
                 ++ (if folder_created
                     then [created_line destination_folder] else [])
                 ++ flat_map reported outcomes
            /\ run move_error mkdir_error
                   ((if folder_created
                     then [Mkdir destination_folder;
                           Print (created_line destination_folder)]
                     else [])
                    ++ flat_map (attempt destination_folder) outcomes) w w')
      /\ untouched selected w w'
      /\ (selected <> [] ->
          mkdir_error (files w) (Path.path destination_folder) = None
          /\ (~ In (Path.path destination_folder) selected ->
              path_exists w' (Path.path destination_folder) = true))
  | Raised e self' w' =>
      selected <> [] /\ only_specials_grow self self' /\ w' = w
      /\ mkdir_error (files w) (Path.path destination_folder) = Some e
  end.
Proof.
  cbn zeta.
  pose proof (selective_move_spec move_error mkdir_error is_beta_proto
                (fun rom_file =>
                   bind (special_versions_of (Path.name rom_file))
                        (fun specials =>
                           ret (existsb (fun special =>
                                           Py.mem special ["Beta"; "Proto"; "Alpha"])
                                        specials)))
                only_specials_grow only_specials_grow_refl
                only_specials_grow_trans beta_proto_probe
                true rom_files destination_folder self w) as H.
  cbn zeta in H.
  match type of H with
  | match ?loop with _ => _ end =>
      replace (move_beta_proto_games move_error mkdir_error rom_files
                                     destination_folder self w) with loop
  end.
  2:{ apply for_each_ext. intros [moved_files created] x s w0.
      unfold bind, special_versions_of, ret.
      destruct (detect_special_versions s (Path.name x)). reflexivity. }
  destruct (selective_move _ _ _ _ _ _ _ _)
    as [[moved_files created] self' w'|e self' w'].
  - destruct H as (HR & Hc & Ho & Hu & Hmk). cbn [andb] in Hc.
    do 4 (split; [auto|]).
    intro Hne. apply Hmk. rewrite Hc.
    destruct (filter _ rom_files); [now destruct Hne|reflexivity].
  - destruct H as (_ & Hs & HR & Hw & He). auto.
Qed.

(** X19: [move_all_special_versions] attempts, in order, exactly the files
    in whose name a special tag is detected; it returns the names of those
    whose move succeeded and reports the others; no other path is lost,
    and of the analyzer only [unknown_specials] may have grown. *)
Theorem move_all_special_versions_moves_tagged (rom_files : list string)
    (destination_folder : string) (self : ROMAnalyzer) (w : World) :
  let selected := filter has_special_tag rom_files in
  exists (moved_files : list string) (self' : ROMAnalyzer) (w' : World),
    move_all_special_versions move_error rom_files destination_folder self w
    = Returned moved_files self' w'
    /\ only_specials_grow self self'
    /\ (exists outcomes : list outcome,
          map fst outcomes = selected
          /\ Forall (raised_by move_error) outcomes
          /\ moved_files = names_moved outcomes
          /\ stdout w' = stdout w ++ flat_map reported outcomes)
    /\ untouched selected w w'.
Proof.
  cbn zeta.
  pose proof (selective_move_spec move_error mkdir_error has_special_tag
                (fun rom_file =>
                   bind (special_versions_of (Path.name rom_file))
                        (fun specials => ret (negb (is_empty specials))))
                only_specials_grow only_specials_grow_refl
                only_specials_grow_trans special_probe
                false rom_files destination_folder self w) as H.
  cbn zeta in H.
  assert (E : move_all_special_versions move_error rom_files destination_folder
                                        self w
              = map_result fst
                  (selective_move move_error mkdir_error
                     (fun rom_file =>
                        bind (special_versions_of (Path.name rom_file))
                             (fun specials => ret (negb (is_empty specials))))
                     false rom_files destination_folder self w)).
  { unfold move_all_special_versions, selective_move.
    refine (for_each_map (@fst (list string) bool) rom_files _ _ _
                         ([], false) self w).
    intros [moved_files created] x s w0.
    unfold bind, special_versions_of, ret. cbn [fst].
    destruct (detect_special_versions s (Path.name x)) as [specials s'].
    destruct (negb (is_empty specials)); [|reflexivity].
    cbn [andb]. unfold move.
    destruct (try_move move_error w0 x destination_folder) as [moved w1].
    now destruct moved. }
  rewrite E.
  destruct (selective_move _ _ _ _ _ _ _ _)
    as [[moved_files created] self' w'|e self' w'].
  - destruct H as (HR & Hc & (outcomes & Hsel & Hby & Hmoved & Hout & _)
                   & Hu & _).
    cbn [andb] in Hc. subst created. cbn [map_result fst].
    exists moved_files. exists self'. exists w'.
    split; [reflexivity|]. split; [assumption|]. split; [|assumption].
    exists outcomes. split; [exact Hsel|]. split; [exact Hby|].
    split; [exact Hmoved|exact Hout].
  - destruct H as (Hf & _). discriminate Hf.
Qed.

End SelectingOperations.

Lemma move_casino_games_moves_casino_games_witness :
  let move_error := fun (fs : list string) (src dst : string) => @None string in
  let mkdir_error := fun (fs : list string) (p : string) =>
                       if String.eqb p "CASINO"
                       then Some "Permission denied" else None in
  let rom_files := ["roms/Vegas Poker (USA).zip"; "roms/Sonic (USA).zip"] in
  let w := MkWorld rom_files [] in
  move_casino_games move_error mkdir_error rom_files "CASINO" new_analyzer w
  = Raised "Permission denied" new_analyzer w.
Proof.
  intros move_error mkdir_error rom_files w.
  pose proof (move_casino_games_moves_casino_games move_error mkdir_error rom_files "CASINO"
                new_analyzer w) as H.
  cbn zeta in H.
  destruct (move_casino_games move_error mkdir_error rom_files "CASINO" new_analyzer w)
    as [[moved_files created] self' w'|e self' w'].
  - destruct H as (_ & _ & _ & _ & Hmk).
    assert (Hsel : filter (fun rom_file => is_casino_game (Path.name rom_file)) rom_files <> [])
      by (vm_compute; discriminate).
    destruct (Hmk Hsel) as [Hnone _]. vm_compute in Hnone. discriminate Hnone.
  - destruct H as (_ & HR & -> & He). vm_compute in He. injection He as <-.
    now subst self'.
Defined.

Lemma move_adult_games_moves_adult_games_witness :
  let move_error := fun (fs : list string) (src dst : string) => @None string in
  let mkdir_error := fun (fs : list string) (p : string) =>
                       if String.eqb p "ADULT"
                       then Some "Permission denied" else None in
  let rom_files := ["roms/Strip Poker (USA).zip"; "roms/Sonic (USA).zip"] in
  let w := MkWorld rom_files [] in
  move_adult_games move_error mkdir_error rom_files "ADULT" new_analyzer w
  = Raised "Permission denied" new_analyzer w.
Proof.
  intros move_error mkdir_error rom_files w.
  pose proof (move_adult_games_moves_adult_games move_error mkdir_error rom_files "ADULT"
                new_analyzer w) as H.
  cbn zeta in H.
  destruct (move_adult_games move_error mkdir_error rom_files "ADULT" new_analyzer w)
    as [[moved_files created] self' w'|e self' w'].
  - destruct H as (_ & _ & _ & _ & Hmk).
    assert (Hsel : filter (fun rom_file => is_adult_game (Path.name rom_file)) rom_files <> [])
      by (vm_compute; discriminate).
    destruct (Hmk Hsel) as [Hnone _]. vm_compute in Hnone. discriminate Hnone.
  - destruct H as (_ & HR & -> & He). vm_compute in He. injection He as <-.
    now subst self'.
Defined.

Lemma move_beta_proto_games_moves_tagged_witness :
  let move_error := fun (fs : list string) (src dst : string) => @None string in
  let mkdir_error := fun (fs : list string) (p : string) =>
                       if String.eqb p "BETA_PROTO"
                       then Some "Permission denied" else None in
  let rom_files := ["roms/Sonic (Beta).zip"; "roms/Sonic (USA).zip"] in
  let w := MkWorld rom_files [] in
  exists self',
    move_beta_proto_games move_error mkdir_error rom_files "BETA_PROTO"
                          new_analyzer w
    = Raised "Permission denied" self' w.
Proof.
  intros move_error mkdir_error rom_files w.
  pose proof (move_beta_proto_games_moves_tagged move_error mkdir_error rom_files "BETA_PROTO"
                new_analyzer w) as H.
  cbn zeta in H.
  destruct (move_beta_proto_games move_error mkdir_error rom_files "BETA_PROTO" new_analyzer w)
    as [[moved_files created] self' w'|e self' w'].
  - destruct H as (_ & _ & _ & _ & Hmk).
    assert (Hsel : filter is_beta_proto rom_files <> [])
      by (vm_compute; discriminate).
    destruct (Hmk Hsel) as [Hnone _]. vm_compute in Hnone. discriminate Hnone.
  - destruct H as (_ & _ & -> & He). vm_compute in He. injection He as <-.
    now exists self'.
Defined.

(** ** The renaming loop *)

(** X20: the loop that avoids name collisions ends, and on a path that does
    not exist: the destination itself when it is free, otherwise the
    first of [stem_1.ext], [stem_2.ext], ... in the same folder that is
    free; so [shutil.move] is never given an existing destination. *)
Theorem rename_loop_finds_first_free (w : World) (original_dest : string) :
  let destination :=
    free_destination (S (length (files w))) w original_dest 1 original_dest in
  path_exists w destination = false
  /\ if path_exists w original_dest then
       exists counter,
         1 <= counter
         /\ destination = renamed original_dest counter
         /\ forall i, 1 <= i < counter ->
                      path_exists w (renamed original_dest i) = true
     else destination = original_dest.
Proof.
  cbn zeta. split; [apply free_destination_free|].
  apply free_destination_shape. apply free_destination_free.
Qed.

(** ** Sorting by region *)

Lemma primary_region_of_spec (filename : string) (self : ROMAnalyzer) (w : World) :
  exists self',
    primary_region_of filename self w
    = Returned (primary_of (region_priority self) filename) self' w
    /\ only_regions_grow self self'.
Proof.
  unfold primary_region_of, primary_of.
  pose proof (get_primary_region_spec self filename) as (_ & _ & Hsnd).
  destruct (detect_regions_logging self filename) as (Hp & Hs & Hi & _).
  assert (Hfst : fst (get_primary_region self filename)
                 = fst (get_primary_region
                          (Analyzer [] [] (region_priority self)) filename)).
  { unfold get_primary_region.
    pose proof (detect_regions_priority self filename) as H1.
    pose proof (detect_regions_priority
                  (Analyzer [] [] (region_priority self)) filename) as H2.
    pose proof (detect_regions_fst self filename) as F1.
    pose proof (detect_regions_fst
                  (Analyzer [] [] (region_priority self)) filename) as F2.
    destruct (detect_regions self filename) as [regions1 self1].
    destruct (detect_regions (Analyzer [] [] (region_priority self)) filename)
      as [regions2 self2].
    cbn [fst snd region_priority] in *.
    subst regions1 regions2. rewrite H1, H2.
    destruct (is_empty _); [reflexivity|].
    destruct (find _ (region_priority self)); reflexivity. }
  destruct (get_primary_region self filename) as [primary self'].
  cbn [fst snd] in *. subst self' primary.
  eexists. split; [reflexivity|]. unfold only_regions_grow. tauto.
Qed.

Lemma primary_of_known (priority : list string) (filename : string) :
  In (primary_of priority filename) region_names.
Proof.
  unfold primary_of.
  destruct (get_primary_region_spec (Analyzer [] [] priority) filename)
    as (Hin & _).
  exact (detect_regions_known _ _ _ Hin).
Qed.

Lemma region_folder_known (region : string) :
  In region region_names ->
  Py.mem region (map fst region_folder_mapping) = true
  /\ String.eqb region "" = false
  /\ subscript region_folder_mapping region = Some region.
Proof.
  intro H. simpl in H.
  repeat (destruct H as [<-|H]; [repeat split|]). destruct H.
Qed.

Lemma distinct_snoc (l : list string) (x : string) :
  distinct (l ++ [x]) = set_add x (distinct l).
Proof. unfold distinct. now rewrite fold_left_app. Qed.

Lemma distinct_spec (l : list string) :
  NoDup (distinct l) /\ forall x, In x (distinct l) <-> In x l.
Proof.
  induction l as [|y l IH] using rev_ind.
  - split; [constructor|]. intro x. cbn. tauto.
  - rewrite distinct_snoc. destruct IH as [Hnd Hin]. split.
    + now apply set_add_NoDup.
    + intro x. rewrite set_add_In, in_app_iff, Hin. cbn. intuition congruence.
Qed.

Lemma sorting_calls_app (folder_of : string -> string) (os1 os2 : list outcome) :
  forall created,
    sorting_calls folder_of created (os1 ++ os2)
    = sorting_calls folder_of created os1
      ++ sorting_calls folder_of
           (fold_left (fun seen x => set_add x seen)
                      (map folder_of (map fst os1)) created)
           os2.
Proof.
  induction os1 as [|o os1 IH]; intro created; [reflexivity|].
  cbn [app sorting_calls map fold_left]. rewrite IH, <- !app_assoc.
  reflexivity.
Qed.

Section Organizing.

Variable move_error : list string -> string -> string -> option string.
Variable mkdir_error : list string -> string -> option string.

(** X21: [organize_roms_by_region] attempts, in order, every file except,
    when [exclude_usa] is set, those whose primary region is USA; the
    folder of an attempt is the one named after the primary region of the
    file, which always has an entry in the folder mapping, and the move is
    given the first free destination in that folder; the folder is made,
    and the line about it printed, before the first attempt that needs it
    and not again.  The operation returns the names and folders of the
    files whose move succeeded and the set of the folders made; no path
    other than the files attempted is lost.  An exception comes from
    making the folder of a file with a primary region not met before, and
    escapes after the attempts for the files before it. *)
Theorem organize_roms_by_region_sorts_by_primary_region
    (rom_files : list string) (exclude_usa : bool) (self : ROMAnalyzer)
    (w : World) :
  let primary (rom_file : string) :=
    primary_of (region_priority self) (Path.name rom_file) in
  let selected :=
    filter (fun rom_file =>
              negb (exclude_usa && String.eqb (primary rom_file) "USA"))
           rom_files in
  match organize_roms_by_region move_error mkdir_error rom_files exclude_usa
                                self w with
  | Returned (moved_files, region_folders_created) self' w' =>
      only_regions_grow self self'
      /\ (exists outcomes : list outcome,
            map fst outcomes = selected
            /\ Forall (raised_by move_error) outcomes
            /\ moved_files
               = map (fun o => (Path.name (fst o), primary (fst o)))
                     (filter moved_ok outcomes)
            /\ run move_error mkdir_error (sorting_calls primary [] outcomes)
                   w w')
      /\ region_folders_created = distinct (map primary selected)
      /\ untouched selected w w'
  | Raised e self' w' =>
      only_regions_grow self self'
      /\ (exists (outcomes : list outcome) (rom_file : string)
                 (rest : list string),
            selected = map fst outcomes ++ rom_file :: rest
            /\ run move_error mkdir_error (sorting_calls primary [] outcomes)
                   w w'
            /\ ~ In (primary rom_file) (map primary (map fst outcomes))
            /\ mkdir_error (files w') (Path.path (primary rom_file)) = Some e)
      /\ untouched selected w w'
  end.
Proof.
  cbn zeta. unfold organize_roms_by_region.
  set (primary := fun rom_file : string =>
                    primary_of (region_priority self) (Path.name rom_file)).
  set (selp := fun rom_file : string =>
                 negb (exclude_usa && String.eqb (primary rom_file) "USA")).
  pose (I := fun (done : list string)
                 (state : list (string * string) * list string)
                 (self' : ROMAnalyzer) (w' : World) =>
          let '(moved_files, region_folders_created) := state in
          only_regions_grow self self'
          /\ (exists outcomes : list outcome,
                map fst outcomes = filter selp done
                /\ Forall (raised_by move_error) outcomes
                /\ moved_files
                   = map (fun o => (Path.name (fst o), primary (fst o)))
                         (filter moved_ok outcomes)
                /\ run move_error mkdir_error
                       (sorting_calls primary [] outcomes) w w')
          /\ region_folders_created = distinct (map primary (filter selp done))
          /\ untouched (filter selp done) w w').
  pose (Q := fun (e : string) (self' : ROMAnalyzer) (w' : World) =>
          only_regions_grow self self'
          /\ (exists (outcomes : list outcome) (rom_file : string)
                     (rest : list string),
                filter selp rom_files = map fst outcomes ++ rom_file :: rest
                /\ run move_error mkdir_error
                       (sorting_calls primary [] outcomes) w w'
                /\ ~ In (primary rom_file) (map primary (map fst outcomes))
                /\ mkdir_error (files w') (Path.path (primary rom_file))
                   = Some e)
          /\ untouched (filter selp rom_files) w w').
  match goal with
  | |- match for_each _ ?body _ _ _ with _ => _ end =>
      pose proof (for_each_prefix rom_files body I Q) as Hloop
  end.
  match type of Hloop with
  | ?P -> _ => assert (Hstep : P); [|specialize (Hloop Hstep ([], []) self w)]
  end.
  { clear Hloop.
    intros done x rest [moved_files created] self1 w1 Hitems HI.
    destruct HI as (HR & (outcomes & Hsel & Hby & Hmoved & Hrun) & Hcreated
                    & Hun).
    unfold bind at 1.
    destruct (primary_region_of_spec (Path.name x) self1 w1)
      as (self2 & Hprobe & HR2).
    rewrite Hprobe.
    assert (HR' : only_regions_grow self self2)
      by (eapply only_regions_grow_trans; eassumption).
    assert (Hprio : region_priority self1 = region_priority self)
      by (destruct HR as (_ & Hp & _); exact Hp).
    rewrite Hprio. fold (primary x).
    assert (Hdone : incl (filter selp done) (filter selp rom_files)).
    { intros y Hy. apply filter_In in Hy. apply filter_In. split; [|tauto].
      rewrite Hitems. apply in_app_iff. tauto. }
    destruct (exclude_usa && String.eqb (primary x) "USA") eqn:Hskip.
    { assert (Hx0 : selp x = false) by (unfold selp; now rewrite Hskip).
      unfold ret, I. rewrite filter_snoc, Hx0, app_nil_r.
      split; [assumption|]. split; [now exists outcomes|]. tauto. }
    assert (Hx : selp x = true) by (unfold selp; now rewrite Hskip).
    destruct (region_folder_known (primary x) (primary_of_known _ _))
      as (Hmem & Hne & Hsub).
    rewrite Hmem, Hne, Hsub. cbn [negb].
    assert (Hseen_eq : created = distinct (map primary (map fst outcomes))).
    { rewrite Hcreated. f_equal. f_equal. symmetry. exact Hsel. }
    assert (Hfinish :
      forall w2 : World,
        run move_error mkdir_error
            (if Py.mem (primary x) created then []
             else [Mkdir (primary x); Print (created_line (primary x))])
            w1 w2 ->
        untouched [] w1 w2 ->
        match
          bind (move move_error x (primary x))
               (fun moved =>
                  ret (if moved
                       then moved_files ++ [(Path.name x, primary x)]
                       else moved_files,
                       set_add (primary x) created)) self2 w2
        with
        | Returned state' self' w' => I (done ++ [x]) state' self' w'
        | Raised e self' w' => Q e self' w'
        end).
    { intros w2 Hpre Hun2. unfold bind.
      destruct (move_spec move_error mkdir_error x (primary x) self2 w2)
        as (e & w4 & Hmove & Hstd4 & Hun4 & Hby4 & Hrun4).
      rewrite Hmove. unfold ret, I. rewrite filter_snoc, Hx.
      split; [assumption|]. split.
      { exists (outcomes ++ [(x, e)]). split.
        { rewrite map_app. exact (f_equal (fun l => l ++ [x]) Hsel). }
        split.
        { apply Forall_app. split; [assumption|now constructor]. }
        split.
        { subst moved_files. rewrite filter_app, map_app. cbn [filter].
          destruct (moved_ok (x, e)); cbn [map fst];
            [reflexivity|now rewrite app_nil_r]. }
        rewrite sorting_calls_app. cbn [sorting_calls fst].
        fold (distinct (map primary (map fst outcomes))).
        rewrite <- Hseen_eq, app_nil_r.
        apply (run_app move_error mkdir_error _ _ w w1 w4 Hrun).
        exact (run_app move_error mkdir_error _ _ w1 w2 w4 Hpre Hrun4). }
      split.
      { rewrite map_app. change (map primary [x]) with [primary x].
        rewrite distinct_snoc, <- Hcreated. reflexivity. }
      apply (untouched_trans _ _ w w1 w4); [assumption|].
      intros p Hp Hn. apply Hun4; [|assumption]. apply Hun2; [assumption|].
      intros []. }
    destruct (Py.mem (primary x) created) eqn:Hseen; cbn [negb].
    - unfold bind at 1. unfold ret at 1.
      specialize (Hfinish w1 eq_refl (untouched_refl [] w1)).
      assert (E : set_add (primary x) created = created)
        by (unfold set_add; now rewrite Hseen).
      rewrite E in Hfinish. exact Hfinish.
    - unfold bind at 1. unfold bind at 1.
      pose proof (mkdir_spec move_error mkdir_error (primary x) self2 w1) as Hmk.
      destruct (mkdir mkdir_error (primary x) self2 w1)
        as [[] self3 w3|e self3 w3].
      + destruct Hmk as (-> & Hstd3 & Hun3 & _ & Hrun3).
        unfold bind at 1. unfold say at 1. unfold ret at 1.
        apply Hfinish.
        * destruct Hrun3 as (w5 & Hmk5 & ->). exists w5.
          split; [exact Hmk5|]. eexists. split; reflexivity.
        * intros p Hp Hn. unfold path_exists, print. cbn [files].
          now apply Hun3.
      + destruct Hmk as (-> & -> & Hmk). unfold Q.
        split; [assumption|]. split.
        { exists outcomes, x, (filter selp rest).
          split.
          { rewrite Hitems, filter_app. cbn [filter]. rewrite Hx.
            now rewrite Hsel. }
          split; [exact Hrun|]. split; [|exact Hmk].
          intro Hin. apply mem_false in Hseen. apply Hseen.
          rewrite Hseen_eq. now apply distinct_spec. }
        eapply untouched_weaken; eassumption. }
  assert (HI0 : I [] ([], []) self w).
  { unfold I. cbn [filter map]. split; [apply only_regions_grow_refl|].
    split; [exists []; repeat split; constructor|].
    split; [reflexivity|apply untouched_refl]. }
  specialize (Hloop HI0).
  destruct (for_each rom_files _ ([], []) self w)
    as [[moved_files created] self' w'|e self' w'].
  - unfold I in Hloop. exact Hloop.
  - exact Hloop.
Qed.

End Organizing.

Lemma organize_roms_by_region_sorts_by_primary_region_witness :
  let move_error := fun (fs : list string) (src dst : string) => @None string in
  let mkdir_error := fun (fs : list string) (p : string) =>
                       Some "Permission denied" in
  let rom_files := ["roms/Sonic (Japan).zip"; "roms/Sonic (USA).zip"] in
  let w := MkWorld rom_files [] in
  exists self' w',
    organize_roms_by_region move_error mkdir_error rom_files true new_analyzer w
    = Raised "Permission denied" self' w'.
Proof.
  intros move_error mkdir_error rom_files w.
  pose proof (organize_roms_by_region_sorts_by_primary_region
                move_error mkdir_error rom_files true new_analyzer w) as H.
  cbn zeta in H.
  destruct (organize_roms_by_region move_error mkdir_error rom_files true
                                    new_analyzer w)
    as [[moved_files created] self' w'|e self' w'].
  - exfalso. destruct H as (_ & (outcomes & Hsel & _ & _ & Hrun) & _).
    destruct outcomes as [|o outcomes]; [vm_compute in Hsel; discriminate|].
    cbn [sorting_calls Py.mem existsb app run performs] in Hrun.
    destruct Hrun as (w1 & (Hmk & _) & _). discriminate Hmk.
  - destruct H as (_ & (outcomes & f & rest & _ & _ & _ & He) & _).
    injection He as <-. now exists self', w'.
Defined.
(** ** The duplicate handlers *)

Section DedupeLoop.

Variable move_error : list string -> string -> string -> option string.
Variable mkdir_error : list string -> string -> option string.
Variable self0 : ROMAnalyzer.
Variable R : ROMAnalyzer -> ROMAnalyzer -> Prop.
Hypothesis R_refl : R self0 self0.
Variable pick : list string -> list string -> option string.
Variable fails : list string -> string -> Prop.
Variable choose : list string -> list string -> action (option string).
Variable on_moved : string -> string -> action unit.
Variable silent : bool.
Hypothesis choose_spec :
  forall files rom_files_only self w,
    R self0 self ->
    match choose files rom_files_only self w with
    | Returned best_rom self' w' =>
        best_rom = pick files rom_files_only /\ R self0 self' /\ w' = w
    | Raised e self' w' => fails rom_files_only e /\ R self0 self' /\ w' = w
    end.
Hypothesis on_moved_spec :
  forall rom_file best_rom self w,
    exists w', on_moved rom_file best_rom self w = Returned tt self w'
               /\ files w' = files w
               /\ (silent = true -> w' = w).

(** The inner loop: every file of the group other than the one kept is
    attempted. *)
Lemma move_others (best_rom destination_folder : string) (items : list string) :
  forall (moved_files : list string) (self : ROMAnalyzer) (w : World),
  exists (outcomes : list outcome) (w' : World),
    for_each items
      (fun moved_files rom_file =>
         if negb (Path.eqb rom_file best_rom) then
           bind (move move_error rom_file destination_folder)
             (fun moved =>
                if moved then
                  bind (on_moved rom_file best_rom) (fun _ =>
                  ret (moved_files ++ [Path.name rom_file]))
                else ret moved_files)
         else ret moved_files)
      moved_files self w
    = Returned (moved_files ++ names_moved outcomes) self w'
    /\ map fst outcomes
       = filter (fun rom_file => negb (Path.eqb rom_file best_rom)) items
    /\ Forall (raised_by move_error) outcomes
    /\ untouched
         (filter (fun rom_file => negb (Path.eqb rom_file best_rom)) items)
         w w'
    /\ (silent = true ->
        run move_error mkdir_error
            (flat_map (attempt destination_folder) outcomes) w w').
Proof.
  induction items as [|x items IH]; intros moved_files self w.
  - exists [], w. cbn. rewrite app_nil_r. repeat split.
    + constructor.
    + apply untouched_refl.
  - cbn [for_each filter]. unfold bind at 1.
    destruct (negb (Path.eqb x best_rom)) eqn:Hx.
    + unfold bind at 1.
      destruct (move_spec move_error mkdir_error x destination_folder self w)
        as (e & w1 & Hmove & _ & Hun1 & Hby1 & Hrun1).
      rewrite Hmove. destruct (moved_ok (x, e)) eqn:Hok.
      * unfold bind at 1.
        destruct (on_moved_spec x best_rom self w1)
          as (w2 & Hnote & Hfiles & Hsilent).
        rewrite Hnote. unfold ret at 1.
        destruct (IH (moved_files ++ [Path.name x]) self w2)
          as (os & w' & Hloop & Hsel & Hby & Hun & Hrun).
        exists ((x, e) :: os), w'. rewrite Hloop. split.
        { unfold names_moved. cbn [filter]. rewrite Hok. cbn [map fst].
          now rewrite <- app_assoc. }
        split; [cbn [map fst]; now rewrite Hsel|].
        split; [now constructor|]. split.
        { apply (untouched_trans [x] _ w w2 w'); [|assumption].
          intros p Hp Hn. unfold path_exists. rewrite Hfiles. now apply Hun1. }
        intro Hs. cbn [flat_map].
        apply (run_app move_error mkdir_error _ _ w w1 w' Hrun1).
        rewrite <- (Hsilent Hs). exact (Hrun Hs).
      * unfold ret at 1.
        destruct (IH moved_files self w1)
          as (os & w' & Hloop & Hsel & Hby & Hun & Hrun).
        exists ((x, e) :: os), w'. rewrite Hloop. split.
        { unfold names_moved. cbn [filter]. now rewrite Hok. }
        split; [cbn [map fst]; now rewrite Hsel|].
        split; [now constructor|]. split.
        { apply (untouched_trans [x] _ w w1 w'); assumption. }
        intro Hs. cbn [flat_map].
        exact (run_app move_error mkdir_error _ _ w w1 w' Hrun1 (Hrun Hs)).
    + unfold ret at 1. apply IH.
Qed.

(** The handlers attempt, group after group, the victims of each group;
    an exception can only come from the choice of the file to keep. *)
Lemma dedupe_spec (rom_files : list string) (destination_folder : string)
    (w : World) :
  match dedupe move_error choose on_moved rom_files destination_folder self0 w
  with
  | Returned moved_files self' w' =>
      R self0 self'
      /\ exists outcomes : list outcome,
           map fst outcomes
           = flat_map (victims pick) (group_by_base_name rom_files)
           /\ Forall (raised_by move_error) outcomes
           /\ moved_files = names_moved outcomes
           /\ untouched (map fst outcomes) w w'
           /\ (silent = true ->
               run move_error mkdir_error
                   (flat_map (attempt destination_folder) outcomes) w w')
  | Raised e self' w' =>
      R self0 self'
      /\ exists (outcomes : list outcome) (done : list (string * list string))
                (group : string * list string)
                (rest : list (string * list string)),
           group_by_base_name rom_files = done ++ group :: rest
           /\ map fst outcomes = flat_map (victims pick) done
           /\ Forall (raised_by move_error) outcomes
           /\ untouched (map fst outcomes) w w'
           /\ 1 < length (roms_only (snd group))
           /\ fails (roms_only (snd group)) e
  end.
Proof.
  unfold dedupe.
  pose (I := fun (done : list (string * list string)) (moved_files : list string)
                 (self' : ROMAnalyzer) (w' : World) =>
          R self0 self'
          /\ exists outcomes : list outcome,
               map fst outcomes = flat_map (victims pick) done
               /\ Forall (raised_by move_error) outcomes
               /\ moved_files = names_moved outcomes
               /\ untouched (map fst outcomes) w w'
               /\ (silent = true ->
                   run move_error mkdir_error
                       (flat_map (attempt destination_folder) outcomes) w w')).
  pose (Q := fun (e : string) (self' : ROMAnalyzer) (w' : World) =>
          R self0 self'
          /\ exists (outcomes : list outcome) (done : list (string * list string))
                    (group : string * list string)
                    (rest : list (string * list string)),
               group_by_base_name rom_files = done ++ group :: rest
               /\ map fst outcomes = flat_map (victims pick) done
               /\ Forall (raised_by move_error) outcomes
               /\ untouched (map fst outcomes) w w'
               /\ 1 < length (roms_only (snd group))
               /\ fails (roms_only (snd group)) e).
  match goal with
  | |- match for_each ?items ?body _ _ _ with _ => _ end =>
      pose proof (for_each_prefix items body I Q) as Hloop
  end.
  match type of Hloop with
  | ?P -> _ => assert (Hstep : P); [|specialize (Hloop Hstep [] self0 w)]
  end.
  { clear Hloop. intros done group rest moved_files self w1 Hitems HI.
    destruct HI as (HR & outcomes & Hsel & Hby & Hmoved & Hun & Hcalls).
    assert (Hkeep : I (done ++ [group]) moved_files self w1
                    \/ victims pick group <> []).
    { destruct (victims pick group) eqn:E; [left|right; discriminate].
      unfold I. split; [assumption|]. exists outcomes.
      rewrite flat_map_app. cbn [flat_map]. rewrite E, !app_nil_r. tauto. }
    unfold victims in Hkeep. cbn zeta in *.
    destruct (1 <? length (roms_only (snd group))) eqn:Hmany.
    2:{ unfold ret. destruct Hkeep as [H|H]; [exact H|now destruct H]. }
    unfold bind at 1.
    pose proof (choose_spec (snd group) (roms_only (snd group)) self w1 HR)
      as Hchoose.
    destruct (choose (snd group) (roms_only (snd group)) self w1)
      as [best self2 w2|e self2 w2].
    2:{ destruct Hchoose as (Hfails & HR2 & ->). unfold Q.
        split; [assumption|]. exists outcomes, done, group, rest.
        apply Nat.ltb_lt in Hmany. tauto. }
    destruct Hchoose as (-> & HR2 & ->).
    destruct (pick (snd group) (roms_only (snd group))) as [best_rom|] eqn:Hpick.
    2:{ unfold ret. destruct Hkeep as [H|H]; [|now destruct H].
        unfold I in *. destruct H as (_ & H). split; [assumption|exact H]. }
    destruct (move_others best_rom destination_folder (roms_only (snd group))
                          moved_files self2 w1)
      as (os & w' & Hinner & Hsel' & Hby' & Hun' & Hcalls').
    rewrite Hinner. unfold I. split; [assumption|].
    exists (outcomes ++ os). split.
    { rewrite map_app, flat_map_app. cbn [flat_map]. unfold victims.
      cbn zeta. rewrite Hmany, Hpick, app_nil_r.
      rewrite <- Hsel'. exact (f_equal (fun l => l ++ map fst os) Hsel). }
    split; [apply Forall_app; now split|].
    split; [rewrite names_moved_app; now subst moved_files|].
    split.
    { rewrite map_app. apply (untouched_trans _ _ w w1 w'); [assumption|].
      exact (eq_ind_r (fun l => untouched l w1 w') Hun' Hsel'). }
    intro Hs. rewrite flat_map_app.
    exact (run_app move_error mkdir_error _ _ w w1 w' (Hcalls Hs) (Hcalls' Hs)). }
  assert (HI0 : I [] [] self0 w).
  { unfold I. split; [assumption|]. exists []. repeat split.
    - constructor.
    - apply untouched_refl. }
  specialize (Hloop HI0).
  destruct (for_each _ _ [] self0 w) as [moved_files self' w'|e self' w'];
    exact Hloop.
Qed.

End DedupeLoop.

(** *** The groups and their victims *)

Lemma base_groups (rom_files : list string) :
  let groups := group_by_base_name rom_files in
  NoDup (map fst groups)
  /\ (forall k files,
        In (k, files) groups ->
        files = filter (fun f => String.eqb (base_of f) k) rom_files)
  /\ (forall f, In f rom_files -> In (base_of f, copies rom_files f) groups).
Proof.
  cbn zeta.
  destruct (grouping_loop (fun _ : string => false) base_of rom_files)
    as (Hnd & Hlook & Hkeys).
  change (fold_left _ rom_files []) with (group_by_base_name rom_files) in *.
  split; [assumption|]. split.
  - intros k files Hin. rewrite <- (dict_lookup_In _ _ _ Hnd Hin). apply Hlook.
  - intros f Hf.
    assert (E : copies rom_files f
                = dict_lookup (group_by_base_name rom_files) (base_of f))
      by (rewrite Hlook; reflexivity).
    rewrite E. apply dict_lookup_key. apply Hkeys. rewrite <- E.
    intro Hnil.
    assert (Hin : In f (copies rom_files f)).
    { apply filter_In. split; [assumption|apply String.eqb_refl]. }
    rewrite Hnil in Hin. destruct Hin.
Qed.

Lemma roms_only_In (files : list string) (f : string) :
  In f (roms_only files) <-> In f files /\ is_save_state (Path.name f) = false.
Proof.
  unfold roms_only. rewrite filter_In. rewrite negb_true_iff. tauto.
Qed.

Lemma path_eqb_refl (p : string) : Path.eqb p p = true.
Proof.
  unfold Path.eqb. rewrite String.eqb_refl.
  now destruct (list_eq_dec string_dec (Path.parts p) (Path.parts p)).
Qed.

Lemma path_eqb_name (p q : string) :
  Path.eqb p q = true -> Path.name p = Path.name q.
Proof.
  unfold Path.eqb, Path.name. intro H. apply andb_prop in H.
  destruct H as [_ H].
  destruct (list_eq_dec string_dec (Path.parts p) (Path.parts q)) as [E|];
    [now rewrite E|discriminate].
Qed.

Section Victims.

Variable pick : list string -> list string -> option string.
Hypothesis pick_in :
  forall files best, pick files (roms_only files) = Some best ->
                     In best (roms_only files).
Variable rom_files : list string.

Lemma victims_In (v : string) :
  In v (flat_map (victims pick) (group_by_base_name rom_files)) <->
  In v rom_files
  /\ is_save_state (Path.name v) = false
  /\ 1 < length (roms_only (copies rom_files v))
  /\ exists best,
       pick (copies rom_files v) (roms_only (copies rom_files v)) = Some best
       /\ Path.eqb v best = false.
Proof.
  destruct (base_groups rom_files) as (Hnd & Hfiles & Hgroup). split.
  - intro H. apply in_flat_map in H. destruct H as ([k files] & Hin & Hv).
    unfold victims in Hv. cbn [snd] in Hv.
    destruct (1 <? length (roms_only files)) eqn:Hmany; [|destruct Hv].
    destruct (pick files (roms_only files)) as [best|] eqn:Hpick; [|destruct Hv].
    apply filter_In in Hv. destruct Hv as [Hv Hne].
    apply negb_true_iff in Hne.
    apply roms_only_In in Hv. destruct Hv as [Hv Hsave].
    pose proof (Hfiles k files Hin) as E.
    assert (Hv' : In v rom_files /\ String.eqb (base_of v) k = true).
    { rewrite E in Hv. apply filter_In in Hv. exact Hv. }
    destruct Hv' as [Hvin Hk]. apply String.eqb_eq in Hk. subst k.
    assert (Ec : copies rom_files v = files) by (now rewrite E).
    rewrite Ec. apply Nat.ltb_lt in Hmany.
    repeat split; try assumption. now exists best.
  - intros (Hv & Hsave & Hmany & best & Hpick & Hne).
    apply in_flat_map. exists (base_of v, copies rom_files v).
    split; [now apply Hgroup|].
    unfold victims. cbn [snd].
    apply Nat.ltb_lt in Hmany. rewrite Hmany, Hpick.
    apply filter_In. split; [|now rewrite Hne].
    apply roms_only_In. split; [|assumption].
    apply filter_In. split; [assumption|apply String.eqb_refl].
Qed.

Lemma copies_same (f g : string) :
  base_of g = base_of f -> copies rom_files g = copies rom_files f.
Proof. intro E. unfold copies. now rewrite E. Qed.

(** Every victim has a copy that is kept. *)
Lemma victims_have_kept_sibling (v : string) :
  In v (flat_map (victims pick) (group_by_base_name rom_files)) ->
  exists best,
    pick (copies rom_files v) (roms_only (copies rom_files v)) = Some best
    /\ In best rom_files
    /\ is_save_state (Path.name best) = false
    /\ base_of best = base_of v
    /\ ~ In best (flat_map (victims pick) (group_by_base_name rom_files)).
Proof.
  intro H. apply victims_In in H.
  destruct H as (Hv & Hsave & Hmany & best & Hpick & Hne).
  exists best. split; [assumption|].
  pose proof (pick_in _ _ Hpick) as Hin.
  apply roms_only_In in Hin. destruct Hin as [Hin Hbsave].
  apply filter_In in Hin. destruct Hin as [Hbin Hbase].
  apply String.eqb_eq in Hbase.
  repeat split; try assumption.
  intro Hb. apply victims_In in Hb.
  destruct Hb as (_ & _ & _ & best' & Hpick' & Hne').
  rewrite (copies_same v best Hbase), Hpick in Hpick'.
  injection Hpick' as <-. rewrite path_eqb_refl in Hne'. discriminate.
Qed.

(** A file that is no victim is alone, or nothing is kept in its group, or
    it is the file kept. *)
Lemma spared (f : string) :
  In f rom_files -> is_save_state (Path.name f) = false ->
  ~ In f (flat_map (victims pick) (group_by_base_name rom_files)) ->
  length (roms_only (copies rom_files f)) <= 1
  \/ pick (copies rom_files f) (roms_only (copies rom_files f)) = None
  \/ exists best,
       pick (copies rom_files f) (roms_only (copies rom_files f)) = Some best
       /\ Path.eqb f best = true.
Proof.
  intros Hf Hsave Hnot.
  destruct (Nat.le_gt_cases (length (roms_only (copies rom_files f))) 1)
    as [Hle|Hgt]; [now left|right].
  destruct (pick (copies rom_files f) (roms_only (copies rom_files f)))
    as [best|] eqn:Hpick; [right|now left].
  exists best. split; [reflexivity|].
  destruct (Path.eqb f best) eqn:E; [reflexivity|].
  exfalso. apply Hnot. apply victims_In. repeat split; try assumption.
  now exists best.
Qed.

End Victims.

Lemma in_copies (rom_files : list string) (f g : string) :
  In g rom_files -> is_save_state (Path.name g) = false ->
  base_of g = base_of f ->
  In g (roms_only (copies rom_files f)).
Proof.
  intros Hg Hsave Hbase. apply roms_only_In. split; [|assumption].
  apply filter_In. split; [assumption|]. now apply String.eqb_eq.
Qed.

Lemma short_list_same {A : Type} (l : list A) (x y : A) :
  length l <= 1 -> In x l -> In y l -> x = y.
Proof.
  destruct l as [|a [|b l]]; cbn; intros Hl Hx Hy; try lia; intuition congruence.
Qed.

Lemma In_middle {A : Type} (l before after : list A) (x best : A) :
  l = before ++ best :: after -> In x l ->
  In x before \/ x = best \/ In x after.
Proof.
  intros -> H. apply in_app_iff in H. cbn in H. intuition.
Qed.

(** *** The best format *)

Lemma best_format_in (files : list string) (best : string) :
  get_best_format_rom files = Some best -> In best (roms_only files).
Proof.
  intro H. pose proof (best_format_rom_spec files) as Hs. rewrite H in Hs.
  destruct Hs as (before & after & E & _). unfold roms_only. rewrite E.
  apply in_app_iff. right. now left.
Qed.

Lemma best_format_max (files : list string) (best g : string) :
  get_best_format_rom files = Some best -> In g (roms_only files) ->
  get_format_preference (Path.name g) <= get_format_preference (Path.name best).
Proof.
  intros H Hg. pose proof (best_format_rom_spec files) as Hs. rewrite H in Hs.
  destruct Hs as (before & after & E & Hb & Ha).
  destruct (In_middle _ _ _ g best E Hg) as [Hx|[->|Hx]].
  - specialize (Hb g Hx). lia.
  - lia.
  - now apply Ha.
Qed.

Section DuplicateHandlers.

Variable move_error : list string -> string -> string -> option string.
Variable mkdir_error : list string -> string -> option string.

Lemma inferior_format_dedupe (rom_files : list string) (destination_folder : string)
    (self : ROMAnalyzer) (w : World) :
  move_inferior_format_duplicates move_error rom_files destination_folder self w
  = dedupe move_error (fun files _ => ret (get_best_format_rom files))
           (fun _ _ => ret tt) rom_files destination_folder self w.
Proof.
  unfold move_inferior_format_duplicates, dedupe.
  apply for_each_ext. intros moved_files [base_name files] s w0. cbn [snd].
  unfold roms_only.
  destruct (1 <? length _); [|reflexivity].
  unfold bind at 1. unfold ret at 1.
  destruct (get_best_format_rom files) as [best_rom|]; [|reflexivity].
  apply for_each_ext. intros moved x s1 w1.
  destruct (negb (Path.eqb x best_rom)); [|reflexivity].
  unfold bind, move, ret.
  destruct (try_move move_error w1 x destination_folder) as [[] w2]; reflexivity.
Qed.

(** X22: [move_inferior_format_duplicates] never raises and leaves the
    analyzer alone; among the files that share a base name it attempts
    only files that are no save states and have a copy, with a format
    preference at least as high, that it does not attempt; a ROM it does
    not attempt has the highest format preference among the ROMs of its
    base name; no path other than the files attempted is lost. *)
Theorem inferior_format_duplicates_keep_best (rom_files : list string)
    (destination_folder : string) (self : ROMAnalyzer) (w : World) :
  exists (moved_files : list string) (w' : World) (outcomes : list outcome),
    move_inferior_format_duplicates move_error rom_files destination_folder
                                    self w
    = Returned moved_files self w'
    /\ moved_files = names_moved outcomes
    /\ Forall (raised_by move_error) outcomes
    /\ untouched (map fst outcomes) w w'
    /\ (forall f,
          In f (map fst outcomes) ->
          In f rom_files
          /\ is_save_state (Path.name f) = false
          /\ exists best,
               In best rom_files
               /\ is_save_state (Path.name best) = false
               /\ base_of best = base_of f
               /\ get_format_preference (Path.name f)
                  <= get_format_preference (Path.name best)
               /\ ~ In best (map fst outcomes))
    /\ (forall f,
          In f rom_files -> is_save_state (Path.name f) = false ->
          ~ In f (map fst outcomes) ->
          forall g,
            In g rom_files -> is_save_state (Path.name g) = false ->
            base_of g = base_of f ->
            get_format_preference (Path.name g)
            <= get_format_preference (Path.name f)).
Proof.
  rewrite inferior_format_dedupe.
  set (pick := fun (files _ : list string) => get_best_format_rom files).
  pose proof (dedupe_spec move_error (fun _ _ => None) self (fun a b => a = b)
                eq_refl pick (fun _ _ => False)
                (fun files _ => ret (get_best_format_rom files))
                (fun _ _ => ret tt) true) as Hspec.
  specialize (Hspec (fun files only s w0 HR => conj eq_refl (conj HR eq_refl))).
  specialize (Hspec (fun f b s w0 =>
                       ex_intro _ w0 (conj eq_refl (conj eq_refl (fun _ => eq_refl))))).
  specialize (Hspec rom_files destination_folder w).
  destruct (dedupe _ _ _ _ _ _ _) as [moved_files self' w'|e self' w'].
  2:{ destruct Hspec as (_ & os & d & g & r & _ & _ & _ & _ & _ & []). }
  destruct Hspec as (<- & outcomes & Hsel & Hby & Hmoved & Hun & _).
  pose proof (eq_refl (Returned moved_files self w')) as Hrun.
  assert (pick_in : forall files best,
            pick files (roms_only files) = Some best -> In best (roms_only files))
    by (intros files best; apply best_format_in).
  exists moved_files, w', outcomes.
  split; [exact Hrun|]. split; [assumption|]. split; [assumption|].
  split; [assumption|]. split.
  - intros f Hf.
    assert (Hv : In f (flat_map (victims pick) (group_by_base_name rom_files)))
      by (rewrite <- Hsel; exact Hf).
    pose proof (proj1 (victims_In pick rom_files f) Hv)
      as (Hin & Hsave & _ & _).
    destruct (victims_have_kept_sibling pick pick_in rom_files f Hv)
      as (best & Hpick & Hbin & Hbsave & Hbase & Hkept).
    split; [assumption|]. split; [assumption|].
    exists best. repeat split; try assumption.
    + apply (best_format_max _ _ _ Hpick). apply in_copies; auto.
    + intro Hb. apply Hkept. rewrite <- Hsel. exact Hb.
  - intros f Hf Hsave Hnot g Hg Hgsave Hbase.
    assert (Hnv : ~ In f (flat_map (victims pick) (group_by_base_name rom_files)))
      by (rewrite <- Hsel; exact Hnot).
    pose proof (in_copies rom_files f g Hg Hgsave Hbase) as Hgc.
    pose proof (in_copies rom_files f f Hf Hsave eq_refl) as Hfc.
    destruct (spared pick rom_files f Hf Hsave Hnv) as [Hle|[Hnone|(best & Hpick & He)]].
    + now rewrite (short_list_same _ g f Hle Hgc Hfc).
    + unfold pick in Hnone.
      pose proof (best_format_rom_spec (copies rom_files f)) as Hs.
      rewrite Hnone in Hs. apply roms_only_In in Hfc.
      rewrite (Hs f (proj1 Hfc)) in Hsave. discriminate.
    + rewrite (path_eqb_name _ _ He).
      now apply (best_format_max _ _ _ Hpick).
Qed.

End DuplicateHandlers.

(** *** The newest version *)

Lemma version_eqb_eq (v1 v2 : version) : version_eqb v1 v2 = true <-> v1 = v2.
Proof.
  destruct v1 as [[[a1 b1] c1] d1], v2 as [[[a2 b2] c2] d2].
  unfold version_eqb. rewrite !andb_true_iff, !N.eqb_eq.
  split; [intros [[[-> ->] ->] ->]; reflexivity|].
  intro H. injection H as -> -> -> ->. tauto.
Qed.

Lemma distinct_versions_none (versions : list version) :
  distinct_versions versions = 0 -> versions = [].
Proof.
  induction versions as [|v versions IH]; [reflexivity|].
  cbn [distinct_versions].
  destruct (existsb (version_eqb v) versions) eqn:E; [|discriminate].
  intro H. rewrite (IH H) in E. discriminate.
Qed.

(** At most one distinct version: all the versions are the same. *)
Lemma distinct_versions_one (versions : list version) :
  distinct_versions versions <= 1 <->
  forall v1 v2, In v1 versions -> In v2 versions -> v1 = v2.
Proof.
  induction versions as [|v versions IH]; [cbn; split; [intros _ ? ? []|lia]|].
  cbn [distinct_versions].
  destruct (existsb (version_eqb v) versions) eqn:E.
  - apply existsb_exists in E. destruct E as (v' & Hv' & Ev).
    apply version_eqb_eq in Ev. subst v'.
    rewrite IH. split.
    + intros H v1 v2 [<-|H1] [<-|H2]; auto.
    + intros H v1 v2 H1 H2. apply H; now right.
  - split.
    + intro H. assert (H0 : distinct_versions versions = 0) by lia.
      rewrite (distinct_versions_none _ H0).
      intros v1 v2 [<-|[]] [<-|[]]. reflexivity.
    + intro H. destruct versions as [|v' versions]; [cbn; lia|].
      exfalso. assert (Ev : v = v') by (apply H; cbn; tauto).
      subst v'. cbn [existsb] in E.
      rewrite (proj2 (version_eqb_eq v v) eq_refl) in E. discriminate.
Qed.

Lemma roms_only_idempotent (files : list string) :
  roms_only (roms_only files) = roms_only files.
Proof.
  unfold roms_only. induction files as [|f files IH]; [reflexivity|].
  cbn [filter]. destruct (negb (is_save_state (Path.name f))) eqn:E;
    [|exact IH].
  cbn [filter]. now rewrite E, IH.
Qed.

Lemma beats_asymmetric (a b : string) : beats a b -> ~ beats b a.
Proof.
  destruct version_key_gt_order as (_ & _ & Hasym).
  intros Hab Hba.
  apply (version_key_gt_spec
           (detect_version (Path.name a), get_format_preference (Path.name a))
           (detect_version (Path.name b), get_format_preference (Path.name b)))
    in Hab.
  apply (version_key_gt_spec
           (detect_version (Path.name b), get_format_preference (Path.name b))
           (detect_version (Path.name a), get_format_preference (Path.name a)))
    in Hba.
  rewrite (Hasym _ _ Hab) in Hba. discriminate.
Qed.

Lemma best_version_in (files : list string) (best : string) :
  get_best_version_rom files = Some best -> In best (roms_only files).
Proof.
  intro H. pose proof (best_version_rom_spec files) as Hs. rewrite H in Hs.
  destruct Hs as (before & after & E & _). rewrite E.
  apply in_app_iff. right. now left.
Qed.

Lemma best_version_max (files : list string) (best g : string) :
  get_best_version_rom files = Some best -> In g (roms_only files) ->
  ~ beats g best.
Proof.
  intros H Hg. pose proof (best_version_rom_spec files) as Hs. rewrite H in Hs.
  destruct Hs as (before & after & E & Hb & Ha).
  destruct (In_middle _ _ _ g best E Hg) as [Hx|[->|Hx]].
  - apply beats_asymmetric. now apply Hb.
  - intro Hbb. exact (beats_asymmetric _ _ Hbb Hbb).
  - now apply Ha.
Qed.


(** *** The best rank *)

Lemma best_ranked_spec (rank : string -> nat) (files rom_files_only : list string) :
  match best_ranked rank files rom_files_only with
  | None => rom_files_only = []
  | Some best =>
      In best rom_files_only
      /\ forall g, In g rom_files_only -> rank best <= rank g
  end.
Proof.
  unfold best_ranked.
  assert (H : forall items,
    let state :=
      fold_left
        (fun (state : option string * option nat) rom_file =>
           if below (rank rom_file) (snd state)
           then (Some rom_file, Some (rank rom_file)) else state)
        items (None, None) in
    match fst state with
    | None => items = [] /\ snd state = None
    | Some best =>
        snd state = Some (rank best) /\ In best items
        /\ forall g, In g items -> rank best <= rank g
    end).
  { induction items as [|x items IH] using rev_ind; [cbn; tauto|].
    cbn zeta in *. rewrite fold_left_app. cbn [fold_left].
    destruct (fold_left _ items (None, None)) as [[best|] p]; cbn [fst snd] in *.
    - destruct IH as (-> & Hin & Hmin). cbn [below].
      destruct (rank x <? rank best) eqn:E; cbn [fst snd].
      + apply Nat.ltb_lt in E. split; [reflexivity|].
        split; [apply in_app_iff; right; now left|].
        intros g Hg. apply in_app_iff in Hg. destruct Hg as [Hg|[<-|[]]].
        * specialize (Hmin g Hg). lia.
        * lia.
      + apply Nat.ltb_ge in E. split; [reflexivity|].
        split; [apply in_app_iff; now left|].
        intros g Hg. apply in_app_iff in Hg. destruct Hg as [Hg|[<-|[]]].
        * now apply Hmin.
        * assumption.
    - destruct IH as (-> & ->). cbn [below fst snd app].
      split; [reflexivity|]. split; [now left|].
      intros g [<-|[]]. lia. }
  specialize (H rom_files_only). cbn zeta in H.
  destruct (fst _) as [best|]; tauto.
Qed.

Lemma priority_of_same (a b : ROMAnalyzer) (region : string) :
  region_priority a = region_priority b ->
  priority_of a region = priority_of b region.
Proof. intro H. unfold priority_of. now rewrite H. Qed.

(** The loop that looks for the best rank returns the first file whose
    rank none of the others is below. *)
Lemma rank_loop (self : ROMAnalyzer) (items : list string) :
  forall (state : option string * option nat) (self1 : ROMAnalyzer) (w : World),
    only_regions_grow self self1 ->
    exists self',
      for_each items
        (fun '(best_rom, best_priority) rom_file =>
           bind (primary_region_of (Path.name rom_file)) (fun primary_region =>
           bind (priority_index primary_region) (fun priority =>
           if below priority best_priority
           then ret (Some rom_file, Some priority)
           else ret (best_rom, best_priority))))
        state self1 w
      = Returned
          (fold_left
             (fun (state : option string * option nat) rom_file =>
                if below (rank_of self rom_file) (snd state)
                then (Some rom_file, Some (rank_of self rom_file)) else state)
             items state)
          self' w
      /\ only_regions_grow self self'.
Proof.
  induction items as [|x items IH]; intros [best_rom best_priority] self1 w HR.
  - exists self1. now split.
  - cbn [for_each fold_left]. unfold bind at 1. unfold bind at 1.
    destruct (primary_region_of_spec (Path.name x) self1 w)
      as (self2 & Hprobe & HR2).
    rewrite Hprobe. unfold bind at 1. unfold priority_index at 1.
    assert (HR' : only_regions_grow self self2)
      by (eapply only_regions_grow_trans; eassumption).
    assert (Hrank : priority_of self2
                      (primary_of (region_priority self1) (Path.name x))
                    = rank_of self x).
    { unfold rank_of. destruct HR as (_ & Hp1 & _). rewrite Hp1.
      apply priority_of_same. now destruct HR' as (_ & Hp2 & _). }
    rewrite Hrank. cbn [snd].
    destruct (below (rank_of self x) best_priority); unfold ret at 1;
      now apply IH.
Qed.

Lemma bind_ext {A B : Type} (m : action A) (k1 k2 : A -> action B)
    (self : ROMAnalyzer) (w : World) :
  (forall a self' w', k1 a self' w' = k2 a self' w') ->
  bind m k1 self w = bind m k2 self w.
Proof. intro H. unfold bind. destruct (m self w); [apply H|reflexivity]. Qed.

Lemma bind_assoc {A B C : Type} (m : action A) (f : A -> action B)
    (g : B -> action C) (self : ROMAnalyzer) (w : World) :
  bind (bind m f) g self w = bind m (fun x => bind (f x) g) self w.
Proof. unfold bind. now destruct (m self w). Qed.

Lemma bind_ret {A B : Type} (value : A) (k : A -> action B)
    (self : ROMAnalyzer) (w : World) :
  bind (ret value) k self w = k value self w.
Proof. reflexivity. Qed.

Lemma bind_returned {A B : Type} (m : action A) (k : A -> action B)
    (self self' : ROMAnalyzer) (w w' : World) (value : A) :
  m self w = Returned value self' w' ->
  bind m k self w = k value self' w'.
Proof. intro H. unfold bind. now rewrite H. Qed.

(** *** Versions that cannot be converted *)

Lemma int_checked_value (s : string) (n : N) :
  Py.int_checked s = inr n -> n = Py.int s.
Proof.
  unfold Py.int_checked. destruct (Py.max_str_digits <? String.length s);
    [discriminate|]. intro H. now injection H as <-.
Qed.

Lemma int_checked_short (s : string) :
  String.length s <= Py.max_str_digits -> Py.int_checked s = inr (Py.int s).
Proof.
  intro H. unfold Py.int_checked.
  now replace (Py.max_str_digits <? String.length s) with false
    by (symmetry; apply Nat.ltb_ge; exact H).
Qed.

Lemma and_then_inr {A B : Type} (x : string + A) (k : A -> string + B) (b : B) :
  and_then x k = inr b -> exists a, x = inr a /\ k a = inr b.
Proof. destruct x as [e|a]; [discriminate|]. intro H. now exists a. Qed.

(** When the call returns, it returns the tuple of [detect_version]. *)
Lemma version_of_groups_checked_value (pattern : string)
    (groups : list (option string)) (v : version) :
  version_of_groups_checked pattern groups = inr v ->
  v = version_of_groups pattern groups.
Proof.
  unfold version_of_groups_checked, version_of_groups.
  assert (Hnum : forall (cond : bool) (g : option string) (n : N),
            (if cond then Py.int_checked (text g) else inr 0%N) = inr n ->
            n = if cond then Py.int (text g) else 0%N).
  { intros [] g n H; [now apply int_checked_value|now injection H as <-]. }
  destruct (Py.contains "(alpha|beta)" pattern).
  - intro H. apply and_then_inr in H. destruct H as (major & H1 & H).
    apply and_then_inr in H. destruct H as (minor & H2 & H).
    injection H as <-. apply Hnum in H1, H2. now subst.
  - destruct (Py.contains "r(?:ev)?" pattern || Py.contains "revision" pattern).
    + intro H. apply and_then_inr in H. destruct H as (revision & H1 & H).
      injection H as <-. apply Hnum in H1. now subst.
    + intro H. apply and_then_inr in H. destruct H as (major & H1 & H).
      apply and_then_inr in H. destruct H as (minor & H2 & H).
      apply and_then_inr in H. destruct H as (patch & H3 & H).
      injection H as <-. apply Hnum in H1, H2, H3. now subst.
Qed.

Lemma detect_version_checked_value (filename : string) (v : version) :
  detect_version_checked filename = inr v -> v = detect_version filename.
Proof.
  unfold detect_version_checked, detect_version.
  induction version_patterns as [|pattern patterns IH];
    cbn [detect_version_checked_in detect_version_in].
  - intro H. now injection H as <-.
  - destruct (Re.search pattern filename Re.IGNORECASE) as [match_|];
      [apply version_of_groups_checked_value|exact IH].
Qed.

(** A group is no longer than the text searched. *)
Lemma take_length (k : nat) (s : string) :
  String.length (Re.take k s) <= String.length s.
Proof.
  revert s. induction k as [|k IH]; intros [|c s]; cbn; try lia.
  specialize (IH s). lia.
Qed.

Lemma matches_bound (ic : bool) (n : nat) (r : Re.regex) :
  forall st st',
    In st' (Re.matches ic r st) ->
    String.length (Re.rest st) <= n ->
    Forall (fun c : nat * string => String.length (snd c) <= n) (Re.caps st) ->
    String.length (Re.rest st') <= String.length (Re.rest st)
    /\ Forall (fun c : nat * string => String.length (snd c) <= n)
              (Re.caps st').
Proof.
  induction r as [|a|a one g|r1 IH1|r1 IH1 r2 IH2|r1 IH1 r2 IH2|i r1 IH1| |r1 IH1];
    intros st st' H Hn Hc; cbn [Re.matches] in H.
  - destruct H as [<-|[]]. split; [lia|assumption].
  - destruct (Re.rest st) as [|c s] eqn:E; [destruct H|].
    destruct (Re.cset_match ic a c); [|destruct H].
    destruct H as [<-|[]]. cbn. split; [lia|assumption].
  - apply in_map_iff in H. destruct H as [[p' s'] [<- Hin]].
    cbn [Re.rest Re.caps fst snd]. split; [|assumption].
    destruct one.
    + destruct (Re.rest st) as [|c s] eqn:E; [destruct Hin|].
      destruct (Re.cset_match ic a c); [|destruct Hin].
      destruct (rep_sound _ _ _ _ _ _ _ Hin) as [u [-> _]].
      cbn. rewrite length_append. lia.
    + destruct (rep_sound _ _ _ _ _ _ _ Hin) as [u [E _]].
      rewrite E, length_append. lia.
  - apply in_app_or in H. destruct H as [H|[<-|[]]].
    + now apply IH1.
    + split; [lia|assumption].
  - apply in_flat_map in H. destruct H as [st1 [H1 H2]].
    destruct (IH1 _ _ H1 Hn Hc) as [L1 C1].
    destruct (IH2 _ _ H2 (Nat.le_trans _ _ _ L1 Hn) C1) as [L2 C2].
    split; [lia|assumption].
  - apply in_app_or in H. destruct H as [H|H]; [now apply IH1|now apply IH2].
  - apply in_map_iff in H. destruct H as [st1 [<- H1]].
    destruct (IH1 _ _ H1 Hn Hc) as [L1 C1].
    cbn [Re.rest Re.caps]. split; [assumption|].
    constructor; [|assumption]. cbn [snd]. unfold Re.consumed.
    pose proof (take_length (String.length (Re.rest st)
                             - String.length (Re.rest st1)) (Re.rest st)). lia.
  - destruct (xorb _ _); [|destruct H]. destruct H as [<-|[]].
    split; [lia|assumption].
  - destruct (Re.matches ic r1 st); [|destruct H]. destruct H as [<-|[]].
    split; [lia|assumption].
Qed.

Lemma lookup_cap_In (i : nat) (cs : list (nat * string)) (t : string) :
  Re.lookup_cap i cs = Some t -> In (i, t) cs.
Proof.
  induction cs as [|[j s] cs IH]; cbn; [discriminate|].
  destruct (Nat.eqb_spec i j) as [->|_].
  - intro H. injection H as ->. now left.
  - intro H. right. now apply IH.
Qed.

Lemma search_from_groups (ic : bool) (p : Re.pattern) (s : string) :
  forall pos pv match_,
    Re.search_from ic p pos pv s = Some match_ ->
    Forall (fun g => String.length (text g) <= String.length s)
           (Re.m_groups match_).
Proof.
  induction s as [|c s IH]; intros pos pv match_ H; cbn [Re.search_from] in H.
  - destruct (Re.matches_at ic p pv "") as [|st l] eqn:E; [discriminate|].
    injection H as <-. cbn [Re.match_of Re.m_groups]. unfold Re.groups_of.
    apply Forall_forall. intros g Hg. apply in_map_iff in Hg.
    destruct Hg as (i & <- & _).
    destruct (Re.lookup_cap i (Re.caps st)) as [t|] eqn:Ht; [|cbn; lia].
    apply lookup_cap_In in Ht. cbn [text].
    assert (Hin : In st (Re.matches ic (Re.p_regex p) (Re.MState pv "" [])))
      by (unfold Re.matches_at in E; rewrite E; now left).
    destruct (matches_bound ic 0 _ _ _ Hin (Nat.le_refl _) (Forall_nil _))
      as [_ Hc].
    exact (proj1 (Forall_forall _ _) Hc _ Ht).
  - destruct (Re.matches_at ic p pv (String c s)) as [|st l] eqn:E.
    + specialize (IH _ _ _ H). eapply Forall_impl; [|exact IH].
      cbn. intros g Hg. lia.
    + injection H as <-. cbn [Re.match_of Re.m_groups]. unfold Re.groups_of.
      apply Forall_forall. intros g Hg. apply in_map_iff in Hg.
      destruct Hg as (i & <- & _).
      destruct (Re.lookup_cap i (Re.caps st)) as [t|] eqn:Ht; [|cbn; lia].
      apply lookup_cap_In in Ht. cbn [text].
      assert (Hin : In st (Re.matches ic (Re.p_regex p)
                                      (Re.MState pv (String c s) [])))
        by (unfold Re.matches_at in E; rewrite E; now left).
      destruct (matches_bound ic (String.length (String c s)) _ _ _ Hin
                              (Nat.le_refl _) (Forall_nil _)) as [_ Hc].
      exact (proj1 (Forall_forall _ _) Hc _ Ht).
Qed.

Lemma group_length (n : nat) (groups : list (option string)) (i : nat) :
  Forall (fun g => String.length (text g) <= n) groups ->
  String.length (text (group groups i)) <= n.
Proof.
  intro H. unfold group. destruct (Nat.lt_ge_cases i (length groups)) as [Hi|Hi].
  - exact (proj1 (Forall_forall _ _) H _ (nth_In _ _ Hi)).
  - rewrite nth_overflow by exact Hi. cbn. lia.
Qed.

(** A name of at most 4300 characters has no number that [int] refuses. *)
Lemma short_names_convert (filename : string) :
  String.length filename <= Py.max_str_digits ->
  detect_version_checked filename = inr (detect_version filename).
Proof.
  intro Hlen. unfold detect_version_checked, detect_version.
  induction version_patterns as [|pattern patterns IH];
    cbn [detect_version_checked_in detect_version_in]; [reflexivity|].
  destruct (Re.search pattern filename Re.IGNORECASE) as [match_|] eqn:E;
    [|exact IH].
  apply search_from_groups in E.
  assert (Hg : forall i,
            Py.int_checked (text (group (Re.m_groups match_) i))
            = inr (Py.int (text (group (Re.m_groups match_) i)))).
  { intro i. apply int_checked_short.
    pose proof (group_length _ _ i E). lia. }
  unfold version_of_groups_checked, version_of_groups.
  rewrite !Hg.
  destruct (Py.contains "(alpha|beta)" pattern).
  - destruct (_ && truthy (group _ 1)), (_ && truthy (group _ 2)); reflexivity.
  - destruct (Py.contains "r(?:ev)?" pattern || Py.contains "revision" pattern).
    + destruct (truthy (group _ 0)); reflexivity.
    + destruct (truthy (group _ 0)), (_ && truthy (group _ 1)),
        (_ && truthy (group _ 2)); reflexivity.
Qed.

(** The loop that detects the versions of a group. *)
Lemma versions_loop (items : list string) :
  forall (versions_found : list version) (self : ROMAnalyzer) (w : World),
    match
      for_each items
        (fun versions_found rom_file =>
           bind (version_of (Path.name rom_file)) (fun version =>
           ret (versions_found ++ [version])))
        versions_found self w
    with
    | Returned versions self' w' =>
        versions
        = versions_found
          ++ map (fun rom_file => detect_version (Path.name rom_file)) items
        /\ self' = self /\ w' = w
    | Raised e self' w' =>
        (exists rom_file,
           In rom_file items
           /\ detect_version_checked (Path.name rom_file) = inl e)
        /\ self' = self /\ w' = w
    end.
Proof.
  induction items as [|x items IH]; intros versions_found self w.
  - cbn. now rewrite app_nil_r.
  - cbn [for_each map]. unfold bind at 1. unfold bind at 1.
    unfold version_of at 1.
    destruct (detect_version_checked (Path.name x)) as [e|v] eqn:E.
    + split; [|now split]. exists x. split; [now left|exact E].
    + unfold ret at 1. apply detect_version_checked_value in E. subst v.
      specialize (IH (versions_found ++ [detect_version (Path.name x)]) self w).
      destruct (for_each items _ _ self w) as [vs s' w'|e s' w'].
      * destruct IH as (-> & Hs & Hw). rewrite <- app_assoc. now split.
      * destruct IH as ((f & Hf & He) & Hs & Hw). split; [|now split].
        exists f. split; [now right|exact He].
Qed.

Section RegionDuplicates.

Variable move_error : list string -> string -> string -> option string.
Variable mkdir_error : list string -> string -> option string.

Lemma older_version_dedupe (rom_files : list string) (destination_folder : string)
    (self : ROMAnalyzer) (w : World) :
  move_older_version_duplicates move_error rom_files destination_folder self w
  = dedupe move_error
           (fun _ rom_files_only =>
              bind (for_each rom_files_only
                      (fun versions_found rom_file =>
                         bind (version_of (Path.name rom_file)) (fun version =>
                         ret (versions_found ++ [version])))
                      [])
                   (fun versions_found =>
                      if 1 <? distinct_versions versions_found
                      then ret (get_best_version_rom rom_files_only)
                      else ret None))
           (fun rom_file best_rom => say (older_version_line rom_file best_rom))
           rom_files destination_folder self w.
Proof.
  unfold move_older_version_duplicates, dedupe.
  apply for_each_ext. intros moved_files [base_name files] s w0. cbn [snd].
  unfold roms_only.
  destruct (1 <? length _); [|reflexivity].
  symmetry. rewrite bind_assoc. symmetry.
  apply bind_ext. intros versions_found s1 w1.
  destruct (1 <? distinct_versions versions_found); rewrite bind_ret;
    [|reflexivity].
  destruct (get_best_version_rom _) as [best_rom|]; reflexivity.
Qed.

(** X23: [move_older_version_duplicates] leaves the analyzer alone.  When it
    returns, it has touched only base names whose ROMs do not all have the
    same version, and there attempted only files that are no save states
    and have a copy, which they do not beat by version and format, that it
    did not attempt; no ROM it did not attempt has a copy with a newer
    version; no path other than the files attempted is lost.  It raises
    only the [ValueError] of [int] for a number of more than 4300 digits in
    the name of one of the ROMs, which is not caught; it returns whenever
    no name is longer than 4300 characters. *)
Theorem older_version_duplicates_keep_newest (rom_files : list string)
    (destination_folder : string) (self : ROMAnalyzer) (w : World) :
  let result :=
    move_older_version_duplicates move_error rom_files destination_folder
                                  self w in
  match result with
  | Returned moved_files self' w' =>
      self' = self
      /\ exists outcomes : list outcome,
           moved_files = names_moved outcomes
           /\ Forall (raised_by move_error) outcomes
           /\ untouched (map fst outcomes) w w'
           /\ (forall f,
                 In f (map fst outcomes) ->
                 In f rom_files
                 /\ is_save_state (Path.name f) = false
                 /\ (exists g1 g2,
                       In g1 (roms_only (copies rom_files f))
                       /\ In g2 (roms_only (copies rom_files f))
                       /\ detect_version (Path.name g1)
                          <> detect_version (Path.name g2))
                 /\ exists best,
                      In best rom_files
                      /\ is_save_state (Path.name best) = false
                      /\ base_of best = base_of f
                      /\ ~ beats f best
                      /\ ~ In best (map fst outcomes))
           /\ (forall f,
                 In f rom_files -> is_save_state (Path.name f) = false ->
                 ~ In f (map fst outcomes) ->
                 forall g,
                   In g rom_files -> is_save_state (Path.name g) = false ->
                   base_of g = base_of f ->
                   compare_versions (detect_version (Path.name g))
                                    (detect_version (Path.name f)) = false)
  | Raised e self' w' =>
      self' = self
      /\ (exists f,
            In f rom_files
            /\ is_save_state (Path.name f) = false
            /\ 1 < length (roms_only (copies rom_files f))
            /\ detect_version_checked (Path.name f) = inl e)
      /\ exists outcomes : list outcome,
           incl (map fst outcomes) rom_files
           /\ Forall (raised_by move_error) outcomes
           /\ untouched (map fst outcomes) w w'
  end
  /\ ((forall f, In f rom_files ->
                 String.length (Path.name f) <= Py.max_str_digits) ->
      exists moved_files w', result = Returned moved_files self w').
Proof.
  clear mkdir_error. cbn zeta. rewrite older_version_dedupe.
  match goal with
  | |- context [dedupe _ ?choose ?note _ _ _ _] =>
      pose proof (dedupe_spec move_error (fun _ _ => None) self
                    (fun a b => a = b) eq_refl newest_version
                    (fun only e =>
                       exists f, In f only
                                 /\ detect_version_checked (Path.name f) = inl e)
                    choose note false) as Hspec
  end.
  match type of Hspec with
  | ?P -> _ => assert (Hchoose : P); [|specialize (Hspec Hchoose)]
  end.
  { intros files only s w1 <-. unfold bind.
    pose proof (versions_loop only [] self w1) as Hloop.
    destruct (for_each only _ [] self w1) as [vs s' w'|e s' w'].
    - destruct Hloop as (-> & -> & ->). cbn [app]. unfold newest_version.
      destruct (1 <? distinct_versions _); now repeat split.
    - destruct Hloop as (He & -> & ->). now repeat split. }
  match type of Hspec with
  | ?P -> _ => assert (Hnote : P); [|specialize (Hspec Hnote)]
  end.
  { intros f b s w1. eexists. split; [reflexivity|]. split; [reflexivity|].
    discriminate. }
  specialize (Hspec rom_files destination_folder w).
  assert (Hgroup : forall done group rest f,
            group_by_base_name rom_files = done ++ group :: rest ->
            In f (roms_only (snd group)) ->
            In f rom_files /\ is_save_state (Path.name f) = false
            /\ snd group = copies rom_files f).
  { intros done [k files] rest f Hg Hf. cbn [snd] in *.
    destruct (base_groups rom_files) as (_ & Hfilter & _).
    assert (Hin : In (k, files) (group_by_base_name rom_files))
      by (rewrite Hg; apply in_app_iff; right; now left).
    pose proof (Hfilter k files Hin) as Hfiles.
    apply roms_only_In in Hf. destruct Hf as [Hf Hsave].
    rewrite Hfiles in Hf. apply filter_In in Hf. destruct Hf as [Hf Hk].
    apply String.eqb_eq in Hk. subst k.
    split; [assumption|]. split; [assumption|]. exact Hfiles. }
  split.
  - destruct (dedupe _ _ _ _ _ _ _) as [moved_files self' w'|e self' w'].
    + destruct Hspec as (<- & outcomes & Hsel & Hby & Hmoved & Hun & _).
      split; [reflexivity|].
      {
  assert (pick_in : forall files best,
            newest_version files (roms_only files) = Some best ->
            In best (roms_only files)).
  { intros files best. unfold newest_version.
    destruct (1 <? distinct_versions _); [|discriminate].
    intro H. apply best_version_in in H. now rewrite roms_only_idempotent in H. }
  assert (pick_max : forall files best g,
            newest_version files (roms_only files) = Some best ->
            In g (roms_only files) -> ~ beats g best).
  { intros files best g. unfold newest_version.
    destruct (1 <? distinct_versions _); [|discriminate].
    intros H Hg. apply (best_version_max _ _ _ H).
    now rewrite roms_only_idempotent. }
  exists outcomes.
  split; [assumption|]. split; [assumption|].
  split; [assumption|]. split.
  - intros f Hf.
    assert (Hv : In f (flat_map (victims newest_version)
                                (group_by_base_name rom_files)))
      by (rewrite <- Hsel; exact Hf).
    pose proof (proj1 (victims_In newest_version rom_files f) Hv)
      as (Hin & Hsave & _ & _).
    destruct (victims_have_kept_sibling newest_version pick_in rom_files f Hv)
      as (best & Hpick & Hbin & Hbsave & Hbase & Hkept).
    split; [assumption|]. split; [assumption|]. split.
    + unfold newest_version in Hpick.
      destruct (1 <? distinct_versions _) eqn:Hd; [|discriminate].
      apply Nat.ltb_lt in Hd.
      set (only := roms_only (copies rom_files f)) in *.
      destruct (Exists_dec
                  (fun g1 => Exists (fun g2 => detect_version (Path.name g1)
                                               <> detect_version (Path.name g2))
                                    only) only) as [He|Hn].
      * intro g1. apply Exists_dec. intro g2.
        destruct (version_eqb (detect_version (Path.name g1))
                              (detect_version (Path.name g2))) eqn:E.
        -- right. intro Hne. apply Hne. now apply version_eqb_eq.
        -- left. intro Heq. apply version_eqb_eq in Heq. congruence.
      * apply Exists_exists in He. destruct He as (g1 & Hg1 & He).
        apply Exists_exists in He. destruct He as (g2 & Hg2 & Hne).
        now exists g1, g2.
      * exfalso.
        assert (Hone : distinct_versions
                         (map (fun rom_file => detect_version (Path.name rom_file))
                              only) <= 1).
        { apply distinct_versions_one. intros v1 v2 H1 H2.
          apply in_map_iff in H1, H2.
          destruct H1 as (g1 & <- & Hg1), H2 as (g2 & <- & Hg2).
          destruct (version_eqb (detect_version (Path.name g1))
                                (detect_version (Path.name g2))) eqn:E;
            [now apply version_eqb_eq|].
          exfalso. apply Hn. apply Exists_exists. exists g1. split; [assumption|].
          apply Exists_exists. exists g2. split; [assumption|].
          intro Heq. apply version_eqb_eq in Heq. congruence. }
        lia.
    + exists best. repeat split; try assumption.
      * apply (pick_max _ _ _ Hpick). apply in_copies; auto.
      * intro Hb. apply Hkept. rewrite <- Hsel. exact Hb.
  - intros f Hf Hsave Hnot g Hg Hgsave Hbase.
    assert (Hnv : ~ In f (flat_map (victims newest_version)
                                   (group_by_base_name rom_files)))
      by (rewrite <- Hsel; exact Hnot).
    pose proof (in_copies rom_files f g Hg Hgsave Hbase) as Hgc.
    pose proof (in_copies rom_files f f Hf Hsave eq_refl) as Hfc.
    assert (Hirr : forall v, compare_versions v v = false).
    { intro v. apply compare_versions_false.
      destruct v as [[[a b] c] d]. lia. }
    destruct (spared newest_version rom_files f Hf Hsave Hnv)
      as [Hle|[Hnone|(best & Hpick & He)]].
    + rewrite (short_list_same _ g f Hle Hgc Hfc). apply Hirr.
    + unfold newest_version in Hnone.
      destruct (1 <? distinct_versions _) eqn:Hd.
      * pose proof (best_version_rom_spec (roms_only (copies rom_files f))) as Hs.
        rewrite Hnone in Hs. apply roms_only_In in Hfc.
        rewrite (Hs f) in Hsave; [discriminate|].
        apply roms_only_In. tauto.
      * apply Nat.ltb_ge in Hd.
        rewrite (proj1 (distinct_versions_one _) Hd
                   (detect_version (Path.name g)) (detect_version (Path.name f)));
          [apply Hirr| |]; apply in_map_iff; eauto.
    + pose proof (pick_max _ _ _ Hpick Hgc) as Hmax.
      rewrite (path_eqb_name _ _ He).
      destruct (compare_versions (detect_version (Path.name g))
                                 (detect_version (Path.name best))) eqn:E;
        [|reflexivity].
      exfalso. apply Hmax. left. exact E.
      }
    + destruct Hspec as (<- & outcomes & done & group & rest & Hg & Hsel & Hby
                         & Hun & Hmany & (f & Hf & He)).
      split; [reflexivity|]. split.
      * destruct (Hgroup _ _ _ _ Hg Hf) as (Hin & Hsave & Hcopies).
        exists f. rewrite <- Hcopies. tauto.
      * exists outcomes. split; [|tauto].
        intros v Hv. rewrite Hsel in Hv.
        assert (Hv' : In v (flat_map (victims newest_version)
                                     (group_by_base_name rom_files)))
          by (rewrite Hg, flat_map_app; apply in_app_iff; now left).
        exact (proj1 (proj1 (victims_In newest_version rom_files v) Hv')).
  - intro Hshort.
    destruct (dedupe _ _ _ _ _ _ _) as [moved_files self' w'|e self' w'].
    + destruct Hspec as (<- & _). now exists moved_files, w'.
    + exfalso.
      destruct Hspec as (_ & outcomes & done & group & rest & Hg & _ & _ & _ & _
                         & (f & Hf & He)).
      destruct (Hgroup _ _ _ _ Hg Hf) as (Hin & _ & _).
      rewrite (short_names_convert _ (Hshort f Hin)) in He. discriminate He.
Qed.

Lemma duplicate_regions_dedupe (rom_files : list string) (self : ROMAnalyzer)
    (w : World) :
  handle_duplicate_regions move_error mkdir_error rom_files self w
  = bind (mkdir mkdir_error "ROM_DELETE") (fun _ =>
      dedupe move_error
        (fun _ rom_files_only =>
           bind (for_each rom_files_only
                   (fun '(best_rom, best_priority) rom_file =>
                      bind (primary_region_of (Path.name rom_file))
                        (fun primary_region =>
                      bind (priority_index primary_region) (fun priority =>
                      if below priority best_priority
                      then ret (Some rom_file, Some priority)
                      else ret (best_rom, best_priority))))
                   (None, None))
                (fun state => ret (fst state)))
        (fun _ _ => ret tt) rom_files "ROM_DELETE") self w.
Proof.
  unfold handle_duplicate_regions, dedupe. cbn zeta.
  apply bind_ext. intros [] s0 w0.
  apply for_each_ext. intros moved_files [base_name files] s w1. cbn [snd].
  unfold roms_only.
  destruct (1 <? length _); [|reflexivity].
  symmetry. rewrite bind_assoc. symmetry.
  apply bind_ext. intros [best_rom bp] s2 w2.
  rewrite bind_ret. cbn [fst].
  destruct best_rom as [best_rom|]; [|reflexivity].
  apply for_each_ext. intros moved x s1 w3.
  destruct (negb (Path.eqb x best_rom)); [|reflexivity].
  unfold bind, move, ret.
  destruct (try_move move_error w3 x "ROM_DELETE") as [[] w4]; reflexivity.
Qed.

(** X24: [handle_duplicate_regions] first makes [ROM_DELETE]; when that
    raises, the exception escapes with nothing changed, and the operation
    returns only if it did not raise.  Then the folder exists, and the
    calls that follow are the attempts, each with the first free
    destination in [ROM_DELETE]: among the files that share a base name it
    attempts only files that are no save states and have a copy, whose
    primary region ranks at least as well in the priority list, that it
    does not attempt; the primary region of a ROM it does not attempt has
    the best rank among the ROMs of its base name; no path other than the
    files attempted is lost, and of the analyzer only [unknown_regions]
    may have grown. *)
Theorem duplicate_regions_keep_best_region (rom_files : list string)
    (self : ROMAnalyzer) (w : World) :
  match handle_duplicate_regions move_error mkdir_error rom_files self w with
  | Returned moved_files self' w' =>
      only_regions_grow self self'
      /\ mkdir_error (files w) (Path.path "ROM_DELETE") = None
      /\ exists outcomes : list outcome,
           moved_files = names_moved outcomes
           /\ Forall (raised_by move_error) outcomes
           /\ run move_error mkdir_error
                  (Mkdir "ROM_DELETE"
                   :: flat_map (attempt "ROM_DELETE") outcomes) w w'
           /\ (~ In (Path.path "ROM_DELETE") (map fst outcomes) ->
               path_exists w' (Path.path "ROM_DELETE") = true)
           /\ untouched (map fst outcomes) w w'
           /\ (forall f,
                 In f (map fst outcomes) ->
                 In f rom_files
                 /\ is_save_state (Path.name f) = false
                 /\ exists best,
                      In best rom_files
                      /\ is_save_state (Path.name best) = false
                      /\ base_of best = base_of f
                      /\ rank_of self best <= rank_of self f
                      /\ ~ In best (map fst outcomes))
           /\ (forall f,
                 In f rom_files -> is_save_state (Path.name f) = false ->
                 ~ In f (map fst outcomes) ->
                 forall g,
                   In g rom_files -> is_save_state (Path.name g) = false ->
                   base_of g = base_of f ->
                   rank_of self f <= rank_of self g)
  | Raised e self' w' =>
      self' = self /\ w' = w
      /\ mkdir_error (files w) (Path.path "ROM_DELETE") = Some e
  end.
Proof.
  rewrite duplicate_regions_dedupe. unfold bind at 1.
  pose proof (mkdir_spec move_error mkdir_error "ROM_DELETE" self w) as Hmk.
  destruct (mkdir mkdir_error "ROM_DELETE" self w) as [[] s0 w0|e s0 w0];
    [|exact Hmk].
  destruct Hmk as (-> & _ & Hun0 & Hmade & Hrun0).
  set (pick := best_ranked (rank_of self)).
  match goal with
  | |- match dedupe _ ?choose ?note _ _ _ _ with _ => _ end =>
      pose proof (dedupe_spec move_error mkdir_error self only_regions_grow
                    (only_regions_grow_refl self) pick (fun _ _ => False)
                    choose note true) as Hspec
  end.
  match type of Hspec with
  | ?P -> _ => assert (Hchoose : P); [|specialize (Hspec Hchoose)]
  end.
  { intros files only s w1 HR.
    destruct (rank_loop self only (None, None) s w1 HR) as (s' & Hloop & HR').
    rewrite (bind_returned _ _ _ _ _ _ _ Hloop).
    split; [reflexivity|]. split; [assumption|reflexivity]. }
  match type of Hspec with
  | ?P -> _ => assert (Hnote : P); [|specialize (Hspec Hnote)]
  end.
  { intros f b s w1. exists w1. repeat split. }
  specialize (Hspec rom_files "ROM_DELETE" w0).
  destruct (dedupe _ _ _ _ _ _ _) as [moved_files self' w'|e self' w'].
  2:{ destruct Hspec as (_ & os & d & g & r & _ & _ & _ & _ & _ & []). }
  destruct Hspec as (HR & outcomes & Hsel & Hby & Hmoved & Hun & Hcalls).
  specialize (Hcalls eq_refl).
  assert (pick_spec : forall files,
            match pick files (roms_only files) with
            | None => roms_only files = []
            | Some best =>
                In best (roms_only files)
                /\ forall g, In g (roms_only files) ->
                             rank_of self best <= rank_of self g
            end)
    by (intro files; apply best_ranked_spec).
  assert (pick_in : forall files best,
            pick files (roms_only files) = Some best -> In best (roms_only files)).
  { intros files best H. pose proof (pick_spec files) as Hs.
    rewrite H in Hs. tauto. }
  split; [assumption|]. split; [exact Hmade|]. exists outcomes.
  split; [assumption|]. split; [assumption|]. split.
  { destruct Hrun0 as (w5 & Hmk5 & ->). exists w5. now split. }
  split.
  { intro Hn. apply Hun; [|exact Hn].
    destruct Hrun0 as (w5 & (_ & _ & Hpaths) & ->).
    rewrite Hpaths, String.eqb_refl. reflexivity. }
  split.
  { intros p Hp Hn. apply Hun; [|assumption]. apply Hun0; [assumption|].
    intros []. }
  split.
  - intros f Hf.
    assert (Hv : In f (flat_map (victims pick) (group_by_base_name rom_files)))
      by (rewrite <- Hsel; exact Hf).
    pose proof (proj1 (victims_In pick rom_files f) Hv)
      as (Hin & Hsave & _ & _).
    destruct (victims_have_kept_sibling pick pick_in rom_files f Hv)
      as (best & Hpick & Hbin & Hbsave & Hbase & Hkept).
    split; [assumption|]. split; [assumption|].
    exists best. repeat split; try assumption.
    + pose proof (pick_spec (copies rom_files f)) as Hs. rewrite Hpick in Hs.
      apply Hs. apply in_copies; auto.
    + intro Hb. apply Hkept. rewrite <- Hsel. exact Hb.
  - intros f Hf Hsave Hnot g Hg Hgsave Hbase.
    assert (Hnv : ~ In f (flat_map (victims pick) (group_by_base_name rom_files)))
      by (rewrite <- Hsel; exact Hnot).
    pose proof (in_copies rom_files f g Hg Hgsave Hbase) as Hgc.
    pose proof (in_copies rom_files f f Hf Hsave eq_refl) as Hfc.
    pose proof (pick_spec (copies rom_files f)) as Hs.
    destruct (spared pick rom_files f Hf Hsave Hnv)
      as [Hle|[Hnone|(best & Hpick & He)]].
    + now rewrite (short_list_same _ g f Hle Hgc Hfc).
    + rewrite Hnone in Hs. rewrite Hs in Hfc. destruct Hfc.
    + rewrite Hpick in Hs. unfold rank_of at 1.
      rewrite (path_eqb_name _ _ He). now apply Hs.
Qed.

End RegionDuplicates.

Lemma older_version_duplicates_keep_newest_witness :
  let move_error := fun (fs : list string) (src dst : string) => @None string in
  let rom_files := ["roms/Game (v1.0).zip"; "roms/Game (v1.1).zip";
                    "roms/Game (v1.1).sav"] in
  exists moved_files w',
    move_older_version_duplicates move_error rom_files "ROM_DELETE"
                                  new_analyzer (MkWorld rom_files [])
    = Returned moved_files new_analyzer w'.
Proof.
  intros move_error rom_files.
  apply (older_version_duplicates_keep_newest move_error rom_files "ROM_DELETE"
           new_analyzer (MkWorld rom_files [])).
  intros f Hf. apply Nat.leb_le.
  destruct Hf as [<-|[<-|[<-|[]]]]; vm_compute; reflexivity.
Defined.

Lemma duplicate_regions_keep_best_region_witness :
  let move_error := fun (fs : list string) (src dst : string) => @None string in
  let mkdir_error := fun (fs : list string) (p : string) =>
                       if String.eqb p "ROM_DELETE"
                       then Some "Permission denied" else None in
  let rom_files := ["roms/Sonic (Japan).zip"; "roms/Sonic (USA).zip"] in
  let w := MkWorld rom_files [] in
  handle_duplicate_regions move_error mkdir_error rom_files new_analyzer w
  = Raised "Permission denied" new_analyzer w.
Proof.
  intros move_error mkdir_error rom_files w.
  pose proof (duplicate_regions_keep_best_region move_error mkdir_error
                rom_files new_analyzer w) as H.
  destruct (handle_duplicate_regions move_error mkdir_error rom_files
                                     new_analyzer w)
    as [moved_files self' w'|e self' w'].
  - destruct H as (_ & Hnone & _). vm_compute in Hnone. discriminate Hnone.
  - destruct H as (-> & -> & He). vm_compute in He. injection He as <-.
    reflexivity.
Defined.

(** ** Stripping colour codes *)

Lemma rep_same_rest (ic : bool) (a : Re.cset) (g : bool) (s : string) :
  forall p p', map snd (Re.rep ic a g p s) = map snd (Re.rep ic a g p' s).
Proof.
  destruct s as [|c s]; intros p p'; cbn [Re.rep]; [reflexivity|].
  destruct (Re.cset_match ic a c); [|reflexivity].
  destruct g; [rewrite !map_app|]; reflexivity.
Qed.

Lemma flat_map_same_rest (f : Re.mstate -> list Re.mstate) :
  (forall st st', Re.rest st = Re.rest st' ->
                  map Re.rest (f st) = map Re.rest (f st')) ->
  forall l l', map Re.rest l = map Re.rest l' ->
               map Re.rest (flat_map f l) = map Re.rest (flat_map f l').
Proof.
  intro H. induction l as [|st l IH]; intros [|st' l'] E; cbn [map] in E;
    try discriminate; [reflexivity|].
  injection E as E1 E2. cbn [flat_map]. rewrite !map_app.
  f_equal; [now apply H|now apply IH].
Qed.

(** Without [\b] and look-ahead, what remains after each way a pattern
    matches depends only on the text at the position. *)
Lemma matches_same_rest (ic : bool) (r : Re.regex) :
  simple r = true ->
  forall st st', Re.rest st = Re.rest st' ->
                 map Re.rest (Re.matches ic r st)
                 = map Re.rest (Re.matches ic r st').
Proof.
  induction r as [|a|a one g|r IH|r1 IH1 r2 IH2|r1 IH1 r2 IH2|i r IH| |r IH];
    intros Hs st st' E; cbn [simple] in Hs; cbn [Re.matches]; try discriminate.
  - cbn [map]. now rewrite E.
  - rewrite E. destruct (Re.rest st') as [|c s]; [reflexivity|].
    destruct (Re.cset_match ic a c); reflexivity.
  - rewrite !map_map. cbn [Re.rest].
    change (fun x : option ascii * string => snd x)
      with (@snd (option ascii) string).
    rewrite E. destruct one.
    + destruct (Re.rest st') as [|c s]; [reflexivity|].
      destruct (Re.cset_match ic a c); reflexivity.
    + apply rep_same_rest.
  - rewrite !map_app. cbn [map]. rewrite E. f_equal. now apply IH.
  - apply andb_prop in Hs. destruct Hs as [H1 H2].
    apply flat_map_same_rest; [now apply IH2|now apply IH1].
  - apply andb_prop in Hs. destruct Hs as [H1 H2].
    rewrite !map_app. f_equal; [now apply IH1|now apply IH2].
  - rewrite !map_map. cbn [Re.rest]. now apply IH.
Qed.

Lemma find_same_rest (s : string) :
  forall l l', map Re.rest l = map Re.rest l' ->
               option_map Re.rest (find (Re.nonempty_from s) l)
               = option_map Re.rest (find (Re.nonempty_from s) l').
Proof.
  induction l as [|st l IH]; intros [|st' l'] E; cbn [map] in E;
    try discriminate; [reflexivity|].
  injection E as E1 E2. cbn [find]. unfold Re.nonempty_from at 1 3.
  rewrite E1. destruct (negb _); [cbn; now rewrite E1|now apply IH].
Qed.

Section ScanPosition.

Variables (ic : bool) (p : Re.pattern) (repl : string).
Hypothesis p_simple : simple (Re.p_regex p) = true.

(** The text produced by a substitution from a position on depends only on
    the text from there on. *)
Lemma subst_same (s : string) :
  forall skip pos pos' pv pv',
    Re.sub_tokens repl (Re.scan ic p skip pos pv s)
    = Re.sub_tokens repl (Re.scan ic p skip pos' pv' s).
Proof.
  induction s as [|c s IH]; intros skip pos pos' pv pv'.
  - destruct skip; [|reflexivity]. cbn [Re.scan].
    pose proof (matches_same_rest ic (Re.p_regex p) p_simple
                  (Re.MState pv "" []) (Re.MState pv' "" []) eq_refl) as E.
    unfold Re.matches_at.
    destruct (Re.matches ic (Re.p_regex p) (Re.MState pv "" [])) as [|st l];
      destruct (Re.matches ic (Re.p_regex p) (Re.MState pv' "" [])) as [|st' l'];
      cbn [map] in E; try discriminate; [reflexivity|].
    injection E as E1 E2. unfold Re.nonempty_from at 1 3. rewrite E1.
    destruct (negb _); [reflexivity|].
    pose proof (find_same_rest "" (st :: l) (st' :: l')) as Hf.
    cbn [map] in Hf. rewrite E1, E2 in Hf. specialize (Hf eq_refl).
    destruct (find _ (st :: l)), (find _ (st' :: l')); cbn in Hf;
      try discriminate; reflexivity.
  - destruct skip as [|k]; [|cbn [Re.scan]; apply IH].
    cbn [Re.scan].
    pose proof (matches_same_rest ic (Re.p_regex p) p_simple
                  (Re.MState pv (String c s) []) (Re.MState pv' (String c s) [])
                  eq_refl) as E.
    unfold Re.matches_at.
    destruct (Re.matches ic (Re.p_regex p) (Re.MState pv (String c s) []))
      as [|st l];
      destruct (Re.matches ic (Re.p_regex p) (Re.MState pv' (String c s) []))
        as [|st' l'];
      cbn [map] in E; try discriminate.
    + cbn [Re.sub_tokens fold_right]. f_equal. apply IH.
    + injection E as E1 E2. unfold Re.nonempty_from at 1 3. rewrite E1.
      destruct (negb _).
      * cbn [Re.sub_tokens fold_right]. f_equal. apply IH.
      * pose proof (find_same_rest (String c s) (st :: l) (st' :: l')) as Hf.
        cbn [map] in Hf. rewrite E1, E2 in Hf. specialize (Hf eq_refl).
        destruct (find _ (st :: l)) as [st2|], (find _ (st' :: l')) as [st2'|];
          cbn in Hf; try discriminate.
        -- injection Hf as Hf. rewrite Hf.
           cbn [Re.sub_tokens fold_right]. do 2 f_equal. apply IH.
        -- cbn [Re.sub_tokens fold_right]. do 2 f_equal. apply IH.
Qed.

End ScanPosition.

Lemma ansi_escape_simple : simple (Re.p_regex Colors.ansi_escape) = true.
Proof. reflexivity. Qed.

Lemma strip_from (pos : nat) (pv : option ascii) (text : string) :
  subst_from Re.NOFLAG Colors.ansi_escape "" pos pv text
  = Colors.strip_colors text.
Proof.
  unfold subst_from, Colors.strip_colors.
  apply subst_same. exact ansi_escape_simple.
Qed.

Lemma no_escape_no_match (pv : option ascii) (c : ascii) (s : string) :
  Ascii.eqb c (ascii_of_nat 27) = false ->
  Re.matches_at Re.NOFLAG Colors.ansi_escape pv (String c s) = [].
Proof.
  intro H. unfold Re.matches_at, Colors.ansi_escape. cbn [Re.p_regex Re.matches Re.rest].
  unfold Re.cset_match, Re.char_eq, Re.NOFLAG.
  rewrite Ascii.eqb_sym, H. reflexivity.
Qed.

Lemma color_code_match (code text : string) (pv : option ascii) :
  In code color_codes ->
  code <> EmptyString
  /\ exists st l,
       Re.matches_at Re.NOFLAG Colors.ansi_escape pv (code ++ text) = st :: l
       /\ Re.rest st = text.
Proof.
  intro H. unfold color_codes in H. cbn [In] in H.
  repeat (destruct H as [<-|H];
          [split; [discriminate|]; vm_compute; do 2 eexists; split; reflexivity|]).
  destruct H.
Qed.

Lemma strip_colors_step (text plain : string) :
  (forall code, In code color_codes ->
                Colors.strip_colors (code ++ text) = Colors.strip_colors text)
  /\ (Py.contains_char (ascii_of_nat 27) plain = false ->
      Colors.strip_colors (plain ++ text)
      = (plain ++ Colors.strip_colors text)%string).
Proof.
  split.
  - intros code Hin.
    destruct (color_code_match code text None Hin) as (Hne & st & l & Hm & Hrest).
    rewrite <- (strip_from 0 None (code ++ text)).
    rewrite (subst_match Re.NOFLAG Colors.ansi_escape "" 0 None code text st l
               Hne Hm Hrest).
    cbn [append]. apply strip_from.
  - intro Hplain.
    rewrite <- (strip_from 0 None (plain ++ text)).
    generalize 0 (@None ascii).
    induction plain as [|c plain IH]; intros pos pv; [apply strip_from|].
    cbn [Py.contains_char] in Hplain. apply orb_false_elim in Hplain.
    destruct Hplain as [Hc Hplain].
    cbn [append]. rewrite subst_literal by (now apply no_escape_no_match).
    f_equal. now apply IH.
Qed.

(** X25: [strip_colors] removes the colour codes of a coloured text: for a
    text put together, in any order, from constants of [Colors] and from
    pieces of text without the escape character, it returns the pieces of
    text alone, joined in their order. *)
Theorem strip_colors_leaves_plain_text (pieces : list (bool * string)) :
  well_colored pieces ->
  Colors.strip_colors (colored pieces) = uncolored pieces.
Proof.
  unfold well_colored, uncolored.
  induction 1 as [|[is_code piece] pieces Hpiece _ IH]; [reflexivity|].
  cbn [colored fold_right filter fst snd negb] in *.
  fold (colored pieces).
  destruct (strip_colors_step (colored pieces) piece) as [Hcode Hplain].
  destruct is_code; cbn [negb].
  - rewrite (Hcode piece Hpiece). exact IH.
  - rewrite (Hplain Hpiece). cbn [colored fold_right snd].
    f_equal. exact IH.
Qed.

Lemma strip_colors_leaves_plain_text_witness :
  Colors.strip_colors
    (Colors.RED ++ "Error moving " ++ Colors.BOLD ++ "a.zip" ++ Colors.RESET)
  = "Error moving a.zip".
Proof.
  apply (strip_colors_leaves_plain_text
           [(true, Colors.RED); (false, "Error moving "); (true, Colors.BOLD);
            (false, "a.zip"); (true, Colors.RESET)]).
  unfold well_colored.
  repeat (apply Forall_cons; [cbn; tauto|]). apply Forall_nil.
Defined.

(** ** Sample runs *)

Example version_ordering_samples :
  compare_versions (detect_version "Game (v1.3).rom")
                   (detect_version "Game (v1.2).rom") = true
  /\ compare_versions (detect_version "Game (v1.0).rom")
                      (detect_version "Game (Beta 1).rom") = true
  /\ detect_version "Game.rom" = default_version.
Proof. vm_compute. repeat split. Qed.

Example classification_samples :
  is_save_state "Game.st0" = true
  /\ fst (detect_regions new_analyzer "Game.zip") = ["USA"]
  /\ fst (detect_regions new_analyzer "Game (Europe).zip") = ["Europe"]
  /\ get_base_filename "Game (USA) (v1.1) [!].zip" = "Game".
Proof. vm_compute. repeat split. Qed.

(** A revision number of 4300 digits is converted; one of 4301 digits is
    refused, with the message of [int]. *)
Example long_numbers_are_refused :
  let name_with (digits : nat) :=
    ("Game (r" ++ String.concat "" (repeat "1" digits) ++ ").zip")%string in
  match detect_version_checked (name_with 4300) with
  | inr _ => True
  | inl _ => False
  end
  /\ detect_version_checked (name_with 4301)
     = inl ("Exceeds the limit (4300 digits) for integer string conversion: "
            ++ "value has 4301 digits; "
            ++ "use sys.set_int_max_str_digits() to increase the limit")%string.
Proof. vm_compute. split; [exact I|reflexivity]. Qed.
